(* ===== verification/_CoqProject ===== *)
-Q . S2P
Prelude.v
Utils.v
BitVec.v
HashMapList.v
DirEntry.v
CacheLine.v
Replacement.v
CacheSet.v
Cache.v
CacheThm.v
CachePerf.v
Shmem.v
DirCache.v
DirCntlr.v
DirThm.v
DirSafe.v
DirProtocol.v
Tile.v
TileThm.v
TileSafe.v
System.v
Link.v
Net.v
SystemInv.v
SystemDir.v
SystemTile.v
SystemThm.v
SystemEx.v
Threads.v
ThreadsThm.v
Mcp.v
McpClients.v
McpThm.v
McpInv.v
McpSync.v
McpLife.v
McpSafe.v
McpProps.v
QueueModel.v
QueueThm.v
IntervalTree.v
TreeShape.v
IntervalTreeThm.v
HistoryTree.v
HistoryTreeThm.v
NetModel.v
Network.v
MeshThm.v
NetThm.v
NetRun.v
NetProps.v
TileMap.v
TileMapThm.v
AddressSpace.v
AddressThm.v
