(* ===== verification/Prelude.v ===== *)
(** * Graphite: a verification library for the simulator's memory system,
      its master control program, its network and its address space

    Graphite (src/mit-carbon-Graphite-baecdec) simulates a chip of tiles.  A
    tile has a core, private L1 and L2 caches and, on some tiles, a slice of
    the coherence directory with a DRAM controller.  Tiles exchange packets
    over a simulated network.  One process runs the master control program
    (MCP), which serves the requests of the application threads for mutexes,
    condition variables, barriers, spawning and joining threads, and the
    barrier that keeps the simulated clocks together.  The paths below are
    relative to the common/ directory of the source.

    ** How the code is modelled

    A routine of the source is a function with the routine's name.  Routines
    that change objects are state-passing functions, written in the monad [ST]
    where they call each other; failed assertions, [LOG_ASSERT_ERROR], accesses
    outside a vector and uses of null pointers are values of [error], and a
    routine that can stop returns a [result].  Machine integers are [Z] with
    their wrap-around written out ([wrap]).  Messages a routine sends are
    appended to a list in its state.  Loops whose end depends on data take
    fuel; each bound is part of a theorem that shows it is never reached:
    [set_index_loop] 66 rounds (a 64-bit address is exhausted by then),
    [sharers_loop] one more than the capacity of the bit vector, the directory
    handlers twice the queued requests plus four ([dir_fuel]), [mem_op_loop]
    three rounds (the second finds the line), [release_loop] one
    more than the intervals up to the largest clock, [forward_loop] four
    times the tiles plus four (no packet has more hops, its copies together),
    the walks along the pointers of the interval tree one more than its blocks
    ([tree_fuel]).

    ** The files

    Shared: [Prelude] (results, words, vectors, byte ranges, the monads and
    their rules for total correctness).

    The memory system (tile/memory_subsystem, misc):
    - [Utils]: misc/utils, misc/modulo_num, address_home_lookup;
    - [BitVec]: misc/bit_vector; [HashMapList]: misc/hash_map_list;
    - [DirEntry]: directory_schemes, the five kinds of directory entries behind
      the interface [SharerOps]/[SharerLaws];
    - [CacheLine], [Replacement], [CacheSet], [Cache], [CachePerf]: cache/ and
      performance_models/; [CacheThm]: the contract of the cache;
    - [Shmem]: messages, the clock of the memory subsystem, dram_cntlr;
    - [DirCache], [DirCntlr]: the directory and its controller
      (pr_l1_pr_l2_dram_directory_msi/dram_directory_cntlr); [DirThm],
      [DirSafe], [DirProtocol]: its histories, its invariant, its guarantees;
    - [Tile]: the L1 and L2 controllers and the memory manager of a tile;
      [TileThm], [TileSafe]: the caches of a tile as one map of lines;
    - [System]: all tiles, their directories and the packets in flight;
      [Link], [Net], [SystemInv], [SystemDir], [SystemTile], [SystemThm]: the
      invariant of the system, action by action; [SystemEx]: a concrete run.

    ** What the theorems show

    Memory: in every run of cores and network each completed read returns the
    latest writes, a writer is alone, no assertion fails, requests are neither
    lost nor doubled and locked accesses are atomic ([SystemThm]).  The
    directory controller satisfies its own contract against any well-behaved
    caches ([DirProtocol]): which messages a correct cache sends ([legit]) is a
    condition on the history of messages alone; that the directory finds a way
    for the entry it needs is a separate condition on its state ([has_room]),
    shown to be necessary.  In the system [has_room] is part of what enables
    the delivery of a packet.  Caches, directories and directory entries refine
    maps and sets ([CacheThm], [DirCache], [DirEntry], [BitVec],
    [HashMapList], [Replacement]); the arithmetic helpers meet their
    mathematical definitions within the stated bounds ([Utils]).

    The master control program (system/):
    - [Threads]: the thread table of thread_manager and the clock-skew server
      and client of clock_skew_management_schemes/lax_barrier_sync_*;
      [ThreadsThm]: no running core is left behind;
    - [Mcp]: misc/config (numbers of tiles), thread_manager, thread_scheduler,
      sync_server and the dispatch of mcp.cc, over one state record;
    - [McpClients]: the cores that talk to the MCP: which request a core may
      send, which replies it waits for and which it leaves unread, and runs of
      requests;
    - [McpThm], [McpInv]: the state as a view per thread and the invariant of
      a run; [McpSync], [McpLife]: the requests that synchronize threads and
      those that start and end them; [McpSafe]: every request keeps the
      invariant; [McpProps]: the guarantees, concrete runs, and
      how a barrier and a join fail their callers.

    The theorems on runs say that the MCP serves every request of a correct
    client and sends only what its receiver waits for, that mutexes exclude
    each other and are handed over in the order of arrival, and that every
    waiting thread is in exactly one queue.  The one exception are the replies
    to the exit of a thread spawner and of the MCP, which the MCP sends and
    [ThreadScheduler::onThreadExit] does not receive: a client records what it
    leaves unread ([cl_unread]).  A join waits for the slot of a thread,
    whichever thread is in it.  They assume what the code writes into itself
    (one thread per core, the thread scheduler "none"), fewer than 2^30 spawned
    threads, and correct applications ([may_send]): identifiers
    of existing objects, unlocks by the holder, a free tile for a spawn, one
    joiner per thread, and the threads of a barrier on tiles below its count,
    without which [McpProps.Barrier_high_tile_out_of_range] applies.

    The network (network/, shared_models/):
    - [QueueModel]: shared_models/queue_model and queue_models/: the basic
      model, the M/G/1 sums and the history list of free intervals, behind the
      interface [QueueOps]/[QueueLaws] that the routers use; [QueueThm]: with
      interleaving disabled the history list grants the earliest slot and never
      the same slot twice; with interleaving (which carbon_sim.cfg sets for
      the list, a model it does not select) a packet that is split books more
      than its length;
    - [IntervalTree]: misc/interval_tree, with its nodes and their pointers in
      an explicit memory; [TreeShape]: the nodes form a balanced search tree,
      through rotations and rebalancing; [IntervalTreeThm]: insertion, removal
      and search are those of a sorted list;
    - [HistoryTree]: queue_models/queue_model_history_tree, the default model,
      with its pool of nodes; [HistoryTreeThm]: it computes the delays of the
      history list without interleaving, grants slots that do not overlap, and
      serves the routers through the same interface;
    - [NetModel]: packets, network_model and the magic, hop-counter and
      hop-by-hop mesh models with their routers and links;
    - [Network]: network/network: sending, forwarding (with and without the
      shortcut), receiving, and runs of these operations in any order;
    - [MeshThm]: routes in the mesh and the tree of a broadcast; [NetThm]: one
      routing step splits what a packet owes among its hops; [NetRun]: the
      routines of the network; [NetProps]: every packet reaches every tile it
      is for exactly once, no routine stops, the network drains; an example.

    A packet "owes" the tiles its copies still have to reach; the theorems on
    runs say that what was delivered and what is owed is what was asked for,
    as multisets of tiles and headers.  They hold for any queue model with the
    laws of the interface, and assume a mesh as large as the application
    tiles, times of at most 2^60 cycles (as queue_model_history_list.cc does),
    packets below 2^31 bits, and a bound on the traffic of a run, which keeps
    the intervals of the history list below 2^63.  A packet on the memory
    network carries a coherence message.

    Processes and addresses:
    - [TileMap]: misc/config and the mesh model: which host process each tile
      belongs to; [TileMapThm]: the maps are a partition of the tiles, for any
      number of processes;
    - [AddressSpace]: system/vm_manager (brk, mmap, munmap) and the stacks of
      ../pin/pin_config; [AddressThm]: memory is handed out once, and a stack
      pointer identifies its core, within the bounds that the code does not
      check (mappings no longer than the address where the stacks end, stacks
      below 4 GB in all); runs that break them.

    ** Assumptions of the memory-system model

    Packets from one tile to another arrive in the order they were sent and at
    any time.  The application thread and the simulation thread of a tile run
    one at a time under the lock of the memory manager; the order in which
    they take it is the order of the actions of a run.  Every line is accessed
    through one of the two L1 caches of a tile: a line used both as
    instructions and as data is not kept coherent by the code, which
    [SystemEx.Stale_instruction_fetch] shows for any state of a tile.  The caches and the directory of
    a tile have separate copies of the tile's memory clock; values read from
    the host (random numbers) and floating-point figures (the DRAM latency,
    the length of a cycle) are parameters.

    ** Not modelled

    The MOSI and shared-L2 protocols and the compressed cache (further state
    machines over the same caches); thread migration, affinity and the
    round-robin scheduler, which the configuration never selects; the lax
    point-to-point scheme, which reads host clocks; the ATAC network, the
    figures of the DRAM performance model (whether it is enabled and when it
    is called is modelled), the core timing models, energy and DVFS
    figures: floating point throughout; system
    calls, configuration files, transport, statistics (also the notification
    of the statistics thread by the barrier server) and the Pin tool: input
    and output, or host facilities.  The memory system is proved over its own
    model of the network (packets of a pair of tiles stay in order, with any
    latency), not over [Network], whose transport may reorder packets. *)

From stdpp Require Export base list list_numbers numbers gmap sets strings.
From Stdlib Require Export ZArith Lia.

#[export] Set Default Goal Selector "!".
#[global] Open Scope Z_scope.

(** ** Aborting computations

    The simulator stops the whole process on a failed [assert], on
    [LOG_PRINT_ERROR] / [LOG_ASSERT_ERROR] (common/misc/log.cc calls [abort]
    for [Log::Error]).  An access outside a vector, an array or a null
    pointer is undefined behaviour.  All of these are values of [error]; a
    routine that can stop returns a [result]. *)

Inductive error : Type :=
  | AssertFailed          (* assert(...) *)
  | LogError              (* LOG_PRINT_ERROR, LOG_ASSERT_ERROR *)
  | OutOfRange            (* index outside a vector or array *)
  | NullDeref             (* use of a null pointer *)
  | DivByZero             (* integer division by zero *)
  | OutOfFuel.            (* a loop did not finish within its bound *)

#[export] Instance error_eq_dec : EqDecision error.
Proof. solve_decision. Defined.

Inductive result (A : Type) : Type :=
  | Ok (a : A)
  | Err (e : error).
Arguments Ok {A} a.
Arguments Err {A} e.

#[export] Instance result_ret : MRet result := fun A a => Ok a.
#[export] Instance result_bind : MBind result := fun A B f m =>
  match m with Ok a => f a | Err e => Err e end.
#[export] Instance result_fmap : FMap result := fun A B f m =>
  match m with Ok a => Ok (f a) | Err e => Err e end.

(** [assert(b)] and [LOG_ASSERT_ERROR(b, ...)]. *)
Definition assert_c (b : bool) : result unit :=
  if b then Ok tt else Err AssertFailed.
Definition log_assert (b : bool) : result unit :=
  if b then Ok tt else Err LogError.

(** [is_ok m] holds when the computation finishes without stopping. *)
Definition is_ok {A} (m : result A) : Prop := exists a, m = Ok a.

Lemma bind_ok {A B} (m : result A) (f : A -> result B) (b : B) :
  (m ≫= f) = Ok b <-> exists a, m = Ok a /\ f a = Ok b.
Proof. destruct m; simpl; naive_solver. Qed.

Lemma bind_Ok {A B} (a : A) (f : A -> result B) : (Ok a ≫= f) = f a.
Proof. done. Qed.

Lemma assert_c_ok b u : assert_c b = Ok u <-> b = true.
Proof. destruct b, u; naive_solver. Qed.
Lemma log_assert_ok b u : log_assert b = Ok u <-> b = true.
Proof. destruct b, u; naive_solver. Qed.

(** Decomposes hypotheses [m ≫= f = Ok b] into the successful steps. *)
Ltac inv_ok :=
  repeat match goal with
  | H : (_ ≫= _) = Ok _ |- _ =>
      apply bind_ok in H; destruct H as (? & ? & ?)
  | H : assert_c _ = Ok _ |- _ => apply assert_c_ok in H
  | H : log_assert _ = Ok _ |- _ => apply log_assert_ok in H
  | H : Ok _ = Ok _ |- _ => injection H; clear H; intros
  | H : mret _ = Ok _ |- _ => injection H; clear H; intros
  | H : Err _ = Ok _ |- _ => discriminate H
  | H : Ok _ = Err _ |- _ => discriminate H
  end; subst.

(** Identifies the results of two runs of the same computation. *)
Ltac same_result :=
  repeat match goal with
  | H1 : ?x = Ok _, H2 : ?x = Ok _ |- _ => rewrite H1 in H2; injection H2; clear H2; intros
  | H1 : ?x = Ok _, H2 : ?x = Err _ |- _ => rewrite H1 in H2; discriminate H2
  end; subst.

(** ** Machine integers

    A [w]-bit unsigned integer is a [Z] in [0, 2^w); arithmetic on it is
    followed by [wrap w].  [IntPtr] and [UInt64] have 64 bits. *)

Definition wrap (w x : Z) : Z := x mod 2 ^ w.
Abbreviation wrap8 := (wrap 8).
Abbreviation wrap16 := (wrap 16).
Abbreviation wrap32 := (wrap 32).
Abbreviation wrap64 := (wrap 64).

(** Conversion to a signed [w]-bit integer (two's complement). *)
Definition swrap (w x : Z) : Z :=
  let y := x mod 2 ^ w in if y <? 2 ^ (w - 1) then y else y - 2 ^ w.

Definition is_word (w x : Z) : Prop := 0 <= x < 2 ^ w.

Lemma wrap_id w x : is_word w x -> wrap w x = x.
Proof. intros H. apply Z.mod_small, H. Qed.

Lemma wrap_word w x : 0 <= w -> is_word w (wrap w x).
Proof. intros. apply Z.mod_pos_bound. lia. Qed.

Lemma swrap_id w x :
  0 < w -> - 2 ^ (w - 1) <= x < 2 ^ (w - 1) -> swrap w x = x.
Proof.
  intros Hw Hx. unfold swrap.
  assert (Hp : 2 ^ w = 2 * 2 ^ (w - 1)).
  { rewrite <- Z.pow_succ_r by lia. f_equal. lia. }
  destruct (decide (0 <= x)).
  - rewrite Z.mod_small by lia.
    destruct (Z.ltb_spec x (2 ^ (w - 1))); lia.
  - replace (x mod 2 ^ w) with (x + 2 ^ w).
    + destruct (Z.ltb_spec (x + 2 ^ w) (2 ^ (w - 1))); lia.
    + apply Z.mod_unique with (-1); lia.
Qed.

(** The constants of common/user/fixed_types.h. *)
Definition INVALID_ADDRESS : Z := 2 ^ 64 - 1.
Definition INVALID_TILE_ID : Z := -1.

Lemma wrap_add_l w x y : 0 <= w -> wrap w (wrap w x + y) = wrap w (x + y).
Proof. intros. unfold wrap. apply Zplus_mod_idemp_l. Qed.

(** ** Arrays

    [v[i]] on a [std::vector] or an array, and [v[i] = x]. *)

Definition vec_get {A} (l : list A) (i : Z) : result A :=
  if i <? 0 then Err OutOfRange
  else match l !! Z.to_nat i with Some x => Ok x | None => Err OutOfRange end.

Definition vec_set {A} (l : list A) (i : Z) (x : A) : result (list A) :=
  if (0 <=? i) && (i <? Z.of_nat (length l))
  then Ok (<[Z.to_nat i := x]> l) else Err OutOfRange.

Lemma vec_get_ok {A} (l : list A) i x :
  vec_get l i = Ok x <-> 0 <= i /\ l !! Z.to_nat i = Some x.
Proof.
  unfold vec_get. destruct (Z.ltb_spec i 0).
  - split; [done|lia].
  - destruct (l !! Z.to_nat i); naive_solver.
Qed.

Lemma vec_get_nat {A} (l : list A) (i : nat) x :
  l !! i = Some x -> vec_get l (Z.of_nat i) = Ok x.
Proof. intros. apply vec_get_ok. rewrite Nat2Z.id. split; [lia|done]. Qed.

Lemma vec_set_ok {A} (l : list A) i x l' :
  vec_set l i x = Ok l' <->
  0 <= i < Z.of_nat (length l) /\ l' = <[Z.to_nat i := x]> l.
Proof.
  unfold vec_set.
  destruct (Z.leb_spec 0 i), (Z.ltb_spec i (Z.of_nat (length l)));
    simpl; split; intros; naive_solver lia.
Qed.

Lemma vec_set_eq {A} (l : list A) i x :
  0 <= i < Z.of_nat (length l) -> vec_set l i x = Ok (<[Z.to_nat i := x]> l).
Proof. intros. by apply vec_set_ok. Qed.

Lemma vec_set_in_range {A} (l : list A) (i : nat) x :
  (i < length l)%nat -> vec_set l (Z.of_nat i) x = Ok (<[i := x]> l).
Proof. intros. apply vec_set_ok. rewrite Nat2Z.id. split; [lia|done]. Qed.

Lemma vec_get_set {A} (l l' : list A) i j x :
  vec_set l i x = Ok l' -> vec_get l' j = if decide (j = i) then Ok x else vec_get l j.
Proof.
  intros [Hi ->]%vec_set_ok. case_decide as Hj.
  - subst j. apply vec_get_ok. split; [lia|]. apply list_lookup_insert_eq. lia.
  - unfold vec_get. destruct (Z.ltb_spec j 0); [done|].
    by rewrite list_lookup_insert_ne by lia.
Qed.

Lemma vec_set_length {A} (l l' : list A) i x : vec_set l i x = Ok l' -> length l' = length l.
Proof. intros [_ ->]%vec_set_ok. apply length_insert. Qed.

(** ** Byte buffers: the source range and destination range of [memcpy] *)

Definition slice {A} (off n : nat) (l : list A) : list A := take n (drop off l).
Definition splice {A} (off : nat) (new l : list A) : list A :=
  take off l ++ new ++ drop (off + length new) l.

Section slices.
Context {A : Type}.
Implicit Types l new : list A.

Lemma length_slice off n l :
  (off + n <= length l)%nat -> length (slice off n l) = n.
Proof. intros. unfold slice. rewrite length_take, length_drop. lia. Qed.

Lemma length_splice off new l :
  (off + length new <= length l)%nat -> length (splice off new l) = length l.
Proof.
  intros. unfold splice. rewrite !length_app, length_take, length_drop. lia.
Qed.

Lemma slice_splice_eq off new l :
  (off + length new <= length l)%nat ->
  slice off (length new) (splice off new l) = new.
Proof.
  intros. unfold slice, splice.
  rewrite drop_app_length' by (rewrite length_take; lia).
  by rewrite take_app_length.
Qed.

Lemma lookup_splice_in off new l i :
  (off + length new <= length l)%nat -> (i < length new)%nat ->
  splice off new l !! (off + i)%nat = new !! i.
Proof.
  intros. unfold splice.
  rewrite lookup_app_r by (rewrite length_take; lia).
  rewrite length_take, Nat.min_l by lia.
  replace (off + i - off)%nat with i by lia.
  by rewrite lookup_app_l by lia.
Qed.

Lemma lookup_splice_out off new l i :
  (off + length new <= length l)%nat ->
  (i < off \/ off + length new <= i)%nat ->
  splice off new l !! i = l !! i.
Proof.
  intros ? [Hi|Hi]; unfold splice.
  - rewrite lookup_app_l by (rewrite length_take; lia).
    by rewrite lookup_take_lt by lia.
  - rewrite lookup_app_r by (rewrite length_take; lia).
    rewrite length_take, Nat.min_l by lia.
    rewrite lookup_app_r by lia. rewrite lookup_drop. f_equal. lia.
Qed.

Lemma lookup_slice off n l i :
  (i < n)%nat -> slice off n l !! i = l !! (off + i)%nat.
Proof. intros. unfold slice. rewrite lookup_take_lt by lia. apply lookup_drop. Qed.

Lemma slice_splice_disjoint off n new off' l :
  (off' + length new <= length l)%nat -> (off + n <= length l)%nat ->
  (off + n <= off' \/ off' + length new <= off)%nat ->
  slice off n (splice off' new l) = slice off n l.
Proof.
  intros Hnew Hl Hdis. apply list_eq. intros i.
  destruct (decide (i < n)%nat).
  - rewrite !lookup_slice by lia. rewrite lookup_splice_out by lia. done.
  - rewrite !lookup_ge_None_2; [done| |]; rewrite length_slice;
      rewrite ?length_splice; lia.
Qed.

Lemma slice_splice_inside b n off new l :
  (b + n <= length l)%nat -> (off + length new <= n)%nat ->
  slice b n (splice (b + off) new l) = splice off new (slice b n l).
Proof.
  intros Hl Hn. apply list_eq. intros i.
  destruct (decide (i < n)%nat) as [Hi|Hi].
  - rewrite lookup_slice by done.
    destruct (decide (off <= i < off + length new)%nat).
    + replace (b + i)%nat with (b + off + (i - off))%nat by lia.
      rewrite lookup_splice_in by lia.
      replace i with (off + (i - off))%nat at 2 by lia.
      rewrite lookup_splice_in; [done|rewrite length_slice; lia|lia].
    + rewrite !lookup_splice_out; [by rewrite lookup_slice| | | |];
        rewrite ?length_slice; lia.
  - rewrite !lookup_ge_None_2; [done| |]; rewrite ?length_splice, ?length_slice;
      rewrite ?length_splice, ?length_slice; lia.
Qed.

Lemma slice_full l n : n = length l -> slice 0 n l = l.
Proof. intros ->. unfold slice. rewrite drop_0. by apply take_ge. Qed.

Lemma splice_full new l : length new = length l -> splice 0 new l = new.
Proof. intros Hn. unfold splice. simpl. by rewrite drop_ge, app_nil_r by lia. Qed.
End slices.

(** ** Automation

    [simulator] collects the facts the component proofs close routinely. *)

Create HintDb simulator.
Create Rewrite HintDb simulator.
Create Rewrite HintDb run.
#[export] Hint Resolve wrap_word vec_get_nat vec_set_in_range : simulator.
#[export] Hint Rewrite @bind_Ok @length_insert @length_app @length_map : simulator.

(** Splits the boolean tests of a goal or a hypothesis and turns them into
    arithmetic facts. *)
Ltac bool_facts :=
  repeat match goal with
  | H : (_ && _) = true |- _ => apply andb_prop in H; destruct H
  | H : negb _ = true |- _ => apply negb_true_iff in H
  | H : negb _ = false |- _ => apply negb_false_iff in H
  | H : (_ =? _) = true |- _ => apply Z.eqb_eq in H
  | H : (_ =? _) = false |- _ => apply Z.eqb_neq in H
  | H : (_ <? _) = true |- _ => apply Z.ltb_lt in H
  | H : (_ <? _) = false |- _ => apply Z.ltb_ge in H
  | H : (_ <=? _) = true |- _ => apply Z.leb_le in H
  | H : (_ <=? _) = false |- _ => apply Z.leb_gt in H
  end.

(** ** Bounded loops with an early return

    [find_first idx f] runs [f] on the indices [idx] in order and returns the
    first result that is not [None]: a [for] loop whose body may [return]. *)
Fixpoint find_first {A B} (idx : list A) (f : A -> result (option B))
    : result (option B) :=
  match idx with
  | [] => Ok None
  | i :: idx' =>
      r ← f i;
      match r with
      | Some b => Ok (Some b)
      | None => find_first idx' f
      end
  end.

Section find_first.
Context {A : Type}.

(** The loop computes the first index that satisfies a test. *)
Lemma find_first_filter (P : A -> Prop) `{!forall x, Decision (P x)}
    (f : A -> result (option A)) (idx : list A) :
  (forall i, i ∈ idx -> f i = Ok (if decide (P i) then Some i else None)) ->
  find_first idx f = Ok (head (filter P idx)).
Proof.
  induction idx as [|i idx IH]; intros Hf; [done|].
  simpl. rewrite Hf by set_solver. simpl. rewrite filter_cons.
  case_decide; [done|]. apply IH. set_solver.
Qed.

(** A loop over blocks, each searched by its own loop. *)
Lemma find_first_blocks {C} (P : A -> Prop) `{!forall x, Decision (P x)}
    (block : C -> list A) (f : C -> result (option A)) (cs : list C) :
  (forall c, c ∈ cs -> f c = Ok (head (filter P (block c)))) ->
  find_first cs f = Ok (head (filter P (concat (map block cs)))).
Proof.
  induction cs as [|c cs IH]; intros Hf; [done|].
  simpl. rewrite Hf by set_solver. simpl. rewrite filter_app.
  destruct (filter P (block c)); simpl; [|done]. apply IH. set_solver.
Qed.

Lemma find_first_ext {B} (idx : list A) (f g : A -> result (option B)) :
  (forall i, i ∈ idx -> f i = g i) -> find_first idx f = find_first idx g.
Proof.
  induction idx as [|i idx IH]; intros Hfg; [done|]. simpl. rewrite (Hfg i) by set_solver.
  destruct (g i) as [[]|]; simpl; [done| |done]. apply IH. set_solver.
Qed.

(** A loop whose body never stops: it ends at an index that returns, or no
    index returns. *)
Lemma find_first_total {B} (idx : list A) (f : A -> result (option B)) :
  (forall i, i ∈ idx -> is_ok (f i)) ->
  (exists i b, find_first idx f = Ok (Some b) /\ i ∈ idx /\ f i = Ok (Some b)) \/
  (find_first idx f = Ok None /\ forall i, i ∈ idx -> f i = Ok None).
Proof.
  induction idx as [|i idx IH]; intros Hf; [right; set_solver|].
  destruct (Hf i) as [[b|] Hi]; [set_solver|left|].
  - exists i, b. simpl. rewrite Hi. set_solver.
  - destruct IH as [(k & b & H1 & H2 & H3)|[H1 H2]].
    + intros k Hk. apply Hf. set_solver.
    + left. exists k, b. simpl. rewrite Hi. set_solver.
    + right. simpl. rewrite Hi. split; [done|]. set_solver.
Qed.
End find_first.

Lemma seqZ_split m n k : 0 <= n -> 0 <= k -> seqZ m (n + k) = seqZ m n ++ seqZ (m + n) k.
Proof. intros. rewrite seqZ_app by lia. done. Qed.

(** A range cut into consecutive blocks of [n] indices. *)
Lemma concat_seqZ_blocks n base m len :
  0 <= n -> 0 <= len ->
  concat (map (fun i => seqZ (base + n * i) n) (seqZ m len)) =
  seqZ (base + n * m) (n * len).
Proof.
  intros Hn Hlen. revert m. pattern len. apply natlike_ind; [| |done].
  - intros m. by rewrite Z.mul_0_r, !seqZ_nil by lia.
  - intros x Hx IH m. rewrite seqZ_cons by lia. simpl.
    replace (Z.pred (Z.succ x)) with x by lia.
    rewrite IH. replace (n * Z.succ x) with (n + n * x) by lia.
    rewrite seqZ_split by lia. do 2 f_equal. lia.
Qed.

Lemma filter_all {A} (P : A -> Prop) `{!forall x, Decision (P x)} (l : list A) :
  Forall P l -> filter P l = l.
Proof. induction 1; [done|]. rewrite filter_cons_True by done. by f_equal. Qed.

Lemma filter_none {A} (P : A -> Prop) `{!forall x, Decision (P x)} (l : list A) :
  Forall (fun x => ~ P x) l -> filter P l = [].
Proof. induction 1; [done|]. by rewrite filter_cons_False. Qed.

Lemma filter_ext {A} (P Q : A -> Prop) `{!forall x, Decision (P x)}
    `{!forall x, Decision (Q x)} (l : list A) :
  (forall x, x ∈ l -> P x <-> Q x) -> filter P l = filter Q l.
Proof.
  induction l as [|x l IH]; intros Hiff; [done|].
  rewrite !filter_cons, IH by set_solver.
  assert (P x <-> Q x) as HPQ by set_solver.
  destruct (decide (P x)), (decide (Q x)); naive_solver.
Qed.

(** ** [memcpy] from and to a buffer *)

Definition mem_read {A} (l : list A) (off n : Z) : result (list A) :=
  if (0 <=? off) && (0 <=? n) && (off + n <=? Z.of_nat (length l))
  then Ok (slice (Z.to_nat off) (Z.to_nat n) l) else Err OutOfRange.

Definition mem_write {A} (l : list A) (off : Z) (new : list A) : result (list A) :=
  if (0 <=? off) && (off + Z.of_nat (length new) <=? Z.of_nat (length l))
  then Ok (splice (Z.to_nat off) new l) else Err OutOfRange.

Lemma mem_read_ok {A} (l : list A) off n :
  0 <= off -> 0 <= n -> off + n <= Z.of_nat (length l) ->
  mem_read l off n = Ok (slice (Z.to_nat off) (Z.to_nat n) l).
Proof.
  intros. unfold mem_read.
  by rewrite (proj2 (Z.leb_le 0 off)), (proj2 (Z.leb_le 0 n)), (proj2 (Z.leb_le _ _)) by lia.
Qed.

Lemma mem_write_ok {A} (l new : list A) off :
  0 <= off -> off + Z.of_nat (length new) <= Z.of_nat (length l) ->
  mem_write l off new = Ok (splice (Z.to_nat off) new l).
Proof.
  intros. unfold mem_write.
  by rewrite (proj2 (Z.leb_le 0 off)), (proj2 (Z.leb_le _ _)) by lia.
Qed.

(** ** Total maps *)

Definition upd {A} (L : Z -> A) (t : Z) (v : A) (t' : Z) : A := if decide (t' = t) then v else L t'.

Lemma upd_eq {A} (L : Z -> A) t v : upd L t v t = v.
Proof. unfold upd. by rewrite decide_True. Qed.
Lemma upd_ne {A} (L : Z -> A) t v t' : t' <> t -> upd L t v t' = L t'.
Proof. intros. unfold upd. by rewrite decide_False. Qed.

(** ** Stateful routines that can stop

    [ST S A]: a routine over the state [S] that returns an [A] or stops. *)

Definition ST (S A : Type) : Type := S -> result (A * S).
#[export] Instance ST_ret {S} : MRet (ST S) := fun A a s => Ok (a, s).
#[export] Instance ST_bind {S} : MBind (ST S) := fun A B f m s =>
  match m s with Ok (a, s') => f a s' | Err e => Err e end.

Definition lift {S A} (m : result A) : ST S A := fun s =>
  match m with Ok a => Ok (a, s) | Err e => Err e end.
Definition stop {S A} (e : error) : ST S A := fun _ => Err e.
Definition gets {S A} (f : S -> A) : ST S A := fun s => Ok (f s, s).
Definition modify {S} (f : S -> S) : ST S unit := fun s => Ok (tt, f s).
Definition when {S} (b : bool) (m : ST S unit) : ST S unit := if b then m else mret tt.

(** [on_part get set m] runs [m] on a component of the state. *)
Definition on_part {S T A} (get : S -> T) (set : T -> S -> S) (m : ST T A) : ST S A := fun s =>
  match m (get s) with Ok (a, t) => Ok (a, set t s) | Err e => Err e end.

Lemma st_bind_ok {S A B} (m : ST S A) (f : A -> ST S B) s b s' :
  (m ≫= f) s = Ok (b, s') <-> exists a s1, m s = Ok (a, s1) /\ f a s1 = Ok (b, s').
Proof. unfold mbind, ST_bind. destruct (m s) as [[a s1]|]; naive_solver. Qed.

Lemma st_bind_run {S A B} (m : ST S A) (f : A -> ST S B) s a s1 :
  m s = Ok (a, s1) -> (m ≫= f) s = f a s1.
Proof. intros E. unfold mbind, ST_bind. by rewrite E. Qed.

(** Running the primitive steps. *)
Lemma gets_run {S A B} (f : S -> A) (k : A -> ST S B) s : (gets f ≫= k) s = k (f s) s.
Proof. done. Qed.
Lemma modify_run {S B} (f : S -> S) (k : unit -> ST S B) s : (modify f ≫= k) s = k tt (f s).
Proof. done. Qed.
Lemma ret_run {S A B} (a : A) (k : A -> ST S B) s : (mret a ≫= k) s = k a s.
Proof. done. Qed.
Lemma lift_run {S A B} (m : result A) (k : A -> ST S B) s a :
  m = Ok a -> (lift m ≫= k) s = k a s.
Proof. by intros ->. Qed.
Lemma bind_run {S A B C} (m : ST S A) (f : A -> ST S B) (k : B -> ST S C) s :
  ((m ≫= f) ≫= k) s = (m ≫= fun a => f a ≫= k) s.
Proof. unfold mbind, ST_bind. by destruct (m s) as [[]|]. Qed.
#[export] Hint Rewrite @gets_run @modify_run @ret_run @bind_run : run.
Ltac run := autorewrite with run; cbn [fst snd].

(** [for_each l f] runs [f] on the elements of [l] in order. *)
Fixpoint for_each {S A} (l : list A) (f : A -> ST S unit) : ST S unit :=
  match l with
  | [] => mret tt
  | x :: l' => _ ← f x; for_each l' f
  end.

(** [runs m s Q]: the routine [m] finishes from [s] without stopping, in a
    result and a state that satisfy [Q]. *)
Definition runs {S A} (m : ST S A) (s : S) (Q : A -> S -> Prop) : Prop :=
  exists a s', m s = Ok (a, s') /\ Q a s'.

Section runs.
Context {S : Type}.
Implicit Types s : S.

Lemma runs_bind {A B} (m : ST S A) (f : A -> ST S B) s (Q : B -> S -> Prop) :
  runs m s (fun a s' => runs (f a) s' Q) -> runs (m ≫= f) s Q.
Proof.
  intros (a & s' & E & b & s'' & E' & HQ). exists b, s''. split; [|done].
  by rewrite (st_bind_run _ _ _ _ _ E).
Qed.

Lemma runs_mono {A} (m : ST S A) s (P Q : A -> S -> Prop) :
  runs m s P -> (forall a s', P a s' -> Q a s') -> runs m s Q.
Proof. intros (a & s' & E & HP) HPQ. exists a, s'. split; [done|by apply HPQ]. Qed.

Lemma runs_seq {A B} (m : ST S A) (f : A -> ST S B) s (P : A -> S -> Prop) (Q : B -> S -> Prop) :
  runs m s P -> (forall a s', P a s' -> runs (f a) s' Q) -> runs (m ≫= f) s Q.
Proof. intros Hm Hf. apply runs_bind. by eapply runs_mono. Qed.

Lemma runs_ret {A} (a : A) s (Q : A -> S -> Prop) : Q a s -> runs (mret a) s Q.
Proof. intros HQ. by exists a, s. Qed.
Lemma runs_gets {A} (f : S -> A) s (Q : A -> S -> Prop) : Q (f s) s -> runs (gets f) s Q.
Proof. intros HQ. by exists (f s), s. Qed.
Lemma runs_modify (f : S -> S) s (Q : unit -> S -> Prop) : Q tt (f s) -> runs (modify f) s Q.
Proof. intros HQ. by exists tt, (f s). Qed.
Lemma runs_lift {A} (m : result A) a s (Q : A -> S -> Prop) :
  m = Ok a -> Q a s -> runs (lift m) s Q.
Proof. intros -> HQ. by exists a, s. Qed.
Lemma runs_assert b s (Q : unit -> S -> Prop) : b = true -> Q tt s -> runs (lift (assert_c b)) s Q.
Proof. intros ->. by apply runs_lift. Qed.
Lemma runs_log_assert b s (Q : unit -> S -> Prop) :
  b = true -> Q tt s -> runs (lift (log_assert b)) s Q.
Proof. intros ->. by apply runs_lift. Qed.
Lemma runs_when b (m : ST S unit) s (Q : unit -> S -> Prop) :
  (b = true -> runs m s Q) -> (b = false -> Q tt s) -> runs (when b m) s Q.
Proof. intros Ht Hf. destruct b; [by apply Ht|]. apply runs_ret. by apply Hf. Qed.

Lemma runs_part {T A} (get : S -> T) (set : T -> S -> S) (m : ST T A) s (Q : A -> S -> Prop) :
  runs m (get s) (fun a t => Q a (set t s)) -> runs (on_part get set m) s Q.
Proof.
  intros (a & t & E & HQ). exists a, (set t s). split; [|done]. unfold on_part. by rewrite E.
Qed.

Lemma runs_for_each {A} (l : list A) (f : A -> ST S unit) (P : S -> Prop) s :
  P s -> (forall x s', x ∈ l -> P s' -> runs (f x) s' (fun _ => P)) ->
  runs (for_each l f) s (fun _ => P).
Proof.
  revert s. induction l as [|x l IH]; intros s HP Hf; simpl; [by apply runs_ret|].
  eapply runs_seq; [apply Hf; [left|done]|]. intros [] s' HP'.
  apply IH; [done|]. intros y s1 Hy. apply Hf. by right.
Qed.
End runs.

(** One step of a routine under [runs]. *)
Ltac runs_step :=
  cbn beta iota;
  lazymatch goal with
  | |- runs (mret _ ≫= _) _ _ => apply runs_bind, runs_ret
  | |- runs (gets _ ≫= _) _ _ => apply runs_bind, runs_gets
  | |- runs (modify _ ≫= _) _ _ => apply runs_bind, runs_modify
  | |- runs ((_ ≫= _) ≫= _) _ _ => apply runs_bind, runs_bind
  | |- runs (mret _) _ _ => apply runs_ret
  | |- runs (gets _) _ _ => apply runs_gets
  | |- runs (modify _) _ _ => apply runs_modify
  | |- runs (_ ≫= _) _ _ => apply runs_bind
  end.
