(* ===== verification/Utils.v ===== *)
(** * Utilities: common/misc/utils.{h,cc}, common/misc/modulo_num.cc,
    common/tile/memory_subsystem/address_home_lookup.cc

    The arithmetic helpers the address hash functions of the caches and of
    the directory are built from, at their machine widths, and the lookup of
    the home tile of an address. *)

From S2P Require Import Prelude.

(** ** utils.cc *)

Definition isPower2 (n : Z) : bool := Z.land n (wrap32 (n - 1)) =? 0.

(** Each [if] of the source: test a mask, add to [p] and shift [n]. *)
Definition log2_step (mask k : Z) (pn : Z * Z) : Z * Z :=
  let '(p, n) := pn in
  if Z.land n mask =? 0 then (p, n) else (p + k, Z.shiftr n k).

Definition floorLog2 (n : Z) : Z :=
  if n =? 0 then -1
  else
    let pn := (0, n) in
    let pn := log2_step 0xffff0000 16 pn in
    let pn := log2_step 0x0000ff00 8 pn in
    let pn := log2_step 0x000000f0 4 pn in
    let pn := log2_step 0x0000000c 2 pn in
    let '(p, n) := pn in
    if Z.land n 0x00000002 =? 0 then p else p + 1.

Definition ceilLog2 (n : Z) : Z := floorLog2 (wrap32 (n - 1)) + 1.

Definition isEven (n : Z) : bool := n mod 2 =? 0.
Definition isOdd (n : Z) : bool := negb (isEven n).

Definition convertBitsToBytes (num_bits : Z) : Z :=
  if num_bits mod 8 =? 0 then num_bits / 8 else wrap32 (num_bits / 8 + 1).

(** ** utils.h: [getBits<T>] for an unsigned [T] of [w] bits.  [high] and
    [low] are [UInt8]; the shift [1 << bits] is performed in [T]. *)
Definition getBits (w x high low : Z) : Z :=
  let bits := wrap8 (high - low) in
  let bitmask := wrap w (wrap w (Z.shiftl 1 bits) - 1) in
  Z.land (Z.shiftr x low) bitmask.

Definition getMin (v1 v2 : Z) : Z := if v1 <? v2 then v1 else v2.
Definition getMin3 (v1 v2 v3 : Z) : Z :=
  if (v1 <? v2) && (v1 <? v3) then v1 else if v2 <? v3 then v2 else v3.
Definition getMax (v1 v2 : Z) : Z := if v1 >? v2 then v1 else v2.
Definition getMax3 (v1 v2 v3 : Z) : Z :=
  if (v1 >? v2) && (v1 >? v3) then v1 else if v2 >? v3 then v2 else v3.

(** ** modulo_num.cc *)
Record ModuloNum : Type := mkModuloNum { mn_value : Z; mn_max_value : Z }.

Definition mn_add (a b : ModuloNum) : result ModuloNum :=
  assert_c (mn_max_value a =? mn_max_value b) ;;
  Ok (mkModuloNum (wrap32 (mn_value a + mn_value b) mod mn_max_value a)
                  (mn_max_value a)).

Definition mn_sub (a b : ModuloNum) : result ModuloNum :=
  assert_c (mn_max_value a =? mn_max_value b) ;;
  let v := if mn_value b <=? mn_value a then mn_value a - mn_value b
           else wrap32 (wrap32 (mn_value a + mn_max_value a) - mn_value b) in
  Ok (mkModuloNum v (mn_max_value a)).

Definition mn_add_int (a : ModuloNum) (value : Z) : result ModuloNum :=
  mn_add a (mkModuloNum (value mod mn_max_value a) (mn_max_value a)).

Definition mn_sub_int (a : ModuloNum) (value : Z) : result ModuloNum :=
  mn_sub a (mkModuloNum (value mod mn_max_value a) (mn_max_value a)).

(** ** address_home_lookup.cc *)
Record AddressHomeLookup : Type := mkAHL {
  ahl_param : Z;
  ahl_tile_list : list Z;
  ahl_total_modules : Z;
  ahl_cache_line_size : Z }.

Definition AddressHomeLookup_new (ahl_param : Z) (tile_list : list Z)
    (cache_line_size : Z) : result AddressHomeLookup :=
  log_assert (swrap 32 cache_line_size <=? swrap 32 (Z.shiftl 1 ahl_param)) ;;
  Ok (mkAHL ahl_param tile_list (wrap32 (Z.of_nat (length tile_list)))
            cache_line_size).

Definition getHome (ahl : AddressHomeLookup) (address : Z) : result Z :=
  let module_num :=
    swrap 32 (Z.shiftr address (ahl_param ahl) mod ahl_total_modules ahl) in
  log_assert ((0 <=? module_num) &&
              (module_num <? swrap 32 (ahl_total_modules ahl))) ;;
  vec_get (ahl_tile_list ahl) module_num.

(** ** Masks and shifts *)

Lemma land_high_mask n k m :
  0 <= k -> 0 <= m -> 0 <= n < 2 ^ (k + m) ->
  Z.land n (Z.shiftl (Z.ones m) k) = 0 <-> n < 2 ^ k.
Proof.
  intros Hk Hm Hn.
  assert (Hland : Z.land n (Z.shiftl (Z.ones m) k) = Z.shiftl (Z.shiftr n k) k).
  { apply Z.bits_inj'. intros i Hi.
    rewrite Z.land_spec, !Z.shiftl_spec by lia.
    destruct (Z.ltb_spec i k).
    - rewrite !(Z.testbit_neg_r _ (i - k)) by lia. apply andb_false_r.
    - rewrite Z.shiftr_spec by lia. replace (i - k + k) with i by lia.
      destruct (Z.ltb_spec i (k + m)).
      + rewrite Z.ones_spec_low by lia. apply andb_true_r.
      + rewrite Z.ones_spec_high by lia. rewrite andb_false_r. symmetry.
        destruct (decide (n = 0)) as [->|]; [apply Z.bits_0|].
        apply Z.bits_above_log2; [lia|].
        apply Z.lt_le_trans with (k + m); [|lia].
        apply Z.log2_lt_pow2; lia. }
  rewrite Hland, Z.shiftl_mul_pow2, Z.shiftr_div_pow2 by lia.
  pose proof (Z.pow_pos_nonneg 2 k ltac:(lia) Hk).
  split; intros H0.
  - assert (n / 2 ^ k = 0) as Hz by nia.
    apply Z.div_small_iff in Hz; lia.
  - rewrite Z.div_small by lia. lia.
Qed.

Lemma log2_step_spec mask k p n :
  0 < k -> mask = Z.shiftl (Z.ones k) k -> 0 < n < 2 ^ (k + k) ->
  let '(p', n') := log2_step mask k (p, n) in
  0 < n' < 2 ^ k /\ p' + Z.log2 n' = p + Z.log2 n.
Proof.
  intros Hk -> Hn. unfold log2_step.
  pose proof (land_high_mask n k k ltac:(lia) ltac:(lia) ltac:(lia)) as Hmask.
  destruct (Z.eqb_spec (Z.land n (Z.shiftl (Z.ones k) k)) 0) as [E|E].
  - apply Hmask in E. lia.
  - assert (2 ^ k <= n) by (apply Z.nlt_ge; tauto).
    assert (Hlog : k <= Z.log2 n) by (apply Z.log2_le_pow2; lia).
    rewrite Z.log2_shiftr, Z.max_r, Z.shiftr_div_pow2 by lia.
    rewrite Z.pow_add_r in Hn by lia.
    split; [|lia]. split.
    + apply Z.div_str_pos. lia.
    + apply Z.div_lt_upper_bound; lia.
Qed.

Lemma floorLog2_log2 n : 0 < n < 2 ^ 32 -> floorLog2 n = Z.log2 n.
Proof.
  intros Hn. unfold floorLog2.
  destruct (Z.eqb_spec n 0); [lia|].
  pose proof (log2_step_spec 0xffff0000 16 0 n ltac:(lia) eq_refl Hn) as H1.
  destruct (log2_step _ 16 _) as [p1 n1], H1 as [H1 E1].
  pose proof (log2_step_spec 0xff00 8 p1 n1 ltac:(lia) eq_refl H1) as H2.
  destruct (log2_step _ 8 _) as [p2 n2], H2 as [H2 E2].
  pose proof (log2_step_spec 0xf0 4 p2 n2 ltac:(lia) eq_refl H2) as H3.
  destruct (log2_step _ 4 _) as [p3 n3], H3 as [H3 E3].
  pose proof (log2_step_spec 0xc 2 p3 n3 ltac:(lia) eq_refl H3) as H4.
  destruct (log2_step _ 2 _) as [p4 n4], H4 as [H4 E4].
  assert (n4 = 1 \/ n4 = 2 \/ n4 = 3) as [->|[->| ->]] by lia;
    simpl in *; lia.
Qed.

Lemma floorLog2_pow2 k : 0 <= k < 32 -> floorLog2 (2 ^ k) = k.
Proof.
  intros. rewrite floorLog2_log2, Z.log2_pow2; [lia|lia|].
  split; [|apply Z.pow_lt_mono_r]; lia.
Qed.

(** [floorLog2] and [ceilLog2] are the logarithms their names say, on the
    whole range of [UInt32] but 0; at 0 they give -1 and 32. *)
Theorem floorLog2_ceilLog2_correct n :
  is_word 32 n ->
  floorLog2 n = (if n =? 0 then -1 else Z.log2 n) /\
  ceilLog2 n = (if n =? 0 then 32 else Z.log2_up n).
Proof.
  intros Hn. unfold is_word in Hn. split.
  - destruct (Z.eqb_spec n 0) as [->|]; [done|]. apply floorLog2_log2. lia.
  - unfold ceilLog2. destruct (Z.eqb_spec n 0) as [->|]; [done|].
    rewrite wrap_id by (unfold is_word; lia).
    destruct (decide (n = 1)) as [->|]; [done|].
    rewrite floorLog2_log2 by lia. rewrite Z.log2_up_eqn by lia. done.
Qed.

Lemma floorLog2_ceilLog2_witness :
  is_word 32 65536 /\ floorLog2 65536 = 16 /\ ceilLog2 65537 = 17.
Proof.
  assert (is_word 32 65536) as H by (unfold is_word; lia).
  assert (is_word 32 65537) as H' by (unfold is_word; lia).
  split; [exact H|]. split.
  - exact (proj1 (floorLog2_ceilLog2_correct 65536 H)).
  - exact (proj2 (floorLog2_ceilLog2_correct 65537 H')).
Defined.

Lemma getBits_div_mod w x high low :
  0 <= low <= high -> high - low < w -> high < 256 -> 0 <= w ->
  getBits w x high low = (x / 2 ^ low) mod 2 ^ (high - low).
Proof.
  intros Hl Hw Hh Hw0. unfold getBits.
  rewrite (wrap_id 8) by (unfold is_word; lia).
  rewrite Z.shiftl_1_l.
  assert (0 < 2 ^ (high - low) < 2 ^ w).
  { split; [|apply Z.pow_lt_mono_r]; lia. }
  rewrite (wrap_id w (2 ^ _)) by (unfold is_word; lia).
  rewrite wrap_id by (unfold is_word; lia).
  rewrite <- Z.land_ones, Z.ones_equiv, Z.shiftr_div_pow2 by lia. done.
Qed.

(** ** Powers of two *)

Lemma land_pred_pow2 k : 0 <= k -> Z.land (2 ^ k) (2 ^ k - 1) = 0.
Proof.
  intros. rewrite Z.sub_1_r, <- Z.ones_equiv.
  rewrite Z.land_ones, Z.mod_same by lia. done.
Qed.

(** If bit [i] is the top bit of [n] and [n] is above [2^i], then bit [i]
    survives in [n & (n-1)]. *)
Lemma land_pred_nonzero n : 0 < n -> n <> 2 ^ Z.log2 n -> Z.land n (n - 1) <> 0.
Proof.
  intros Hn Hne Hz.
  pose proof (Z.log2_spec n Hn) as Hl.
  assert (Z.testbit (Z.land n (n - 1)) (Z.log2 n) = true) as Hb.
  { rewrite Z.land_spec, Z.bit_log2 by lia. simpl.
    replace (Z.log2 n) with (Z.log2 (n - 1)).
    - apply Z.bit_log2. pose proof (Z.log2_nonneg n). nia.
    - apply Z.log2_unique; [apply Z.log2_nonneg|]. lia. }
  rewrite Hz, Z.bits_0 in Hb. done.
Qed.

(** [isPower2] decides "is a power of two" for every non-zero [UInt32];
    it also answers [true] for 0, which is not one. *)
Theorem isPower2_correct n :
  is_word 32 n ->
  isPower2 n = true <-> n = 0 \/ exists k, 0 <= k /\ n = 2 ^ k.
Proof.
  intros Hn. unfold is_word in Hn. unfold isPower2. rewrite Z.eqb_eq. split.
  - intros Hz. destruct (decide (n = 0)) as [|Hn0]; [by left|right].
    rewrite wrap_id in Hz by (unfold is_word; lia).
    exists (Z.log2 n). split; [apply Z.log2_nonneg|].
    destruct (decide (n = 2 ^ Z.log2 n)) as [|Hne]; [done|].
    by apply land_pred_nonzero in Hz; [|lia|].
  - intros [->|(k & Hk & ->)]; [done|].
    assert (0 < 2 ^ k) by lia.
    rewrite wrap_id by (unfold is_word; lia). by apply land_pred_pow2.
Qed.

Lemma isPower2_witness :
  isPower2 0 = true /\ isPower2 4096 = true /\ isPower2 4095 = false.
Proof.
  assert (is_word 32 0) as H0 by (unfold is_word; lia).
  split; [apply (isPower2_correct 0 H0); by left|].
  split; reflexivity.
Defined.

(** ** Modulo numbers *)

(** As long as the modulus is at most 2^31, [ModuloNum] addition and
    subtraction are exactly arithmetic modulo [_max_value]: the 32-bit
    intermediate values never wrap. *)
Theorem ModuloNum_arith_correct a b :
  0 < mn_max_value a <= 2 ^ 31 -> mn_max_value b = mn_max_value a ->
  0 <= mn_value a < mn_max_value a -> 0 <= mn_value b < mn_max_value a ->
  let m := mn_max_value a in
  mn_add a b = Ok (mkModuloNum ((mn_value a + mn_value b) mod m) m) /\
  mn_sub a b = Ok (mkModuloNum ((mn_value a - mn_value b) mod m) m).
Proof.
  intros Hm Hb Ha Hv m. subst m. unfold mn_add, mn_sub. rewrite Hb, Z.eqb_refl.
  simpl. split.
  - rewrite wrap_id by (unfold is_word; lia). done.
  - do 2 f_equal. destruct (Z.leb_spec (mn_value b) (mn_value a)).
    + rewrite Z.mod_small; lia.
    + rewrite (wrap_id 32 (mn_value a + _)) by (unfold is_word; lia).
      rewrite wrap_id by (unfold is_word; lia).
      apply Z.mod_unique with (-1); lia.
Qed.

Lemma ModuloNum_arith_witness :
  mn_sub (mkModuloNum 2 7) (mkModuloNum 5 7) = Ok (mkModuloNum 4 7).
Proof.
  apply (ModuloNum_arith_correct (mkModuloNum 2 7) (mkModuloNum 5 7)); simpl; lia.
Defined.

(** ** Home lookup *)

Lemma getHome_eq ahl address :
  0 <= ahl_param ahl -> 0 <= address ->
  ahl_total_modules ahl = Z.of_nat (length (ahl_tile_list ahl)) ->
  0 < ahl_total_modules ahl < 2 ^ 31 ->
  getHome ahl address =
    vec_get (ahl_tile_list ahl)
            ((address / 2 ^ ahl_param ahl) mod ahl_total_modules ahl).
Proof.
  intros Hp Ha Ht Hn. unfold getHome.
  rewrite Z.shiftr_div_pow2 by lia.
  set (q := (address / 2 ^ ahl_param ahl) mod ahl_total_modules ahl).
  assert (0 <= q < ahl_total_modules ahl) by (apply Z.mod_pos_bound; lia).
  rewrite !swrap_id by lia.
  rewrite (proj2 (Z.leb_le 0 q)), (proj2 (Z.ltb_lt q _)) by lia. done.
Qed.

Lemma AddressHomeLookup_new_ok p tiles ls ahl :
  0 <= p < 31 -> 0 < ls < 2 ^ 31 -> Z.of_nat (length tiles) < 2 ^ 31 ->
  AddressHomeLookup_new p tiles ls = Ok ahl ->
  ahl = mkAHL p tiles (Z.of_nat (length tiles)) ls /\ ls <= 2 ^ p.
Proof.
  intros Hp Hls Hlen H. unfold AddressHomeLookup_new in H. inv_ok. bool_facts.
  rewrite Z.shiftl_1_l in *.
  assert (0 < 2 ^ p < 2 ^ 31) by (split; [|apply Z.pow_lt_mono_r]; lia).
  rewrite !swrap_id in * by lia.
  rewrite wrap_id by (unfold is_word; lia). done.
Qed.

(** A home lookup that the constructor accepts sends every address to one
    of the tiles it was given, two addresses of the same cache line to the
    same tile, and consecutive blocks round-robin over the tile list. *)
Theorem getHome_correct p tiles k ahl a b :
  0 <= p < 31 -> 0 <= k < 31 -> tiles <> [] -> Z.of_nat (length tiles) < 2 ^ 31 ->
  AddressHomeLookup_new p tiles (2 ^ k) = Ok ahl ->
  0 <= a -> 0 <= b -> a / 2 ^ k = b / 2 ^ k ->
  exists t, getHome ahl a = Ok t /\ getHome ahl b = Ok t /\ t ∈ tiles /\
    tiles !! Z.to_nat ((a / 2 ^ p) mod Z.of_nat (length tiles)) = Some t.
Proof.
  intros Hp Hk Hne Hlen Hnew Ha Hb Hab.
  assert (0 < 2 ^ k < 2 ^ 31) by (split; [|apply Z.pow_lt_mono_r]; lia).
  apply AddressHomeLookup_new_ok in Hnew as [-> Hpk]; [|lia..].
  assert (k <= p) by (apply Z.pow_le_mono_r_iff with 2; lia).
  assert (Hdiv : forall x, x / 2 ^ p = x / 2 ^ k / 2 ^ (p - k)).
  { intros x. rewrite Z.div_div by lia. rewrite <- Z.pow_add_r by lia.
    do 2 f_equal. lia. }
  assert (0 < Z.of_nat (length tiles)) by (destruct tiles; simpl in *; [done|lia]).
  rewrite !getHome_eq by (simpl; lia). simpl.
  rewrite (Hdiv b), <- Hab, <- Hdiv.
  set (q := (a / 2 ^ p) mod Z.of_nat (length tiles)).
  assert (0 <= q < Z.of_nat (length tiles)) by (apply Z.mod_pos_bound; lia).
  destruct (lookup_lt_is_Some_2 tiles (Z.to_nat q)) as [t Ht]; [lia|].
  exists t. assert (vec_get tiles q = Ok t) as -> by (apply vec_get_ok; split; [lia|done]).
  split_and!; [done|done|by eapply list_elem_of_lookup_2|done].
Qed.

Lemma getHome_witness :
  exists ahl, AddressHomeLookup_new 6 [3; 5; 9] 64 = Ok ahl /\
  exists t, getHome ahl 0x1040 = Ok t /\ getHome ahl 0x107f = Ok t /\ t ∈ [3; 5; 9].
Proof.
  eexists. split; [reflexivity|].
  destruct (getHome_correct 6 [3; 5; 9] 6 _ 0x1040 0x107f ltac:(lia) ltac:(lia)
    ltac:(done) ltac:(simpl; lia) eq_refl ltac:(lia) ltac:(lia) eq_refl)
    as (t & H1 & H2 & H3 & _).
  exists t. done.
Defined.
