(* ===== verification/BitVec.v ===== *)
(** * Bit vector: common/misc/bit_vector.{h,cc}

    [BitVector] stores a set of small integers in 64-bit words, with a count
    of the set bits and a cursor that [find] advances.  The abstraction is
    [bv_abs], the finite set of positions. *)

From Stdlib Require Import Sorted.
From S2P Require Import Prelude.

Record BitVector : Type := mkBV {
  m_capacity : Z;          (* UInt32 *)
  m_size : Z;              (* UInt32 *)
  m_last_pos : Z;          (* SInt32, -1 for no position *)
  m_words : list Z }.      (* UInt64 *)

Definition VECTOR_SIZE (bits : Z) : Z := Z.shiftr (wrap32 (bits + 64 - 1)) 6.

Definition BitVector_new (bits : Z) : BitVector :=
  mkBV bits 0 (-1) (replicate (Z.to_nat (VECTOR_SIZE bits)) 0).

Definition bv_reset (bv : BitVector) : BitVector :=
  mkBV (m_capacity bv) 0 (-1)
       (replicate (Z.to_nat (VECTOR_SIZE (m_capacity bv))) 0).

Definition set_last_pos (p : Z) (bv : BitVector) : BitVector :=
  mkBV (m_capacity bv) (m_size bv) p (m_words bv).

Definition resetFind (bv : BitVector) : BitVector := set_last_pos (-1) bv.

Definition bTestBit (byte_word bit : Z) : result bool :=
  assert_c (bit <? 8) ;;
  Ok (negb (Z.land byte_word (wrap8 (Z.shiftl 1 bit)) =? 0)).

(** The four nested loops of [find], from the inside out.  [pos] is the
    position of the first bit of the part being scanned. *)
Definition scan8 (last_pos w8 pos : Z) : result (option Z) :=
  find_first (seqZ 0 8) (fun l =>
    b ← bTestBit w8 l;
    if (b : bool) then
      let return_pos := pos + l in
      Ok (if return_pos >? last_pos then Some return_pos else None)
    else Ok None).

Definition scan_halves (scan : Z -> Z -> result (option Z)) (h w pos : Z)
    : result (option Z) :=
  find_first (seqZ 0 2) (fun i =>
    let half := if i =? 1 then wrap h (Z.shiftr w h) else Z.land w (Z.ones h) in
    if half =? 0 then Ok None else scan half (pos + h * i)).

Definition scan16 (last_pos w16 pos : Z) : result (option Z) :=
  scan_halves (scan8 last_pos) 8 w16 pos.
Definition scan32 (last_pos w32 pos : Z) : result (option Z) :=
  scan_halves (scan16 last_pos) 16 w32 pos.
Definition scan64 (last_pos w64 pos : Z) : result (option Z) :=
  scan_halves (scan32 last_pos) 32 w64 pos.

Definition bv_find (bv : BitVector) : result (BitVector * Z) :=
  let windex := if m_last_pos bv =? -1 then 0 else Z.shiftr (m_last_pos bv) 6 in
  let word_count := Z.shiftr (wrap32 (m_capacity bv + 64 - 1)) 6 in
  r ← find_first (seqZ windex (word_count - windex)) (fun windex =>
        word64 ← vec_get (m_words bv) windex;
        if word64 =? 0 then Ok None
        else scan64 (m_last_pos bv) word64 (64 * windex));
  match r with
  | Some return_pos => Ok (set_last_pos return_pos bv, return_pos)
  | None => Ok (set_last_pos (-1) bv, -1)
  end.

Definition bv_at (bv : BitVector) (bit : Z) : result bool :=
  assert_c (bit <? m_capacity bv) ;;
  w ← vec_get (m_words bv) (Z.shiftr bit 6);
  Ok (negb (Z.land w (wrap64 (Z.shiftl 1 (Z.land bit 63))) =? 0)).

Definition bv_set (bv : BitVector) (bit : Z) : result BitVector :=
  assert_c (bit <? m_capacity bv) ;;
  let index := Z.shiftr bit 6 in
  let mask := wrap64 (Z.shiftl 1 (Z.land bit 63)) in
  present ← bv_at bv bit;
  if (present : bool) then Ok bv
  else
    w ← vec_get (m_words bv) index;
    ws ← vec_set (m_words bv) index (Z.lor w mask);
    Ok (mkBV (m_capacity bv) (wrap32 (m_size bv + 1)) (m_last_pos bv) ws).

Definition bv_clear (bv : BitVector) (bit : Z) : result BitVector :=
  assert_c (bit <? m_capacity bv) ;;
  let index := Z.shiftr bit 6 in
  let mask := wrap64 (Z.lnot (wrap64 (Z.shiftl 1 (Z.land bit 63)))) in
  present ← bv_at bv bit;
  if (present : bool) then
    w ← vec_get (m_words bv) index;
    ws ← vec_set (m_words bv) index (Z.land w mask);
    Ok (mkBV (m_capacity bv) (wrap32 (m_size bv - 1)) (m_last_pos bv) ws)
  else Ok bv.

(** ** Abstraction *)

(** Bit [p] of the word array. *)
Definition words_bit (ws : list Z) (p : Z) : bool :=
  match ws !! Z.to_nat (p / 64) with
  | Some w => Z.testbit w (p mod 64)
  | None => false
  end.

(** The set positions in increasing order, and as a finite set. *)
Definition bv_elems (bv : BitVector) : list Z :=
  filter (fun p => words_bit (m_words bv) p = true) (seqZ 0 (m_capacity bv)).
Definition bv_abs (bv : BitVector) : gset Z := list_to_set (bv_elems bv).

Record bv_wf (bv : BitVector) : Prop := {
  wf_capacity : 0 <= m_capacity bv < 2 ^ 31;
  wf_length : Z.of_nat (length (m_words bv)) = VECTOR_SIZE (m_capacity bv);
  wf_words : Forall (is_word 64) (m_words bv);
  wf_above : forall p, m_capacity bv <= p -> words_bit (m_words bv) p = false;
  wf_size : m_size bv = Z.of_nat (length (bv_elems bv));
  wf_last : -1 <= m_last_pos bv < m_capacity bv }.

(** ** The scan finds the first set bit after the cursor *)

Lemma testbit_mask_word w n i :
  0 <= i < n ->
  negb (Z.land w (wrap n (Z.shiftl 1 i)) =? 0) = Z.testbit w i.
Proof.
  intros Hi. rewrite Z.shiftl_1_l.
  rewrite wrap_id by (split; [|apply Z.pow_lt_mono_r]; lia).
  destruct (Z.testbit w i) eqn:E.
  - apply negb_true_iff, Z.eqb_neq. intros H.
    apply (f_equal (fun x => Z.testbit x i)) in H.
    rewrite Z.land_spec, Z.bits_0, E, Z.pow2_bits_true in H by lia. done.
  - apply negb_false_iff, Z.eqb_eq, Z.bits_inj'. intros j Hj.
    rewrite Z.land_spec, Z.bits_0.
    destruct (decide (i = j)) as [->|]; [by rewrite E|].
    rewrite Z.pow2_bits_false by lia. apply andb_false_r.
Qed.

(** [hit last w pos p]: bit [p - pos] of [w] is set and [p] is after [last]. *)
Definition hit (last w pos p : Z) : Prop :=
  Z.testbit w (p - pos) = true /\ last < p.

#[local] Instance hit_dec last w pos p : Decision (hit last w pos p).
Proof. unfold hit. apply _. Defined.

(** What the scan of an [n]-bit part computes. *)
Definition scan_spec (n : Z) (last : Z) (scan : Z -> Z -> result (option Z)) : Prop :=
  forall w pos, is_word n w ->
    scan w pos = Ok (head (filter (hit last w pos) (seqZ pos n))).

Lemma scan8_spec last : scan_spec 8 last (scan8 last).
Proof.
  intros w pos Hw. unfold scan8.
  rewrite (find_first_blocks (hit last w pos) (fun l => [pos + l])).
  - do 3 f_equal.
    transitivity (concat (map (fun i => seqZ (pos + 1 * i) 1) (seqZ 0 8))).
    + simpl. repeat (f_equal; try lia).
    + rewrite concat_seqZ_blocks by lia. f_equal. lia.
  - intros l [Hl1 Hl2]%elem_of_seqZ. unfold bTestBit.
    rewrite (proj2 (Z.ltb_lt l 8)) by lia. simpl.
    rewrite testbit_mask_word by lia. rewrite filter_cons, filter_nil. unfold hit.
    assert (pos + l - pos = l) as E by lia.
    case_decide as Hd; rewrite E in Hd;
      destruct (Z.testbit w l), (Z.gtb_spec (pos + l) last); naive_solver lia.
Qed.

Lemma is_word_land_ones n w : 0 <= n -> is_word n (Z.land w (Z.ones n)).
Proof. intros. rewrite Z.land_ones by lia. apply Z.mod_pos_bound. lia. Qed.

Lemma word_testbit_high n w i : is_word n w -> n <= i -> Z.testbit w i = false.
Proof.
  intros Hw Hi. unfold is_word in Hw.
  destruct (decide (w = 0)) as [->|]; [apply Z.bits_0|].
  apply Z.bits_above_log2; [lia|].
  apply Z.lt_le_trans with n; [|lia]. apply Z.log2_lt_pow2; lia.
Qed.

Lemma scan_halves_spec h last scan :
  0 < h -> scan_spec h last scan -> scan_spec (h + h) last (scan_halves scan h).
Proof.
  intros Hh Hscan w pos Hw. unfold scan_halves.
  rewrite (find_first_blocks (hit last w pos) (fun i => seqZ (pos + h * i) h)).
  - rewrite concat_seqZ_blocks by lia. rewrite Z.mul_0_r, Z.add_0_r.
    by replace (h * 2) with (h + h) by lia.
  - intros i [Hi1 Hi2]%elem_of_seqZ.
    set (half := if i =? 1 then _ else _).
    assert (Hhalf : is_word h half).
    { subst half. destruct (i =? 1); [apply wrap_word; lia|].
      apply is_word_land_ones. lia. }
    assert (Hbit : forall j, 0 <= j < h -> Z.testbit half j = Z.testbit w (h * i + j)).
    { intros j Hj. subst half. assert (i = 0 \/ i = 1) as [-> | ->] by lia; simpl.
      - rewrite Z.land_spec, Z.ones_spec_low, andb_true_r by lia. f_equal. lia.
      - unfold wrap. rewrite Z.mod_pow2_bits_low, Z.shiftr_spec by lia. f_equal. lia. }
    assert (Hext : filter (hit last half (pos + h * i)) (seqZ (pos + h * i) h)
                 = filter (hit last w pos) (seqZ (pos + h * i) h)).
    { apply filter_ext. intros p [Hp1 Hp2]%elem_of_seqZ. unfold hit.
      rewrite Hbit by lia. replace (h * i + (p - (pos + h * i))) with (p - pos) by lia.
      done. }
    rewrite <- Hext. destruct (Z.eqb_spec half 0) as [E|E]; [|by apply Hscan].
    rewrite E, filter_none; [done|]. apply Forall_forall. intros p _ [Hb _].
    by rewrite Z.bits_0 in Hb.
Qed.

Lemma scan64_spec last : scan_spec 64 last (scan64 last).
Proof.
  apply (scan_halves_spec 32); [lia|]. apply (scan_halves_spec 16); [lia|].
  apply (scan_halves_spec 8); [lia|]. apply scan8_spec.
Qed.

Lemma VECTOR_SIZE_eq c : 0 <= c < 2 ^ 31 -> VECTOR_SIZE c = (c + 63) / 64.
Proof.
  intros. unfold VECTOR_SIZE. rewrite wrap_id by (unfold is_word; lia).
  rewrite Z.shiftr_div_pow2 by lia. f_equal. lia.
Qed.

Lemma elem_of_bv_elems bv p :
  bv_wf bv -> p ∈ bv_elems bv <-> 0 <= p /\ words_bit (m_words bv) p = true.
Proof.
  intros Hwf. unfold bv_elems. rewrite list_elem_of_filter, elem_of_seqZ.
  split; [naive_solver|]. intros [Hp Hb]. split; [done|].
  destruct (decide (m_capacity bv <= p)); [|lia].
  rewrite (wf_above _ Hwf) in Hb by done. done.
Qed.

Lemma elem_of_bv_abs bv p :
  bv_wf bv -> p ∈ bv_abs bv <-> 0 <= p /\ words_bit (m_words bv) p = true.
Proof. intros. unfold bv_abs. rewrite elem_of_list_to_set. by apply elem_of_bv_elems. Qed.

Lemma shiftr6_div p : Z.shiftr p 6 = p / 64.
Proof. by rewrite Z.shiftr_div_pow2 by lia. Qed.

Lemma wf_word_lookup bv i :
  bv_wf bv -> 0 <= i < VECTOR_SIZE (m_capacity bv) ->
  exists w, m_words bv !! Z.to_nat i = Some w /\ is_word 64 w /\
            vec_get (m_words bv) i = Ok w.
Proof.
  intros Hwf Hi. pose proof (wf_length _ Hwf).
  destruct (lookup_lt_is_Some_2 (m_words bv) (Z.to_nat i)) as [w Hw]; [lia|].
  exists w. split_and!; [done|eapply Forall_lookup_1; [apply Hwf|done]|].
  apply vec_get_ok. split; [lia|done].
Qed.

(** Outside of the part of the range that the loop visits nothing is found. *)
Lemma elems_after_cursor bv w0 N :
  bv_wf bv -> N = VECTOR_SIZE (m_capacity bv) -> 0 <= w0 <= N ->
  64 * w0 <= Z.max 0 (m_last_pos bv) ->
  filter (fun p => words_bit (m_words bv) p = true /\ m_last_pos bv < p)
         (seqZ (0 + 64 * w0) (64 * (N - w0))) =
  filter (fun p => m_last_pos bv < p) (bv_elems bv).
Proof.
  intros Hwf HN Hw0 Hlast. pose proof (wf_capacity _ Hwf).
  rewrite VECTOR_SIZE_eq in HN by done.
  unfold bv_elems. rewrite list_filter_filter.
  trans (filter (fun p => words_bit (m_words bv) p = true /\ m_last_pos bv < p)
                (seqZ 0 (64 * N))).
  - replace (64 * N) with (64 * w0 + 64 * (N - w0)) by lia.
    rewrite seqZ_split, filter_app by lia.
    rewrite (filter_none _ (seqZ 0 (64 * w0))); [done|].
    apply Forall_forall. intros p [??]%elem_of_seqZ [_ Hp]. lia.
  - assert (m_capacity bv <= 64 * N) by (subst; Z.to_euclidean_division_equations; lia).
    replace (64 * N) with (m_capacity bv + (64 * N - m_capacity bv)) by lia.
    rewrite seqZ_split, filter_app by lia.
    rewrite (filter_none _ (seqZ (0 + m_capacity bv) _)), app_nil_r.
    + apply filter_ext. naive_solver.
    + apply Forall_forall. intros p [??]%elem_of_seqZ [Hb _].
      rewrite (wf_above _ Hwf) in Hb; [done|lia].
Qed.

(** The next set position after the cursor, or -1. *)
Definition next_pos (bv : BitVector) : Z :=
  default (-1) (head (filter (fun p => m_last_pos bv < p) (bv_elems bv))).

Lemma bv_find_eq bv :
  bv_wf bv -> bv_find bv = Ok (set_last_pos (next_pos bv) bv, next_pos bv).
Proof.
  intros Hwf. unfold bv_find. fold (VECTOR_SIZE (m_capacity bv)).
  set (N := VECTOR_SIZE (m_capacity bv)).
  set (w0 := if m_last_pos bv =? -1 then 0 else Z.shiftr (m_last_pos bv) 6).
  pose proof (wf_last _ Hwf). pose proof (wf_capacity _ Hwf).
  assert (N = (m_capacity bv + 63) / 64) by (by apply VECTOR_SIZE_eq).
  assert (Hw0 : 0 <= w0 <= N /\ 64 * w0 <= Z.max 0 (m_last_pos bv)).
  { subst w0. destruct (Z.eqb_spec (m_last_pos bv) (-1)); rewrite ?shiftr6_div;
      Z.to_euclidean_division_equations; lia. }
  rewrite (find_first_blocks
    (fun p => words_bit (m_words bv) p = true /\ m_last_pos bv < p)
    (fun i => seqZ (0 + 64 * i) 64)).
  - rewrite concat_seqZ_blocks, elems_after_cursor by naive_solver lia.
    simpl. unfold next_pos. by destruct (head _).
  - intros i [Hi1 Hi2]%elem_of_seqZ.
    destruct (wf_word_lookup bv i Hwf ltac:(lia)) as (w & Hw & Hword & ->).
    change (0 + 64 * i) with (64 * i). rewrite bind_Ok.
    assert (Hext : filter (hit (m_last_pos bv) w (64 * i)) (seqZ (64 * i) 64) =
      filter (fun p => words_bit (m_words bv) p = true /\ m_last_pos bv < p)
             (seqZ (64 * i) 64)).
    { apply filter_ext. intros p [Hp1 Hp2]%elem_of_seqZ. unfold hit, words_bit.
      replace (p / 64) with i by (Z.to_euclidean_division_equations; lia).
      replace (p mod 64) with (p - 64 * i) by (Z.to_euclidean_division_equations; lia).
      by rewrite Hw. }
    rewrite <- Hext. destruct (Z.eqb_spec w 0) as [->|]; [|by apply scan64_spec].
    rewrite filter_none; [done|]. apply Forall_forall. intros p _ [Hb _].
    by rewrite Z.bits_0 in Hb.
Qed.

(** ** [at], [set] and [clear] *)

Lemma bv_at_eq bv p :
  bv_wf bv -> 0 <= p < m_capacity bv -> bv_at bv p = Ok (words_bit (m_words bv) p).
Proof.
  intros Hwf Hp. unfold bv_at, words_bit.
  rewrite (proj2 (Z.ltb_lt p (m_capacity bv))), shiftr6_div by lia. simpl.
  pose proof (wf_capacity _ Hwf).
  destruct (wf_word_lookup bv (p / 64) Hwf) as (w & Hw & _ & ->).
  { rewrite VECTOR_SIZE_eq by lia. Z.to_euclidean_division_equations; lia. }
  rewrite Hw. simpl. rewrite <- testbit_mask_word with (n := 64).
  - change 63 with (Z.ones 6). by rewrite Z.land_ones by lia.
  - apply Z.mod_pos_bound. lia.
Qed.

(** Writing a word changes the bits of that word only. *)
Lemma words_bit_insert ws i w p :
  0 <= i < Z.of_nat (length ws) -> 0 <= p ->
  words_bit (<[Z.to_nat i := w]> ws) p =
  if p / 64 =? i then Z.testbit w (p mod 64) else words_bit ws p.
Proof.
  intros Hi Hp. unfold words_bit. destruct (Z.eqb_spec (p / 64) i) as [->|Hne].
  - by rewrite list_lookup_insert_eq by lia.
  - assert (0 <= p / 64) by (apply Z.div_pos; lia).
    by rewrite list_lookup_insert_ne by lia.
Qed.

Lemma mask_pow2 p : 0 <= p -> wrap64 (Z.shiftl 1 (Z.land p 63)) = 2 ^ (p mod 64).
Proof.
  intros. change 63 with (Z.ones 6). rewrite Z.land_ones by lia.
  change (2 ^ 6) with 64.
  rewrite Z.shiftl_1_l. pose proof (Z.mod_pos_bound p 64 ltac:(lia)).
  apply wrap_id. split; [lia|]. apply Z.pow_lt_mono_r; lia.
Qed.

Lemma lor_pow2_testbit w k i :
  0 <= k -> 0 <= i -> Z.testbit (Z.lor w (2 ^ k)) i = (i =? k) || Z.testbit w i.
Proof.
  intros. rewrite Z.lor_spec, Z.pow2_bits_eqb by lia.
  rewrite orb_comm. f_equal. apply Z.eqb_sym.
Qed.

Lemma land_clear_testbit w k i :
  0 <= k < 64 -> 0 <= i < 64 ->
  Z.testbit (Z.land w (wrap64 (Z.lnot (2 ^ k)))) i = negb (i =? k) && Z.testbit w i.
Proof.
  intros. unfold wrap. rewrite Z.land_spec, Z.mod_pow2_bits_low, Z.lnot_spec by lia.
  rewrite Z.pow2_bits_eqb, andb_comm, Z.eqb_sym by lia. done.
Qed.

Lemma is_word_testbit w :
  0 <= w -> (forall i, 64 <= i -> Z.testbit w i = false) -> is_word 64 w.
Proof.
  intros Hw Hb. split; [done|]. apply Z.nle_gt. intros Hge.
  assert (64 <= Z.log2 w) by (apply Z.log2_le_pow2; lia).
  specialize (Hb (Z.log2 w)). rewrite Z.bit_log2 in Hb by lia.
  by specialize (Hb ltac:(lia)).
Qed.

Lemma NoDup_bv_elems bv : NoDup (bv_elems bv).
Proof. apply NoDup_filter, NoDup_seqZ. Qed.

Lemma size_bv_abs bv : size (bv_abs bv) = length (bv_elems bv).
Proof. apply size_list_to_set, NoDup_bv_elems. Qed.

Lemma length_bv_elems_le bv :
  0 <= m_capacity bv -> Z.of_nat (length (bv_elems bv)) <= m_capacity bv.
Proof.
  intros. unfold bv_elems.
  pose proof (length_filter (fun p => words_bit (m_words bv) p = true)
                (seqZ 0 (m_capacity bv))) as Hlen.
  rewrite length_seqZ in Hlen. lia.
Qed.

(** Flipping one bit of the word array and adjusting the count keeps the
    invariant and adds or removes one position. *)
Lemma bv_wf_update bv b (v : bool) ws' :
  bv_wf bv -> 0 <= b < m_capacity bv ->
  length ws' = length (m_words bv) -> Forall (is_word 64) ws' ->
  (forall p, 0 <= p ->
     words_bit ws' p = if p =? b then v else words_bit (m_words bv) p) ->
  words_bit (m_words bv) b = negb v ->
  let bv' := mkBV (m_capacity bv) (if v then m_size bv + 1 else m_size bv - 1)
                  (m_last_pos bv) ws' in
  bv_wf bv' /\
  bv_abs bv' = if v then {[b]} ∪ bv_abs bv else bv_abs bv ∖ {[b]}.
Proof.
  intros Hwf Hb Hlen Hword Hbits Hold bv'.
  assert (Habove : forall p, m_capacity bv <= p -> words_bit ws' p = false).
  { intros p Hp. rewrite Hbits by lia. destruct (Z.eqb_spec p b); [lia|].
    by apply (wf_above _ Hwf). }
  assert (Hin : forall p, p ∈ bv_abs bv' <-> 0 <= p /\ words_bit ws' p = true).
  { intros p. unfold bv_abs, bv_elems. simpl.
    rewrite elem_of_list_to_set, list_elem_of_filter, elem_of_seqZ.
    split; [naive_solver|]. intros [Hp Ht]. split; [done|].
    destruct (decide (m_capacity bv <= p)); [|lia].
    by rewrite Habove in Ht by done. }
  assert (Habs : bv_abs bv' = if v then {[b]} ∪ bv_abs bv else bv_abs bv ∖ {[b]}).
  { apply set_eq. intros p. rewrite Hin.
    destruct v; rewrite ?elem_of_union, ?elem_of_difference, elem_of_singleton,
      elem_of_bv_abs by done;
      (destruct (decide (0 <= p)); [rewrite Hbits by done|naive_solver lia]);
      destruct (Z.eqb_spec p b); naive_solver lia. }
  assert (Hb_in : b ∈ bv_abs bv <-> v = false).
  { rewrite elem_of_bv_abs by done. rewrite Hold. destruct v; naive_solver lia. }
  split; [|exact Habs].
  split; simpl; try apply Hwf; try done; [by rewrite Hlen; apply Hwf|].
  rewrite <- size_bv_abs, Habs, (wf_size _ Hwf), <- size_bv_abs.
  destruct v.
  - rewrite size_union, size_singleton by set_solver. lia.
  - rewrite size_difference, size_singleton by set_solver.
    assert (0 < size (bv_abs bv))%nat; [|lia].
    assert (size (bv_abs bv) <> 0)%nat; [|lia].
    rewrite size_empty_iff. set_solver.
Qed.

(** What a modified word contributes: [f] on bit [b], the old bits elsewhere. *)
Lemma words_bit_update ws b w v w' :
  0 <= b -> ws !! Z.to_nat (b / 64) = Some w ->
  (forall i, 0 <= i < 64 ->
     Z.testbit w' i = if i =? b mod 64 then v else Z.testbit w i) ->
  forall p, 0 <= p ->
    words_bit (<[Z.to_nat (b / 64) := w']> ws) p =
    if p =? b then v else words_bit ws p.
Proof.
  intros Hb Hw Hbits p Hp. apply lookup_lt_Some in Hw as Hlt.
  rewrite words_bit_insert by (Z.to_euclidean_division_equations; lia).
  pose proof (Z.mod_pos_bound p 64 ltac:(lia)).
  destruct (Z.eqb_spec (p / 64) (b / 64)) as [E|E].
  - rewrite Hbits by lia. unfold words_bit. rewrite E, Hw.
    destruct (Z.eqb_spec (p mod 64) (b mod 64)), (Z.eqb_spec p b); try done;
      Z.to_euclidean_division_equations; lia.
  - destruct (Z.eqb_spec p b); [by subst|done].
Qed.

Lemma bv_set_ok bv b :
  bv_wf bv -> 0 <= b < m_capacity bv ->
  exists bv', bv_set bv b = Ok bv' /\ bv_wf bv' /\
    bv_abs bv' = {[b]} ∪ bv_abs bv /\
    m_capacity bv' = m_capacity bv /\ m_last_pos bv' = m_last_pos bv.
Proof.
  intros Hwf Hb. unfold bv_set. pose proof (wf_capacity _ Hwf).
  rewrite (proj2 (Z.ltb_lt b (m_capacity bv))) by lia. simpl.
  rewrite bv_at_eq by done. simpl.
  destruct (words_bit (m_words bv) b) eqn:Hold.
  - exists bv. split_and!; [done..| |done|done].
    assert (b ∈ bv_abs bv) by (rewrite elem_of_bv_abs; [split; [lia|]|]; done).
    set_solver.
  - rewrite shiftr6_div, mask_pow2 by lia.
    assert (0 <= b / 64 < VECTOR_SIZE (m_capacity bv)) as Hi.
    { rewrite VECTOR_SIZE_eq by lia. Z.to_euclidean_division_equations; lia. }
    destruct (wf_word_lookup bv (b / 64) Hwf Hi) as (w & Hw & Hword & ->). simpl.
    rewrite vec_set_eq by (rewrite (wf_length _ Hwf); done).
    simpl. pose proof (Z.mod_pos_bound b 64 ltac:(lia)).
    pose proof (length_bv_elems_le bv ltac:(lia)).
    rewrite wrap_id by (unfold is_word; rewrite (wf_size _ Hwf); lia).
    destruct (bv_wf_update bv b true
      (<[Z.to_nat (b / 64) := Z.lor w (2 ^ (b mod 64))]> (m_words bv)))
      as [Hwf' Habs]; simpl; try done; [apply length_insert| | |].
    + apply Forall_insert; [apply Hwf|]. apply is_word_testbit.
      * apply Z.lor_nonneg. unfold is_word in Hword. lia.
      * intros i Hi'. rewrite lor_pow2_testbit by lia.
        rewrite (word_testbit_high 64) by done.
        destruct (Z.eqb_spec i (b mod 64)); lia.
    + apply (words_bit_update _ _ w); [lia|done|].
      intros i Hi'. rewrite lor_pow2_testbit by lia. by destruct (i =? b mod 64).
    + eexists. split_and!; [reflexivity|done..].
Qed.

Lemma bv_clear_ok bv b :
  bv_wf bv -> 0 <= b < m_capacity bv ->
  exists bv', bv_clear bv b = Ok bv' /\ bv_wf bv' /\
    bv_abs bv' = bv_abs bv ∖ {[b]} /\
    m_capacity bv' = m_capacity bv /\ m_last_pos bv' = m_last_pos bv.
Proof.
  intros Hwf Hb. unfold bv_clear. pose proof (wf_capacity _ Hwf).
  rewrite (proj2 (Z.ltb_lt b (m_capacity bv))) by lia. simpl.
  rewrite bv_at_eq by done. simpl.
  destruct (words_bit (m_words bv) b) eqn:Hold.
  - rewrite shiftr6_div, mask_pow2 by lia.
    assert (0 <= b / 64 < VECTOR_SIZE (m_capacity bv)) as Hi.
    { rewrite VECTOR_SIZE_eq by lia. Z.to_euclidean_division_equations; lia. }
    destruct (wf_word_lookup bv (b / 64) Hwf Hi) as (w & Hw & Hword & ->). simpl.
    rewrite vec_set_eq by (rewrite (wf_length _ Hwf); done).
    simpl. pose proof (Z.mod_pos_bound b 64 ltac:(lia)).
    pose proof (length_bv_elems_le bv ltac:(lia)).
    assert (0 < m_size bv).
    { assert (b ∈ bv_elems bv) by (rewrite elem_of_bv_elems; [split; [lia|]|]; done).
      rewrite (wf_size _ Hwf). destruct (bv_elems bv); [set_solver|simpl; lia]. }
    rewrite wrap_id by (unfold is_word; rewrite (wf_size _ Hwf) in *; lia).
    destruct (bv_wf_update bv b false
      (<[Z.to_nat (b / 64) := Z.land w (wrap64 (Z.lnot (2 ^ (b mod 64))))]> (m_words bv)))
      as [Hwf' Habs]; simpl; try done; [apply length_insert| | |].
    + apply Forall_insert; [apply Hwf|]. apply is_word_testbit.
      * apply Z.land_nonneg. unfold is_word in Hword. lia.
      * intros i Hi'. rewrite Z.land_spec, (word_testbit_high 64) by done. done.
    + apply (words_bit_update _ _ w); [lia|done|].
      intros i Hi'. rewrite land_clear_testbit by lia. by destruct (i =? b mod 64).
    + eexists. split_and!; [reflexivity|done..].
  - exists bv. split_and!; [done..| |done|done].
    assert (b ∉ bv_abs bv).
    { rewrite elem_of_bv_abs, Hold by done. by intros [_ ?]. }
    set_solver.
Qed.

Lemma BitVector_new_wf c :
  0 <= c < 2 ^ 31 -> bv_wf (BitVector_new c) /\ bv_abs (BitVector_new c) = ∅.
Proof.
  intros Hc.
  assert (Hbit : forall n p, words_bit (replicate n 0) p = false).
  { intros n p. unfold words_bit. destruct (_ !! _) as [w|] eqn:E; [|done].
    apply lookup_replicate in E as [-> _]. apply Z.bits_0. }
  assert (He : bv_elems (BitVector_new c) = []).
  { apply filter_none, Forall_forall. intros p _. simpl. by rewrite Hbit. }
  split; [|by unfold bv_abs; rewrite He].
  split; simpl; try done; try lia.
  - rewrite length_replicate, Z2Nat.id; [done|].
    rewrite VECTOR_SIZE_eq by done. apply Z.div_pos; lia.
  - apply Forall_replicate. unfold is_word. lia.
  - by rewrite He.
Qed.

Lemma set_last_pos_wf bv p :
  bv_wf bv -> -1 <= p < m_capacity bv -> bv_wf (set_last_pos p bv).
Proof. intros [] ?. by split. Qed.

Lemma bv_elems_sorted bv : StronglySorted Z.lt (bv_elems bv).
Proof.
  unfold bv_elems. generalize 0 as m. generalize (m_capacity bv) as n. intros n.
  destruct (decide (0 <= n)); [|intros; rewrite seqZ_nil by lia; constructor].
  pattern n. apply natlike_ind; [| |done].
  - intros m. rewrite seqZ_nil by lia. constructor.
  - intros x Hx IH m. rewrite seqZ_cons by lia.
    replace (Z.pred (Z.succ x)) with x by lia. rewrite filter_cons.
    case_decide; [|apply IH]. constructor; [apply IH|].
    apply Forall_forall. intros p [_ [Hp _]%elem_of_seqZ]%list_elem_of_filter. lia.
Qed.

Lemma head_filter_sorted (last : Z) l :
  StronglySorted Z.lt l ->
  match head (filter (fun p => last < p) l) with
  | None => forall p, p ∈ l -> p <= last
  | Some r => r ∈ l /\ last < r /\ forall p, p ∈ l -> last < p -> r <= p
  end.
Proof.
  induction 1 as [|x l Hs IH Hx]; [set_solver|].
  rewrite filter_cons. case_decide.
  - simpl. split_and!; [set_solver|done|].
    intros p [->|Hp]%elem_of_cons _; [lia|].
    rewrite Forall_forall in Hx. specialize (Hx p Hp). lia.
  - destruct (head _); [destruct IH as (? & ? & IH); split_and!; [set_solver|done|]|];
      intros p [->|Hp]%elem_of_cons; [lia|auto|lia|auto].
Qed.

(** [find] advances the cursor to the least set position after it, or
    returns -1 and rewinds the cursor when there is none; it never reads
    outside the word array. *)
Theorem BitVector_find_next bv :
  bv_wf bv ->
  exists r, bv_find bv = Ok (set_last_pos r bv, r) /\
    bv_wf (set_last_pos r bv) /\
    ((r = -1 /\ forall p, p ∈ bv_abs bv -> p <= m_last_pos bv) \/
     (r ∈ bv_abs bv /\ m_last_pos bv < r /\
      forall p, p ∈ bv_abs bv -> m_last_pos bv < p -> r <= p)).
Proof.
  intros Hwf. exists (next_pos bv). split; [by apply bv_find_eq|].
  pose proof (head_filter_sorted (m_last_pos bv) _ (bv_elems_sorted bv)) as Hh.
  pose proof (wf_capacity _ Hwf). unfold next_pos.
  setoid_rewrite elem_of_list_to_set.
  destruct (head _) as [r|]; simpl.
  - destruct Hh as (Hin & Hlt & Hmin). split; [|right; done].
    apply set_last_pos_wf; [done|].
    apply list_elem_of_filter in Hin as [_ Hin%elem_of_seqZ]. lia.
  - split; [apply set_last_pos_wf; [done|lia]|by left].
Qed.

Definition bv_example : BitVector := mkBV 130 3 (-1) [0x8000000000000001; 0; 2].

Lemma bv_example_wf : bv_wf bv_example.
Proof.
  split; [simpl; lia|done|repeat constructor; unfold is_word; lia| |done|simpl; lia].
  intros p Hp. simpl in Hp. unfold words_bit, bv_example. simpl.
  assert (2 <= p / 64) by (apply Z.div_le_lower_bound; lia).
  destruct (decide (p / 64 = 2)) as [E|E].
  - rewrite E. simpl. change 2 with (2 ^ 1).
    rewrite Z.pow2_bits_eqb by lia. apply Z.eqb_neq.
    pose proof (Z.div_mod p 64). lia.
  - rewrite lookup_ge_None_2; [done|simpl; lia].
Qed.

Lemma BitVector_find_witness :
  exists r, bv_find bv_example = Ok (set_last_pos r bv_example, r) /\ r = 0.
Proof.
  destruct (BitVector_find_next bv_example bv_example_wf) as (r & H & _).
  exists r. split; [exact H|]. vm_compute in H. by injection H.
Defined.

(** A bit vector is a finite set: [at] is membership, [set] insertion,
    [clear] removal and [size] the cardinality; a position outside the
    capacity stops all three. *)
Theorem BitVector_refines_set bv b :
  bv_wf bv -> 0 <= b ->
  m_size bv = Z.of_nat (size (bv_abs bv)) /\
  (b < m_capacity bv ->
     bv_at bv b = Ok (bool_decide (b ∈ bv_abs bv)) /\
     (exists bv', bv_set bv b = Ok bv' /\ bv_wf bv' /\
        bv_abs bv' = {[b]} ∪ bv_abs bv) /\
     (exists bv', bv_clear bv b = Ok bv' /\ bv_wf bv' /\
        bv_abs bv' = bv_abs bv ∖ {[b]})) /\
  (m_capacity bv <= b ->
     bv_at bv b = Err AssertFailed /\ bv_set bv b = Err AssertFailed /\
     bv_clear bv b = Err AssertFailed).
Proof.
  intros Hwf Hb. split_and!.
  - rewrite size_bv_abs. apply Hwf.
  - intros Hlt. split_and!.
    + rewrite bv_at_eq by done. f_equal. symmetry.
      destruct (words_bit (m_words bv) b) eqn:E.
      * apply bool_decide_eq_true. by apply elem_of_bv_abs.
      * apply bool_decide_eq_false. rewrite elem_of_bv_abs by done. rewrite E.
        intros [_ ?]; done.
    + destruct (bv_set_ok bv b Hwf ltac:(lia)) as (bv' & ? & ? & ? & _). by exists bv'.
    + destruct (bv_clear_ok bv b Hwf ltac:(lia)) as (bv' & ? & ? & ? & _). by exists bv'.
  - intros Hge. unfold bv_at, bv_set, bv_clear.
    by rewrite (proj2 (Z.ltb_ge b (m_capacity bv))) by lia.
Qed.

Lemma BitVector_refines_set_witness :
  exists bv', bv_clear bv_example 63 = Ok bv' /\ bv_abs bv' = bv_abs bv_example ∖ {[63]}.
Proof.
  destruct (BitVector_refines_set bv_example 63 bv_example_wf ltac:(lia))
    as (_ & H & _).
  destruct (H eq_refl) as (_ & _ & bv' & H1 & _ & H2). by exists bv'.
Defined.
