(* ===== verification/HashMapList.v ===== *)
(** * Per-key queues: common/misc/hash_map_list.h

    [HashMapList<K,V>] is a map from keys to non-empty lists.  The directory
    controllers keep the pending requests of every address in one.  [V] is a
    pointer type there, so [V()] (the null pointer) is [None]. *)

From S2P Require Import Prelude.

Section hash_map_list.
Context {K V : Type} `{Countable K}.
Implicit Types (m : gmap K (list V)) (k : K) (v : V).

Definition enqueue m k v : gmap K (list V) :=
  match m !! k with
  | None => <[k := [v]]> m
  | Some value_list => <[k := value_list ++ [v]]> m
  end.

Definition dequeue m k : result (option V * gmap K (list V)) :=
  match m !! k with
  | None => Ok (None, m)
  | Some [] => Err OutOfRange
  | Some (value :: value_list) =>
      Ok (Some value,
          if decide (value_list = []) then delete k m
          else <[k := value_list]> m)
  end.

Definition front m k : result (option V) :=
  match m !! k with
  | None => Ok None
  | Some [] => Err OutOfRange
  | Some (value :: _) => Ok (Some value)
  end.

Definition count m k : Z :=
  match m !! k with
  | None => 0
  | Some value_list => Z.of_nat (length value_list)
  end.

Definition hml_empty m k : bool :=
  match m !! k with None => true | Some _ => false end.

Definition hml_size m : Z := Z.of_nat (size m).

(** ** Abstraction: a queue for every key *)

Definition queue_of m k : list V := default [] (m !! k).

Definition hml_wf m : Prop := forall k l, m !! k = Some l -> l <> [].

Lemma queue_of_insert m k k' l :
  queue_of (<[k := l]> m) k' = if decide (k = k') then l else queue_of m k'.
Proof.
  unfold queue_of. rewrite lookup_insert. by case_decide.
Qed.

Lemma queue_of_delete m k k' :
  queue_of (delete k m) k' = if decide (k = k') then [] else queue_of m k'.
Proof.
  unfold queue_of. rewrite lookup_delete. by case_decide.
Qed.

Lemma enqueue_queue m k v k' :
  queue_of (enqueue m k v) k' =
  if decide (k = k') then queue_of m k ++ [v] else queue_of m k'.
Proof.
  unfold enqueue. destruct (m !! k) eqn:E; rewrite queue_of_insert;
    case_decide; try done; unfold queue_of; by rewrite E.
Qed.

Lemma enqueue_wf m k v : hml_wf m -> hml_wf (enqueue m k v).
Proof.
  intros Hwf k' l. unfold enqueue.
  destruct (m !! k) as [l0|]; rewrite lookup_insert; case_decide;
    intros; simplify_eq; try (by eapply Hwf); try done.
  by destruct l0.
Qed.

Lemma count_queue m k : count m k = Z.of_nat (length (queue_of m k)).
Proof. unfold count, queue_of. by destruct (m !! k). Qed.

Lemma empty_queue m k : hml_wf m -> hml_empty m k = true <-> queue_of m k = [].
Proof.
  intros Hwf. unfold hml_empty, queue_of. destruct (m !! k) eqn:E; simpl; [|done].
  split; [done|]. intros ->. by apply Hwf in E.
Qed.

Lemma front_queue m k : hml_wf m -> front m k = Ok (head (queue_of m k)).
Proof.
  intros Hwf. unfold front, queue_of. destruct (m !! k) as [[|]|] eqn:E; try done.
  by apply Hwf in E.
Qed.

Lemma dequeue_queue m k :
  hml_wf m ->
  exists m', dequeue m k = Ok (head (queue_of m k), m') /\ hml_wf m' /\
    forall k', queue_of m' k' =
      if decide (k = k') then tail (queue_of m k) else queue_of m k'.
Proof.
  intros Hwf. unfold dequeue. destruct (m !! k) as [[|v l]|] eqn:E.
  - by apply Hwf in E.
  - assert (queue_of m k = v :: l) as -> by (unfold queue_of; by rewrite E).
    eexists. split; [done|]. case_decide as Hl.
    + subst. split.
      * intros k' l'. rewrite lookup_delete. case_decide; [done|]. apply Hwf.
      * intros k'. by rewrite queue_of_delete.
    + split.
      * intros k' l'. rewrite lookup_insert. case_decide; [naive_solver|]. apply Hwf.
      * intros k'. by rewrite queue_of_insert.
  - assert (queue_of m k = []) as -> by (unfold queue_of; by rewrite E).
    exists m. split_and!; [done|done|]. intros k'. case_decide; [|done].
    subst. unfold queue_of. by rewrite E.
Qed.
End hash_map_list.

(** [HashMapList] is one FIFO queue per key: [enqueue] appends to the
    queue of its key and touches no other, [dequeue] removes its head and
    [front], [count] and [empty] read it; no key maps to an empty list. *)
Theorem HashMapList_refines_queues {K V} `{Countable K}
    (m : gmap K (list V)) (k : K) (v : V) :
  hml_wf m ->
  (hml_wf (enqueue m k v) /\
   forall k', queue_of (enqueue m k v) k' =
     if decide (k = k') then queue_of m k ++ [v] else queue_of m k') /\
  (exists m', dequeue m k = Ok (head (queue_of m k), m') /\ hml_wf m' /\
   forall k', queue_of m' k' =
     if decide (k = k') then tail (queue_of m k) else queue_of m k') /\
  front m k = Ok (head (queue_of m k)) /\
  count m k = Z.of_nat (length (queue_of m k)) /\
  (hml_empty m k = true <-> queue_of m k = []).
Proof.
  intros Hwf. split_and!.
  - by apply enqueue_wf.
  - apply enqueue_queue.
  - by apply dequeue_queue.
  - by apply front_queue.
  - apply count_queue.
  - by apply empty_queue.
Qed.

Lemma HashMapList_witness :
  let m : gmap Z (list Z) := enqueue (enqueue ∅ 64 1) 64 2 in
  hml_wf m /\ exists m', dequeue m 64 = Ok (Some 1, m') /\ queue_of m' 64 = [2].
Proof.
  intros m.
  assert (Hwf0 : hml_wf (∅ : gmap Z (list Z))) by (intros k l; by rewrite lookup_empty).
  assert (Hwf : hml_wf m) by (repeat apply enqueue_wf; exact Hwf0).
  split; [exact Hwf|].
  destruct (HashMapList_refines_queues m 64 3 Hwf) as (_ & (m' & H1 & _ & H2) & _).
  exists m'. split; [exact H1|]. by rewrite H2, decide_True.
Defined.
