(* ===== verification/DirEntry.v ===== *)
(** * Directory entries: common/tile/memory_subsystem/directory_schemes

    A directory entry records which tiles hold a copy of a cache line.  The
    source has an abstract class [DirectoryEntry] and five schemes.  Here each
    scheme is a record with an instance of the interface [SharerOps]; the
    class [SharerLaws] states what a scheme promises to the directory
    controller in terms of the set of sharers, and every scheme the MSI
    protocol accepts discharges it.  The type [Sharers] is the virtual
    dispatch over the five schemes. *)

From Stdlib Require Import Sorted.
From S2P Require Import Prelude Utils BitVec.

Inductive DirectoryType : Type :=
  | FULL_MAP | LIMITED_NO_BROADCAST | LIMITED_BROADCAST | ACKWISE | LIMITLESS.

#[export] Instance DirectoryType_eq_dec : EqDecision DirectoryType.
Proof. solve_decision. Defined.

Inductive DirectoryState : Type :=
  | D_UNCACHED | D_SHARED | D_OWNED | D_EXCLUSIVE | D_MODIFIED.

#[export] Instance DirectoryState_eq_dec : EqDecision DirectoryState.
Proof. solve_decision. Defined.

(** DirectoryEntry::parseDirectoryType and DirectoryEntry::getSize. *)
Definition parseDirectoryType (s : string) : result DirectoryType :=
  if decide (s = "full_map"%string) then Ok FULL_MAP
  else if decide (s = "limited_no_broadcast"%string) then Ok LIMITED_NO_BROADCAST
  else if decide (s = "limited_broadcast"%string) then Ok LIMITED_BROADCAST
  else if decide (s = "ackwise"%string) then Ok ACKWISE
  else if decide (s = "limitless"%string) then Ok LIMITLESS
  else Err LogError.

Definition getSize (t : DirectoryType) (max_hw_sharers max_num_sharers : Z) : Z :=
  match t with
  | FULL_MAP => max_num_sharers
  | LIMITED_NO_BROADCAST | LIMITED_BROADCAST | ACKWISE | LIMITLESS =>
      wrap32 (max_hw_sharers * ceilLog2 max_num_sharers)
  end.

(** ** The interface of a scheme *)

Class SharerOps (R : Type) := {
  hasSharer : R -> Z -> result bool;
  addSharer : R -> Z -> result (bool * R);
  removeSharer : R -> Z -> bool -> result R;
  getSharersList : R -> result (bool * list Z * R);
  getNumSharers : R -> result Z;
  inBroadcastMode : R -> bool;
  getLatency : R -> Z }.

(** ** Full map: one bit per tile (directory_entry_full_map.cc) *)

Record FullMap : Type := mkFullMap { fm_sharers : BitVector }.

(** The loop that drains [BitVector::find] into a vector of [size()]
    elements; the same text in the full-map and the limitless scheme. *)
Fixpoint sharers_loop (fuel : nat) (bv : BitVector) (sharers_list : list Z) (i : Z)
    : result (BitVector * list Z) :=
  match fuel with
  | O => Err OutOfFuel
  | S fuel' =>
      '(bv, new_sharer) ← bv_find bv;
      if new_sharer =? -1 then Ok (bv, sharers_list)
      else
        sharers_list ← vec_set sharers_list i new_sharer;
        let i := i + 1 in
        assert_c (i <=? m_size bv) ;;
        sharers_loop fuel' bv sharers_list i
  end.

(** [sharers_list.resize(size())], [resetFind()] and the loop. *)
Definition collect_sharers (bv : BitVector) : result (BitVector * list Z) :=
  let sharers_list := replicate (Z.to_nat (m_size bv)) 0 in
  let bv := resetFind bv in
  sharers_loop (S (Z.to_nat (m_capacity bv))) bv sharers_list 0.

Definition fm_hasSharer (e : FullMap) (sharer_id : Z) : result bool :=
  bv_at (fm_sharers e) (wrap32 sharer_id).

Definition fm_addSharer (e : FullMap) (sharer_id : Z) : result (bool * FullMap) :=
  present ← bv_at (fm_sharers e) (wrap32 sharer_id);
  log_assert (negb present) ;;
  bv ← bv_set (fm_sharers e) (wrap32 sharer_id);
  Ok (true, mkFullMap bv).

Definition fm_removeSharer (e : FullMap) (sharer_id : Z) (reply_expected : bool)
    : result FullMap :=
  assert_c (negb reply_expected) ;;
  present ← bv_at (fm_sharers e) (wrap32 sharer_id);
  assert_c present ;;
  bv ← bv_clear (fm_sharers e) (wrap32 sharer_id);
  Ok (mkFullMap bv).

Definition fm_getSharersList (e : FullMap) : result (bool * list Z * FullMap) :=
  '(bv, l) ← collect_sharers (fm_sharers e);
  Ok (false, l, mkFullMap bv).

Definition fm_getNumSharers (e : FullMap) : result Z := Ok (m_size (fm_sharers e)).

#[export] Instance FullMap_ops : SharerOps FullMap := {
  hasSharer := fm_hasSharer;
  addSharer := fm_addSharer;
  removeSharer := fm_removeSharer;
  getSharersList := fm_getSharersList;
  getNumSharers := fm_getNumSharers;
  inBroadcastMode := fun _ => false;
  getLatency := fun _ => 0 }.

(** ** Limited pointers (directory_entry_limited.cc)

    [_sharers] has [_max_hw_sharers] elements of type [SInt16]; the loops
    "for i < _max_hw_sharers" are recursions over it. *)

Definition INVALID_SHARER : Z := swrap 16 0xffff.

Record Limited : Type := mkLimited {
  lim_sharers : list Z;
  lim_num_tracked : Z }.

Definition Limited_new (max_hw_sharers : Z) : Limited :=
  mkLimited (replicate (Z.to_nat max_hw_sharers) INVALID_SHARER) 0.

Definition lim_hasSharer (e : Limited) (sharer_id : Z) : bool :=
  existsb (fun s => s =? sharer_id) (lim_sharers e).

(** The first slot holding [old] is overwritten with [new]. *)
Fixpoint replace_first (old new : Z) (l : list Z) : option (list Z) :=
  match l with
  | [] => None
  | x :: l' =>
      if x =? old then Some (new :: l')
      else match replace_first old new l' with
           | Some r => Some (x :: r)
           | None => None
           end
  end.

Definition lim_addSharer (e : Limited) (sharer_id : Z) : result (bool * Limited) :=
  log_assert (forallb (fun s => negb (s =? swrap 16 sharer_id)) (lim_sharers e)) ;;
  match replace_first INVALID_SHARER (swrap 16 sharer_id) (lim_sharers e) with
  | Some sharers => Ok (true, mkLimited sharers (lim_num_tracked e + 1))
  | None => Ok (false, e)
  end.

Definition lim_removeSharer (e : Limited) (sharer_id : Z) : result Limited :=
  match replace_first (swrap 16 sharer_id) INVALID_SHARER (lim_sharers e) with
  | Some sharers => Ok (mkLimited sharers (lim_num_tracked e - 1))
  | None => Err LogError
  end.

Definition lim_getSharersList (e : Limited) : result (bool * list Z) :=
  let sharers_list := filter (fun s => s <> INVALID_SHARER) (lim_sharers e) in
  log_assert (lim_num_tracked e =? Z.of_nat (length sharers_list)) ;;
  Ok (true, sharers_list).

(** DirectoryEntryFullMap::getOneSharer and DirectoryEntryLimited::getOneSharer
    pick an element of the sharers list with [_rand_num.next(size)], a number
    drawn from [drand48_r] (the argument [next]). *)
Definition fm_getOneSharer (next : Z -> Z) (e : FullMap) : result (Z * FullMap) :=
  '(_, sharers_list, e) ← fm_getSharersList e;
  s ← vec_get sharers_list (next (Z.of_nat (length sharers_list)));
  Ok (s, e).

Definition lim_getOneSharer {R} `{SharerOps R} (next : Z -> Z) (e : R)
    : result (Z * R) :=
  '(_, sharers_list, e) ← getSharersList e;
  if decide (sharers_list = []) then Ok (INVALID_TILE_ID, e)
  else
    s ← vec_get sharers_list (next (Z.of_nat (length sharers_list)));
    Ok (s, e).

(** ** Limited, no broadcast (directory_entry_limited_no_broadcast.cc) *)

Record LimitedNoBroadcast : Type := mkLNB { lnb_base : Limited }.

Definition lnb_removeSharer (e : LimitedNoBroadcast) (sharer_id : Z)
    (reply_expected : bool) : result LimitedNoBroadcast :=
  log_assert (negb reply_expected) ;;
  base ← lim_removeSharer (lnb_base e) sharer_id;
  Ok (mkLNB base).

#[export] Instance LimitedNoBroadcast_ops : SharerOps LimitedNoBroadcast := {
  hasSharer e t := Ok (lim_hasSharer (lnb_base e) t);
  addSharer e t := '(b, l) ← lim_addSharer (lnb_base e) t; Ok (b, mkLNB l);
  removeSharer := lnb_removeSharer;
  getSharersList e := '(b, l) ← lim_getSharersList (lnb_base e); Ok (b, l, e);
  getNumSharers e := Ok (lim_num_tracked (lnb_base e));
  inBroadcastMode := fun _ => false;
  getLatency := fun _ => 0 }.

(** ** Limited broadcast (directory_entry_limited_broadcast.cc) *)

Record LimitedBroadcast : Type := mkLB {
  lb_base : Limited;
  lb_global_enabled : bool;
  lb_num_sharers : Z;
  lb_total_tiles : Z }.      (* Config::getTotalTiles() *)

Definition lb_addSharer (e : LimitedBroadcast) (sharer_id : Z)
    : result (bool * LimitedBroadcast) :=
  if lb_global_enabled e then Ok (true, e)
  else
    '(added, base) ← lim_addSharer (lb_base e) sharer_id;
    if (added : bool) then Ok (true, mkLB base (lb_global_enabled e) (lb_num_sharers e) (lb_total_tiles e))
    else
      log_assert ((lb_num_sharers e =? 0) && negb (lb_global_enabled e) &&
                  (lim_num_tracked base =? Z.of_nat (length (lim_sharers base)))) ;;
      Ok (true, mkLB base true (lb_total_tiles e) (lb_total_tiles e)).

Definition lb_removeSharer (e : LimitedBroadcast) (sharer_id : Z)
    (reply_expected : bool) : result LimitedBroadcast :=
  base ← (if lb_global_enabled e then
            if lim_hasSharer (lb_base e) sharer_id
            then lim_removeSharer (lb_base e) sharer_id
            else Ok (lb_base e)
          else lim_removeSharer (lb_base e) sharer_id);
  if reply_expected then
    log_assert (lb_global_enabled e) ;;
    let n := wrap32 (lb_num_sharers e - 1) in
    if n =? 0 then
      log_assert (lim_num_tracked base =? 0) ;;
      Ok (mkLB base false n (lb_total_tiles e))
    else Ok (mkLB base (lb_global_enabled e) n (lb_total_tiles e))
  else Ok (mkLB base (lb_global_enabled e) (lb_num_sharers e) (lb_total_tiles e)).

#[export] Instance LimitedBroadcast_ops : SharerOps LimitedBroadcast := {
  hasSharer e t := Ok (lim_hasSharer (lb_base e) t);
  addSharer := lb_addSharer;
  removeSharer := lb_removeSharer;
  getSharersList e :=
    '(_, l) ← lim_getSharersList (lb_base e); Ok (lb_global_enabled e, l, e);
  getNumSharers e :=
    Ok (if lb_global_enabled e then lb_num_sharers e else lim_num_tracked (lb_base e));
  inBroadcastMode := lb_global_enabled;
  getLatency := fun _ => 0 }.

(** ** ACKwise (directory_entry_ackwise.cc) *)

Record Ackwise : Type := mkAckwise {
  aw_base : Limited;
  aw_global_enabled : bool;
  aw_num_untracked : Z }.

Definition aw_addSharer (e : Ackwise) (sharer_id : Z) : result (bool * Ackwise) :=
  if aw_global_enabled e then
    Ok (true, mkAckwise (aw_base e) true (aw_num_untracked e + 1))
  else
    '(added, base) ← lim_addSharer (aw_base e) sharer_id;
    if (added : bool) then Ok (true, mkAckwise base (aw_global_enabled e) (aw_num_untracked e))
    else
      log_assert ((aw_num_untracked e =? 0) && negb (aw_global_enabled e) &&
                  (lim_num_tracked base =? Z.of_nat (length (lim_sharers base)))) ;;
      Ok (true, mkAckwise base true 1).

Definition aw_removeSharer (e : Ackwise) (sharer_id : Z) (reply_expected : bool)
    : result Ackwise :=
  log_assert (negb reply_expected) ;;
  if aw_global_enabled e then
    log_assert (0 <? aw_num_untracked e) ;;
    if lim_hasSharer (aw_base e) sharer_id then
      base ← lim_removeSharer (aw_base e) sharer_id;
      Ok (mkAckwise base (aw_global_enabled e) (aw_num_untracked e))
    else
      let n := aw_num_untracked e - 1 in
      Ok (mkAckwise (aw_base e) (if n =? 0 then false else aw_global_enabled e) n)
  else
    base ← lim_removeSharer (aw_base e) sharer_id;
    Ok (mkAckwise base (aw_global_enabled e) (aw_num_untracked e)).

#[export] Instance Ackwise_ops : SharerOps Ackwise := {
  hasSharer e t := Ok (lim_hasSharer (aw_base e) t);
  addSharer := aw_addSharer;
  removeSharer := aw_removeSharer;
  getSharersList e :=
    '(_, l) ← lim_getSharersList (aw_base e); Ok (aw_global_enabled e, l, e);
  getNumSharers e := Ok (lim_num_tracked (aw_base e) + aw_num_untracked e);
  inBroadcastMode := aw_global_enabled;
  getLatency := fun _ => 0 }.

(** ** LimitLESS (directory_entry_limitless.cc) *)

Record Limitless : Type := mkLimitless {
  ll_base : Limited;
  ll_software_sharers : option BitVector;
  ll_max_num_sharers : Z;
  ll_software_trap_enabled : bool;
  ll_software_trap_penalty : Z }.

Definition ll_software (e : Limitless) : result BitVector :=
  match ll_software_sharers e with Some bv => Ok bv | None => Err NullDeref end.

(** The migration loop: every pointer moves to the bit vector and its slot
    is invalidated. *)
Fixpoint migrate (max_num_sharers : Z) (sharers : list Z) (bv : BitVector)
    (num_tracked : Z) : result (list Z * BitVector * Z) :=
  match sharers with
  | [] => Ok ([], bv, num_tracked)
  | s :: sharers' =>
      if s =? INVALID_SHARER then
        '(rest, bv, n) ← migrate max_num_sharers sharers' bv num_tracked;
        Ok (s :: rest, bv, n)
      else
        assert_c ((0 <=? s) && (s <? max_num_sharers)) ;;
        bv ← bv_set bv (wrap32 s);
        '(rest, bv, n) ← migrate max_num_sharers sharers' bv (num_tracked - 1);
        Ok (INVALID_SHARER :: rest, bv, n)
  end.

Definition ll_hasSharer (e : Limitless) (sharer_id : Z) : result bool :=
  if ll_software_trap_enabled e then
    bv ← ll_software e; bv_at bv (wrap32 sharer_id)
  else Ok (lim_hasSharer (ll_base e) sharer_id).

Definition ll_addSharer (e : Limitless) (sharer_id : Z) : result (bool * Limitless) :=
  if ll_software_trap_enabled e then
    bv ← ll_software e;
    present ← bv_at bv (wrap32 sharer_id);
    assert_c (negb present) ;;
    bv ← bv_set bv (wrap32 sharer_id);
    Ok (true, mkLimitless (ll_base e) (Some bv) (ll_max_num_sharers e) true
                          (ll_software_trap_penalty e))
  else
    '(added, base) ← lim_addSharer (ll_base e) sharer_id;
    if (added : bool) then
      Ok (true, mkLimitless base (ll_software_sharers e) (ll_max_num_sharers e)
                            (ll_software_trap_enabled e) (ll_software_trap_penalty e))
    else
      '(sharers, bv, n) ← migrate (ll_max_num_sharers e) (lim_sharers base)
                            (BitVector_new (ll_max_num_sharers e)) (lim_num_tracked base);
      bv ← bv_set bv (wrap32 sharer_id);
      log_assert (n =? 0) ;;
      Ok (true, mkLimitless (mkLimited sharers n) (Some bv) (ll_max_num_sharers e) true
                            (ll_software_trap_penalty e)).

Definition ll_removeSharer (e : Limitless) (sharer_id : Z) (reply_expected : bool)
    : result Limitless :=
  assert_c (negb reply_expected) ;;
  if ll_software_trap_enabled e then
    bv ← ll_software e;
    present ← bv_at bv (wrap32 sharer_id);
    assert_c present ;;
    bv ← bv_clear bv (wrap32 sharer_id);
    Ok (mkLimitless (ll_base e) (Some bv) (ll_max_num_sharers e) true
                    (ll_software_trap_penalty e))
  else
    base ← lim_removeSharer (ll_base e) sharer_id;
    Ok (mkLimitless base (ll_software_sharers e) (ll_max_num_sharers e)
                    (ll_software_trap_enabled e) (ll_software_trap_penalty e)).

Definition ll_getSharersList (e : Limitless) : result (bool * list Z * Limitless) :=
  if ll_software_trap_enabled e then
    bv ← ll_software e;
    '(bv, l) ← collect_sharers bv;
    Ok (false, l, mkLimitless (ll_base e) (Some bv) (ll_max_num_sharers e) true
                              (ll_software_trap_penalty e))
  else
    '(_, l) ← lim_getSharersList (ll_base e);
    Ok (false, l, e).

Definition ll_getNumSharers (e : Limitless) : result Z :=
  if ll_software_trap_enabled e then bv ← ll_software e; Ok (m_size bv)
  else Ok (lim_num_tracked (ll_base e)).

#[export] Instance Limitless_ops : SharerOps Limitless := {
  hasSharer := ll_hasSharer;
  addSharer := ll_addSharer;
  removeSharer := ll_removeSharer;
  getSharersList := ll_getSharersList;
  getNumSharers := ll_getNumSharers;
  inBroadcastMode := fun _ => false;
  getLatency e := if ll_software_trap_enabled e then ll_software_trap_penalty e else 0 }.

(** ** Virtual dispatch and DirectoryEntry (directory_entry.{h,cc}) *)

Inductive Sharers : Type :=
  | S_FullMap (e : FullMap)
  | S_LimitedNoBroadcast (e : LimitedNoBroadcast)
  | S_LimitedBroadcast (e : LimitedBroadcast)
  | S_Ackwise (e : Ackwise)
  | S_Limitless (e : Limitless).

Definition sh_hasSharer (s : Sharers) (t : Z) : result bool :=
  match s with
  | S_FullMap e => hasSharer e t
  | S_LimitedNoBroadcast e => hasSharer e t
  | S_LimitedBroadcast e => hasSharer e t
  | S_Ackwise e => hasSharer e t
  | S_Limitless e => hasSharer e t
  end.

Definition sh_addSharer (s : Sharers) (t : Z) : result (bool * Sharers) :=
  match s with
  | S_FullMap e => '(b, e) ← addSharer e t; Ok (b, S_FullMap e)
  | S_LimitedNoBroadcast e => '(b, e) ← addSharer e t; Ok (b, S_LimitedNoBroadcast e)
  | S_LimitedBroadcast e => '(b, e) ← addSharer e t; Ok (b, S_LimitedBroadcast e)
  | S_Ackwise e => '(b, e) ← addSharer e t; Ok (b, S_Ackwise e)
  | S_Limitless e => '(b, e) ← addSharer e t; Ok (b, S_Limitless e)
  end.

Definition sh_removeSharer (s : Sharers) (t : Z) (reply_expected : bool) : result Sharers :=
  match s with
  | S_FullMap e => S_FullMap <$> removeSharer e t reply_expected
  | S_LimitedNoBroadcast e => S_LimitedNoBroadcast <$> removeSharer e t reply_expected
  | S_LimitedBroadcast e => S_LimitedBroadcast <$> removeSharer e t reply_expected
  | S_Ackwise e => S_Ackwise <$> removeSharer e t reply_expected
  | S_Limitless e => S_Limitless <$> removeSharer e t reply_expected
  end.

Definition sh_getSharersList (s : Sharers) : result (bool * list Z * Sharers) :=
  match s with
  | S_FullMap e => '(b, l, e) ← getSharersList e; Ok (b, l, S_FullMap e)
  | S_LimitedNoBroadcast e =>
      '(b, l, e) ← getSharersList e; Ok (b, l, S_LimitedNoBroadcast e)
  | S_LimitedBroadcast e => '(b, l, e) ← getSharersList e; Ok (b, l, S_LimitedBroadcast e)
  | S_Ackwise e => '(b, l, e) ← getSharersList e; Ok (b, l, S_Ackwise e)
  | S_Limitless e => '(b, l, e) ← getSharersList e; Ok (b, l, S_Limitless e)
  end.

Definition sh_getOneSharer (next : Z -> Z) (s : Sharers) : result (Z * Sharers) :=
  match s with
  | S_FullMap e => '(t, e) ← fm_getOneSharer next e; Ok (t, S_FullMap e)
  | S_LimitedNoBroadcast e =>
      '(t, e) ← lim_getOneSharer next e; Ok (t, S_LimitedNoBroadcast e)
  | S_LimitedBroadcast e => '(t, e) ← lim_getOneSharer next e; Ok (t, S_LimitedBroadcast e)
  | S_Ackwise e => '(t, e) ← lim_getOneSharer next e; Ok (t, S_Ackwise e)
  | S_Limitless e => '(t, e) ← lim_getOneSharer next e; Ok (t, S_Limitless e)
  end.

#[export] Instance Sharers_ops : SharerOps Sharers := {
  hasSharer := sh_hasSharer;
  addSharer := sh_addSharer;
  removeSharer := sh_removeSharer;
  getSharersList := sh_getSharersList;
  getNumSharers s :=
    match s with
    | S_FullMap e => getNumSharers e | S_LimitedNoBroadcast e => getNumSharers e
    | S_LimitedBroadcast e => getNumSharers e | S_Ackwise e => getNumSharers e
    | S_Limitless e => getNumSharers e
    end;
  inBroadcastMode s :=
    match s with
    | S_FullMap e => inBroadcastMode e | S_LimitedNoBroadcast e => inBroadcastMode e
    | S_LimitedBroadcast e => inBroadcastMode e | S_Ackwise e => inBroadcastMode e
    | S_Limitless e => inBroadcastMode e
    end;
  getLatency s :=
    match s with
    | S_FullMap e => getLatency e | S_LimitedNoBroadcast e => getLatency e
    | S_LimitedBroadcast e => getLatency e | S_Ackwise e => getLatency e
    | S_Limitless e => getLatency e
    end }.

(** The static configuration the constructors read: the number of tiles
    ([Config::getTotalTiles]) and dram_directory/limitless/software_trap_penalty. *)
Record DirConfig : Type := mkDirConfig {
  cfg_total_tiles : Z;
  cfg_software_trap_penalty : Z }.

(** DirectoryEntry::create: note that the full-map scheme takes
    [max_num_sharers] where the others take [max_hw_sharers]. *)
Definition Sharers_create (cfg : DirConfig) (t : DirectoryType)
    (max_hw_sharers max_num_sharers : Z) : Sharers :=
  match t with
  | FULL_MAP => S_FullMap (mkFullMap (BitVector_new max_num_sharers))
  | LIMITED_NO_BROADCAST => S_LimitedNoBroadcast (mkLNB (Limited_new max_hw_sharers))
  | LIMITED_BROADCAST =>
      S_LimitedBroadcast (mkLB (Limited_new max_hw_sharers) false 0 (cfg_total_tiles cfg))
  | ACKWISE => S_Ackwise (mkAckwise (Limited_new max_hw_sharers) false 0)
  | LIMITLESS =>
      S_Limitless (mkLimitless (Limited_new max_hw_sharers) None max_num_sharers false
                               (cfg_software_trap_penalty cfg))
  end.

Record DirectoryEntry : Type := mkDirEntry {
  de_address : Z;
  de_dstate : DirectoryState;
  de_owner_id : Z;
  de_sharers : Sharers }.

Definition DirectoryEntry_create (cfg : DirConfig) (t : DirectoryType)
    (max_hw_sharers max_num_sharers : Z) : DirectoryEntry :=
  mkDirEntry INVALID_ADDRESS D_UNCACHED INVALID_TILE_ID
             (Sharers_create cfg t max_hw_sharers max_num_sharers).

Definition de_setAddress (a : Z) (e : DirectoryEntry) : DirectoryEntry :=
  mkDirEntry a (de_dstate e) (de_owner_id e) (de_sharers e).
Definition de_setDState (d : DirectoryState) (e : DirectoryEntry) : DirectoryEntry :=
  mkDirEntry (de_address e) d (de_owner_id e) (de_sharers e).
Definition de_setSharers (s : Sharers) (e : DirectoryEntry) : DirectoryEntry :=
  mkDirEntry (de_address e) (de_dstate e) (de_owner_id e) s.

Definition de_setOwner (owner_id : Z) (e : DirectoryEntry) : result DirectoryEntry :=
  (if decide (owner_id = INVALID_TILE_ID) then Ok tt
   else present ← hasSharer (de_sharers e) owner_id; log_assert present) ;;
  Ok (mkDirEntry (de_address e) (de_dstate e) owner_id (de_sharers e)).

(** ** What a scheme promises

    [repr e S]: the entry [e] stands for the set of sharers [S];
    [max_tile e] bounds the tile ids the entry can record. *)

Class SharerLaws (R : Type) `{SharerOps R} := {
  repr : R -> gset Z -> Prop;
  max_tile : R -> Z;
  add_law e S t : repr e S -> 0 <= t < max_tile e -> t ∉ S ->
    exists b e', addSharer e t = Ok (b, e') /\ max_tile e' = max_tile e /\
      if (b : bool) then repr e' ({[t]} ∪ S) else e' = e /\ S <> ∅;
  remove_law e S t : repr e S -> t ∈ S ->
    exists e', removeSharer e t false = Ok e' /\ max_tile e' = max_tile e /\
      repr e' (S ∖ {[t]});
  list_law e S : repr e S ->
    exists all l e', getSharersList e = Ok (all, l, e') /\ repr e' S /\
      max_tile e' = max_tile e /\ NoDup l /\ list_to_set l ⊆ S /\
      (all = false -> list_to_set l = S);
  num_law e S : repr e S -> getNumSharers e = Ok (Z.of_nat (size S));
  range_law e S t : repr e S -> t ∈ S -> 0 <= t < max_tile e }.

(** *** Draining the bit vector *)

Lemma elems_split_after bv x pre suf :
  bv_elems bv = pre ++ x :: suf ->
  filter (fun p => x < p) (bv_elems bv) = suf.
Proof.
  intros Heq. pose proof (bv_elems_sorted bv) as Hs. rewrite Heq in *.
  rewrite filter_app, filter_cons_False by lia.
  rewrite filter_none, filter_all; [done| |].
  - clear Heq. induction pre; simpl in Hs; inversion Hs; subst; auto.
  - clear Heq. induction pre as [|y pre IH]; [constructor|].
    simpl in Hs. inversion Hs as [|? ? Hs' Hy]; subst. constructor; [|auto].
    rewrite Forall_forall in Hy. specialize (Hy x ltac:(set_solver)). lia.
Qed.

Lemma sharers_loop_ok fuel bv pre suf :
  bv_wf bv -> bv_elems bv = pre ++ suf ->
  filter (fun p => m_last_pos bv < p) (bv_elems bv) = suf ->
  (length suf < fuel)%nat ->
  sharers_loop fuel bv (pre ++ replicate (length suf) 0) (Z.of_nat (length pre)) =
  Ok (resetFind bv, bv_elems bv).
Proof.
  revert bv pre suf. induction fuel as [|fuel IH]; intros bv pre suf Hwf Heq Hf Hlt; [lia|].
  simpl. rewrite bv_find_eq by done. simpl. unfold next_pos. rewrite Hf.
  destruct suf as [|x suf]; simpl.
  { by rewrite Heq, app_nil_r. }
  assert (Hx : x ∈ bv_elems bv) by (rewrite Heq; set_solver).
  assert (0 <= x < m_capacity bv) as Hx0.
  { apply list_elem_of_filter in Hx as [_ Hx%elem_of_seqZ]. lia. }
  destruct (Z.eqb_spec x (-1)); [lia|].
  rewrite vec_set_in_range by (rewrite length_app; simpl; lia). simpl.
  pose proof (wf_size _ Hwf) as Hsz. rewrite Heq, length_app in Hsz. simpl in Hsz.
  rewrite (proj2 (Z.leb_le _ _)) by (simpl; lia). simpl.
  rewrite insert_app_r_alt, Nat.sub_diag by lia. simpl.
  rewrite (cons_middle x pre), app_assoc.
  replace (Z.of_nat (length pre) + 1) with (Z.of_nat (length (pre ++ [x])))
    by (rewrite length_app; simpl; lia).
  apply (IH (set_last_pos x bv)).
  - apply set_last_pos_wf; [done|lia].
  - rewrite <- app_assoc. exact Heq.
  - by apply (elems_split_after bv x pre).
  - simpl in Hlt. lia.
Qed.

Lemma resetFind_wf bv : bv_wf bv -> bv_wf (resetFind bv).
Proof. intros Hwf. apply set_last_pos_wf; [done|]. pose proof (wf_capacity _ Hwf). lia. Qed.

Lemma collect_sharers_ok bv :
  bv_wf bv -> collect_sharers bv = Ok (resetFind bv, bv_elems bv).
Proof.
  intros Hwf. unfold collect_sharers.
  pose proof (wf_size _ Hwf) as Hsz. pose proof (wf_capacity _ Hwf).
  pose proof (length_bv_elems_le bv ltac:(lia)).
  rewrite Hsz, Nat2Z.id.
  apply (sharers_loop_ok _ (resetFind bv) [] (bv_elems bv)); try done.
  - by apply resetFind_wf.
  - apply filter_all, Forall_forall.
    intros p [_ Hp%elem_of_seqZ]%list_elem_of_filter. simpl. lia.
  - simpl. lia.
Qed.

(** *** Full map *)

Lemma wrap32_small t n : 0 <= t < n -> n <= 2 ^ 31 -> wrap32 t = t.
Proof. intros. apply wrap_id. unfold is_word. lia. Qed.

Lemma bv_at_decide bv t :
  bv_wf bv -> 0 <= t < m_capacity bv -> bv_at bv t = Ok (bool_decide (t ∈ bv_abs bv)).
Proof.
  intros Hwf Ht. rewrite bv_at_eq by done. f_equal. symmetry.
  destruct (words_bit (m_words bv) t) eqn:E.
  - apply bool_decide_eq_true. apply elem_of_bv_abs; [done|]. split; [lia|done].
  - apply bool_decide_eq_false. rewrite elem_of_bv_abs, E by done. by intros [_ ?].
Qed.

Lemma bv_abs_range bv t : bv_wf bv -> t ∈ bv_abs bv -> 0 <= t < m_capacity bv.
Proof.
  intros Hwf. unfold bv_abs. rewrite elem_of_list_to_set.
  intros [_ Ht%elem_of_seqZ]%list_elem_of_filter. lia.
Qed.

Definition bv_repr (bv : BitVector) (S : gset Z) : Prop := bv_wf bv /\ bv_abs bv = S.

Lemma bv_repr_add bv S t :
  bv_repr bv S -> 0 <= t < m_capacity bv -> t ∉ S ->
  exists bv', bv_at bv (wrap32 t) = Ok false /\ bv_set bv (wrap32 t) = Ok bv' /\
    m_capacity bv' = m_capacity bv /\ bv_repr bv' ({[t]} ∪ S).
Proof.
  intros [Hwf <-] Ht Hni. pose proof (wf_capacity _ Hwf).
  rewrite (wrap32_small t (m_capacity bv)) by lia.
  destruct (bv_set_ok bv t Hwf Ht) as (bv' & ? & ? & ? & ? & _).
  exists bv'. rewrite bv_at_decide, bool_decide_eq_false_2 by done. done.
Qed.

Lemma bv_repr_remove bv S t :
  bv_repr bv S -> t ∈ S ->
  exists bv', bv_at bv (wrap32 t) = Ok true /\ bv_clear bv (wrap32 t) = Ok bv' /\
    m_capacity bv' = m_capacity bv /\ bv_repr bv' (S ∖ {[t]}).
Proof.
  intros [Hwf <-] Hin. pose proof (wf_capacity _ Hwf).
  pose proof (bv_abs_range bv t Hwf Hin) as Ht.
  rewrite (wrap32_small t (m_capacity bv)) by lia.
  destruct (bv_clear_ok bv t Hwf Ht) as (bv' & ? & ? & ? & ? & _).
  exists bv'. rewrite bv_at_decide, bool_decide_eq_true_2 by done. done.
Qed.

Lemma bv_repr_collect bv S :
  bv_repr bv S ->
  collect_sharers bv = Ok (resetFind bv, bv_elems bv) /\
  bv_repr (resetFind bv) S /\ NoDup (bv_elems bv) /\ list_to_set (bv_elems bv) = S.
Proof.
  intros [Hwf HS]. split_and!; [by apply collect_sharers_ok| | |done].
  - split; [by apply resetFind_wf|done].
  - apply NoDup_bv_elems.
Qed.

Lemma bv_repr_size bv S : bv_repr bv S -> m_size bv = Z.of_nat (size S).
Proof. intros [Hwf <-]. rewrite size_bv_abs. apply Hwf. Qed.

#[export] Program Instance FullMap_laws : SharerLaws FullMap := {
  repr e S := bv_repr (fm_sharers e) S;
  max_tile e := m_capacity (fm_sharers e) }.
Next Obligation.
  intros [bv] S t Hr Ht Hni.
  destruct (bv_repr_add bv S t Hr Ht Hni) as (bv' & E1 & E2 & E3 & Hr').
  exists true, (mkFullMap bv'). simpl. unfold fm_addSharer; simpl.
  by rewrite E1; simpl; rewrite E2.
Qed.
Next Obligation.
  intros [bv] S t Hr Hin.
  destruct (bv_repr_remove bv S t Hr Hin) as (bv' & E1 & E2 & E3 & Hr').
  exists (mkFullMap bv'). simpl. unfold fm_removeSharer; simpl.
  by rewrite E1; simpl; rewrite E2.
Qed.
Next Obligation.
  intros [bv] S Hr. destruct (bv_repr_collect bv S Hr) as (E & Hr' & Hnd & HS).
  exists false, (bv_elems bv), (mkFullMap (resetFind bv)).
  simpl. unfold fm_getSharersList. simpl. rewrite E. set_solver.
Qed.
Next Obligation.
  intros [bv] S Hr. simpl. unfold fm_getNumSharers. simpl. f_equal. by apply bv_repr_size.
Qed.
Next Obligation.
  intros [bv] S t [Hwf <-]. by apply bv_abs_range.
Qed.

(** *** Limited pointers *)

Definition lim_tracked (e : Limited) : list Z :=
  filter (fun s => s <> INVALID_SHARER) (lim_sharers e).

Record lim_wf (e : Limited) : Prop := {
  lim_nodup : NoDup (lim_tracked e);
  lim_count : lim_num_tracked e = Z.of_nat (length (lim_tracked e));
  lim_range : Forall (fun s => 0 <= s < 2 ^ 15) (lim_tracked e);
  lim_slots : lim_sharers e <> [] }.

Lemma replace_first_Some old new l l' :
  replace_first old new l = Some l' ->
  exists l1 l2, l = l1 ++ old :: l2 /\ l' = l1 ++ new :: l2.
Proof.
  revert l'. induction l as [|x l IH]; intros l'; simpl; [done|].
  destruct (Z.eqb_spec x old) as [->|].
  - intros [= <-]. by exists [], l.
  - destruct (replace_first old new l) as [r|] eqn:E; [|done].
    intros [= <-]. destruct (IH r eq_refl) as (l1 & l2 & -> & ->).
    by exists (x :: l1), l2.
Qed.

Lemma replace_first_None old new l : replace_first old new l = None <-> old ∉ l.
Proof.
  induction l as [|x l IH]; simpl; [set_solver|].
  destruct (Z.eqb_spec x old) as [->|]; [set_solver|].
  destruct (replace_first old new l); set_solver.
Qed.

Lemma lim_hasSharer_decide e t :
  t <> INVALID_SHARER -> lim_hasSharer e t = bool_decide (t ∈ lim_tracked e).
Proof.
  intros Ht. unfold lim_hasSharer. apply eq_bool_prop_intro.
  rewrite bool_decide_spec, Is_true_true, existsb_exists. unfold lim_tracked.
  rewrite list_elem_of_filter. setoid_rewrite <- list_elem_of_In.
  setoid_rewrite Z.eqb_eq. naive_solver.
Qed.

Lemma tile_swrap16 t : 0 <= t < 2 ^ 15 -> swrap 16 t = t.
Proof. intros. apply swrap_id; lia. Qed.

Definition lim_set (e : Limited) : gset Z := list_to_set (lim_tracked e).

Lemma elem_of_lim_set e t : t ∈ lim_set e <-> t ∈ lim_tracked e.
Proof. apply elem_of_list_to_set. Qed.

Lemma size_lim_set e : lim_wf e -> lim_num_tracked e = Z.of_nat (size (lim_set e)).
Proof.
  intros Hwf. unfold lim_set. rewrite size_list_to_set by apply Hwf. apply Hwf.
Qed.

Lemma lim_set_range e t : lim_wf e -> t ∈ lim_set e -> 0 <= t < 2 ^ 15.
Proof.
  intros Hwf Ht%elem_of_lim_set. pose proof (lim_range _ Hwf) as Hr.
  rewrite Forall_forall in Hr. by apply Hr.
Qed.

Lemma filter_replace_slot l1 l2 t :
  t <> INVALID_SHARER ->
  filter (fun s => s <> INVALID_SHARER) (l1 ++ t :: l2) ≡ₚ
  t :: filter (fun s => s <> INVALID_SHARER) (l1 ++ INVALID_SHARER :: l2).
Proof.
  intros Ht. rewrite !filter_app, filter_cons_True, filter_cons_False by naive_solver.
  by rewrite <- Permutation_middle.
Qed.

Lemma lim_add_ok e t :
  lim_wf e -> 0 <= t < 2 ^ 15 -> t ∉ lim_set e ->
  (exists e', lim_addSharer e t = Ok (true, e') /\ lim_wf e' /\
     length (lim_sharers e') = length (lim_sharers e) /\
     lim_set e' = {[t]} ∪ lim_set e) \/
  (lim_addSharer e t = Ok (false, e) /\ lim_set e <> ∅ /\
     lim_num_tracked e = Z.of_nat (length (lim_sharers e))).
Proof.
  intros Hwf Ht Hni. rewrite elem_of_lim_set in Hni.
  assert (Hinv : t <> INVALID_SHARER) by (change INVALID_SHARER with (-1); lia).
  unfold lim_addSharer. rewrite tile_swrap16 by done.
  assert (forallb (fun s => negb (s =? t)) (lim_sharers e) = true) as ->.
  { apply forallb_forall. intros s Hs%list_elem_of_In.
    apply negb_true_iff, Z.eqb_neq. intros ->. apply Hni, list_elem_of_filter. done. }
  simpl. destruct (replace_first _ _ _) as [sh|] eqn:E.
  - left. apply replace_first_Some in E as (l1 & l2 & E & ->).
    eexists. split; [done|].
    assert (Hp : lim_tracked (mkLimited (l1 ++ t :: l2) (lim_num_tracked e + 1)) ≡ₚ
                 t :: lim_tracked e).
    { unfold lim_tracked. simpl. rewrite E. by apply filter_replace_slot. }
    split_and!.
    + split; simpl.
      * rewrite Hp. constructor; [done|apply Hwf].
      * rewrite (Permutation_length Hp), (lim_count _ Hwf). simpl. lia.
      * rewrite Hp. constructor; [done|apply Hwf].
      * by destruct l1.
    + simpl. rewrite E, !length_app. done.
    + unfold lim_set. rewrite Hp. by rewrite list_to_set_cons.
  - right. apply replace_first_None in E.
    assert (Hall : lim_tracked e = lim_sharers e).
    { apply filter_all, Forall_forall. intros s Hs ->. done. }
    split_and!; [done| |by rewrite (lim_count _ Hwf), Hall].
    pose proof (lim_slots _ Hwf) as Hne. unfold lim_set. rewrite Hall.
    destruct (lim_sharers e); set_solver.
Qed.

Lemma lim_remove_ok e t :
  lim_wf e -> t ∈ lim_set e ->
  exists e', lim_removeSharer e t = Ok e' /\ lim_wf e' /\
    length (lim_sharers e') = length (lim_sharers e) /\
    lim_set e' = lim_set e ∖ {[t]}.
Proof.
  intros Hwf Hin. pose proof (lim_set_range _ _ Hwf Hin) as Ht.
  rewrite elem_of_lim_set in Hin.
  assert (Hinv : t <> INVALID_SHARER) by (change INVALID_SHARER with (-1); lia).
  unfold lim_removeSharer. rewrite tile_swrap16 by done.
  destruct (replace_first _ _ _) as [sh|] eqn:E.
  2: { apply replace_first_None in E. apply list_elem_of_filter in Hin as [_ ?]. done. }
  apply replace_first_Some in E as (l1 & l2 & E & ->).
  eexists. split; [done|].
  assert (Hp : lim_tracked e ≡ₚ t :: lim_tracked
            (mkLimited (l1 ++ INVALID_SHARER :: l2) (lim_num_tracked e - 1))).
  { unfold lim_tracked. simpl. rewrite E. by apply filter_replace_slot. }
  pose proof (lim_nodup _ Hwf) as Hnd. rewrite Hp in Hnd.
  pose proof (lim_range _ Hwf) as Hr. rewrite Hp in Hr.
  apply NoDup_cons in Hnd as [Hnt Hnd]. apply Forall_cons in Hr as [_ Hr].
  split_and!.
  - split; simpl; [done| |done|by destruct l1].
    pose proof (lim_count _ Hwf) as Hc. rewrite (Permutation_length Hp) in Hc.
    simpl in Hc. lia.
  - simpl. rewrite E, !length_app. done.
  - unfold lim_set. rewrite Hp. rewrite list_to_set_cons.
    set_solver.
Qed.

Lemma lim_list_ok e : lim_wf e -> lim_getSharersList e = Ok (true, lim_tracked e).
Proof.
  intros Hwf. unfold lim_getSharersList. fold (lim_tracked e).
  by rewrite (lim_count _ Hwf), Z.eqb_refl.
Qed.

Lemma Limited_new_wf n : 0 < n -> lim_wf (Limited_new n) /\ lim_set (Limited_new n) = ∅.
Proof.
  intros Hn. assert (E : lim_tracked (Limited_new n) = []).
  { apply filter_none, Forall_replicate. naive_solver. }
  split; [|unfold lim_set; by rewrite E].
  split; rewrite ?E; [by apply NoDup_nil|done|done|].
  simpl. destruct (Z.to_nat n) eqn:En; [lia|done].
Qed.

#[export] Program Instance LimitedNoBroadcast_laws : SharerLaws LimitedNoBroadcast := {
  repr e S := lim_wf (lnb_base e) /\ lim_set (lnb_base e) = S;
  max_tile e := 2 ^ 15 }.
Next Obligation.
  intros [e] S t [Hwf HS] Ht Hni. simpl in *. subst.
  destruct (lim_add_ok e t Hwf Ht Hni) as [(e' & -> & Hwf' & _ & Hs)|(-> & Hne & _)].
  - by exists true, (mkLNB e').
  - by exists false, (mkLNB e).
Qed.
Next Obligation.
  intros [e] S t [Hwf HS] Hin. simpl in *. subst. unfold lnb_removeSharer. simpl.
  destruct (lim_remove_ok e t Hwf Hin) as (e' & -> & Hwf' & _ & Hs).
  by exists (mkLNB e').
Qed.
Next Obligation.
  intros [e] S [Hwf <-]. simpl in *. rewrite lim_list_ok by done.
  exists true, (lim_tracked e), (mkLNB e). split_and!; try done. apply Hwf.
Qed.
Next Obligation.
  intros [e] S [Hwf <-]. simpl in *. f_equal. by apply size_lim_set.
Qed.
Next Obligation.
  intros [e] S t [Hwf <-]. by apply lim_set_range.
Qed.

(** *** ACKwise: tracked pointers plus a count of untracked sharers *)

Record aw_repr (e : Ackwise) (S : gset Z) : Prop := {
  aw_base_wf : lim_wf (aw_base e);
  aw_subset : lim_set (aw_base e) ⊆ S;
  aw_size : Z.of_nat (size S) = lim_num_tracked (aw_base e) + aw_num_untracked e;
  aw_global : aw_global_enabled e = bool_decide (0 < aw_num_untracked e);
  aw_nonneg : 0 <= aw_num_untracked e;
  aw_range : forall t, t ∈ S -> 0 <= t < 2 ^ 15 }.

(** Outside global mode every sharer is tracked. *)
Lemma aw_exact e S :
  aw_repr e S -> aw_global_enabled e = false ->
  S = lim_set (aw_base e) /\ aw_num_untracked e = 0.
Proof.
  intros Hr Hg. rewrite (aw_global _ _ Hr) in Hg. apply bool_decide_eq_false in Hg.
  pose proof (aw_nonneg _ _ Hr). assert (aw_num_untracked e = 0) as Hu by lia.
  split; [|done]. symmetry. apply set_subseteq_size_eq; [apply Hr|].
  pose proof (aw_size _ _ Hr) as Hs.
  rewrite (size_lim_set _ (aw_base_wf _ _ Hr)), Hu in Hs. lia.
Qed.

Lemma size_add_one (S : gset Z) t : t ∉ S -> size ({[t]} ∪ S) = Datatypes.S (size S).
Proof. intros. rewrite size_union, size_singleton by set_solver. done. Qed.

Lemma size_remove_one (S : gset Z) t :
  t ∈ S -> Z.of_nat (size (S ∖ {[t]})) = Z.of_nat (size S) - 1.
Proof.
  intros Hin. pose proof (size_add_one (S ∖ {[t]}) t ltac:(set_solver)) as Hs.
  rewrite <- union_difference_singleton_L in Hs by done. lia.
Qed.

Lemma aw_add_ok e S t :
  aw_repr e S -> 0 <= t < 2 ^ 15 -> t ∉ S ->
  exists e', aw_addSharer e t = Ok (true, e') /\ aw_repr e' ({[t]} ∪ S).
Proof.
  intros Hr Ht Hni. pose proof (size_add_one S t Hni) as Hsz.
  pose proof (aw_size _ _ Hr) as Hs. pose proof (aw_nonneg _ _ Hr).
  unfold aw_addSharer. destruct (aw_global_enabled e) eqn:Hg.
  - eexists. split; [done|]. pose proof (aw_range _ _ Hr). pose proof (aw_subset _ _ Hr).
    split; simpl; [apply Hr|set_solver|lia| |lia|set_solver].
    by rewrite bool_decide_eq_true_2 by lia.
  - destruct (aw_exact e S Hr Hg) as [HS Hu].
    pose proof (aw_base_wf _ _ Hr) as Hwf. rewrite HS in Hni.
    destruct (lim_add_ok _ t Hwf Ht Hni) as [(b & -> & Hb & _ & Hset)|(-> & Hne & Hfull)].
    + simpl. eexists. split; [done|]. split; simpl; [done|set_solver| | |lia|].
      * rewrite (size_lim_set _ Hb), Hset, <- HS, Hu. lia.
      * by rewrite Hu.
      * destruct Hr. set_solver.
    + simpl. rewrite Hu, Hfull, !Z.eqb_refl. simpl. eexists. split; [done|].
      split; simpl; [done|set_solver| |done|lia|destruct Hr; set_solver].
      rewrite Hu in Hs. lia.
Qed.

Lemma aw_remove_ok e S t :
  aw_repr e S -> t ∈ S ->
  exists e', aw_removeSharer e t false = Ok e' /\ aw_repr e' (S ∖ {[t]}).
Proof.
  intros Hr Hin. pose proof (size_remove_one S t Hin) as Hsz.
  pose proof (aw_size _ _ Hr) as Hs. pose proof (aw_nonneg _ _ Hr).
  pose proof (aw_range _ _ Hr t Hin). pose proof (aw_base_wf _ _ Hr) as Hwf.
  pose proof (size_lim_set _ Hwf) as Hn.
  assert (Hremove : t ∈ lim_set (aw_base e) -> exists b,
    lim_removeSharer (aw_base e) t = Ok b /\
    aw_repr (mkAckwise b (aw_global_enabled e) (aw_num_untracked e)) (S ∖ {[t]})).
  { intros Hl. destruct (lim_remove_ok _ _ Hwf Hl) as (b & E & Hb & _ & Hset).
    exists b. split; [done|]. pose proof (size_remove_one _ t Hl).
    pose proof (aw_range _ _ Hr). pose proof (aw_subset _ _ Hr).
    split; simpl; [done|set_solver| |apply Hr|lia|set_solver].
    rewrite (size_lim_set _ Hb), Hset. lia. }
  unfold aw_removeSharer. simpl. destruct (aw_global_enabled e) eqn:Hg.
  - rewrite (aw_global _ _ Hr) in Hg. apply bool_decide_eq_true in Hg.
    rewrite (proj2 (Z.ltb_lt _ _)) by lia. simpl.
    rewrite lim_hasSharer_decide by (change INVALID_SHARER with (-1); lia).
    case_bool_decide as Hl; rewrite <- elem_of_lim_set in Hl.
    + destruct (Hremove Hl) as (b & -> & Hb). by eexists.
    + eexists. split; [done|]. pose proof (aw_range _ _ Hr). pose proof (aw_subset _ _ Hr).
      split; simpl; [done|set_solver|lia| |lia|set_solver].
      destruct (Z.eqb_spec (aw_num_untracked e - 1) 0).
      * by rewrite bool_decide_eq_false_2 by lia.
      * by rewrite bool_decide_eq_true_2 by lia.
  - destruct (aw_exact e S Hr Hg) as [HS Hu].
    destruct Hremove as (b & -> & Hb); [set_solver|]. by eexists.
Qed.

#[export] Program Instance Ackwise_laws : SharerLaws Ackwise := {
  repr := aw_repr;
  max_tile e := 2 ^ 15 }.
Next Obligation.
  intros e S t Hr Ht Hni. destruct (aw_add_ok e S t Hr Ht Hni) as (e' & ? & ?).
  by exists true, e'.
Qed.
Next Obligation.
  intros e S t Hr Hin. destruct (aw_remove_ok e S t Hr Hin) as (e' & ? & ?). by exists e'.
Qed.
Next Obligation.
  intros e S Hr. simpl. pose proof (aw_base_wf _ _ Hr) as Hwf.
  rewrite lim_list_ok by done. simpl.
  exists (aw_global_enabled e), (lim_tracked (aw_base e)), e.
  split_and!; try done; [apply Hwf|apply Hr|].
  intros Hg. by destruct (aw_exact e S Hr Hg) as [-> _].
Qed.
Next Obligation. intros e S Hr. simpl. by rewrite (aw_size _ _ Hr). Qed.
Next Obligation. intros e S t Hr. apply (aw_range _ _ Hr). Qed.

(** *** LimitLESS: pointers, then a bit vector kept by software *)

Definition ll_repr (e : Limitless) (S : gset Z) : Prop :=
  0 <= ll_max_num_sharers e <= 2 ^ 15 /\
  if ll_software_trap_enabled e then
    exists bv, ll_software_sharers e = Some bv /\ bv_repr bv S /\
               m_capacity bv = ll_max_num_sharers e
  else
    lim_wf (ll_base e) /\ lim_set (ll_base e) = S /\
    forall t, t ∈ S -> 0 <= t < ll_max_num_sharers e.

Lemma bv_repr_set bv S t :
  bv_repr bv S -> 0 <= t < m_capacity bv ->
  exists bv', bv_set bv (wrap32 t) = Ok bv' /\
    m_capacity bv' = m_capacity bv /\ bv_repr bv' ({[t]} ∪ S).
Proof.
  intros [Hwf <-] Ht. pose proof (wf_capacity _ Hwf).
  rewrite (wrap32_small t (m_capacity bv)) by lia.
  destruct (bv_set_ok bv t Hwf Ht) as (bv' & ? & ? & ? & ? & _). by exists bv'.
Qed.

(** The migration moves every pointer to the bit vector and counts it. *)
Lemma migrate_ok m sharers bv S k :
  bv_repr bv S -> m_capacity bv = m ->
  Forall (fun s => s = INVALID_SHARER \/ 0 <= s < m) sharers ->
  let moved := filter (fun s => s <> INVALID_SHARER) sharers in
  exists rest bv', migrate m sharers bv k = Ok (rest, bv', k - Z.of_nat (length moved)) /\
    m_capacity bv' = m /\ bv_repr bv' (list_to_set moved ∪ S).
Proof.
  intros Hr Hm Hall. revert bv S k Hr Hm.
  induction Hall as [|s sharers Hs _ IH]; intros bv S k Hr Hm moved; simpl in *.
  - exists [], bv. split_and!; [do 2 f_equal; lia|done|].
    unfold moved. simpl. by rewrite (left_id_L ∅ (∪)).
  - unfold moved. rewrite filter_cons. destruct (Z.eqb_spec s INVALID_SHARER) as [->|Hne].
    + rewrite decide_False by naive_solver.
      destruct (IH bv S k Hr Hm) as (rest & bv' & -> & ? & ?).
      by exists (INVALID_SHARER :: rest), bv'.
    + rewrite decide_True by done. destruct Hs as [?|Hs]; [done|].
      rewrite (proj2 (Z.leb_le 0 s)), (proj2 (Z.ltb_lt s m)) by lia. simpl.
      destruct (bv_repr_set bv S s Hr ltac:(lia)) as (bv1 & -> & Hc & Hr1). simpl.
      destruct (IH bv1 _ (k - 1) Hr1 ltac:(lia)) as (rest & bv' & -> & ? & Hr2).
      exists (INVALID_SHARER :: rest), bv'. split_and!; [|done|].
      * simpl. do 2 f_equal. lia.
      * simpl. by replace ({[s]} ∪ _ ∪ S) with
          (list_to_set (filter (fun s => s <> INVALID_SHARER) sharers) ∪ ({[s]} ∪ S))
          by set_solver.
Qed.

Lemma ll_migrate_ok e S t :
  ll_repr e S -> ll_software_trap_enabled e = false ->
  0 <= t < ll_max_num_sharers e ->
  exists rest bv bv', migrate (ll_max_num_sharers e) (lim_sharers (ll_base e))
      (BitVector_new (ll_max_num_sharers e)) (lim_num_tracked (ll_base e)) =
      Ok (rest, bv, 0) /\
    bv_set bv (wrap32 t) = Ok bv' /\
    m_capacity bv' = ll_max_num_sharers e /\ bv_repr bv' ({[t]} ∪ S).
Proof.
  intros [Hm Hr] Htrap Ht. rewrite Htrap in Hr. destruct Hr as (Hwf & HS & Hrange).
  pose proof (BitVector_new_wf (ll_max_num_sharers e) ltac:(lia)) as Hnew.
  destruct (migrate_ok (ll_max_num_sharers e) (lim_sharers (ll_base e)) _ ∅
    (lim_num_tracked (ll_base e)) Hnew eq_refl) as (rest & bv & E & Hc & Hbv).
  { apply Forall_forall. intros s Hs.
    destruct (decide (s = INVALID_SHARER)) as [|Hne]; [by left|right].
    apply Hrange. rewrite <- HS. apply elem_of_lim_set, list_elem_of_filter. done. }
  fold (lim_tracked (ll_base e)) in E, Hbv. fold (lim_set (ll_base e)) in Hbv.
  rewrite (right_id_L ∅ (∪)), HS in Hbv. rewrite (lim_count _ Hwf), Z.sub_diag in E.
  destruct (bv_repr_set bv S t Hbv ltac:(lia)) as (bv' & ? & ? & ?).
  exists rest, bv, bv'. rewrite (lim_count _ Hwf). split_and!; [done|done|lia|done].
Qed.

Lemma ll_add_ok e S t :
  ll_repr e S -> 0 <= t < ll_max_num_sharers e -> t ∉ S ->
  exists e', ll_addSharer e t = Ok (true, e') /\
    ll_max_num_sharers e' = ll_max_num_sharers e /\ ll_repr e' ({[t]} ∪ S).
Proof.
  intros Hll Ht Hni. pose proof Hll as [Hm Hr]. unfold ll_addSharer.
  destruct (ll_software_trap_enabled e) eqn:Htrap.
  - destruct Hr as (bv & Hsw & Hbv & Hc). unfold ll_software. rewrite Hsw. simpl.
    destruct (bv_repr_add bv S t Hbv ltac:(lia) Hni) as (bv' & -> & Hset & Hc' & Hbv').
    simpl. rewrite Hset. simpl. eexists. split_and!; [done|done|].
    split; simpl; [done|]. exists bv'. split_and!; [done|done|lia].
  - destruct Hr as (Hwf & HS & Hrange). rewrite <- HS in Hni.
    destruct (lim_add_ok _ t Hwf ltac:(lia) Hni) as [(b & -> & Hb & _ & Hset)|(-> & _ & _)].
    + simpl. eexists. split_and!; [done|done|]. split; simpl; [done|].
      split_and!; [done|by rewrite Hset, HS|set_solver].
    + simpl. destruct (ll_migrate_ok e S t Hll Htrap Ht) as (rest & bv & bv' & -> & Hset & ? & ?).
      simpl. rewrite Hset. simpl. eexists. split_and!; [done|done|].
      split; simpl; [done|]. by exists bv'.
Qed.

Lemma ll_remove_ok e S t :
  ll_repr e S -> t ∈ S ->
  exists e', ll_removeSharer e t false = Ok e' /\
    ll_max_num_sharers e' = ll_max_num_sharers e /\ ll_repr e' (S ∖ {[t]}).
Proof.
  intros [Hm Hr] Hin. unfold ll_removeSharer. simpl.
  destruct (ll_software_trap_enabled e) eqn:Htrap.
  - destruct Hr as (bv & Hsw & Hbv & Hc). unfold ll_software. rewrite Hsw. simpl.
    destruct (bv_repr_remove bv S t Hbv Hin) as (bv' & -> & Hclr & Hc' & Hbv').
    simpl. rewrite Hclr. simpl. eexists. split_and!; [done|done|].
    split; simpl; [done|]. exists bv'. split_and!; [done|done|lia].
  - destruct Hr as (Hwf & HS & Hrange). rewrite <- HS in Hin.
    destruct (lim_remove_ok _ t Hwf Hin) as (b & -> & Hb & _ & Hset).
    simpl. eexists. split_and!; [done|done|]. split; simpl; [done|].
    split_and!; [done|by rewrite Hset, HS|set_solver].
Qed.

Lemma ll_list_ok e S :
  ll_repr e S ->
  exists l e', ll_getSharersList e = Ok (false, l, e') /\ ll_repr e' S /\
    ll_max_num_sharers e' = ll_max_num_sharers e /\ NoDup l /\ list_to_set l = S.
Proof.
  intros [Hm Hr]. unfold ll_getSharersList.
  destruct (ll_software_trap_enabled e) eqn:Htrap.
  - destruct Hr as (bv & Hsw & Hbv & Hc). unfold ll_software. rewrite Hsw. simpl.
    destruct (bv_repr_collect bv S Hbv) as (-> & Hbv' & Hnd & HS). simpl.
    do 2 eexists. split_and!; [done| |done|done|done]. split; simpl; [done|].
    by exists (resetFind bv).
  - destruct Hr as (Hwf & HS & Hrange). rewrite lim_list_ok by done. simpl.
    do 2 eexists. split_and!; [done| |done|apply Hwf|done].
    split; [done|]. by rewrite Htrap.
Qed.

#[export] Program Instance Limitless_laws : SharerLaws Limitless := {
  repr := ll_repr;
  max_tile := ll_max_num_sharers }.
Next Obligation.
  intros e S t Hr Ht Hni. destruct (ll_add_ok e S t Hr Ht Hni) as (e' & ? & ? & ?).
  by exists true, e'.
Qed.
Next Obligation. apply ll_remove_ok. Qed.
Next Obligation.
  intros e S Hr. destruct (ll_list_ok e S Hr) as (l & e' & ? & ? & ? & ? & HS).
  exists false, l, e'. set_solver.
Qed.
Next Obligation.
  intros e S [_ Hr]. simpl. unfold ll_getNumSharers.
  destruct (ll_software_trap_enabled e).
  - destruct Hr as (bv & Hsw & Hbv & _). unfold ll_software. rewrite Hsw. simpl.
    f_equal. by apply bv_repr_size.
  - destruct Hr as (Hwf & <- & _). f_equal. by apply size_lim_set.
Qed.
Next Obligation.
  intros e S t [_ Hr] Hin. destruct (ll_software_trap_enabled e).
  - destruct Hr as (bv & _ & [Hwf <-] & Hc). simpl. rewrite <- Hc. by apply bv_abs_range.
  - naive_solver.
Qed.

(** ** The dispatch type satisfies the interface

    [limited_broadcast] is left out: the MSI memory manager refuses it, see
    [limited_broadcast_reply_protocol] below for its own contract. *)

Definition sh_repr (s : Sharers) (S : gset Z) : Prop :=
  match s with
  | S_FullMap e => repr e S
  | S_LimitedNoBroadcast e => repr e S
  | S_LimitedBroadcast _ => False
  | S_Ackwise e => repr e S
  | S_Limitless e => repr e S
  end.

Definition sh_max_tile (s : Sharers) : Z :=
  match s with
  | S_FullMap e => max_tile e
  | S_LimitedNoBroadcast e => max_tile e
  | S_LimitedBroadcast _ => 0
  | S_Ackwise e => max_tile e
  | S_Limitless e => max_tile e
  end.

#[export] Program Instance Sharers_laws : SharerLaws Sharers := {
  repr := sh_repr;
  max_tile := sh_max_tile }.
Next Obligation.
  intros [e|e|e|e|e] S t Hr Ht Hni; try (exfalso; exact Hr);
    destruct (add_law e S t Hr Ht Hni) as (b & e' & E & Hm & Hb);
    eexists b, _; cbn [addSharer Sharers_ops sh_addSharer]; rewrite E;
    (split_and!; [done|exact Hm|]); destruct b; try exact Hb;
    destruct Hb as [-> ?]; done.
Qed.
Next Obligation.
  intros [e|e|e|e|e] S t Hr Hin; try (exfalso; exact Hr);
    destruct (remove_law e S t Hr Hin) as (e' & E & Hm & Hb);
    eexists; cbn [removeSharer Sharers_ops sh_removeSharer]; rewrite E;
    (split_and!; [done|exact Hm|exact Hb]).
Qed.
Next Obligation.
  intros [e|e|e|e|e] S Hr; try (exfalso; exact Hr);
    destruct (list_law e S Hr) as (all & l & e' & E & Hr' & Hm & Hrest);
    eexists all, l, _; cbn [getSharersList Sharers_ops sh_getSharersList]; rewrite E;
    (split_and!; [done|exact Hr'|exact Hm|apply Hrest..]).
Qed.
Next Obligation.
  intros [e|e|e|e|e] S Hr; try (exfalso; exact Hr); exact (num_law e S Hr).
Qed.
Next Obligation.
  intros [e|e|e|e|e] S t Hr Hin; try (exfalso; exact Hr); exact (range_law e S t Hr Hin).
Qed.

Lemma Sharers_create_repr cfg t hw num :
  t <> LIMITED_BROADCAST -> 0 < hw -> 0 <= num <= 2 ^ 15 ->
  repr (Sharers_create cfg t hw num) ∅ /\ num <= max_tile (Sharers_create cfg t hw num).
Proof.
  intros Ht Hhw Hnum. destruct (Limited_new_wf hw Hhw) as [Hwf Hset].
  destruct t; [| |done| |]; simpl.
  - split; [|lia]. apply BitVector_new_wf. lia.
  - split; [done|lia].
  - split; [|lia]. split; simpl; try done; set_solver.
  - split; [|lia]. split; [done|]. simpl. split_and!; [done|done|set_solver].
Qed.

(** C34: every scheme the MSI protocol accepts (full map, limited without
    broadcast, ACKwise, LimitLESS) implements a set of sharers: a new entry is
    empty, [addSharer] inserts (or reports that the entry is full, and only
    then changes nothing), [removeSharer] deletes, [getNumSharers] is the
    cardinality and [getSharersList] is the set itself unless it asks for a
    broadcast, in which case it is a subset. *)
Theorem directory_schemes_refine_set (s : Sharers) (S : gset Z) :
  repr s S ->
  getNumSharers s = Ok (Z.of_nat (size S)) /\
  (forall t, 0 <= t < max_tile s -> t ∉ S ->
     exists b s', addSharer s t = Ok (b, s') /\
       if (b : bool) then repr s' ({[t]} ∪ S) else s' = s /\ S <> ∅) /\
  (forall t, t ∈ S ->
     exists s', removeSharer s t false = Ok s' /\ repr s' (S ∖ {[t]})) /\
  (exists all l s', getSharersList s = Ok (all, l, s') /\ repr s' S /\ NoDup l /\
     list_to_set l ⊆ S /\ (all = false -> list_to_set l = S)).
Proof.
  intros Hr. split_and!.
  - by apply num_law.
  - intros t Ht Hni. destruct (add_law s S t Hr Ht Hni) as (b & s' & ? & _ & ?).
    by exists b, s'.
  - intros t Hin. destruct (remove_law s S t Hr Hin) as (s' & ? & _ & ?). by exists s'.
  - destruct (list_law s S Hr) as (all & l & s' & ? & ? & _ & ? & ? & ?).
    by exists all, l, s'.
Qed.

(** Two ACKwise pointers and three sharers: the third one is only counted. *)
Lemma directory_schemes_witness :
  let s := Sharers_create (mkDirConfig 4 0) ACKWISE 2 4 in
  repr s ∅ /\ exists b s', addSharer s 3 = Ok (b, s') /\ repr s' {[3]}.
Proof.
  intros s.
  assert (Hr : repr s ∅) by (apply Sharers_create_repr; [done|lia|lia]).
  split; [exact Hr|].
  destruct (directory_schemes_refine_set s ∅ Hr) as (_ & Hadd & _).
  destruct (Hadd 3 ltac:(simpl; lia) (not_elem_of_empty 3)) as (b & s' & E & Hb).
  exists b, s'. split; [exact E|]. vm_compute in E. injection E as <- <-.
  by rewrite (right_id_L ∅ (∪)) in Hb.
Defined.

(** A full entry without broadcast can name a sharer to evict. *)
Lemma lim_victim (next : Z -> Z) (e : Limited) :
  (forall n, 0 < n -> 0 <= next n < n) -> lim_wf e -> lim_set e <> ∅ ->
  exists v, lim_getOneSharer next (mkLNB e) = Ok (v, mkLNB e) /\ v ∈ lim_set e.
Proof.
  intros Hnext Hwf Hne. unfold lim_getOneSharer. simpl. rewrite lim_list_ok by done. simpl.
  assert (Htr : lim_tracked e <> []).
  { intros E. apply Hne. unfold lim_set. by rewrite E. }
  rewrite decide_False by done.
  set (n := Z.of_nat (length (lim_tracked e))).
  assert (0 < n) by (subst n; destruct (lim_tracked e); simpl; [done|lia]).
  specialize (Hnext n ltac:(done)).
  destruct (lookup_lt_is_Some_2 (lim_tracked e) (Z.to_nat (next n))) as [v Hv]; [lia|].
  rewrite (proj2 (vec_get_ok _ _ v)) by (split; [lia|done]). simpl.
  exists v. split; [done|]. apply elem_of_lim_set. by eapply list_elem_of_lookup_2.
Qed.

Lemma lim_add_first (e : Limited) t :
  lim_wf e -> lim_set e = ∅ -> 0 <= t < 2 ^ 15 ->
  exists e', lim_addSharer e t = Ok (true, e') /\ lim_hasSharer e' t = true.
Proof.
  intros Hwf HS Ht. destruct (lim_add_ok e t Hwf Ht) as [(e' & E & _ & _ & Hs)|(_ & Hne & _)];
    [set_solver| |done].
  exists e'. split; [done|].
  rewrite lim_hasSharer_decide by (change INVALID_SHARER with (-1); lia).
  apply bool_decide_eq_true_2, elem_of_lim_set. set_solver.
Qed.

Lemma bv_has bv S t : bv_repr bv S -> t ∈ S -> bv_at bv (wrap32 t) = Ok true.
Proof. intros Hr Hin. by destruct (bv_repr_remove bv S t Hr Hin) as (bv' & E & _). Qed.

(** The first sharer of an entry is recorded exactly. *)
Lemma sh_add_first (s : Sharers) t :
  repr s ∅ -> 0 <= t < max_tile s ->
  exists s', addSharer s t = Ok (true, s') /\ max_tile s' = max_tile s /\ repr s' {[t]} /\
    hasSharer s' t = Ok true.
Proof.
  intros Hr Ht. destruct (add_law s ∅ t Hr Ht (not_elem_of_empty t)) as (b & s' & E & Hm & Hb).
  destruct b; [|by destruct Hb]. rewrite (right_id_L ∅ (∪)) in Hb.
  exists s'. split_and!; [done|done|done|].
  destruct s as [e|e|e|e|e]; try (exfalso; exact Hr); cbn in E, Hr, Ht.
  - destruct (fm_addSharer e t) as [[b' e']|] eqn:E'; [|done]. injection E as -> <-.
    apply (bv_has _ _ t Hb). set_solver.
  - destruct Hr as [Hwf HS]. destruct (lim_add_first _ t Hwf HS Ht) as (e' & E' & Hh).
    rewrite E' in E. injection E as <-. cbn. by rewrite Hh.
  - pose proof (aw_size _ _ Hr) as Hsz. pose proof (aw_nonneg _ _ Hr).
    pose proof (aw_base_wf _ _ Hr) as Hwf. pose proof (aw_subset _ _ Hr).
    destruct (lim_add_first _ t Hwf ltac:(set_solver) Ht) as (e' & E' & Hh).
    unfold aw_addSharer in E. rewrite (aw_global _ _ Hr), bool_decide_eq_false_2, E' in E.
    + injection E as <-. cbn. by rewrite Hh.
    + rewrite size_empty in Hsz. rewrite (size_lim_set _ Hwf) in Hsz. lia.
  - destruct (ll_addSharer e t) as [[b' e']|] eqn:E'; [|done]. injection E as -> <-.
    destruct Hb as [_ Hb]. cbn. unfold ll_hasSharer, ll_software.
    destruct (ll_software_trap_enabled e') eqn:Htr.
    + destruct Hb as (bv & -> & Hbv & _). cbn. apply (bv_has _ _ t Hbv). set_solver.
    + destruct Hb as (Hwf & HS & Hrg). f_equal. rewrite lim_hasSharer_decide.
      * apply bool_decide_eq_true_2, elem_of_lim_set. set_solver.
      * change INVALID_SHARER with (-1). specialize (Hrg t ltac:(set_solver)). lia.
Qed.

(** An entry refuses a sharer only when it can name another one. *)
Lemma sh_refused_victim (next : Z -> Z) (s s' : Sharers) (S : gset Z) t :
  (forall n, 0 < n -> 0 <= next n < n) -> repr s S -> 0 <= t < max_tile s -> t ∉ S ->
  addSharer s t = Ok (false, s') ->
  s' = s /\ exists v, sh_getOneSharer next s = Ok (v, s) /\ v ∈ S.
Proof.
  intros Hnext Hr Ht Hni E. destruct (add_law s S t Hr Ht Hni) as (b & s2 & E2 & _ & Hb).
  rewrite E in E2. injection E2 as <- <-. destruct Hb as [-> Hne]. split; [done|].
  destruct s as [e|e|e|e|e]; try (exfalso; exact Hr); cbn in E, Hr, Ht.
  - destruct (fm_addSharer e t) as [[b e']|] eqn:E'; [|done]. injection E as -> _.
    unfold fm_addSharer in E'. by inv_ok.
  - destruct e as [e], Hr as [Hwf <-]. destruct (lim_victim next e Hnext Hwf Hne) as (v & Ev & Hv).
    exists v. unfold sh_getOneSharer. by rewrite Ev.
  - destruct (aw_add_ok e S t Hr Ht Hni) as (e' & E' & _). by rewrite E' in E.
  - destruct (ll_add_ok e S t Hr Ht Hni) as (e' & E' & _). by rewrite E' in E.
Qed.

(** When a limited entry without broadcast is full, [addSharer] answers
    [false] and [getOneSharer] names a tile that is a sharer, whatever the
    random number generator returns in its range. *)
Theorem getOneSharer_is_sharer (next : Z -> Z) (e : LimitedNoBroadcast) (S : gset Z) (t : Z) :
  (forall n, 0 < n -> 0 <= next n < n) ->
  repr e S -> 0 <= t < 2 ^ 15 -> t ∉ S ->
  lim_num_tracked (lnb_base e) = Z.of_nat (length (lim_sharers (lnb_base e))) ->
  addSharer e t = Ok (false, e) /\
  exists victim, lim_getOneSharer next e = Ok (victim, e) /\ victim ∈ S /\ victim <> t.
Proof.
  intros Hnext [Hwf HS] Ht Hni Hfull. destruct e as [e]. simpl in *. subst S.
  destruct (lim_add_ok e t Hwf Ht Hni) as [(e' & _ & Hwf' & Hlen & Hs)|(-> & Hne & _)].
  { pose proof (size_add_one _ _ Hni) as Hsz. rewrite <- Hs in Hsz.
    pose proof (size_lim_set _ Hwf). pose proof (lim_count _ Hwf') as Hc.
    rewrite (size_lim_set _ Hwf') in Hc.
    pose proof (length_filter (fun s => s <> INVALID_SHARER) (lim_sharers e')) as Hf.
    fold (lim_tracked e') in Hf. lia. }
  split; [done|]. destruct (lim_victim next e Hnext Hwf Hne) as (v & E & Hv).
  exists v. split_and!; [done|done|set_solver].
Qed.

Lemma getOneSharer_witness :
  let e := mkLNB (mkLimited [5; 2] 2) in
  addSharer e 7 = Ok (false, e) /\
  exists victim, lim_getOneSharer (fun n => n - 1) e = Ok (victim, e) /\
    victim ∈ ({[5; 2]} : gset Z) /\ victim <> 7.
Proof.
  intros e. apply (getOneSharer_is_sharer (fun n => n - 1) e {[5; 2]} 7).
  - intros n ?. lia.
  - split; [split|]; simpl; try done.
    + apply (bool_decide_unpack _). vm_compute. done.
    + repeat constructor; lia.
  - lia.
  - apply (bool_decide_unpack _). vm_compute. done.
  - done.
Defined.

(** ** Limited broadcast

    In broadcast mode the entry expects one reply from every tile. *)

Fixpoint lb_replies (e : LimitedBroadcast) (tiles : list Z) : result LimitedBroadcast :=
  match tiles with
  | [] => Ok e
  | t :: tiles' => e ← removeSharer e t true; lb_replies e tiles'
  end.

Lemma lb_base_drop e t :
  lim_wf e -> 0 <= t ->
  exists e', (if lim_hasSharer e t then lim_removeSharer e t else Ok e) = Ok e' /\
    lim_wf e' /\ lim_set e' = lim_set e ∖ {[t]}.
Proof.
  intros Hwf Ht.
  rewrite lim_hasSharer_decide by (change INVALID_SHARER with (-1); lia).
  case_bool_decide as Hin; rewrite <- elem_of_lim_set in Hin.
  - destruct (lim_remove_ok e t Hwf Hin) as (e' & ? & ? & _ & ?). by exists e'.
  - exists e. split_and!; [done|done|set_solver].
Qed.

(** C40: in broadcast mode, with a counter of 32 bits, one reply from each of [n] distinct tiles that
    include the tracked ones brings an entry that expects [n] replies back to
    an empty, non-broadcast entry; a removal without [reply_expected] (what
    the MSI directory issues) leaves the count unchanged, so the entry can
    never drain, which is why that protocol refuses the scheme. *)
Theorem limited_broadcast_reply_protocol e tiles t :
  lim_wf (lb_base e) -> lb_global_enabled e = true -> is_word 32 (lb_num_sharers e) ->
  lb_num_sharers e = Z.of_nat (length tiles) -> tiles <> [] ->
  Forall (fun t => 0 <= t) tiles -> lim_set (lb_base e) ⊆ list_to_set tiles -> 0 <= t ->
  (exists e', lb_replies e tiles = Ok e' /\ inBroadcastMode e' = false /\
     getNumSharers e' = Ok 0 /\ lim_set (lb_base e') = ∅) /\
  (exists e', removeSharer e t false = Ok e' /\ getNumSharers e' = getNumSharers e).
Proof.
  intros Hwf Hg Hw Hn Hne Hall Hsub Ht. split.
  - revert e Hwf Hg Hw Hn Hsub. induction Hall as [|x tiles Hx _ IH]; [done|].
    intros e Hwf Hg Hw Hn Hsub. simpl in *. unfold lb_removeSharer. rewrite Hg.
    rewrite (wrap_id 32) by (unfold is_word in *; lia).
    destruct (lb_base_drop (lb_base e) x Hwf Hx) as (b & -> & Hwf' & Hset). simpl.
    destruct tiles as [|y tiles].
    + rewrite (proj2 (Z.eqb_eq _ _)) by (simpl in Hn; lia).
      assert (lim_set b = ∅) as Hb by set_solver.
      rewrite (size_lim_set _ Hwf'), Hb. simpl. eexists. split_and!; try done.
      simpl. by rewrite (size_lim_set _ Hwf'), Hb.
    + rewrite (proj2 (Z.eqb_neq _ _)) by (simpl in Hn; lia). simpl.
      apply IH; simpl; [done|done|done|unfold is_word in *; lia|simpl in Hn; lia|set_solver].
  - simpl. unfold lb_removeSharer. rewrite Hg.
    destruct (lb_base_drop (lb_base e) t Hwf Ht) as (b & -> & _). simpl.
    by eexists.
Qed.

Lemma limited_broadcast_witness :
  let e := mkLB (mkLimited [2; 0] 2) true 3 3 in
  exists e', lb_replies e [0; 1; 2] = Ok e' /\ getNumSharers e' = Ok 0.
Proof.
  intros e.
  destruct (limited_broadcast_reply_protocol e [0; 1; 2] 1) as [(e' & H1 & _ & H2 & _) _].
  - split; simpl; try done.
    + apply (bool_decide_unpack _). vm_compute. done.
    + repeat constructor; lia.
  - done.
  - split; simpl; lia.
  - done.
  - done.
  - repeat constructor; lia.
  - apply (bool_decide_unpack _). vm_compute. done.
  - lia.
  - by exists e'.
Defined.
