(* ===== verification/CacheLine.v ===== *)
(** * Cache lines: cache/cache_state.h, cache/cache_line_info.{h,cc},
    mem_component.h, pr_l1_pr_l2_dram_directory_msi/cache_line_info.{h,cc}

    The state of a line, the components that exchange messages, and the
    per-line records.  [CacheLineInfo] is the base class (used as it is by the
    private L1 caches); [PrL2CacheLineInfo] adds the L1 cache that holds a
    copy.  The class [LineInfo] is what [CacheSet] and [Cache] use of them. *)

From S2P Require Import Prelude.

(** ** CacheState *)

Inductive CacheState : Type :=
  | CS_INVALID | CS_SHARED | CS_OWNED | CS_EXCLUSIVE | CS_MODIFIED
  | CS_DATA_INVALID | CS_CLEAN | CS_DIRTY.

#[export] Instance CacheState_eq_dec : EqDecision CacheState.
Proof. solve_decision. Defined.

(** The numeric value of the enumeration, used to index the counters. *)
Definition cstate_index (c : CacheState) : Z :=
  match c with
  | CS_INVALID => 0 | CS_SHARED => 1 | CS_OWNED => 2 | CS_EXCLUSIVE => 3
  | CS_MODIFIED => 4 | CS_DATA_INVALID => 5 | CS_CLEAN => 6 | CS_DIRTY => 7
  end.
Definition NUM_STATES : Z := 8.

Definition readable (c : CacheState) : bool :=
  match c with CS_MODIFIED | CS_EXCLUSIVE | CS_OWNED | CS_SHARED => true | _ => false end.
Definition writable (c : CacheState) : bool :=
  match c with CS_MODIFIED | CS_EXCLUSIVE => true | _ => false end.
Definition dirty (c : CacheState) : bool :=
  match c with CS_MODIFIED | CS_OWNED | CS_DIRTY => true | _ => false end.

(** ** MemComponent *)

Inductive MemComponent : Type :=
  | MC_INVALID | MC_CORE | MC_L1_ICACHE | MC_L1_DCACHE | MC_L2_CACHE
  | MC_DRAM_DIRECTORY | MC_DRAM_CNTLR.

#[export] Instance MemComponent_eq_dec : EqDecision MemComponent.
Proof. solve_decision. Defined.

(** ** CacheLineInfo *)

Definition INVALID_TAG : Z := 2 ^ 64 - 1.        (* (IntPtr) ~0 *)

Record CacheLineInfo : Type := mkCLI {
  cl_tag : Z;
  cl_cstate : CacheState;
  cl_com_size : Z;
  cl_start_address : Z;
  cl_is_com : bool }.

Definition CacheLineInfo_new : CacheLineInfo := mkCLI INVALID_TAG CS_INVALID 0 0 false.

Definition cl_isValid (i : CacheLineInfo) : bool := negb (cl_tag i =? INVALID_TAG).

Definition cl_invalidate (i : CacheLineInfo) : CacheLineInfo :=
  mkCLI INVALID_TAG CS_INVALID (cl_com_size i) (cl_start_address i) (cl_is_com i).

Definition cl_setTag (tag : Z) (i : CacheLineInfo) : CacheLineInfo :=
  mkCLI tag (cl_cstate i) (cl_com_size i) (cl_start_address i) (cl_is_com i).
Definition cl_setCState (c : CacheState) (i : CacheLineInfo) : CacheLineInfo :=
  mkCLI (cl_tag i) c (cl_com_size i) (cl_start_address i) (cl_is_com i).

(** [assign] copies every field of its argument. *)
Definition cl_assign (dst src : CacheLineInfo) : CacheLineInfo :=
  mkCLI (cl_tag src) (cl_cstate src) (cl_com_size src) (cl_start_address src) (cl_is_com src).

(** ** PrL2CacheLineInfo of the MSI protocol *)

Record PrL2CacheLineInfo : Type := mkPrL2 {
  l2_base : CacheLineInfo;
  l2_cached_loc : MemComponent }.

Definition PrL2_new : PrL2CacheLineInfo := mkPrL2 CacheLineInfo_new MC_INVALID.

Definition l2_setCachedLoc (loc : MemComponent) (i : PrL2CacheLineInfo)
    : result PrL2CacheLineInfo :=
  assert_c (bool_decide (loc <> MC_INVALID)) ;;
  assert_c (bool_decide (l2_cached_loc i = MC_INVALID)) ;;
  Ok (mkPrL2 (l2_base i) loc).

Definition l2_setForcedCachedLoc (loc : MemComponent) (i : PrL2CacheLineInfo)
    : result PrL2CacheLineInfo :=
  assert_c (bool_decide (loc = MC_L1_DCACHE)) ;;
  Ok (mkPrL2 (l2_base i) loc).

Definition l2_clearCachedLoc (loc : MemComponent) (i : PrL2CacheLineInfo)
    : result PrL2CacheLineInfo :=
  assert_c (bool_decide (loc <> MC_INVALID)) ;;
  assert_c (bool_decide (l2_cached_loc i = loc)) ;;
  Ok (mkPrL2 (l2_base i) MC_INVALID).

Definition l2_invalidate (i : PrL2CacheLineInfo) : PrL2CacheLineInfo :=
  mkPrL2 (cl_invalidate (l2_base i)) MC_INVALID.

Definition l2_assign (dst src : PrL2CacheLineInfo) : PrL2CacheLineInfo :=
  mkPrL2 (cl_assign (l2_base dst) (l2_base src)) (l2_cached_loc src).

(** ** The interface used by CacheSet and Cache *)

Class LineInfo (I : Type) := {
  li_new : I;                                (* CacheLineInfo::create *)
  li_base : I -> CacheLineInfo;
  li_invalidate : I -> I;
  li_assign : I -> I -> I;
  li_setTag : Z -> I -> I;
  li_setCState : CacheState -> I -> I }.

Definition getTagOf {I} `{LineInfo I} (i : I) : Z := cl_tag (li_base i).
Definition getCState {I} `{LineInfo I} (i : I) : CacheState := cl_cstate (li_base i).
Definition isValid {I} `{LineInfo I} (i : I) : bool := cl_isValid (li_base i).

#[export] Instance PrL1_LineInfo : LineInfo CacheLineInfo := {
  li_new := CacheLineInfo_new;
  li_base i := i;
  li_invalidate := cl_invalidate;
  li_assign := cl_assign;
  li_setTag := cl_setTag;
  li_setCState := cl_setCState }.

#[export] Instance PrL2_LineInfo : LineInfo PrL2CacheLineInfo := {
  li_new := PrL2_new;
  li_base := l2_base;
  li_invalidate := l2_invalidate;
  li_assign := l2_assign;
  li_setTag t i := mkPrL2 (cl_setTag t (l2_base i)) (l2_cached_loc i);
  li_setCState c i := mkPrL2 (cl_setCState c (l2_base i)) (l2_cached_loc i) }.

(** What every kind of line promises: [assign] makes a copy, and the
    operations on the base part act on tag and state as named. *)
Class LineInfoLaws (I : Type) `{LineInfo I} := {
  assign_copy (dst src : I) : li_assign dst src = src;
  new_tag : getTagOf (I := I) li_new = INVALID_TAG;
  new_state : getCState (I := I) li_new = CS_INVALID;
  invalidate_tag (i : I) : getTagOf (li_invalidate i) = INVALID_TAG;
  invalidate_state (i : I) : getCState (li_invalidate i) = CS_INVALID;
  setTag_tag t (i : I) : getTagOf (li_setTag t i) = t;
  setTag_state t (i : I) : getCState (li_setTag t i) = getCState i;
  setCState_tag c (i : I) : getTagOf (li_setCState c i) = getTagOf i;
  setCState_state c (i : I) : getCState (li_setCState c i) = c }.

#[export] Instance PrL1_laws : LineInfoLaws CacheLineInfo.
Proof. split; try done. intros dst src. by destruct src. Qed.

#[export] Instance PrL2_laws : LineInfoLaws PrL2CacheLineInfo.
Proof. split; try done. intros dst src. by destruct src as [[] ?]. Qed.

Lemma isValid_tag {I} `{LineInfo I} (i : I) :
  isValid i = true <-> getTagOf i <> INVALID_TAG.
Proof. unfold isValid, getTagOf, cl_isValid. rewrite negb_true_iff. apply Z.eqb_neq. Qed.

#[export] Hint Rewrite @assign_copy @new_tag @new_state @invalidate_tag
  @invalidate_state @setTag_tag @setTag_state @setCState_tag @setCState_state
  using (typeclasses eauto) : simulator.
