(* ===== verification/Replacement.v ===== *)
(** * Replacement policies: cache/{cache,lru,clru,round_robin}_replacement_policy.cc

    A policy object serves all sets of a cache.  It is told which ways are
    valid, chooses the way to replace, and is told of every access.  [LRU] and
    [CLRU] have the same code; the single-way methods, the ones [CacheSet]
    calls, are modelled. *)

From S2P Require Import Prelude.

Definition k_KILO : Z := 1024.

(** CacheReplacementPolicy::CacheReplacementPolicy, on [UInt32]. *)
Definition policy_num_sets (cache_size associativity cache_line_size : Z) : Z :=
  wrap32 (cache_size * k_KILO) / wrap32 (cache_line_size * associativity).

(** The interface. *)
Class ReplacementPolicy (P : Type) := {
  getReplacementWay : P -> list bool -> Z -> result (Z * P);
  update : P -> Z -> Z -> result P }.

(** ** LRU *)

Record LRU : Type := mkLRU {
  lru_associativity : Z;
  lru_bits_vec : list (list Z) }.       (* UInt8 per way, per set *)

Definition LRU_new (cache_size associativity cache_line_size : Z) : LRU :=
  mkLRU associativity
    (replicate (Z.to_nat (policy_num_sets cache_size associativity cache_line_size))
       (map wrap8 (seqZ 0 associativity))).

(** The loop of [getReplacementWay]: an invalid way is returned at once,
    otherwise the last way whose bits are [_associativity - 1]. *)
Fixpoint lru_scan (idx : list Z) (valid : list bool) (lru_bits : list Z)
    (associativity way : Z) : result Z :=
  match idx with
  | [] => log_assert (way <? associativity) ;; Ok way
  | i :: idx' =>
      v ← vec_get valid i;
      if negb v then Ok i
      else
        b ← vec_get lru_bits i;
        lru_scan idx' valid lru_bits associativity
          (if b =? wrap32 (associativity - 1) then i else way)
  end.

Definition lru_getReplacementWay (p : LRU) (valid : list bool) (set_num : Z)
    : result (Z * LRU) :=
  lru_bits ← vec_get (lru_bits_vec p) set_num;
  way ← lru_scan (seqZ 0 (lru_associativity p)) valid lru_bits
                 (lru_associativity p) (lru_associativity p);
  Ok (way, p).

(** The loop increments the bits below those of the accessed way; it never
    changes the bits it compares with. *)
Definition lru_age (b : Z) (lru_bits : list Z) : list Z :=
  map (fun x => if x <? b then wrap8 (x + 1) else x) lru_bits.

Definition lru_touch (lru_bits : list Z) (accessed_way : Z) : result (list Z) :=
  b ← vec_get lru_bits accessed_way;
  vec_set (lru_age b lru_bits) accessed_way 0.

Definition lru_update (p : LRU) (set_num accessed_way : Z) : result LRU :=
  lru_bits ← vec_get (lru_bits_vec p) set_num;
  lru_bits ← lru_touch lru_bits accessed_way;
  vec ← vec_set (lru_bits_vec p) set_num lru_bits;
  Ok (mkLRU (lru_associativity p) vec).

#[export] Instance LRU_policy : ReplacementPolicy LRU := {
  getReplacementWay := lru_getReplacementWay;
  update := lru_update }.

(** ** Round robin *)

Record RoundRobin : Type := mkRR {
  rr_num_sets : Z;
  rr_associativity : Z;
  rr_replacement_index_vec : list Z }.

Definition RoundRobin_new (cache_size associativity cache_line_size : Z) : RoundRobin :=
  let n := policy_num_sets cache_size associativity cache_line_size in
  mkRR n associativity (replicate (Z.to_nat n) (wrap32 (associativity - 1))).

Definition rr_getReplacementWay (p : RoundRobin) (valid : list bool) (set_num : Z)
    : result (Z * RoundRobin) :=
  assert_c (set_num <? rr_num_sets p) ;;
  curr ← vec_get (rr_replacement_index_vec p) set_num;
  vec ← vec_set (rr_replacement_index_vec p) set_num
          (if curr =? 0 then wrap32 (rr_associativity p - 1) else curr - 1);
  Ok (curr, mkRR (rr_num_sets p) (rr_associativity p) vec).

#[export] Instance RoundRobin_policy : ReplacementPolicy RoundRobin := {
  getReplacementWay := rr_getReplacementWay;
  update p _ _ := Ok p }.

(** ** CacheReplacementPolicy::create and the virtual dispatch *)

Inductive Policy : Type :=
  | P_ROUND_ROBIN (p : RoundRobin)
  | P_LRU (p : LRU)
  | P_CLRU (p : LRU).

Definition Policy_create (policy_str : string) (cache_size associativity cache_line_size : Z)
    : result Policy :=
  if decide (policy_str = "round_robin"%string) then
    Ok (P_ROUND_ROBIN (RoundRobin_new cache_size associativity cache_line_size))
  else if decide (policy_str = "lru"%string) then
    Ok (P_LRU (LRU_new cache_size associativity cache_line_size))
  else if decide (policy_str = "clru"%string) then
    Ok (P_CLRU (LRU_new cache_size associativity cache_line_size))
  else Err LogError.

#[export] Instance Policy_policy : ReplacementPolicy Policy := {
  getReplacementWay p valid set_num :=
    match p with
    | P_ROUND_ROBIN q => '(w, q) ← getReplacementWay q valid set_num; Ok (w, P_ROUND_ROBIN q)
    | P_LRU q => '(w, q) ← getReplacementWay q valid set_num; Ok (w, P_LRU q)
    | P_CLRU q => '(w, q) ← getReplacementWay q valid set_num; Ok (w, P_CLRU q)
    end;
  update p set_num way :=
    match p with
    | P_ROUND_ROBIN q => P_ROUND_ROBIN <$> update q set_num way
    | P_LRU q => P_LRU <$> update q set_num way
    | P_CLRU q => P_CLRU <$> update q set_num way
    end }.

(** What a policy promises to [CacheSet]: it always names an existing way and
    accepts every access. *)
Class ReplacementLaws (P : Type) `{ReplacementPolicy P} := {
  policy_wf : P -> Z -> Z -> Prop;          (* associativity, number of sets *)
  way_law p a n valid s :
    policy_wf p a n -> 0 <= s < n -> Z.of_nat (length valid) = a ->
    exists w p', getReplacementWay p valid s = Ok (w, p') /\ 0 <= w < a /\ policy_wf p' a n;
  update_law p a n s w :
    policy_wf p a n -> 0 <= s < n -> 0 <= w < a ->
    exists p', update p s w = Ok p' /\ policy_wf p' a n }.

(** ** LRU bits are positions in the recency order

    [recency bits order]: [order] lists the ways from the most to the least
    recently used, and the bits of a way are its position in [order]. *)

Definition recency (bits : list Z) (order : list nat) : Prop :=
  order ≡ₚ seq 0 (length bits) /\
  forall k w : nat, order !! k = Some w -> bits !! w = Some (Z.of_nat k).

Definition touch_order (w : nat) (order : list nat) : list nat :=
  w :: filter (fun v => v <> w) order.

Section recency.
Context (bits : list Z) (order : list nat) (Hr : recency bits order).

Lemma recency_NoDup : NoDup order.
Proof using Hr. destruct Hr as [-> _]. apply NoDup_seq. Qed.

Lemma recency_length : length order = length bits.
Proof using Hr. destruct Hr as [-> _]. apply length_seq. Qed.

Lemma recency_elem w : w ∈ order <-> (w < length bits)%nat.
Proof using Hr. destruct Hr as [-> _]. rewrite elem_of_seq. lia. Qed.

(** An existing way splits the order into the more and the less recent ways. *)
Lemma recency_split w :
  (w < length bits)%nat ->
  exists l1 l2, order = l1 ++ w :: l2 /\ (w ∉ l1) /\ (w ∉ l2) /\
    bits !! w = Some (Z.of_nat (length l1)).
Proof using Hr.
  intros Hw. apply recency_elem in Hw. apply list_elem_of_split in Hw as (l1 & l2 & Heq).
  exists l1, l2. pose proof recency_NoDup as Hnd. rewrite Heq in Hnd.
  apply NoDup_app in Hnd as (_ & Hd & Hnd). apply NoDup_cons in Hnd as [Hw2 _].
  split_and!; [done| |done|].
  - intros Hin. apply (Hd w Hin). set_solver.
  - apply Hr. rewrite Heq. by apply list_lookup_middle.
Qed.

Lemma recency_lt w b : bits !! w = Some b -> 0 <= b < Z.of_nat (length bits).
Proof using Hr.
  intros Hb. destruct (recency_split w) as (l1 & l2 & Heq & _ & _ & Hw);
    [by eapply lookup_lt_Some|].
  pose proof recency_length as Hlen. rewrite Heq, length_app in Hlen. simpl in Hlen.
  naive_solver lia.
Qed.
End recency.

Lemma lru_touch_recency bits order w :
  recency bits order -> (length bits <= 256)%nat -> (w < length bits)%nat ->
  exists bits', lru_touch bits (Z.of_nat w) = Ok bits' /\ length bits' = length bits /\
    recency bits' (touch_order w order).
Proof.
  intros Hr Hn Hw.
  destruct (recency_split _ _ Hr w Hw) as (l1 & l2 & Heq & Hw1 & Hw2 & Hb).
  pose proof (recency_length _ _ Hr) as Hlen. rewrite Heq, length_app in Hlen. simpl in Hlen.
  unfold lru_touch. rewrite (vec_get_nat _ _ _ Hb). simpl.
  rewrite vec_set_in_range by (unfold lru_age; by rewrite length_map).
  eexists. split; [done|].
  assert (Hl : length (<[w:=0]> (lru_age (Z.of_nat (length l1)) bits)) = length bits).
  { rewrite length_insert. apply length_map. }
  assert (Hto : touch_order w order = w :: l1 ++ l2).
  { unfold touch_order. rewrite Heq, filter_app, filter_cons_False by naive_solver.
    rewrite !filter_all; [done| |]; apply Forall_forall; set_solver. }
  split; [done|]. unfold recency. rewrite Hl, Hto. split.
  { rewrite Permutation_middle, <- Heq. apply Hr. }
  assert (Hin : forall k v, order !! k = Some v -> v <> w ->
    <[w:=0]> (lru_age (Z.of_nat (length l1)) bits) !! v =
    Some (if decide (k < length l1)%nat then Z.of_nat (S k) else Z.of_nat k)).
  { intros k v Hk Hne. rewrite list_lookup_insert_ne by done.
    unfold lru_age. rewrite list_lookup_fmap. apply Hr in Hk as Hv. rewrite Hv. simpl.
    apply lookup_lt_Some in Hk. rewrite Heq, length_app in Hk. simpl in Hk.
    destruct (decide (k < length l1)%nat), (Z.ltb_spec (Z.of_nat k) (Z.of_nat (length l1)));
      try lia; [|done].
    rewrite wrap_id by (unfold is_word; lia). f_equal. lia. }
  intros [|k] v; simpl.
  { intros [= <-]. apply list_lookup_insert_eq. unfold lru_age. by rewrite length_map. }
  intros Hk. destruct (decide (k < length l1)%nat) as [Hlt|Hge].
  - rewrite lookup_app_l in Hk by done.
    rewrite (Hin k v); [by rewrite decide_True| |].
    + by rewrite Heq, lookup_app_l.
    + intros ->. by apply Hw1, (list_elem_of_lookup_2 _ k).
  - rewrite lookup_app_r in Hk by lia.
    rewrite (Hin (S k) v); [by rewrite decide_False by lia| |].
    + rewrite Heq, lookup_app_r by lia. by replace (S k - length l1)%nat with (S (k - length l1)) by lia.
    + intros ->. by apply Hw2, (list_elem_of_lookup_2 _ (k - length l1)).
Qed.

(** ** Which way LRU replaces *)

(** The reference: the first invalid way, or else the least recently used. *)
Definition lru_victim (valid : list bool) (order : list nat) : Z :=
  match head (filter (fun i => valid !! Z.to_nat i = Some false) (seqZ 0 (Z.of_nat (length valid)))) with
  | Some i => i
  | None => Z.of_nat (default 0%nat (last order))
  end.

Lemma lru_scan_spec valid bits a lw idx way :
  Z.of_nat (length valid) = a -> Z.of_nat (length bits) = a ->
  (forall i b, bits !! Z.to_nat i = Some b -> 0 <= i -> b = wrap32 (a - 1) <-> i = lw) ->
  Forall (fun i => 0 <= i < a) idx ->
  lru_scan idx valid bits a way =
  match head (filter (fun i => valid !! Z.to_nat i = Some false) idx) with
  | Some i => Ok i
  | None => let w := if decide (lw ∈ idx) then lw else way in
            log_assert (w <? a) ;; Ok w
  end.
Proof.
  intros Hv Hb Hlw Hidx. revert way. induction Hidx as [|i idx Hi Hidx IH]; intros way; [done|].
  destruct (lookup_lt_is_Some_2 valid (Z.to_nat i)) as [v Hiv]; [lia|].
  destruct (lookup_lt_is_Some_2 bits (Z.to_nat i)) as [b Hib]; [lia|].
  simpl. rewrite (proj2 (vec_get_ok valid i v)) by (split; [lia|done]).
  rewrite bind_Ok, filter_cons, Hiv. destruct v; cbn [negb]; [|by rewrite decide_True].
  rewrite decide_False by done.
  rewrite (proj2 (vec_get_ok bits i b)) by (split; [lia|done]). rewrite bind_Ok, IH.
  case_match; [done|]. specialize (Hlw i b Hib ltac:(lia)).
  destruct (Z.eqb_spec b (wrap32 (a - 1))) as [Hbe|Hbe]; destruct (decide (lw ∈ idx)) as [Hl|Hl].
  - by rewrite decide_True by set_solver.
  - apply Hlw in Hbe as ->. by rewrite decide_True by set_solver.
  - by rewrite decide_True by set_solver.
  - by rewrite decide_False by set_solver.
Qed.

Lemma lru_way_recency bits order valid :
  recency bits order -> (0 < length bits <= 256)%nat -> length valid = length bits ->
  let a := Z.of_nat (length bits) in
  lru_scan (seqZ 0 a) valid bits a a = Ok (lru_victim valid order) /\
  0 <= lru_victim valid order < a.
Proof.
  intros Hr Hn Hv a. unfold lru_victim. rewrite Hv. fold a.
  pose proof (recency_length _ _ Hr) as Hlen.
  destruct (last order) as [lw|] eqn:Hlast; [|apply last_None in Hlast; subst; simpl in *; lia].
  simpl. rewrite last_lookup, Hlen in Hlast.
  assert (Hlw : (lw < length bits)%nat) by (by eapply recency_elem, list_elem_of_lookup_2).
  rewrite (lru_scan_spec _ _ _ (Z.of_nat lw)); [|lia|lia| |].
  - case_match eqn:Hh.
    + apply head_Some in Hh as [t Ht].
      assert (Hin : z ∈ filter (fun i => valid !! Z.to_nat i = Some false) (seqZ 0 a))
        by (rewrite Ht; set_solver).
      apply list_elem_of_filter in Hin as [_ Hin%elem_of_seqZ]. split; [done|lia].
    + rewrite decide_True by (apply elem_of_seqZ; lia).
      unfold log_assert. rewrite (proj2 (Z.ltb_lt _ _)) by lia. split; [done|lia].
  - intros i b Hib Hi. rewrite wrap_id by (unfold is_word; lia). split.
    + intros ->. destruct (recency_split _ _ Hr (Z.to_nat i)) as (l1 & l2 & Heq & _ & _ & Hb);
        [by eapply lookup_lt_Some|].
      assert (Hk : length l1 = pred (length bits)) by naive_solver lia.
      rewrite <- Hk, Heq, list_lookup_middle in Hlast by done. naive_solver lia.
    + intros ->. rewrite Nat2Z.id in Hib. apply Hr in Hlast. naive_solver lia.
  - apply Forall_forall. intros i Hi%elem_of_seqZ. lia.
Qed.

(** The initial bits order the ways by number. *)
Lemma LRU_init_recency a :
  0 <= a <= 256 -> recency (map wrap8 (seqZ 0 a)) (seq 0 (Z.to_nat a)).
Proof.
  intros Ha. split.
  - by rewrite length_map, length_seqZ.
  - intros k w [-> Hk]%lookup_seq. rewrite list_lookup_fmap.
    rewrite (proj2 (lookup_seqZ 0 a (0 + k) (Z.of_nat k))) by lia. simpl.
    by rewrite wrap_id by (unfold is_word; lia).
Qed.

(** ** The policies keep their promise *)

Definition lru_set_wf (a : Z) (bits : list Z) : Prop :=
  Z.of_nat (length bits) = a /\ exists order, recency bits order.

Definition lru_wf (p : LRU) (a n : Z) : Prop :=
  lru_associativity p = a /\ 0 < a <= 256 /\ Z.of_nat (length (lru_bits_vec p)) = n /\
  Forall (lru_set_wf a) (lru_bits_vec p).

Definition rr_wf (p : RoundRobin) (a n : Z) : Prop :=
  rr_associativity p = a /\ 0 < a < 2 ^ 32 /\ rr_num_sets p = n /\
  Z.of_nat (length (rr_replacement_index_vec p)) = n /\
  Forall (fun i => 0 <= i < a) (rr_replacement_index_vec p).

(** Reading element [i] of a vector whose elements satisfy [P]. *)
Lemma vec_get_Forall {A} (P : A -> Prop) (l : list A) i :
  Forall P l -> 0 <= i < Z.of_nat (length l) ->
  exists x, vec_get l i = Ok x /\ l !! Z.to_nat i = Some x /\ P x.
Proof.
  intros HP Hi. destruct (lookup_lt_is_Some_2 l (Z.to_nat i)) as [x Hx]; [lia|].
  exists x. split_and!; [apply vec_get_ok; split; [lia|done]|done|by eapply Forall_lookup_1].
Qed.

#[export] Program Instance LRU_laws : ReplacementLaws LRU := { policy_wf := lru_wf }.
Next Obligation.
  intros p a n valid s Hwf Hs Hv. pose proof Hwf as (Ha & Hab & Hn & HF).
  destruct (vec_get_Forall _ _ s HF) as (bits & Hg & _ & Hlb & order & Hr); [lia|].
  destruct (lru_way_recency bits order valid) as [Hscan Hw]; [done|lia|lia|].
  exists (lru_victim valid order), p. simpl. unfold lru_getReplacementWay.
  rewrite Hg, bind_Ok, Ha, <- Hlb, Hscan. split_and!; [done|lia|lia|by rewrite Hlb].
Qed.
Next Obligation.
  intros p a n s w Hwf Hs Hw. pose proof Hwf as (Ha & Hab & Hn & HF).
  destruct (vec_get_Forall _ _ s HF) as (bits & Hg & _ & Hlb & order & Hr); [lia|].
  destruct (lru_touch_recency bits order (Z.to_nat w)) as (bits' & Ht & Hl & Hr'); [done|lia|lia|].
  rewrite Z2Nat.id in Ht by lia. simpl. unfold lru_update.
  rewrite Hg, bind_Ok, Ht, bind_Ok, vec_set_eq by lia. eexists. split; [done|].
  split_and!; simpl; [done|lia|lia|rewrite length_insert; lia|].
  apply Forall_insert; [done|]. split; [lia|by eexists].
Qed.

#[export] Program Instance RoundRobin_laws : ReplacementLaws RoundRobin := { policy_wf := rr_wf }.
Next Obligation.
  intros p a n valid s Hwf Hs Hv. pose proof Hwf as (Ha & Hab & Hns & Hn & HF).
  destruct (vec_get_Forall _ _ s HF) as (c & Hg & _ & Hc); [lia|].
  simpl. unfold rr_getReplacementWay, assert_c.
  rewrite (proj2 (Z.ltb_lt _ _)) by lia. rewrite bind_Ok, Hg, bind_Ok, vec_set_eq by lia.
  do 2 eexists. split; [done|]. split; [lia|].
  split_and!; simpl; [done|lia|lia|done|rewrite length_insert; lia|].
  apply Forall_insert; [done|].
  destruct (Z.eqb_spec c 0); [rewrite wrap_id by (unfold is_word; lia)|]; lia.
Qed.
Next Obligation. intros p a n s w Hwf _ _. by exists p. Qed.

Definition policy_repr_wf (p : Policy) (a n : Z) : Prop :=
  match p with
  | P_ROUND_ROBIN q => rr_wf q a n
  | P_LRU q | P_CLRU q => lru_wf q a n
  end.

#[export] Program Instance Policy_laws : ReplacementLaws Policy := { policy_wf := policy_repr_wf }.
Next Obligation.
  intros p a n valid s Hwf Hs Hv. destruct p as [q|q|q]; cbn in Hwf.
  - destruct (@way_law RoundRobin _ RoundRobin_laws q a n valid s Hwf Hs Hv) as (w & q' & E & Hw & Hwf').
    exists w, (P_ROUND_ROBIN q'). cbn in *. by rewrite E.
  - destruct (@way_law LRU _ LRU_laws q a n valid s Hwf Hs Hv) as (w & q' & E & Hw & Hwf').
    exists w, (P_LRU q'). cbn in *. by rewrite E.
  - destruct (@way_law LRU _ LRU_laws q a n valid s Hwf Hs Hv) as (w & q' & E & Hw & Hwf').
    exists w, (P_CLRU q'). cbn in *. by rewrite E.
Qed.
Next Obligation.
  intros p a n s w Hwf Hs Hw. destruct p as [q|q|q]; cbn in Hwf.
  - destruct (@update_law RoundRobin _ RoundRobin_laws q a n s w Hwf Hs Hw) as (q' & E & Hwf').
    exists (P_ROUND_ROBIN q'). cbn in *. by simplify_eq.
  - destruct (@update_law LRU _ LRU_laws q a n s w Hwf Hs Hw) as (q' & E & Hwf').
    exists (P_LRU q'). cbn in *. by rewrite E.
  - destruct (@update_law LRU _ LRU_laws q a n s w Hwf Hs Hw) as (q' & E & Hwf').
    exists (P_CLRU q'). cbn in *. by rewrite E.
Qed.

(** A fresh policy object of a cache with [n] sets and [a] ways is well formed. *)
Lemma Policy_create_wf str size a line p :
  Policy_create str size a line = Ok p -> 0 < a <= 256 ->
  0 <= policy_num_sets size a line ->
  policy_repr_wf p a (policy_num_sets size a line).
Proof.
  intros Hc Ha Hn. unfold Policy_create in Hc.
  assert (Hlru : lru_wf (LRU_new size a line) a (policy_num_sets size a line)).
  { split_and!; simpl; [done|lia|lia|rewrite length_replicate; lia|].
    apply Forall_replicate. split; [rewrite length_map, length_seqZ; lia|].
    eexists. by apply LRU_init_recency; lia. }
  repeat case_decide; simplify_eq; try done.
  unfold RoundRobin_new.
  split_and!; simpl; [done|lia|lia|done|rewrite length_replicate; lia|].
  apply Forall_replicate. rewrite wrap_id by (unfold is_word; lia). lia.
Qed.

(** ** Refinement of LRU to one recency order per set *)

(** [orders] holds, per set, the ways from the most to the least recent. *)
Definition lru_repr (p : LRU) (orders : list (list nat)) : Prop :=
  0 < lru_associativity p <= 256 /\
  Forall2 (fun bits order => Z.of_nat (length bits) = lru_associativity p /\ recency bits order)
    (lru_bits_vec p) orders.

(** C35: [LRUReplacementPolicy] (and [CLRUReplacementPolicy], the same code)
    implements least-recently-used replacement, for up to 256 ways: the
    constructor starts every set with the ways in order; [getReplacementWay]
    returns the first invalid way, or when all are valid the way accessed
    longest ago; [update] moves the accessed way to the front of its set's
    order and leaves the other sets alone. *)
Theorem LRU_refines_recency (size a line : Z) (p : LRU) (orders : list (list nat)) :
  0 < a <= 256 -> lru_repr p orders -> lru_associativity p = a ->
  lru_repr (LRU_new size a line)
    (replicate (Z.to_nat (policy_num_sets size a line)) (seq 0 (Z.to_nat a))) /\
  (forall (valid : list bool) (s : nat) (order : list nat),
     Z.of_nat (length valid) = a -> orders !! s = Some order ->
     getReplacementWay p valid (Z.of_nat s) = Ok (lru_victim valid order, p)) /\
  (forall (s w : nat) (order : list nat),
     orders !! s = Some order -> Z.of_nat w < a ->
     exists p', update p (Z.of_nat s) (Z.of_nat w) = Ok p' /\
       lru_associativity p' = a /\
       lru_repr p' (<[s := touch_order w order]> orders)).
Proof.
  intros Ha [_ HF] Hpa. split_and!.
  - split; [done|]. simpl. apply Forall2_replicate.
    split; [rewrite length_map, length_seqZ; lia|]. apply LRU_init_recency. lia.
  - intros valid s order Hv Ho.
    destruct (Forall2_lookup_r _ _ _ _ _ HF Ho) as (bits & Hb & Hlb & Hr).
    destruct (lru_way_recency bits order valid) as [Hscan _]; [done|lia|lia|].
    simpl. unfold lru_getReplacementWay. rewrite (vec_get_nat _ _ _ Hb), bind_Ok.
    by rewrite <- Hlb, Hscan.
  - intros s w order Ho Hw.
    destruct (Forall2_lookup_r _ _ _ _ _ HF Ho) as (bits & Hb & Hlb & Hr).
    destruct (lru_touch_recency bits order w) as (bits' & Ht & Hl & Hr'); [done|lia|lia|].
    simpl. unfold lru_update. rewrite (vec_get_nat _ _ _ Hb), bind_Ok, Ht, bind_Ok.
    rewrite vec_set_in_range by (by eapply lookup_lt_Some).
    eexists. split_and!; [done|done|]. split; [simpl; lia|]. simpl.
    apply Forall2_insert; [done|]. split; [lia|done].
Qed.

(** Two sets of four ways; way 2 of set 1 is used, then its order is 2,0,1,3
    and way 3 is replaced. *)
Lemma LRU_refines_recency_witness :
  exists p, update (LRU_new 1 4 128) 1 2 = Ok p /\
    lru_repr p [[0;1;2;3]; [2;0;1;3]]%nat /\
    getReplacementWay p [true;true;true;true] 1 = Ok (3, p) /\
    getReplacementWay p [true;false;true;true] 1 = Ok (1, p).
Proof.
  assert (Hr : lru_repr (LRU_new 1 4 128) [[0;1;2;3]; [0;1;2;3]]%nat).
  { apply (LRU_refines_recency 1 4 128 (mkLRU 4 []) []); [lia| |done].
    split; [simpl; lia|constructor]. }
  destruct (LRU_refines_recency 1 4 128 _ _ ltac:(lia) Hr eq_refl) as (_ & _ & Hu).
  destruct (Hu 1 2 [0;1;2;3] eq_refl ltac:(lia))%nat as (p & Ep & Ha & Hr').
  destruct (LRU_refines_recency 1 4 128 _ _ ltac:(lia) Hr' Ha) as (_ & Hg & _).
  exists p. split_and!; [exact Ep|exact Hr'| |].
  - by apply (Hg [true;true;true;true] 1%nat [2;0;1;3]%nat).
  - by apply (Hg [true;false;true;true] 1%nat [2;0;1;3]%nat).
Defined.

(** ** Round robin visits every way *)

(** [k] successive replacements in one set. *)
Fixpoint rr_replacements (k : nat) (p : RoundRobin) (set_num : Z) : result (list Z * RoundRobin) :=
  match k with
  | O => Ok ([], p)
  | S k' =>
      '(w, p) ← getReplacementWay p [] set_num;
      '(ws, p) ← rr_replacements k' p set_num;
      Ok (w :: ws, p)
  end.

Lemma rr_replacements_spec (p : RoundRobin) (a n s c : Z) (k : nat) :
  rr_wf p a n -> 0 <= s < n -> vec_get (rr_replacement_index_vec p) s = Ok c ->
  exists p', rr_replacements k p s = Ok (map (fun i => (c - i) mod a) (seqZ 0 (Z.of_nat k)), p') /\
    rr_wf p' a n /\
    forall s', s' <> s ->
      vec_get (rr_replacement_index_vec p') s' = vec_get (rr_replacement_index_vec p) s'.
Proof.
  intros Hwf Hs. revert p c Hwf. induction k as [|k IH]; intros p c Hwf Hc.
  { by exists p. }
  destruct (@way_law RoundRobin _ RoundRobin_laws p a n (replicate (Z.to_nat a) true) s Hwf Hs) as (w & p1 & E & Hw & Hwf1).
  { destruct Hwf as (_ & ? & _). rewrite length_replicate. lia. }
  cbn -[rr_getReplacementWay] in *.
  change (rr_getReplacementWay p [] s) with (rr_getReplacementWay p (replicate (Z.to_nat a) true) s).
  rewrite E. unfold rr_getReplacementWay in E. inv_ok.
  rewrite Hc in *. simplify_eq. apply vec_set_ok in H1 as [Hr ->].
  destruct Hwf as (Ha & Hab & _). cbn.
  assert (Hg : forall x, vec_get (<[Z.to_nat s:=x]> (rr_replacement_index_vec p)) s = Ok x).
  { intros y. apply vec_get_ok. split; [lia|]. apply list_lookup_insert_eq. lia. }
  destruct (IH _ _ Hwf1 (Hg _)) as (p2 & E2 & Hwf2 & Hfr).
  exists p2. rewrite E2. split_and!; [|done|].
  - rewrite bind_Ok. do 2 f_equal. rewrite (seqZ_cons 0 (Z.of_nat (S k))) by lia. simpl.
    f_equal; [rewrite Z.sub_0_r, Z.mod_small; lia|].
    replace (Z.pred (Z.of_nat (S k))) with (Z.of_nat k) by lia.
    rewrite <- (fmap_add_seqZ 1 0). apply list_eq. intros j.
    rewrite !list_lookup_fmap. destruct (_ !! j) as [i|]; [simpl; f_equal|done]. destruct (Z.eqb_spec w 0) as [->|].
    + rewrite wrap_id by (unfold is_word; lia). rewrite Ha.
      replace (a - 1 - i) with (0 - (1 + i) + 1 * a) by lia. by rewrite Z.mod_add by lia.
    + f_equal. lia.
  - intros s' Hne. rewrite Hfr by done. simpl. unfold vec_get.
    destruct (Z.ltb_spec s' 0); [done|]. by rewrite list_lookup_insert_ne by lia.
Qed.

(** [RoundRobinReplacementPolicy::getReplacementWay] names the ways of a
    set in decreasing order, wrapping from way 0 to the last way: the [i]-th
    of [k] successive calls returns [(c - i) mod associativity], where [c] is
    the current index of the set; the indices of the other sets do not change;
    and [associativity] successive calls name every way. *)
Theorem RoundRobin_cycles (p : RoundRobin) (a n s c : Z) (k : nat) :
  rr_wf p a n -> 0 <= s < n -> vec_get (rr_replacement_index_vec p) s = Ok c ->
  exists ws p', rr_replacements k p s = Ok (ws, p') /\
    ws = map (fun i => (c - i) mod a) (seqZ 0 (Z.of_nat k)) /\
    rr_wf p' a n /\
    (forall s', s' <> s ->
      vec_get (rr_replacement_index_vec p') s' = vec_get (rr_replacement_index_vec p) s') /\
    (Z.of_nat k = a -> forall w, 0 <= w < a -> w ∈ ws).
Proof.
  intros Hwf Hs Hc.
  destruct (rr_replacements_spec p a n s c k Hwf Hs Hc) as (p' & E & Hwf' & Hfr).
  do 2 eexists. split_and!; [done|done|done|done|].
  intros Hk w Hw. apply list_elem_of_fmap. exists ((c - w) mod a).
  destruct Hwf as (_ & Ha & _). split.
  - rewrite Zminus_mod_idemp_r. replace (c - (c - w)) with w by lia. by rewrite Z.mod_small.
  - apply elem_of_seqZ. pose proof (Z.mod_pos_bound (c - w) a). lia.
Qed.

(** Five replacements in set 0 of two sets of four ways. *)
Lemma RoundRobin_cycles_witness :
  exists p', rr_replacements 5 (RoundRobin_new 1 4 128) 0 = Ok ([3;2;1;0;3], p').
Proof.
  destruct (RoundRobin_cycles (RoundRobin_new 1 4 128) 4 2 0 3 5) as (ws & p' & E & -> & _).
  - split_and!; try (vm_compute; done). repeat constructor; vm_compute; done.
  - lia.
  - done.
  - exists p'. rewrite E. reflexivity.
Defined.
