(* ===== verification/CacheSet.v ===== *)
(** * Cache sets: cache/cache_set.{h,cc}

    A set keeps one info record per way and the bytes of all ways in one
    array.  The replacement policy object is shared by the sets of a cache and
    is threaded through the operations. *)

From S2P Require Import Prelude CacheLine Replacement.

Section CacheSet.
Context {I P : Type} `{LineInfo I} `{ReplacementPolicy P}.

Record CacheSet : Type := mkSet {
  cs_info : list I;              (* _cache_line_info_array *)
  cs_lines : list Z;             (* _lines, bytes *)
  cs_set_num : Z;
  cs_associativity : Z;
  cs_line_size : Z }.

Definition CacheSet_new (set_num associativity line_size : Z) : CacheSet :=
  mkSet (replicate (Z.to_nat associativity) li_new)
        (replicate (Z.to_nat (wrap32 (associativity * line_size))) 0)
        set_num associativity line_size.

Definition with_lines (s : CacheSet) (lines : list Z) : CacheSet :=
  mkSet (cs_info s) lines (cs_set_num s) (cs_associativity s) (cs_line_size s).
Definition with_info (s : CacheSet) (info : list I) : CacheSet :=
  mkSet info (cs_lines s) (cs_set_num s) (cs_associativity s) (cs_line_size s).

(** A buffer argument: [None] is the null pointer, otherwise its contents. *)
Definition Buf : Type := option (list Z).
Definition is_null (b : Buf) : bool := match b with None => true | Some _ => false end.

(** The result of [read_line] is the new contents of [out_buf]. *)
Definition read_line (s : CacheSet) (p : P) (line_index offset : Z) (out_buf : Buf) (bytes : Z)
    : result (Buf * P) :=
  assert_c (wrap32 (offset + bytes) <=? cs_line_size s) ;;
  assert_c (Bool.eqb (is_null out_buf) (bytes =? 0)) ;;
  out ← match out_buf with
        | None => Ok None
        | Some buf =>
            data ← mem_read (cs_lines s) (wrap32 (line_index * cs_line_size s + offset)) bytes;
            buf ← mem_write buf 0 data;
            Ok (Some buf)
        end;
  p ← update p (cs_set_num s) line_index;
  Ok (out, p).

Definition write_line (s : CacheSet) (p : P) (line_index offset : Z) (in_buf : Buf) (bytes : Z)
    : result (CacheSet * P) :=
  assert_c (wrap32 (offset + bytes) <=? cs_line_size s) ;;
  assert_c (Bool.eqb (is_null in_buf) (bytes =? 0)) ;;
  s ← match in_buf with
      | None => Ok s
      | Some buf =>
          data ← mem_read buf 0 bytes;
          lines ← mem_write (cs_lines s) (wrap32 (line_index * cs_line_size s + offset)) data;
          Ok (with_lines s lines)
      end;
  p ← update p (cs_set_num s) line_index;
  Ok (s, p).

(** [find] scans from the last way down; the pointer to the record it returns
    is the index of the way. *)
Definition cs_find (s : CacheSet) (tag : Z) : result (option Z) :=
  find_first (reverse (seqZ 0 (cs_associativity s))) (fun index =>
    i ← vec_get (cs_info s) index;
    Ok (if getTagOf i =? tag then Some index else None)).

(** What [insert] leaves in its output arguments. *)
Record Eviction : Type := mkEviction {
  ev_eviction : bool;
  ev_info : I;                   (* *evicted_cache_line_info *)
  ev_writeback : Buf }.          (* writeback_buf *)

Definition cs_insert (s : CacheSet) (p : P) (inserted : I) (fill_buf : Buf)
    (evicted : I) (writeback_buf : Buf) : result (CacheSet * P * Eviction) :=
  '(index, p) ← getReplacementWay p (map isValid (cs_info s)) (cs_set_num s);
  assert_c (index <? cs_associativity s) ;;
  old ← vec_get (cs_info s) index;
  ev ← (if isValid old then
          wb ← match writeback_buf with
               | None => Ok None
               | Some wb =>
                   data ← mem_read (cs_lines s) (wrap32 (index * cs_line_size s)) (cs_line_size s);
                   wb ← mem_write wb 0 data;
                   Ok (Some wb)
               end;
          Ok (mkEviction true (li_assign evicted old) wb)
        else Ok (mkEviction false evicted writeback_buf));
  info ← vec_set (cs_info s) index (li_assign old inserted);
  s ← (match fill_buf with
       | None => Ok (with_info s info)
       | Some fill =>
           data ← mem_read fill 0 (cs_line_size s);
           lines ← mem_write (cs_lines s) (wrap32 (index * cs_line_size s)) data;
           Ok (with_lines (with_info s info) lines)
       end);
  p ← update p (cs_set_num s) index;
  Ok (s, p, ev).

(** ** Invariant and abstraction *)

(** [set_shape] fixes the sizes; [set_unique]: no tag is held twice. *)
Definition set_shape (s : CacheSet) (n a ls : Z) : Prop :=
  cs_set_num s = n /\ cs_associativity s = a /\ cs_line_size s = ls /\
  0 < a /\ 0 < ls /\ a * ls < 2 ^ 32 /\
  Z.of_nat (length (cs_info s)) = a /\ Z.of_nat (length (cs_lines s)) = a * ls.

Definition holds (s : CacheSet) (w : nat) (t : Z) (i : I) : Prop :=
  cs_info s !! w = Some i /\ getTagOf i = t /\ t <> INVALID_TAG.

Definition set_unique (s : CacheSet) : Prop :=
  forall w w' t i i', holds s w t i -> holds s w' t i' -> w = w'.

(** The bytes of a way. *)
Definition way_data (s : CacheSet) (w : nat) : list Z :=
  slice (w * Z.to_nat (cs_line_size s)) (Z.to_nat (cs_line_size s)) (cs_lines s).

(** The contents of the set as a partial map from tags to lines. *)
Definition set_line (s : CacheSet) (t : Z) : option (I * list Z) :=
  if t =? INVALID_TAG then None
  else match cs_find s t with
       | Ok (Some w) =>
           (fun i => (i, way_data s (Z.to_nat w))) <$> cs_info s !! Z.to_nat w
       | _ => None
       end.
End CacheSet.

Arguments CacheSet : clear implicits.
Arguments Eviction : clear implicits.

Section CacheSet_lemmas.
Context {I P : Type} `{LineInfoLaws I} `{ReplacementLaws P}.
Implicit Types s : CacheSet I.

(** ** Finding a tag *)

Lemma cs_find_spec s n a ls t :
  set_shape s n a ls ->
  cs_find s t = Ok (head (filter (fun i => getTagOf <$> cs_info s !! Z.to_nat i = Some t)
                            (reverse (seqZ 0 a)))).
Proof.
  intros (_ & Ha & _ & _ & _ & _ & Hlen & _). unfold cs_find. rewrite Ha.
  apply find_first_filter. intros i Hi. rewrite elem_of_reverse, elem_of_seqZ in Hi.
  destruct (lookup_lt_is_Some_2 (cs_info s) (Z.to_nat i)) as [x Hx]; [lia|].
  rewrite (proj2 (vec_get_ok _ i x)) by (split; [lia|done]). rewrite bind_Ok, Hx. simpl.
  destruct (Z.eqb_spec (getTagOf x) t); case_decide; naive_solver.
Qed.

Lemma cs_find_holds s n a ls w t i :
  set_shape s n a ls -> set_unique s -> holds s w t i -> cs_find s t = Ok (Some (Z.of_nat w)).
Proof.
  intros Hs Hu Hh. rewrite (cs_find_spec s n a ls t Hs). f_equal.
  assert (Hin : forall z, z ∈ filter (fun i => getTagOf <$> cs_info s !! Z.to_nat i = Some t)
                    (reverse (seqZ 0 a)) <-> z = Z.of_nat w).
  { intros z. rewrite list_elem_of_filter, elem_of_reverse, elem_of_seqZ. pose proof Hs as Hs'.
    split.
    - intros [Hz Hr]. apply fmap_Some in Hz as (j & Hj & Hjt).
      assert (Z.to_nat z = w); [|lia]. eapply (Hu _ _ t j i); [|done].
      destruct Hh as (_ & _ & ?). by split_and!.
    - intros ->. rewrite Nat2Z.id. destruct Hh as (Hi & Ht & _). rewrite Hi. simpl.
      split; [by f_equal|]. apply lookup_lt_Some in Hi. unfold set_shape in Hs'. lia. }
  destruct (filter _ _) as [|z l]; simpl.
  - specialize (Hin (Z.of_nat w)). set_solver.
  - f_equal. apply Hin. set_solver.
Qed.

Lemma cs_find_absent s n a ls t :
  set_shape s n a ls -> t <> INVALID_TAG -> (forall w i, ~ holds s w t i) ->
  cs_find s t = Ok None.
Proof.
  intros Hs Ht Hno. rewrite (cs_find_spec s n a ls t Hs). rewrite filter_none; [done|].
  apply Forall_forall. intros z _ Hz. apply fmap_Some in Hz as (j & Hj & Hjt).
  by apply (Hno (Z.to_nat z) j).
Qed.

Lemma holds_dec s t : (exists w i, holds s w t i) \/ (forall w i, ~ holds s w t i).
Proof.
  destruct (decide (t = INVALID_TAG)) as [->|Ht].
  { right. intros w i (_ & _ & ?). done. }
  destruct (decide (Exists (fun i => getTagOf i = t) (cs_info s))) as [HE|HE].
  - left. apply Exists_exists in HE as (i & Hin & Hi).
    apply list_elem_of_lookup in Hin as [w Hw]. by exists w, i.
  - right. intros w i (Hw & Hi & _). apply HE, Exists_exists. exists i.
    split; [by eapply list_elem_of_lookup_2|done].
Qed.

Lemma set_line_spec s n a ls t i d :
  set_shape s n a ls -> set_unique s ->
  set_line s t = Some (i, d) <-> exists w, holds s w t i /\ d = way_data s w.
Proof.
  intros Hs Hu. unfold set_line. split.
  - destruct (Z.eqb_spec t INVALID_TAG) as [|Ht]; [done|].
    destruct (holds_dec s t) as [(w & j & Hh)|Hno].
    + rewrite (cs_find_holds s n a ls w t j) by done. rewrite Nat2Z.id.
      pose proof Hh as (Hj & _). rewrite Hj. intros [= <- <-]. by exists w.
    + by rewrite (cs_find_absent s n a ls t).
  - intros (w & Hh & ->). pose proof Hh as (Hi & _ & Ht).
    rewrite (proj2 (Z.eqb_neq _ _)) by done.
    rewrite (cs_find_holds s n a ls w t i) by done. by rewrite Nat2Z.id, Hi.
Qed.

Lemma set_line_None s n a ls t :
  set_shape s n a ls -> set_unique s ->
  set_line s t = None <-> forall w i, ~ holds s w t i.
Proof.
  intros Hs Hu. split.
  - intros Hn w i Hh. rewrite (proj2 (set_line_spec s n a ls t i (way_data s w) Hs Hu)) in Hn;
      [done|by exists w].
  - intros Hno. destruct (set_line s t) as [[i d]|] eqn:E; [|done].
    apply (set_line_spec s n a ls) in E as (w & Hh & _); [|done..]. by apply Hno in Hh.
Qed.

(** ** Reading, writing and inserting *)

(** An access that stays inside a line and whose buffer has the right size. *)
Definition access_ok (ls off bytes : Z) (b : Buf) : Prop :=
  0 <= off /\ 0 <= bytes /\ off + bytes <= ls /\
  match b with None => bytes = 0 | Some l => 0 < bytes /\ Z.of_nat (length l) = bytes end.

Lemma access_asserts s n a ls off bytes b :
  set_shape s n a ls -> access_ok ls off bytes b ->
  (wrap32 (off + bytes) <=? cs_line_size s) = true /\
  Bool.eqb (is_null b) (bytes =? 0) = true.
Proof.
  intros (_ & _ & -> & ? & ? & ? & _) (? & ? & ? & Hb).
  assert (ls <= a * ls) by nia.
  rewrite wrap_id by (unfold is_word; lia). split; [by apply Z.leb_le; lia|].
  destruct b; simpl; [rewrite (proj2 (Z.eqb_neq _ _)) by lia|rewrite (proj2 (Z.eqb_eq _ _)) by lia]; done.
Qed.

(** The address of byte [off] of way [w]. *)
Lemma way_offset s n a ls (w : nat) off :
  set_shape s n a ls -> Z.of_nat w < a -> 0 <= off < ls ->
  wrap32 (Z.of_nat w * cs_line_size s + off) = Z.of_nat w * ls + off /\
  Z.to_nat (Z.of_nat w * ls + off) = (w * Z.to_nat ls + Z.to_nat off)%nat /\
  (w * Z.to_nat ls + Z.to_nat ls <= length (cs_lines s))%nat.
Proof.
  intros (_ & _ & -> & ? & ? & ? & _ & Hl) Hw Ho.
  assert (Z.of_nat w * ls + ls <= a * ls) by nia.
  rewrite wrap_id by (unfold is_word; nia). split_and!; [done| |].
  - rewrite Z2Nat.inj_add, Z2Nat.inj_mul, Nat2Z.id by nia. done.
  - apply Nat2Z.inj_le. rewrite Hl, Nat2Z.inj_add, Nat2Z.inj_mul, Z2Nat.id by lia. done.
Qed.

Lemma read_line_spec s n a ls p N (w : nat) off bytes b :
  set_shape s n a ls -> policy_wf p a N -> 0 <= n < N -> Z.of_nat w < a ->
  access_ok ls off bytes b ->
  exists p', read_line s p (Z.of_nat w) off b bytes =
    Ok ((fun _ => slice (Z.to_nat off) (Z.to_nat bytes) (way_data s w)) <$> b, p') /\
    policy_wf p' a N.
Proof.
  intros Hs Hp Hn Hw Hb. destruct (update_law p a N n (Z.of_nat w) Hp Hn) as (p' & Hu & Hp'); [lia|].
  exists p'. split; [|done]. destruct (access_asserts _ _ _ _ _ _ _ Hs Hb) as [Ha1 Ha2].
  unfold read_line. rewrite Ha1, Ha2. simpl.
  pose proof Hs as (-> & _ & Hls & _). rewrite Hu.
  destruct Hb as (? & ? & ? & Hb). destruct b as [l|]; [|done].
  destruct (way_offset s n a ls w off Hs) as (-> & Ho & Hin); [lia|lia|].
  rewrite mem_read_ok by lia. rewrite bind_Ok, Ho.
  assert (Hlen : length (slice (w * Z.to_nat ls + Z.to_nat off) (Z.to_nat bytes) (cs_lines s)) = length l)
    by (rewrite length_slice; lia).
  rewrite mem_write_ok by lia. rewrite splice_full by done. simpl. do 3 f_equal.
  unfold way_data. rewrite Hls. unfold slice. rewrite skipn_firstn_comm, drop_drop, take_take.
  f_equal. lia.
Qed.

Lemma write_line_spec s n a ls p N (w : nat) off bytes b :
  set_shape s n a ls -> policy_wf p a N -> 0 <= n < N -> Z.of_nat w < a ->
  access_ok ls off bytes b ->
  exists s' p', write_line s p (Z.of_nat w) off b bytes = Ok (s', p') /\
    policy_wf p' a N /\ set_shape s' n a ls /\ cs_info s' = cs_info s /\
    forall v, Z.of_nat v < a -> way_data s' v =
      if decide (v = w) then splice (Z.to_nat off) (default [] b) (way_data s w) else way_data s v.
Proof.
  intros Hs Hp Hn Hw Hb. destruct (update_law p a N n (Z.of_nat w) Hp Hn) as (p' & Hu & Hp'); [lia|].
  destruct (access_asserts _ _ _ _ _ _ _ Hs Hb) as [Ha1 Ha2].
  unfold write_line. rewrite Ha1, Ha2. simpl. pose proof Hs as (Hset & _ & Hls & _).
  destruct Hb as (? & ? & ? & Hb). destruct b as [l|].
  2:{ simpl. rewrite Hset, Hu. exists s, p'. split_and!; [done..|]. intros v Hv.
      case_decide; [subst|done]. unfold splice. simpl. by rewrite Nat.add_0_r, take_drop. }
  rewrite mem_read_ok by lia. rewrite bind_Ok, slice_full by lia.
  destruct (way_offset s n a ls w off Hs) as (-> & Ho & Hin); [lia|lia|].
  rewrite mem_write_ok by lia. rewrite !bind_Ok, Ho. unfold with_lines at 1. simpl.
  rewrite Hset, Hu. eexists _, p'. split; [done|]. split; [done|]. split_and!.
  - destruct Hs as (? & ? & ? & ? & ? & ? & ? & ?). split_and!; simpl; try done.
    rewrite length_splice by lia. done.
  - done.
  - intros v Hv. unfold way_data. simpl. rewrite Hls.
    destruct (way_offset s n a ls v 0 Hs) as (_ & _ & Hinv); [lia|lia|].
    case_decide as Hvw.
    + subst v. apply slice_splice_inside; lia.
    + apply slice_splice_disjoint; [lia|lia|].
      destruct (decide (v < w)%nat).
      * left. assert (v * Z.to_nat ls + Z.to_nat ls <= w * Z.to_nat ls)%nat by nia. lia.
      * right. assert (w * Z.to_nat ls + Z.to_nat ls <= v * Z.to_nat ls)%nat by nia. lia.
Qed.

Definition fill_ok (ls : Z) (b : Buf) : Prop :=
  match b with None => True | Some l => Z.of_nat (length l) = ls end.

Lemma cs_insert_spec s n a ls p N inserted fill evicted wb :
  set_shape s n a ls -> policy_wf p a N -> 0 <= n < N -> fill_ok ls fill -> fill_ok ls wb ->
  exists (w : nat) old s' p',
    cs_insert s p inserted fill evicted wb =
      Ok (s', p', if isValid old then mkEviction true old ((fun _ => way_data s w) <$> wb)
                  else mkEviction false evicted wb) /\
    cs_info s !! w = Some old /\ policy_wf p' a N /\ set_shape s' n a ls /\
    cs_info s' = <[w := inserted]> (cs_info s) /\
    forall v, Z.of_nat v < a -> way_data s' v =
      if decide (v = w) then default (way_data s w) fill else way_data s v.
Proof.
  intros Hs Hp Hn Hf Hwb. pose proof Hs as (Hset & Has & Hls & ? & ? & ? & Hinfo & Hlines).
  destruct (way_law p a N (map isValid (cs_info s)) n Hp Hn) as (w & p1 & Hg & Hw & Hp1);
    [by rewrite length_map|].
  destruct (update_law p1 a N n w Hp1 Hn Hw) as (p2 & Hu & Hp2).
  destruct (lookup_lt_is_Some_2 (cs_info s) (Z.to_nat w)) as [old Hold]; [lia|].
  destruct (way_offset s n a ls (Z.to_nat w) 0 Hs) as (Hwo & Ho & Hin); [lia|lia|].
  rewrite Z2Nat.id, !Z.add_0_r in Hwo by lia. rewrite Z2Nat.id, Z.add_0_r, Nat.add_0_r in Ho by lia.
  assert (Hslice : forall d, length d = Z.to_nat ls -> mem_write (cs_lines s) (w * ls) d =
    Ok (splice (Z.to_nat w * Z.to_nat ls) d (cs_lines s))).
  { intros d Hd. rewrite mem_write_ok by nia. by rewrite Ho. }
  unfold cs_insert. rewrite Hset, Hg, bind_Ok. unfold assert_c at 1.
  rewrite Has, (proj2 (Z.ltb_lt _ _)) by lia. rewrite bind_Ok.
  rewrite (proj2 (vec_get_ok _ w old)) by (split; [lia|done]). rewrite bind_Ok, Hwo, Hls.
  rewrite mem_read_ok by nia. rewrite Ho.
  exists (Z.to_nat w), old.
  match goal with |- context[if isValid old then ?x else ?y] =>
    replace (if isValid old then x else y) with
      (Ok (if isValid old then mkEviction true old ((fun _ => way_data s (Z.to_nat w)) <$> wb)
           else mkEviction false evicted wb)) end.
  2:{ destruct (isValid old); [|done]. rewrite assign_copy. destruct wb as [l|]; [|done].
      unfold fill_ok in Hwb. rewrite bind_Ok, mem_write_ok by (rewrite ?length_slice; lia).
      rewrite splice_full by (rewrite length_slice; lia). unfold way_data. by rewrite Hls. }
  rewrite bind_Ok, vec_set_eq by lia. rewrite bind_Ok, assign_copy.
  destruct fill as [f|]; simpl in Hf.
  - rewrite mem_read_ok by lia. rewrite bind_Ok, slice_full by lia.
    rewrite Hslice by lia. rewrite !bind_Ok. unfold with_lines, with_info. simpl.
    rewrite Hset, Hu. simpl. do 2 eexists. split; [done|].
    split_and!; simpl; try done.
    { split_and!; simpl; try done; [rewrite length_insert; done|rewrite length_splice by lia; done]. }
    intros v Hv. unfold way_data. simpl. rewrite Hls.
    destruct (way_offset s n a ls v 0 Hs) as (_ & _ & Hinv); [lia|lia|].
    case_decide as Hvw.
    + subst v. replace (Z.to_nat ls) with (length f) at 2 by lia. apply slice_splice_eq. lia.
    + apply slice_splice_disjoint; [lia|lia|].
      destruct (decide (v < Z.to_nat w)%nat); [left|right]; nia.
  - rewrite bind_Ok. unfold with_info. simpl. rewrite Hset, Hu. simpl. do 2 eexists. split; [done|].
    split_and!; simpl; try done.
    { split_and!; simpl; try done. rewrite length_insert; done. }
    intros v Hv. case_decide; by subst.
Qed.

(** Replacing the record of one way (and its bytes) by one whose tag is not
    held by another way changes the contents at the old and the new tag only. *)
Lemma set_line_update s s' n a ls (w : nat) old i :
  set_shape s n a ls -> set_shape s' n a ls -> set_unique s ->
  cs_info s !! w = Some old -> cs_info s' = <[w := i]> (cs_info s) ->
  (forall v, Z.of_nat v < a -> v <> w -> way_data s' v = way_data s v) ->
  (forall v j, holds s v (getTagOf i) j -> v = w) ->
  set_unique s' /\
  forall t, set_line s' t =
    if decide (t = INVALID_TAG) then None
    else if decide (t = getTagOf i) then Some (i, way_data s' w)
    else if decide (t = getTagOf old) then None
    else set_line s t.
Proof.
  intros Hs Hs' Hu Hold Hinfo Hdata Hfree.
  pose proof (lookup_lt_Some _ _ _ Hold) as Hw.
  assert (Hh : forall v t j, holds s' v t j <->
    (v = w /\ j = i /\ t = getTagOf i /\ t <> INVALID_TAG) \/ (v <> w /\ holds s v t j)).
  { intros v t j. unfold holds. rewrite Hinfo. destruct (decide (v = w)) as [->|Hv].
    - rewrite list_lookup_insert_eq by done. naive_solver.
    - rewrite list_lookup_insert_ne by done. naive_solver. }
  assert (Hu' : set_unique s').
  { intros v v' t j j' [(-> & -> & -> & _)|[Hv Hj]]%Hh [(-> & -> & Ht & _)|[Hv' Hj']]%Hh; try done.
    - by rewrite (Hfree v' j').
    - subst. by rewrite (Hfree v j).
    - eapply Hu; done. }
  split; [done|]. intros t. case_decide as Ht; [subst; done|].
  case_decide as Hti.
  { apply (set_line_spec s' n a ls); [done..|]. exists w. split; [|done].
    apply Hh. left. by subst. }
  case_decide as Hto.
  { apply (set_line_None s' n a ls); [done..|]. intros v j [(_ & _ & ? & _)|[Hv Hj]]%Hh; [done|].
    apply Hv. eapply (Hu v w t j old); [done|]. by subst. }
  destruct (set_line s t) as [[j d]|] eqn:E.
  - apply (set_line_spec s n a ls) in E as (v & Hj & ->); [|done..].
    assert (v <> w) by (intros ->; destruct Hj; naive_solver).
    apply (set_line_spec s' n a ls); [done..|]. exists v. split; [apply Hh; naive_solver|].
    symmetry. apply Hdata; [|done]. destruct Hj as (Hj & _). apply lookup_lt_Some in Hj.
    unfold set_shape in Hs. lia.
  - apply (set_line_None s' n a ls); [done..|]. intros v j [(_ & _ & ? & _)|[Hv Hj]]%Hh; [done|].
    by eapply (set_line_None s n a ls) in E; [apply E in Hj| |].
Qed.

Lemma CacheSet_new_wf n a ls :
  0 < a -> 0 < ls -> a * ls < 2 ^ 32 ->
  set_shape (CacheSet_new n a ls) n a ls /\ set_unique (CacheSet_new n a ls) /\
  forall t, set_line (CacheSet_new n a ls) t = None.
Proof.
  intros Ha Hls Hm.
  assert (Hs : set_shape (CacheSet_new n a ls) n a ls).
  { split_and!; simpl; try done; rewrite length_replicate; [lia|].
    rewrite wrap_id by (unfold is_word; nia). lia. }
  assert (Hno : forall w t i, ~ holds (CacheSet_new n a ls) w t i).
  { intros w t i (Hi & Ht & Hne). simpl in Hi. apply lookup_replicate in Hi as [-> _].
    rewrite new_tag in Ht. done. }
  assert (Hu : set_unique (CacheSet_new n a ls)) by (intros w w' t i i' Hh; by apply Hno in Hh).
  split_and!; [done|done|]. intros t. by apply (set_line_None _ n a ls).
Qed.
End CacheSet_lemmas.
