(* ===== verification/Cache.v ===== *)
(** * The cache: cache/cache.{h,cc}, cache/cache_hash_fn.h

    Tag and data arrays, miss classification and the counters.  The name, the
    DVFS fields, the performance model and the McPAT interface of the class do
    not influence the operations modelled here and are left out. *)

From S2P Require Import Prelude Utils CacheLine Replacement CacheSet.

(** ** Enumerations *)

Inductive mem_op_t : Type := READ | READ_EX | WRITE.        (* Core::mem_op_t *)
Inductive AccessType : Type := LOAD | STORE.
Inductive OperationType : Type :=
  | TAG_ARRAY_READ | TAG_ARRAY_WRITE | DATA_ARRAY_READ | DATA_ARRAY_WRITE.
Inductive MissType : Type := COLD_MISS | CAPACITY_MISS | SHARING_MISS | INVALID_MISS_TYPE.
Inductive CacheCategory : Type := INSTRUCTION_CACHE | DATA_CACHE | UNIFIED_CACHE.
Inductive WritePolicy : Type := UNDEFINED_WRITE_POLICY | WRITE_THROUGH | WRITE_BACK.

#[export] Instance mem_op_eq_dec : EqDecision mem_op_t.
Proof. solve_decision. Defined.
#[export] Instance CacheCategory_eq_dec : EqDecision CacheCategory.
Proof. solve_decision. Defined.
#[export] Instance WritePolicy_eq_dec : EqDecision WritePolicy.
Proof. solve_decision. Defined.
#[export] Instance MissType_eq_dec : EqDecision MissType.
Proof. solve_decision. Defined.

Definition op_index (o : OperationType) : Z :=
  match o with
  | TAG_ARRAY_READ => 0 | TAG_ARRAY_WRITE => 1 | DATA_ARRAY_READ => 2 | DATA_ARRAY_WRITE => 3
  end.

Definition is_read (op : mem_op_t) : bool :=
  bool_decide (op = READ) || bool_decide (op = READ_EX).

(** A [UInt64] counter incremented or decremented. *)
Definition incr64 (x : Z) : Z := wrap64 (x + 1).
Definition decr64 (x : Z) : Z := wrap64 (x - 1).

(** ** CacheHashFn *)

Record CacheHashFn : Type := mkHash {
  hf_num_sets : Z;
  hf_log_cache_line_size : Z }.

Definition CacheHashFn_new (cache_size associativity cache_line_size : Z) : CacheHashFn :=
  mkHash (wrap32 (cache_size * k_KILO) / wrap32 (cache_line_size * associativity))
         (wrap32 (floorLog2 cache_line_size)).

Definition hf_compute (h : CacheHashFn) (address : Z) : Z :=
  wrap32 (Z.land (Z.shiftr address (hf_log_cache_line_size h)) (wrap32 (hf_num_sets h - 1))).

(** ** Counters *)

Record MissCounters : Type := mkMissCounters {
  mc_accesses : Z; mc_misses : Z;
  mc_read_accesses : Z; mc_read_misses : Z;
  mc_write_accesses : Z; mc_write_misses : Z;
  mc_cold : Z; mc_capacity : Z; mc_sharing : Z }.

Record MissSets : Type := mkMissSets {
  ms_fetched : gset Z;
  ms_evicted : gset Z;
  ms_invalidated : gset Z }.

Record EvictionCounters : Type := mkEvCounters { ec_total : Z; ec_dirty : Z }.

Definition getMissType (m : MissSets) (address : Z) : MissType :=
  if decide (address ∈ ms_evicted m) then CAPACITY_MISS
  else if decide (address ∈ ms_invalidated m) then SHARING_MISS
  else if decide (address ∈ ms_fetched m) then SHARING_MISS
  else COLD_MISS.

(** The chain of [if (set.erase(address))]: only the first set that holds the
    address is changed. *)
Definition clearMissTypeTrackingSets (address : Z) (m : MissSets) : MissSets :=
  if decide (address ∈ ms_evicted m) then
    mkMissSets (ms_fetched m) (ms_evicted m ∖ {[address]}) (ms_invalidated m)
  else if decide (address ∈ ms_invalidated m) then
    mkMissSets (ms_fetched m) (ms_evicted m) (ms_invalidated m ∖ {[address]})
  else mkMissSets (ms_fetched m ∖ {[address]}) (ms_evicted m) (ms_invalidated m).

(** ** The class *)

Section Cache.
Context {I P : Type} `{LineInfo I} `{ReplacementPolicy P}.

Record Cache : Type := mkCache {
  c_enabled : bool;
  c_category : CacheCategory;
  c_write_policy : WritePolicy;
  c_sets : list (CacheSet I);
  c_cache_size : Z;
  c_associativity : Z;
  c_line_size : Z;
  c_num_sets : Z;
  c_log_line_size : Z;
  c_policy : P;
  c_hash_fn : CacheHashFn;
  c_miss : MissCounters;
  c_miss_sets : MissSets;
  c_evictions : EvictionCounters;
  c_events : list Z;                   (* _event_counters *)
  c_states : list Z;                   (* _cache_line_state_counters *)
  c_track_miss_types : bool }.

Definition Cache_new (category : CacheCategory) (write_policy : WritePolicy)
    (cache_size associativity line_size : Z) (policy : P) (hash_fn : CacheHashFn)
    (track_miss_types : bool) : Cache :=
  let size := wrap32 (k_KILO * cache_size) in
  let num_sets := size / wrap32 (associativity * line_size) in
  {| c_enabled := false;
     c_category := category;
     c_write_policy := write_policy;
     c_sets := map (fun i => CacheSet_new i associativity line_size) (seqZ 0 num_sets);
     c_cache_size := size;
     c_associativity := associativity;
     c_line_size := line_size;
     c_num_sets := num_sets;
     c_log_line_size := wrap32 (floorLog2 line_size);
     c_policy := policy;
     c_hash_fn := hash_fn;
     c_miss := mkMissCounters 0 0 0 0 0 0 0 0 0;
     c_miss_sets := mkMissSets ∅ ∅ ∅;
     c_evictions := mkEvCounters 0 0;
     c_events := replicate 4 0;
     c_states := replicate (Z.to_nat NUM_STATES) 0;
     c_track_miss_types := track_miss_types |}.

(** Field updates. *)
Definition set_enabled (b : bool) (c : Cache) : Cache :=
  mkCache b (c_category c) (c_write_policy c) (c_sets c) (c_cache_size c) (c_associativity c)
    (c_line_size c) (c_num_sets c) (c_log_line_size c) (c_policy c) (c_hash_fn c) (c_miss c)
    (c_miss_sets c) (c_evictions c) (c_events c) (c_states c) (c_track_miss_types c).
Definition set_arrays (sets : list (CacheSet I)) (p : P) (c : Cache) : Cache :=
  mkCache (c_enabled c) (c_category c) (c_write_policy c) sets (c_cache_size c) (c_associativity c)
    (c_line_size c) (c_num_sets c) (c_log_line_size c) p (c_hash_fn c) (c_miss c)
    (c_miss_sets c) (c_evictions c) (c_events c) (c_states c) (c_track_miss_types c).
Definition set_miss (m : MissCounters) (c : Cache) : Cache :=
  mkCache (c_enabled c) (c_category c) (c_write_policy c) (c_sets c) (c_cache_size c)
    (c_associativity c) (c_line_size c) (c_num_sets c) (c_log_line_size c) (c_policy c)
    (c_hash_fn c) m (c_miss_sets c) (c_evictions c) (c_events c) (c_states c)
    (c_track_miss_types c).
Definition set_miss_sets (m : MissSets) (c : Cache) : Cache :=
  mkCache (c_enabled c) (c_category c) (c_write_policy c) (c_sets c) (c_cache_size c)
    (c_associativity c) (c_line_size c) (c_num_sets c) (c_log_line_size c) (c_policy c)
    (c_hash_fn c) (c_miss c) m (c_evictions c) (c_events c) (c_states c)
    (c_track_miss_types c).
Definition set_evictions (e : EvictionCounters) (c : Cache) : Cache :=
  mkCache (c_enabled c) (c_category c) (c_write_policy c) (c_sets c) (c_cache_size c)
    (c_associativity c) (c_line_size c) (c_num_sets c) (c_log_line_size c) (c_policy c)
    (c_hash_fn c) (c_miss c) (c_miss_sets c) e (c_events c) (c_states c)
    (c_track_miss_types c).
Definition set_events (e : list Z) (c : Cache) : Cache :=
  mkCache (c_enabled c) (c_category c) (c_write_policy c) (c_sets c) (c_cache_size c)
    (c_associativity c) (c_line_size c) (c_num_sets c) (c_log_line_size c) (c_policy c)
    (c_hash_fn c) (c_miss c) (c_miss_sets c) (c_evictions c) e (c_states c)
    (c_track_miss_types c).
Definition set_states (e : list Z) (c : Cache) : Cache :=
  mkCache (c_enabled c) (c_category c) (c_write_policy c) (c_sets c) (c_cache_size c)
    (c_associativity c) (c_line_size c) (c_num_sets c) (c_log_line_size c) (c_policy c)
    (c_hash_fn c) (c_miss c) (c_miss_sets c) (c_evictions c) (c_events c) e
    (c_track_miss_types c).

Definition enable (c : Cache) : Cache := set_enabled true c.
Definition disable (c : Cache) : Cache := set_enabled false c.

(** ** Utilities *)

Definition getTag (c : Cache) (address : Z) : Z := Z.shiftr address (c_log_line_size c).
Definition getLineOffset (c : Cache) (address : Z) : Z :=
  Z.land address (wrap32 (c_line_size c - 1)).
Definition getAddressFromTag (c : Cache) (tag : Z) : Z :=
  wrap64 (Z.shiftl tag (c_log_line_size c)).
Definition set_index (c : Cache) (address : Z) : Z := hf_compute (c_hash_fn c) address.
Definition getSet (c : Cache) (address : Z) : result (CacheSet I) :=
  vec_get (c_sets c) (set_index c address).

(** [_event_counters[op] ++]. *)
Definition count_event (o : OperationType) (c : Cache) : result Cache :=
  x ← vec_get (c_events c) (op_index o);
  e ← vec_set (c_events c) (op_index o) (incr64 x);
  Ok (set_events e c).

Definition when_enabled (c : Cache) (f : Cache -> result Cache) : result Cache :=
  if c_enabled c then f c else Ok c.

Definition updateCacheLineStateCounters (old_cstate new_cstate : CacheState) (c : Cache)
    : result Cache :=
  x ← vec_get (c_states c) (cstate_index old_cstate);
  l ← vec_set (c_states c) (cstate_index old_cstate) (decr64 x);
  y ← vec_get l (cstate_index new_cstate);
  l ← vec_set l (cstate_index new_cstate) (incr64 y);
  Ok (set_states l c).

(** ** Operations *)

Definition accessCacheLine (c : Cache) (address : Z) (access_type : AccessType)
    (buf : Buf) (num_bytes : Z) : result (Cache * Buf) :=
  assert_c (Bool.eqb (is_null buf) (num_bytes =? 0)) ;;
  set ← getSet c address;
  let tag := getTag c address in
  let line_offset := getLineOffset c address in
  line_index ← cs_find set tag;
  match line_index with
  | None => Err LogError
  | Some line_index =>
      '(c, out) ← match access_type with
        | LOAD =>
            '(out, p) ← read_line set (c_policy c) line_index line_offset buf num_bytes;
            Ok (set_arrays (c_sets c) p c, out)
        | STORE =>
            '(set, p) ← write_line set (c_policy c) line_index line_offset buf num_bytes;
            sets ← vec_set (c_sets c) (set_index c address) set;
            Ok (set_arrays sets p c, buf)
        end;
      c ← when_enabled c
            (count_event match access_type with LOAD => DATA_ARRAY_READ | STORE => DATA_ARRAY_WRITE end);
      Ok (c, out)
  end.

(** The [if (_enabled)] block of [insertCacheLine]. *)
Definition insert_events (ev : Eviction I) (c : Cache) : result Cache :=
  c ← (if ev_eviction ev then
         assert_c (bool_decide (getCState (ev_info ev) <> CS_INVALID)) ;;
         c ← count_event TAG_ARRAY_READ c;
         c ← count_event DATA_ARRAY_READ c;
         let e := c_evictions c in
         let dirty_incr := bool_decide (c_write_policy c = WRITE_BACK)
                           && dirty (getCState (ev_info ev)) in
         Ok (set_evictions
               (mkEvCounters (incr64 (ec_total e))
                  (if dirty_incr then incr64 (ec_dirty e) else ec_dirty e)) c)
       else
         assert_c (bool_decide (getCState (ev_info ev) = CS_INVALID)) ;;
         count_event TAG_ARRAY_READ c);
  c ← count_event TAG_ARRAY_WRITE c;
  count_event DATA_ARRAY_WRITE c.

(** [insertCacheLine] after the call of [set->insert]: miss-type sets, state
    counters, event and eviction counters. *)
Definition insert_account (c : Cache) (inserted_address : Z) (inserted : I) (ev : Eviction I)
    (evicted_address : Z) : result Cache :=
  c ← (if ev_eviction ev then
         assert_c (negb (evicted_address =? INVALID_ADDRESS)) ;;
         let m := c_miss_sets c in
         let c := if c_track_miss_types c
                  then set_miss_sets (mkMissSets (ms_fetched m) ({[evicted_address]} ∪ ms_evicted m)
                                       (ms_invalidated m)) c
                  else c in
         updateCacheLineStateCounters (getCState (ev_info ev)) CS_INVALID c
       else Ok c);
  let c := if c_track_miss_types c
           then set_miss_sets (clearMissTypeTrackingSets inserted_address (c_miss_sets c)) c else c in
  let m := c_miss_sets c in
  let c := if c_track_miss_types c
           then set_miss_sets (mkMissSets ({[inserted_address]} ∪ ms_fetched m) (ms_evicted m)
                                (ms_invalidated m)) c
           else c in
  c ← updateCacheLineStateCounters CS_INVALID (getCState inserted) c;
  when_enabled c (insert_events ev).

(** The results are the cache, the outputs of the set and [*evicted_address]. *)
Definition insertCacheLine (c : Cache) (inserted_address : Z) (inserted : I) (fill_buf : Buf)
    (evicted : I) (writeback_buf : Buf) : result (Cache * Eviction I * Z) :=
  set ← getSet c inserted_address;
  '(set, p, ev) ← cs_insert set (c_policy c) inserted fill_buf evicted writeback_buf;
  sets ← vec_set (c_sets c) (set_index c inserted_address) set;
  let c := set_arrays sets p c in
  let evicted_address := getAddressFromTag c (getTagOf (ev_info ev)) in
  c ← insert_account c inserted_address inserted ev evicted_address;
  Ok (c, ev, evicted_address).

(** The private overload returns the record's place; the public one copies
    the record into its argument. *)
Definition getCacheLineInfo_ptr (c : Cache) (address : Z) : result (option Z) :=
  set ← getSet c address;
  cs_find set (getTag c address).

Definition getCacheLineInfo (c : Cache) (address : Z) (cache_line_info : I)
    : result (Cache * I) :=
  set ← getSet c address;
  line_info ← getCacheLineInfo_ptr c address;
  out ← match line_info with
        | None => Ok cache_line_info
        | Some w => i ← vec_get (cs_info set) w; Ok (li_assign cache_line_info i)
        end;
  c ← when_enabled c (count_event TAG_ARRAY_READ);
  Ok (c, out).

Definition setCacheLineInfo (c : Cache) (address : Z) (updated : I) : result Cache :=
  set ← getSet c address;
  line_info ← getCacheLineInfo_ptr c address;
  match line_info with
  | None => Err LogError
  | Some w =>
      old ← vec_get (cs_info set) w;
      c ← updateCacheLineStateCounters (getCState old) (getCState updated) c;
      let m := c_miss_sets c in
      let c := if bool_decide (getCState updated = CS_INVALID) && c_track_miss_types c
               then set_miss_sets (mkMissSets (ms_fetched m) (ms_evicted m)
                                    ({[address]} ∪ ms_invalidated m)) c
               else c in
      info ← vec_set (cs_info set) w (li_assign old updated);
      sets ← vec_set (c_sets c) (set_index c address) (with_info set info);
      when_enabled (set_arrays sets (c_policy c) c) (count_event TAG_ARRAY_WRITE)
  end.

Definition updateMissTypeCounters (miss_type : MissType) (c : Cache) : result Cache :=
  assert_c (c_enabled c) ;;
  let m := c_miss c in
  match miss_type with
  | COLD_MISS =>
      Ok (set_miss (mkMissCounters (mc_accesses m) (mc_misses m) (mc_read_accesses m)
        (mc_read_misses m) (mc_write_accesses m) (mc_write_misses m)
        (incr64 (mc_cold m)) (mc_capacity m) (mc_sharing m)) c)
  | CAPACITY_MISS =>
      Ok (set_miss (mkMissCounters (mc_accesses m) (mc_misses m) (mc_read_accesses m)
        (mc_read_misses m) (mc_write_accesses m) (mc_write_misses m)
        (mc_cold m) (incr64 (mc_capacity m)) (mc_sharing m)) c)
  | SHARING_MISS =>
      Ok (set_miss (mkMissCounters (mc_accesses m) (mc_misses m) (mc_read_accesses m)
        (mc_read_misses m) (mc_write_accesses m) (mc_write_misses m)
        (mc_cold m) (mc_capacity m) (incr64 (mc_sharing m))) c)
  | INVALID_MISS_TYPE => Err LogError
  end.

Definition updateMissCounters (c : Cache) (address : Z) (op : mem_op_t) (cache_miss : bool)
    : result (Cache * MissType) :=
  if negb (c_enabled c) then Ok (c, INVALID_MISS_TYPE)
  else
    let m := c_miss c in
    let acc := incr64 (mc_accesses m) in
    m ← (if is_read op then
           Ok (mkMissCounters acc (mc_misses m) (incr64 (mc_read_accesses m)) (mc_read_misses m)
                 (mc_write_accesses m) (mc_write_misses m) (mc_cold m) (mc_capacity m) (mc_sharing m))
         else
           assert_c (bool_decide (c_category c <> INSTRUCTION_CACHE)) ;;
           Ok (mkMissCounters acc (mc_misses m) (mc_read_accesses m) (mc_read_misses m)
                 (incr64 (mc_write_accesses m)) (mc_write_misses m) (mc_cold m) (mc_capacity m)
                 (mc_sharing m)));
    let c := set_miss m c in
    if negb cache_miss then Ok (c, INVALID_MISS_TYPE)
    else
      let misses := incr64 (mc_misses m) in
      let m := if is_read op
               then mkMissCounters (mc_accesses m) misses (mc_read_accesses m)
                      (incr64 (mc_read_misses m)) (mc_write_accesses m) (mc_write_misses m)
                      (mc_cold m) (mc_capacity m) (mc_sharing m)
               else mkMissCounters (mc_accesses m) misses (mc_read_accesses m) (mc_read_misses m)
                      (mc_write_accesses m) (incr64 (mc_write_misses m))
                      (mc_cold m) (mc_capacity m) (mc_sharing m) in
      let c := set_miss m c in
      if c_track_miss_types c then
        let miss_type := getMissType (c_miss_sets c) address in
        c ← updateMissTypeCounters miss_type c;
        Ok (c, miss_type)
      else Ok (c, INVALID_MISS_TYPE).

Definition parseMissType (miss_type : string) : result MissType :=
  if decide (miss_type = "cold"%string) then Ok COLD_MISS
  else if decide (miss_type = "capacity"%string) then Ok CAPACITY_MISS
  else if decide (miss_type = "sharing"%string) then Ok SHARING_MISS
  else Err LogError.
End Cache.
Arguments Cache : clear implicits.

(** ** Invariant and abstraction *)

Section Cache_spec.
Context {I P : Type} `{LineInfoLaws I} `{ReplacementLaws P}.
Implicit Types c : Cache I P.

(** A record describes a line exactly when its state is not [INVALID]. *)
Definition info_ok (i : I) : Prop :=
  getTagOf i = INVALID_TAG <-> getCState i = CS_INVALID.

(** Set [n] of a cache with [2^k] sets of [a] ways of [2^j] bytes. *)
Record set_wf (k j a : Z) (n : nat) (st : CacheSet I) : Prop := {
  sw_shape : set_shape st (Z.of_nat n) a (2 ^ j);
  sw_unique : set_unique st;
  sw_tags w t i : holds st w t i -> 0 <= t < 2 ^ (64 - j) /\ t mod 2 ^ k = Z.of_nat n;
  sw_info : Forall info_ok (cs_info st) }.

(** The records of all lines, and how many are in a state. *)
Definition all_info (sets : list (CacheSet I)) : list I := mjoin (cs_info <$> sets).
Definition in_state (s : CacheState) (l : list I) : Z :=
  Z.of_nat (length (filter (fun i => getCState i = s) l)).

(** The counters start at 0 although all lines start [INVALID]: the counter of
    that state is behind by the number of lines. *)
Definition counters_ok (l : list I) (counters : list Z) : Prop :=
  Z.of_nat (length counters) = NUM_STATES /\
  forall s, vec_get counters (cstate_index s) =
    Ok (wrap64 (in_state s l - if decide (s = CS_INVALID) then Z.of_nat (length l) else 0)).

Record cache_wf (k j a : Z) (c : Cache I P) : Prop := {
  cw_k : 0 <= k < 32;
  cw_j : 0 < j < 32;
  cw_line_size : c_line_size c = 2 ^ j;
  cw_log : c_log_line_size c = j;
  cw_num_sets : c_num_sets c = 2 ^ k;
  cw_assoc : c_associativity c = a;
  cw_hash : c_hash_fn c = mkHash (2 ^ k) j;
  cw_length : Z.of_nat (length (c_sets c)) = 2 ^ k;
  cw_sets n st : c_sets c !! n = Some st -> set_wf k j a n st;
  cw_policy : policy_wf (c_policy c) a (2 ^ k);
  cw_events : length (c_events c) = 4%nat;
  cw_states : counters_ok (all_info (c_sets c)) (c_states c) }.

(** The contents of the cache: a partial map from tags to lines. *)
Definition cache_line (c : Cache I P) (t : Z) : option (I * list Z) :=
  match c_sets c !! Z.to_nat (t mod c_num_sets c) with
  | Some st => set_line st t
  | None => None
  end.

Lemma cache_line_invalid c : cache_line c INVALID_TAG = None.
Proof. unfold cache_line. by case_match. Qed.

(** ** Addresses *)

Lemma tag_range c k j a address :
  cache_wf k j a c -> is_word 64 address ->
  getTag c address = address / 2 ^ j /\ 0 <= getTag c address < 2 ^ (64 - j) /\
  getTag c address <> INVALID_TAG.
Proof.
  intros Hc Ha. unfold getTag. rewrite (cw_log _ _ _ _ Hc).
  pose proof (cw_j _ _ _ _ Hc) as Hj. rewrite Z.shiftr_div_pow2 by lia.
  assert (Hp : 2 ^ 64 = 2 ^ (64 - j) * 2 ^ j) by (rewrite <- Z.pow_add_r by lia; f_equal; lia).
  assert (Hr : 0 <= address / 2 ^ j < 2 ^ (64 - j)).
  { unfold is_word in Ha. split; [apply Z.div_pos; lia|].
    apply Z.div_lt_upper_bound; [lia|]. rewrite Z.mul_comm, <- Hp. lia. }
  assert (2 ^ (64 - j) <= 2 ^ 63) by (apply Z.pow_le_mono_r; lia).
  unfold INVALID_TAG. lia.
Qed.

Lemma set_index_tag c k j a address :
  cache_wf k j a c -> is_word 64 address ->
  set_index c address = getTag c address mod 2 ^ k /\ 0 <= set_index c address < 2 ^ k.
Proof.
  intros Hc Ha. destruct (tag_range c k j a address Hc Ha) as (Ht & Hr & _).
  pose proof (cw_k _ _ _ _ Hc) as Hk.
  unfold set_index, hf_compute. rewrite (cw_hash _ _ _ _ Hc). simpl.
  rewrite <- (cw_log _ _ _ _ Hc). fold (getTag c address).
  assert (2 ^ k < 2 ^ 32) by (apply Z.pow_lt_mono_r; lia).
  assert (0 < 2 ^ k) by (apply Z.pow_pos_nonneg; lia).
  rewrite (wrap_id 32 (2 ^ k - 1)) by (unfold is_word; lia).
  replace (2 ^ k - 1) with (Z.ones k) by (rewrite Z.ones_equiv; lia).
  rewrite Z.land_ones by lia. pose proof (Z.mod_pos_bound (getTag c address) (2 ^ k)).
  rewrite wrap_id by (unfold is_word; lia). split; [done|lia].
Qed.

Lemma getSet_ok c k j a address :
  cache_wf k j a c -> is_word 64 address ->
  exists n st, set_index c address = Z.of_nat n /\ getSet c address = Ok st /\
    c_sets c !! n = Some st /\ set_wf k j a n st /\ Z.of_nat n < 2 ^ k /\
    getTag c address mod 2 ^ k = Z.of_nat n /\
    cache_line c (getTag c address) = set_line st (getTag c address).
Proof.
  intros Hc Ha. destruct (set_index_tag c k j a address Hc Ha) as [Hi Hr].
  pose proof (cw_length _ _ _ _ Hc) as Hl.
  destruct (lookup_lt_is_Some_2 (c_sets c) (Z.to_nat (set_index c address))) as [st Hst]; [lia|].
  exists (Z.to_nat (set_index c address)), st. split_and!; [lia| |done| |lia|lia|].
  - unfold getSet. apply vec_get_ok. split; [lia|done].
  - by apply (cw_sets _ _ _ _ Hc).
  - unfold cache_line. by rewrite (cw_num_sets _ _ _ _ Hc), <- Hi, Hst.
Qed.

Lemma line_offset_spec c k j a address :
  cache_wf k j a c -> is_word 64 address ->
  getLineOffset c address = address mod 2 ^ j /\ 0 <= getLineOffset c address < 2 ^ j.
Proof.
  intros Hc Ha. unfold getLineOffset. rewrite (cw_line_size _ _ _ _ Hc).
  pose proof (cw_j _ _ _ _ Hc) as Hj.
  assert (2 ^ j < 2 ^ 32) by (apply Z.pow_lt_mono_r; lia).
  assert (0 < 2 ^ j) by (apply Z.pow_pos_nonneg; lia).
  rewrite wrap_id by (unfold is_word; lia).
  replace (2 ^ j - 1) with (Z.ones j) by (rewrite Z.ones_equiv; lia).
  rewrite Z.land_ones by lia. pose proof (Z.mod_pos_bound address (2 ^ j)). lia.
Qed.

(** The tag of the address computed from a tag. *)
Lemma address_from_tag c k j a t :
  cache_wf k j a c -> 0 <= t < 2 ^ (64 - j) ->
  getAddressFromTag c t = t * 2 ^ j /\ is_word 64 (t * 2 ^ j) /\
  getTag c (t * 2 ^ j) = t /\ t * 2 ^ j <> INVALID_ADDRESS.
Proof.
  intros Hc Ht. pose proof (cw_j _ _ _ _ Hc) as Hj.
  assert (Hp : 2 ^ 64 = 2 ^ (64 - j) * 2 ^ j) by (rewrite <- Z.pow_add_r by lia; f_equal; lia).
  assert (Hw : is_word 64 (t * 2 ^ j)) by (unfold is_word; nia).
  unfold getAddressFromTag, getTag. rewrite (cw_log _ _ _ _ Hc).
  rewrite Z.shiftl_mul_pow2 by lia. rewrite wrap_id by done.
  rewrite Z.shiftr_div_pow2, Z.div_mul by lia. do 3 (split; [done|]).
  unfold INVALID_ADDRESS. intros He.
  assert (Hj2 : 2 ^ j = 2 * 2 ^ (j - 1)) by (rewrite <- Z.pow_succ_r by lia; f_equal; lia).
  rewrite Hj2 in He. nia.
Qed.

(** ** Counters *)

Lemma cstate_index_range s : 0 <= cstate_index s < NUM_STATES.
Proof. destruct s; done. Qed.

Lemma cstate_index_inj s s' : cstate_index s = cstate_index s' -> s = s'.
Proof. by destruct s, s'. Qed.

Definition delta (s o n : CacheState) : Z :=
  (if decide (s = n) then 1 else 0) - (if decide (s = o) then 1 else 0).

Lemma update_states_spec c o n (f : CacheState -> Z) :
  Z.of_nat (length (c_states c)) = NUM_STATES ->
  (forall s, vec_get (c_states c) (cstate_index s) = Ok (wrap64 (f s))) ->
  exists l, updateCacheLineStateCounters o n c = Ok (set_states l c) /\
    Z.of_nat (length l) = NUM_STATES /\
    forall s, vec_get l (cstate_index s) = Ok (wrap64 (f s + delta s o n)).
Proof.
  intros Hlen Hf. unfold updateCacheLineStateCounters. rewrite Hf, bind_Ok.
  pose proof (cstate_index_range o) as Ho. pose proof (cstate_index_range n) as Hn.
  destruct (vec_set (c_states c) (cstate_index o) (decr64 (wrap64 (f o)))) as [l1|] eqn:E1;
    [|by rewrite vec_set_eq in E1 by lia].
  pose proof (vec_set_length _ _ _ _ E1) as Hl1.
  assert (Hf1 : forall s, vec_get l1 (cstate_index s) =
    Ok (wrap64 (f s - if decide (s = o) then 1 else 0))).
  { intros s. rewrite (vec_get_set _ _ _ _ _ E1), Hf.
    destruct (decide (s = o)) as [->|Hso].
    - rewrite decide_True by done. unfold decr64. by rewrite <- Z.add_opp_r, wrap_add_l by lia.
    - rewrite decide_False by (by intros ?%cstate_index_inj). by rewrite Z.sub_0_r. }
  rewrite bind_Ok, Hf1, bind_Ok.
  match goal with |- context[vec_set l1 ?i ?x] =>
    destruct (vec_set l1 i x) as [l2|] eqn:E2; [|by rewrite vec_set_eq in E2 by lia] end.
  rewrite bind_Ok. eexists. split; [done|].
  split; [by rewrite (vec_set_length _ _ _ _ E2), Hl1|].
  intros s. rewrite (vec_get_set _ _ _ _ _ E2), Hf1. unfold delta.
  destruct (decide (s = n)) as [->|Hsn].
  - rewrite decide_True by done. unfold incr64. rewrite wrap_add_l by lia. do 2 f_equal; lia.
  - rewrite decide_False by (by intros ?%cstate_index_inj). do 2 f_equal; lia.
Qed.

Lemma in_state_perm s l l' : l ≡ₚ l' -> in_state s l = in_state s l'.
Proof. intros Hp. unfold in_state. by rewrite Hp. Qed.

Lemma in_state_cons s i l :
  in_state s (i :: l) = in_state s l + if decide (s = getCState i) then 1 else 0.
Proof.
  unfold in_state. rewrite filter_cons. repeat case_decide; simpl; naive_solver lia.
Qed.

(** Replacing the record [o] by [n] moves the counters by one line. *)
Lemma counters_step l l' rest o n counters counters' :
  counters_ok l counters -> l ≡ₚ o :: rest -> l' ≡ₚ n :: rest ->
  Z.of_nat (length counters') = NUM_STATES ->
  (forall s, vec_get counters' (cstate_index s) =
     Ok (wrap64 (in_state s l - (if decide (s = CS_INVALID) then Z.of_nat (length l) else 0)
                 + delta s (getCState o) (getCState n)))) ->
  counters_ok l' counters'.
Proof.
  intros _ Hl Hl' Hlen Hc. split; [done|]. intros s. rewrite Hc. do 2 f_equal.
  rewrite (in_state_perm s _ _ Hl), (in_state_perm s _ _ Hl'), !in_state_cons.
  rewrite (Permutation_length Hl), (Permutation_length Hl'). simpl. unfold delta. lia.
Qed.

Lemma lookup_split {A} (l : list A) n x :
  l !! n = Some x -> exists l1 l2, l = l1 ++ x :: l2 /\ forall y, <[n := y]> l = l1 ++ y :: l2.
Proof.
  intros Hn. exists (take n l), (drop (S n) l). split.
  - symmetry. by apply take_drop_middle.
  - intros y. apply insert_take_drop. by eapply lookup_lt_Some.
Qed.

Lemma all_info_insert sets n st st' (w : nat) old i :
  sets !! n = Some st -> cs_info st !! w = Some old -> cs_info st' = <[w := i]> (cs_info st) ->
  exists rest, all_info sets ≡ₚ old :: rest /\ all_info (<[n := st']> sets) ≡ₚ i :: rest.
Proof.
  intros Hst Hold Hi. destruct (lookup_split _ _ _ Hst) as (s1 & s2 & -> & Hs).
  destruct (lookup_split _ _ _ Hold) as (l1 & l2 & Hl & Hl').
  exists (mjoin (cs_info <$> s1) ++ l1 ++ l2 ++ mjoin (cs_info <$> s2)).
  rewrite Hs. unfold all_info. rewrite !fmap_app, !fmap_cons, !join_app. simpl.
  rewrite Hi, Hl', Hl. rewrite <- !app_assoc. simpl.
  split; by rewrite <- !Permutation_middle.
Qed.

(** ** Replacing one record *)

(** The fields fixed at construction. *)
Definition same_config c c' : Prop :=
  c_line_size c' = c_line_size c /\ c_log_line_size c' = c_log_line_size c /\
  c_num_sets c' = c_num_sets c /\ c_associativity c' = c_associativity c /\
  c_hash_fn c' = c_hash_fn c /\ c_enabled c' = c_enabled c /\ c_category c' = c_category c.

Lemma cache_wf_intro c c' k j a n st' :
  cache_wf k j a c -> same_config c c' -> c_sets c' = <[n := st']> (c_sets c) ->
  set_wf k j a n st' -> policy_wf (c_policy c') a (2 ^ k) -> length (c_events c') = 4%nat ->
  counters_ok (all_info (c_sets c')) (c_states c') -> cache_wf k j a c'.
Proof.
  intros Hc (G1 & G2 & G3 & G4 & G5 & _) Hsets Hst Hp He Hcnt. destruct Hc. split; try congruence.
  - rewrite Hsets, length_insert. done.
  - rewrite Hsets. intros m st [(-> & <- & _)|[_ Hm]]%list_lookup_insert_Some; [done|auto].
Qed.

Lemma cache_line_insert c c' k j a (n : nat) st' t :
  cache_wf k j a c -> same_config c c' -> c_sets c' = <[n := st']> (c_sets c) ->
  Z.of_nat n < 2 ^ k ->
  cache_line c' t = if decide (t mod 2 ^ k = Z.of_nat n) then set_line st' t else cache_line c t.
Proof.
  intros Hc (_ & _ & Hn & _) Hsets Hlt. unfold cache_line.
  rewrite Hn, (cw_num_sets _ _ _ _ Hc), Hsets. pose proof (cw_length _ _ _ _ Hc) as Hl.
  case_decide as Ht.
  - by rewrite Ht, Nat2Z.id, list_lookup_insert_eq by lia.
  - rewrite list_lookup_insert_ne; [done|].
    pose proof (Z.mod_pos_bound t (2 ^ k)) as Hb. pose proof (cw_k _ _ _ _ Hc).
    assert (0 < 2 ^ k) by (apply Z.pow_pos_nonneg; lia). lia.
Qed.

Section replace.
Context (c c' : Cache I P) (k j a : Z) (n w : nat) (st st' : CacheSet I) (old i : I).
Context (Hc : cache_wf k j a c) (Hsame : same_config c c') (Hst : c_sets c !! n = Some st)
  (Hold : cs_info st !! w = Some old) (Hsh : set_shape st' (Z.of_nat n) a (2 ^ j))
  (Hinfo : cs_info st' = <[w := i]> (cs_info st))
  (Hdata : forall v, Z.of_nat v < a -> v <> w -> way_data st' v = way_data st v)
  (Hfree : forall v x, holds st v (getTagOf i) x -> v = w)
  (Hok : info_ok i)
  (Htag : getTagOf i <> INVALID_TAG ->
          0 <= getTagOf i < 2 ^ (64 - j) /\ getTagOf i mod 2 ^ k = Z.of_nat n)
  (Hsets : c_sets c' = <[n := st']> (c_sets c)).

Lemma replace_set_wf :
  set_wf k j a n st' /\
  forall t, set_line st' t =
    if decide (t = INVALID_TAG) then None
    else if decide (t = getTagOf i) then Some (i, way_data st' w)
    else if decide (t = getTagOf old) then None
    else set_line st t.
Proof using H0 Hc Hst Hold Hsh Hinfo Hdata Hfree Hok Htag.
  pose proof (cw_sets _ _ _ _ Hc n st Hst) as Hwf. destruct Hwf as [Hshape Hu Ht HF].
  destruct (set_line_update st st' (Z.of_nat n) a (2 ^ j) w old i) as [Hu' Hl]; try done.
  split; [|done]. split; [done|done| |].
  - intros v t x (Hx & Hxt & Hne). rewrite Hinfo in Hx.
    apply list_lookup_insert_Some in Hx as [(-> & <- & _)|[Hv Hx]].
    + subst t. by apply Htag.
    + by apply (Ht v t x).
  - rewrite Hinfo. by apply Forall_insert.
Qed.

Lemma replace_line t :
  cache_line c' t =
    if decide (t = INVALID_TAG) then None
    else if decide (t = getTagOf i) then Some (i, way_data st' w)
    else if decide (t = getTagOf old) then None
    else cache_line c t.
Proof using H0 Hc Hsame Hst Hold Hsh Hinfo Hdata Hfree Hok Htag Hsets.
  destruct replace_set_wf as [_ Hl].
  pose proof (cw_length _ _ _ _ Hc) as Hlen. pose proof (lookup_lt_Some _ _ _ Hst) as Hn.
  rewrite (cache_line_insert c c' k j a n st' t) by (done || lia).
  case_decide as Hm.
  - rewrite Hl. repeat case_decide; try done.
    unfold cache_line. by rewrite (cw_num_sets _ _ _ _ Hc), Hm, Nat2Z.id, Hst.
  - case_decide as Hinv.
    { subst t. by rewrite cache_line_invalid. }
    case_decide as Hti. { subst t. by destruct (Htag Hinv). }
    case_decide as Hto; [|done]. subst t.
    destruct (sw_tags _ _ _ _ _ (cw_sets _ _ _ _ Hc n st Hst) w (getTagOf old) old); done.
Qed.
End replace.

(** ** Counting events *)

Lemma count_event_spec o c :
  length (c_events c) = 4%nat ->
  exists e, count_event o c = Ok (set_events e c) /\ length e = 4%nat.
Proof.
  intros Hl. unfold count_event.
  assert (Ho : 0 <= op_index o < 4) by (destruct o; simpl; lia).
  destruct (lookup_lt_is_Some_2 (c_events c) (Z.to_nat (op_index o))) as [x Hx]; [lia|].
  rewrite (proj2 (vec_get_ok _ _ x)) by (split; [lia|done]).
  rewrite bind_Ok, vec_set_eq by lia. eexists. split; [done|]. by rewrite length_insert.
Qed.

Lemma when_enabled_count o c :
  length (c_events c) = 4%nat ->
  exists e, when_enabled c (count_event o) = Ok (set_events e c) /\ length e = 4%nat.
Proof.
  intros Hl. unfold when_enabled. destruct (c_enabled c); [by apply count_event_spec|].
  exists (c_events c). split; [by destruct c|done].
Qed.

(** ** What the operations do to the contents *)

(** The place of a cached line. *)
Lemma find_cached c k j a address info data :
  cache_wf k j a c -> is_word 64 address ->
  cache_line c (getTag c address) = Some (info, data) ->
  exists (n w : nat) st, set_index c address = Z.of_nat n /\ getSet c address = Ok st /\
    c_sets c !! n = Some st /\ set_wf k j a n st /\ Z.of_nat n < 2 ^ k /\
    cs_find st (getTag c address) = Ok (Some (Z.of_nat w)) /\
    cs_info st !! w = Some info /\ getTagOf info = getTag c address /\ data = way_data st w.
Proof.
  intros Hc Ha Hl. destruct (getSet_ok c k j a address Hc Ha)
    as (n & st & Hi & Hg & Hst & Hwf & Hn & _ & Hcl).
  rewrite Hcl in Hl. destruct Hwf as [Hsh Hu Ht HF].
  apply (set_line_spec st (Z.of_nat n) a (2 ^ j)) in Hl as (w & Hh & ->); [|done..].
  exists n, w, st. split_and!; try done.
  - by eapply cs_find_holds.
  - apply Hh.
  - apply Hh.
Qed.

Lemma find_uncached c k j a address :
  cache_wf k j a c -> is_word 64 address -> cache_line c (getTag c address) = None ->
  getCacheLineInfo_ptr c address = Ok None.
Proof.
  intros Hc Ha Hl. destruct (getSet_ok c k j a address Hc Ha)
    as (n & st & Hi & Hg & Hst & Hwf & Hn & _ & Hcl).
  rewrite Hcl in Hl. destruct Hwf as [Hsh Hu Ht HF].
  unfold getCacheLineInfo_ptr. rewrite Hg, bind_Ok.
  eapply cs_find_absent; [done|by apply (tag_range c k j a)|].
  by eapply set_line_None.
Qed.

(** A line that is replaced by itself keeps the counters. *)
Lemma counters_same l l' rest o counters :
  counters_ok l counters -> l ≡ₚ o :: rest -> l' ≡ₚ o :: rest -> counters_ok l' counters.
Proof.
  intros Hc Hl Hl'. eapply counters_step; [done|done|done|apply Hc|].
  intros s. destruct Hc as [_ ->]. unfold delta. do 2 f_equal. lia.
Qed.

Lemma all_info_same sets n st st' :
  sets !! n = Some st -> cs_info st' = cs_info st -> all_info (<[n := st']> sets) = all_info sets.
Proof.
  intros Hst Hi. destruct (lookup_split _ _ _ Hst) as (s1 & s2 & -> & Hs).
  rewrite Hs. unfold all_info. rewrite !fmap_app, !fmap_cons, !join_app. simpl. by rewrite Hi.
Qed.

(** What the lookup gives the callers that then work on the way. *)
Lemma cached_way k j a n st (w : nat) info t :
  set_wf k j a n st -> cs_info st !! w = Some info -> getTagOf info = t -> t <> INVALID_TAG ->
  Z.of_nat w < a /\ info_ok info /\ (0 <= t < 2 ^ (64 - j) /\ t mod 2 ^ k = Z.of_nat n) /\
  forall v x, holds st v t x -> v = w.
Proof.
  intros [Hsh Hu Ht HF] Hw Htag Hne. split; [|split; [|split]].
  - apply lookup_lt_Some in Hw. unfold set_shape in Hsh. lia.
  - by eapply Forall_lookup_1.
  - by eapply Ht.
  - intros v x Hh. eapply Hu; [done|]. by split_and!.
Qed.

(** Changing the bytes of one way. *)
Lemma replace_data c c' k j a n st st' (w : nat) info :
  cache_wf k j a c -> same_config c c' -> c_sets c !! n = Some st ->
  cs_info st !! w = Some info -> getTagOf info <> INVALID_TAG ->
  set_shape st' (Z.of_nat n) a (2 ^ j) -> cs_info st' = cs_info st ->
  (forall v, Z.of_nat v < a -> v <> w -> way_data st' v = way_data st v) ->
  c_sets c' = <[n := st']> (c_sets c) ->
  set_wf k j a n st' /\
  forall t, cache_line c' t =
    if decide (t = getTagOf info) then Some (info, way_data st' w) else cache_line c t.
Proof.
  intros Hc Hsame Hst Hw Hne Hsh Hinfo Hd Hsets.
  destruct (cached_way k j a n st w info _ (cw_sets _ _ _ _ Hc n st Hst) Hw eq_refl Hne)
    as (Hwa & Hok & Ht & Hfree).
  assert (Hinfo' : cs_info st' = <[w:=info]> (cs_info st)) by (by rewrite Hinfo, list_insert_id).
  split; [by eapply (replace_set_wf c k j a n w st st' info info)|].
  intros t. rewrite (replace_line c c' k j a n w st st' info info) by done.
  case_decide as Hti; [|by repeat case_decide]. subst t.
  rewrite decide_False by congruence. by rewrite cache_line_invalid.
Qed.

Lemma accessCacheLine_load c k j a address buf bytes info data :
  cache_wf k j a c -> is_word 64 address ->
  cache_line c (getTag c address) = Some (info, data) ->
  access_ok (2 ^ j) (address mod 2 ^ j) bytes buf ->
  exists c', accessCacheLine c address LOAD buf bytes =
      Ok (c', (fun _ => slice (Z.to_nat (address mod 2 ^ j)) (Z.to_nat bytes) data) <$> buf) /\
    cache_wf k j a c' /\ same_config c c' /\ forall t, cache_line c' t = cache_line c t.
Proof.
  intros Hc Ha Hl Hacc.
  destruct (find_cached c k j a address info data Hc Ha Hl)
    as (n & w & st & Hi & Hg & Hst & Hwf & Hn & Hf & Hw & Htag & ->).
  destruct (line_offset_spec c k j a address Hc Ha) as [Hoff _].
  destruct (tag_range c k j a address Hc Ha) as (_ & _ & Hninv).
  destruct (cached_way k j a n st w info _ Hwf Hw Htag Hninv) as (Hwa & _).
  destruct (access_asserts _ _ _ _ _ _ _ (sw_shape _ _ _ _ _ Hwf) Hacc) as [_ Hassert].
  destruct (read_line_spec st (Z.of_nat n) a (2 ^ j) (c_policy c) (2 ^ k) w
    (address mod 2 ^ j) bytes buf (sw_shape _ _ _ _ _ Hwf) (cw_policy _ _ _ _ Hc)
    ltac:(lia) Hwa Hacc) as (p' & Hr & Hp').
  destruct (when_enabled_count DATA_ARRAY_READ (set_arrays (c_sets c) p' c)) as (e & He & Hle);
    [apply (cw_events _ _ _ _ Hc)|].
  unfold accessCacheLine. rewrite Hassert, Hg. simpl.
  rewrite Hf, bind_Ok, Hoff, Hr, !bind_Ok, He, bind_Ok.
  eexists. split; [done|]. split; [|split; done].
  apply (cache_wf_intro c _ k j a n st); try done; [simpl; symmetry; by apply list_insert_id|].
  apply (cw_states _ _ _ _ Hc).
Qed.

Lemma accessCacheLine_store c k j a address buf bytes info data :
  cache_wf k j a c -> is_word 64 address ->
  cache_line c (getTag c address) = Some (info, data) ->
  access_ok (2 ^ j) (address mod 2 ^ j) bytes buf ->
  exists c', accessCacheLine c address STORE buf bytes = Ok (c', buf) /\
    cache_wf k j a c' /\ same_config c c' /\
    forall t, cache_line c' t =
      if decide (t = getTag c address)
      then Some (info, splice (Z.to_nat (address mod 2 ^ j)) (default [] buf) data)
      else cache_line c t.
Proof.
  intros Hc Ha Hl Hacc.
  destruct (find_cached c k j a address info data Hc Ha Hl)
    as (n & w & st & Hi & Hg & Hst & Hwf & Hn & Hf & Hw & Htag & ->).
  destruct (line_offset_spec c k j a address Hc Ha) as [Hoff _].
  destruct (tag_range c k j a address Hc Ha) as (_ & _ & Hninv).
  destruct (cached_way k j a n st w info _ Hwf Hw Htag Hninv) as (Hwa & _).
  destruct (access_asserts _ _ _ _ _ _ _ (sw_shape _ _ _ _ _ Hwf) Hacc) as [_ Hassert].
  destruct (write_line_spec st (Z.of_nat n) a (2 ^ j) (c_policy c) (2 ^ k) w
    (address mod 2 ^ j) bytes buf (sw_shape _ _ _ _ _ Hwf) (cw_policy _ _ _ _ Hc)
    ltac:(lia) Hwa Hacc) as (st' & p' & Hr & Hp' & Hsh' & Hinfo & Hdata).
  destruct (when_enabled_count DATA_ARRAY_WRITE (set_arrays (<[n:=st']> (c_sets c)) p' c))
    as (e & He & Hle); [apply (cw_events _ _ _ _ Hc)|].
  unfold accessCacheLine. rewrite Hassert, Hg. simpl.
  rewrite Hf, bind_Ok, Hoff, Hr, bind_Ok. cbn iota zeta.
  rewrite Hi, vec_set_in_range by (by eapply lookup_lt_Some). rewrite !bind_Ok, He, bind_Ok.
  eexists. split; [done|].
  destruct (replace_data c (set_events e (set_arrays (<[n:=st']> (c_sets c)) p' c))
    k j a n st st' w info) as [Hwf' Hline]; try done; [congruence| |].
  { intros v Hv Hne. by rewrite Hdata, decide_False. }
  split; [|split; [done|]].
  - apply (cache_wf_intro c _ k j a n st'); try done. simpl.
    rewrite (all_info_same _ _ st st') by done. apply (cw_states _ _ _ _ Hc).
  - intros t. rewrite Hline, Htag. case_decide; [|done]. by rewrite Hdata, decide_True.
Qed.

(** Replacing a record also moves the state counters. *)
Lemma replace_wf c c' k j a n st st' (w : nat) old i :
  cache_wf k j a c -> same_config c c' -> c_sets c !! n = Some st ->
  cs_info st !! w = Some old -> cs_info st' = <[w := i]> (cs_info st) ->
  set_wf k j a n st' -> c_sets c' = <[n := st']> (c_sets c) ->
  policy_wf (c_policy c') a (2 ^ k) -> length (c_events c') = 4%nat ->
  Z.of_nat (length (c_states c')) = NUM_STATES ->
  (forall s, vec_get (c_states c') (cstate_index s) =
     Ok (wrap64 (in_state s (all_info (c_sets c))
                 - (if decide (s = CS_INVALID) then Z.of_nat (length (all_info (c_sets c))) else 0)
                 + delta s (getCState old) (getCState i)))) ->
  cache_wf k j a c'.
Proof.
  intros Hc Hsame Hst Hold Hinfo Hwf Hsets Hp He Hlen Hcnt.
  destruct (all_info_insert _ n st st' w old i Hst Hold Hinfo) as (rest & H1' & H2').
  eapply cache_wf_intro; try done.
  eapply counters_step; [apply (cw_states _ _ _ _ Hc)|done|by rewrite Hsets|done|done].
Qed.

(** ** setCacheLineInfo *)

Lemma setCacheLineInfo_spec c k j a address info data updated :
  cache_wf k j a c -> is_word 64 address ->
  cache_line c (getTag c address) = Some (info, data) ->
  info_ok updated -> getTagOf updated = getTag c address \/ getTagOf updated = INVALID_TAG ->
  exists c', setCacheLineInfo c address updated = Ok c' /\ cache_wf k j a c' /\ same_config c c' /\
    (forall t, cache_line c' t =
      if decide (t = getTag c address)
      then (if decide (getTagOf updated = INVALID_TAG) then None else Some (updated, data))
      else cache_line c t) /\
    c_track_miss_types c' = c_track_miss_types c /\
    c_miss_sets c' =
      let m := c_miss_sets c in
      if bool_decide (getCState updated = CS_INVALID) && c_track_miss_types c
      then mkMissSets (ms_fetched m) (ms_evicted m) ({[address]} ∪ ms_invalidated m) else m.
Proof.
  intros Hc Ha Hl Hok Hut.
  destruct (find_cached c k j a address info data Hc Ha Hl)
    as (n & w & st & Hi & Hg & Hst & Hwf & Hn & Hf & Hw & Htag & ->).
  destruct (tag_range c k j a address Hc Ha) as (_ & _ & Hninv).
  destruct (cached_way k j a n st w info _ Hwf Hw Htag Hninv) as (Hwa & _ & Htr & Hfree).
  destruct (cw_states _ _ _ _ Hc) as [Hsl Hsv].
  destruct (update_states_spec c (getCState info) (getCState updated) _ Hsl Hsv) as (l & Hu & Hll & Hlv).
  unfold setCacheLineInfo, getCacheLineInfo_ptr. rewrite !Hg. simpl.
  rewrite Hf, bind_Ok, (vec_get_nat _ _ _ Hw), bind_Ok, Hu, bind_Ok, assign_copy.
  rewrite vec_set_in_range by (by eapply lookup_lt_Some). rewrite bind_Ok.
  set (c1 := if _ && _ then _ else _).
  assert (Hc1 : same_config c c1 /\ c_sets c1 = c_sets c /\ c_policy c1 = c_policy c /\
    c_events c1 = c_events c /\ c_states c1 = l /\ set_index c1 address = set_index c address /\
    c_track_miss_types c1 = c_track_miss_types c /\
    c_miss_sets c1 =
      let m := c_miss_sets c in
      if bool_decide (getCState updated = CS_INVALID) && c_track_miss_types c
      then mkMissSets (ms_fetched m) (ms_evicted m) ({[address]} ∪ ms_invalidated m) else m).
  { unfold c1. simpl. by destruct (_ && _). }
  destruct Hc1 as (Hsame & Hs1 & Hp1 & He1 & Hst1 & Hix1 & Htk1 & Hms1).
  rewrite Hs1, Hix1, Hi, vec_set_in_range, bind_Ok by (by eapply lookup_lt_Some).
  set (st' := with_info st (<[w:=updated]> (cs_info st))).
  destruct (when_enabled_count TAG_ARRAY_WRITE (set_arrays (<[n:=st']> (c_sets c)) (c_policy c1) c1))
    as (e & He & Hle); [simpl; rewrite He1; apply (cw_events _ _ _ _ Hc)|].
  rewrite He. eexists. split; [done|].
  assert (Hsh' : set_shape st' (Z.of_nat n) a (2 ^ j)).
  { destruct (sw_shape _ _ _ _ _ Hwf) as (?&?&?&?&?&?&?&?).
    split_and!; try done. simpl. by rewrite length_insert. }
  assert (Hfree' : forall v x, holds st v (getTagOf updated) x -> v = w).
  { destruct Hut as [->|Hinv]; [done|]. intros v x (_ & _ & Hne). by rewrite Hinv in Hne. }
  assert (Htr' : getTagOf updated <> INVALID_TAG ->
    0 <= getTagOf updated < 2 ^ (64 - j) /\ getTagOf updated mod 2 ^ k = Z.of_nat n).
  { destruct Hut as [->|Hinv]; [done|]. by rewrite Hinv. }
  destruct (replace_set_wf c k j a n w st st' info updated) as [Hwf' _]; try done.
  split; [|split; [done|split; [|split; done]]].
  - eapply (replace_wf c _ k j a n st st' w info updated); try done.
    + simpl. rewrite Hp1. apply (cw_policy _ _ _ _ Hc).
    + simpl. by rewrite Hst1.
    + intros s. simpl. by rewrite Hst1, Hlv.
  - intros t. rewrite (replace_line c _ k j a n w st st' info updated); try done.
    rewrite Htag. change (way_data st' w) with (way_data st w).
    destruct (decide (t = INVALID_TAG)) as [->|Ht].
    { rewrite decide_False by congruence. by rewrite cache_line_invalid. }
    destruct (decide (t = getTag c address)) as [->|Hne].
    + destruct Hut as [Heq|Heq]; rewrite Heq.
      * by rewrite decide_True, decide_False by done.
      * by rewrite decide_False, decide_True by done.
    + rewrite decide_False; [done|]. destruct Hut; congruence.
Qed.

(** ** insertCacheLine *)

(** [c'] differs from [c] in counters and miss sets only. *)
Definition same_arrays c c' : Prop :=
  same_config c c' /\ c_sets c' = c_sets c /\ c_policy c' = c_policy c /\
  c_track_miss_types c' = c_track_miss_types c.

(** The miss sets after an insertion. *)
Definition insert_miss_sets (track : bool) (inserted_address : Z) (evicted : option Z)
    (m : MissSets) : MissSets :=
  if negb track then m else
  let m := match evicted with
           | Some e => mkMissSets (ms_fetched m) ({[e]} ∪ ms_evicted m) (ms_invalidated m)
           | None => m
           end in
  let m := clearMissTypeTrackingSets inserted_address m in
  mkMissSets ({[inserted_address]} ∪ ms_fetched m) (ms_evicted m) (ms_invalidated m).

Lemma insert_events_spec c ev :
  length (c_events c) = 4%nat ->
  ev_eviction ev = bool_decide (getCState (ev_info ev) <> CS_INVALID) ->
  exists e x, insert_events ev c = Ok (set_events e (set_evictions x c)) /\ length e = 4%nat.
Proof.
  intros Hl Hev. unfold insert_events. destruct (count_event_spec TAG_ARRAY_READ c Hl) as (e1 & H1' & Hl1).
  destruct (ev_eviction ev) eqn:Eev.
  - rewrite <- Hev. simpl. rewrite H1', bind_Ok.
    destruct (count_event_spec DATA_ARRAY_READ (set_events e1 c) Hl1) as (e2 & H2' & Hl2).
    rewrite H2', !bind_Ok.
    match goal with |- context[set_evictions ?x ?y] => set (c2 := set_evictions x y) end.
    destruct (count_event_spec TAG_ARRAY_WRITE c2 Hl2) as (e3 & H3' & Hl3).
    rewrite H3', bind_Ok.
    destruct (count_event_spec DATA_ARRAY_WRITE (set_events e3 c2) Hl3) as (e4 & H4' & Hl4).
    exists e4. eexists. split; [|done]. rewrite H4'. by destruct c.
  - rewrite bool_decide_true.
    2:{ destruct (decide (getCState (ev_info ev) = CS_INVALID)); [done|].
        by rewrite bool_decide_true in Hev. }
    simpl. rewrite H1', bind_Ok.
    destruct (count_event_spec TAG_ARRAY_WRITE (set_events e1 c) Hl1) as (e3 & H3' & Hl3).
    rewrite H3', bind_Ok.
    destruct (count_event_spec DATA_ARRAY_WRITE (set_events e3 (set_events e1 c)) Hl3) as (e4 & H4' & Hl4).
    exists e4, (c_evictions c). split; [|done]. rewrite H4'. by destruct c.
Qed.

Lemma insert_account_spec c address inserted ev evaddr (f : CacheState -> Z) :
  length (c_events c) = 4%nat -> Z.of_nat (length (c_states c)) = NUM_STATES ->
  (forall s, vec_get (c_states c) (cstate_index s) = Ok (wrap64 (f s))) ->
  (ev_eviction ev = true -> evaddr <> INVALID_ADDRESS) ->
  ev_eviction ev = bool_decide (getCState (ev_info ev) <> CS_INVALID) ->
  exists c', insert_account c address inserted ev evaddr = Ok c' /\ same_arrays c c' /\
    length (c_events c') = 4%nat /\ Z.of_nat (length (c_states c')) = NUM_STATES /\
    (forall s, vec_get (c_states c') (cstate_index s) =
       Ok (wrap64 (f s + delta s (getCState (ev_info ev)) (getCState inserted)))) /\
    c_miss_sets c' = insert_miss_sets (c_track_miss_types c) address
                       (if ev_eviction ev then Some evaddr else None) (c_miss_sets c).
Proof.
  intros He Hsl Hsv Hne Hev. unfold insert_account.
  (* the eviction *)
  set (m1 := if ev_eviction ev && c_track_miss_types c
             then mkMissSets (ms_fetched (c_miss_sets c)) ({[evaddr]} ∪ ms_evicted (c_miss_sets c))
                    (ms_invalidated (c_miss_sets c)) else c_miss_sets c).
  match goal with |- context[mbind _ (if ev_eviction ev then ?x else ?y)] =>
    assert (Hc1 : exists l, (if ev_eviction ev then x else y) = Ok (set_states l (set_miss_sets m1 c)) /\
      Z.of_nat (length l) = NUM_STATES /\
      forall s, vec_get l (cstate_index s) = Ok (wrap64 (f s + delta s (getCState (ev_info ev)) CS_INVALID)))
  end.
  { destruct (ev_eviction ev) eqn:Eev.
    - unfold assert_c. rewrite (proj2 (Z.eqb_neq _ _)) by auto. simpl.
      destruct (update_states_spec (set_miss_sets m1 c) (getCState (ev_info ev)) CS_INVALID f Hsl Hsv)
        as (l & Hl & Hll & Hlv).
      exists l. split; [|done]. rewrite <- Hl. unfold m1. simpl. f_equal.
      destruct c as [? ? ? ? ? ? ? ? ? ? ? ? ? ? ? ? []]; done.
    - exists (c_states c). split; [by destruct c|]. split; [done|].
      intros s. rewrite Hsv. do 2 f_equal. unfold delta.
      destruct (decide (getCState (ev_info ev) = CS_INVALID)) as [->|Hi]; [lia|].
      by rewrite bool_decide_true in Hev. }
  destruct Hc1 as (l1 & -> & Hl1 & Hv1). rewrite bind_Ok. cbn zeta.
  set (c2 := if c_track_miss_types (set_states l1 (set_miss_sets m1 c)) then _ else _).
  set (c3 := if c_track_miss_types c2 then _ else _).
  assert (Hc3 : c3 = set_miss_sets (insert_miss_sets (c_track_miss_types c) address
      (if ev_eviction ev then Some evaddr else None) (c_miss_sets c)) (set_states l1 c)).
  { unfold c3, c2, m1, insert_miss_sets.
    destruct c as [? ? ? ? ? ? ? ? ? ? ? ? ? ? ? ? []]; [|by rewrite andb_false_r].
    by destruct (ev_eviction ev). }
  clearbody c3. subst c3.
  match goal with |- context[updateCacheLineStateCounters _ _ ?x] =>
    destruct (update_states_spec x CS_INVALID (getCState inserted)
      (fun s => f s + delta s (getCState (ev_info ev)) CS_INVALID) Hl1 Hv1) as (l2 & -> & Hl2 & Hv2) end.
  rewrite bind_Ok. unfold when_enabled. simpl.
  assert (Hv : forall s, vec_get l2 (cstate_index s) =
    Ok (wrap64 (f s + delta s (getCState (ev_info ev)) (getCState inserted)))).
  { intros s. rewrite Hv2. do 2 f_equal. unfold delta. lia. }
  destruct (c_enabled c) eqn:Een.
  - match goal with |- context[insert_events ev ?x] =>
      destruct (insert_events_spec x ev He Hev) as (e & y & -> & Hle) end.
    by eexists.
  - by eexists.
Qed.

Lemma isValid_state i : info_ok i -> isValid i = bool_decide (getCState i <> CS_INVALID).
Proof.
  intros Hok. destruct (isValid i) eqn:E.
  - apply isValid_tag in E. rewrite bool_decide_true; [done|]. by intros ?%Hok.
  - rewrite bool_decide_false; [done|]. intros Hne.
    assert (isValid i = true); [|congruence]. apply isValid_tag. by intros ?%Hok.
Qed.

(** What [insertCacheLine] evicts: nothing, or the line of another tag. *)
Definition evicts c (address : Z) (wb : Buf) (evicted : I) (ev : Eviction I) (evaddr : Z)
    (victim : option Z) : Prop :=
  match victim with
  | None => ev = mkEviction false evicted wb
  | Some t => exists i d,
      t <> getTag c address /\ cache_line c t = Some (i, d) /\ getTagOf i = t /\
      ev = mkEviction true i ((fun _ => d) <$> wb) /\ evaddr = getAddressFromTag c t /\
      getTag c evaddr = t /\ evaddr <> INVALID_ADDRESS /\ is_word 64 evaddr
  end.

Lemma victim_line c k j a n st (w : nat) old address (wb : Buf) evicted p sets :
  cache_wf k j a c -> c_sets c !! n = Some st -> cs_info st !! w = Some old ->
  getTagOf old <> INVALID_TAG -> cache_line c (getTag c address) = None ->
  evicts c address wb evicted (mkEviction true old ((fun _ => way_data st w) <$> wb))
    (getAddressFromTag (set_arrays sets p c) (getTagOf old)) (Some (getTagOf old)).
Proof.
  intros Hc Hst Hold Hvt Hno. pose proof (cw_sets _ _ _ _ Hc n st Hst) as Hwf.
  destruct (cached_way k j a n st w old _ Hwf Hold eq_refl Hvt) as (_ & _ & [Htr Htm] & _).
  destruct (address_from_tag c k j a _ Hc Htr) as (He & Hw & Hgt & Hnia).
  assert (Hl : cache_line c (getTagOf old) = Some (old, way_data st w)).
  { unfold cache_line. rewrite (cw_num_sets _ _ _ _ Hc), Htm, Nat2Z.id, Hst.
    eapply set_line_spec; [apply Hwf|apply Hwf|]. by exists w. }
  exists old, (way_data st w).
  change (getAddressFromTag (set_arrays sets p c) (getTagOf old)) with
    (getAddressFromTag c (getTagOf old)). rewrite He.
  split; [congruence|]. by split_and!; try apply Hw.
Qed.

Lemma insertCacheLine_spec c k j a address inserted fill evicted wb :
  cache_wf k j a c -> is_word 64 address -> cache_line c (getTag c address) = None ->
  getTagOf inserted = getTag c address -> getCState inserted <> CS_INVALID ->
  Z.of_nat (length fill) = 2 ^ j -> fill_ok (2 ^ j) wb -> getCState evicted = CS_INVALID ->
  exists c' ev evaddr victim,
    insertCacheLine c address inserted (Some fill) evicted wb = Ok (c', ev, evaddr) /\
    cache_wf k j a c' /\ same_config c c' /\
    evicts c address wb evicted ev evaddr victim /\
    (forall t, cache_line c' t =
      if decide (t = getTag c address) then Some (inserted, fill)
      else if decide (Some t = victim) then None
      else cache_line c t) /\
    c_track_miss_types c' = c_track_miss_types c /\
    c_miss_sets c' = insert_miss_sets (c_track_miss_types c) address
                       (const evaddr <$> victim) (c_miss_sets c).
Proof.
  intros Hc Ha Hno Htag Hcs Hfill Hwb Hev.
  destruct (getSet_ok c k j a address Hc Ha) as (n & st & Hi & Hg & Hst & Hwf & Hn & Hm & Hcl).
  destruct (tag_range c k j a address Hc Ha) as (_ & Hr & Hninv).
  destruct (cs_insert_spec st (Z.of_nat n) a (2 ^ j) (c_policy c) (2 ^ k) inserted (Some fill) evicted wb
    (sw_shape _ _ _ _ _ Hwf) (cw_policy _ _ _ _ Hc) ltac:(lia) Hfill Hwb)
    as (w & old & st' & p' & Hins & Hold & Hp' & Hsh' & Hinfo & Hdata).
  set (ev := if isValid old then _ else _) in Hins.
  assert (Hokold : info_ok old) by (eapply Forall_lookup_1; [apply (sw_info _ _ _ _ _ Hwf)|done]).
  assert (Hokins : info_ok inserted) by (split; congruence).
  pose proof (isValid_state old Hokold) as Hvs.
  assert (Hfree : forall v x, holds st v (getTagOf inserted) x -> v = w).
  { rewrite Hcl in Hno. intros v x Hh. rewrite Htag in Hh.
    eapply (set_line_None st _ a (2 ^ j)) in Hno; [by apply Hno in Hh|apply Hwf|apply Hwf]. }
  assert (Hd : forall v, Z.of_nat v < a -> v <> w -> way_data st' v = way_data st v)
    by (intros v Hv Hne; by rewrite Hdata, decide_False).
  destruct (replace_set_wf c k j a n w st st' old inserted) as [Hwf' _]; try done.
  { rewrite Htag. auto. }
  unfold insertCacheLine. rewrite Hg, bind_Ok, Hins, bind_Ok, Hi.
  rewrite vec_set_in_range by (by eapply lookup_lt_Some). rewrite bind_Ok. cbn zeta.
  set (c1 := set_arrays _ _ c). set (evaddr := getAddressFromTag c1 _).
  set (victim := if isValid old then Some (getTagOf old) else None).
  assert (Hevicts : evicts c address wb evicted ev evaddr victim).
  { unfold victim, evaddr, ev. destruct (isValid old) eqn:Ev; [|done].
    apply isValid_tag in Ev as Hvt. simpl. by eapply (victim_line c k j a n st w old address wb evicted). }
  assert (Hevc : ev_eviction ev = isValid old) by (unfold ev; by destruct (isValid old)).
  assert (Hevs : getCState (ev_info ev) = getCState old).
  { unfold ev. destruct (isValid old); [done|]. simpl. rewrite Hev. symmetry in Hvs |- *.
    by apply bool_decide_eq_false, dec_stable in Hvs. }
  destruct (cw_states _ _ _ _ Hc) as [Hsl Hsv].
  destruct (insert_account_spec c1 address inserted ev evaddr _ (cw_events _ _ _ _ Hc) Hsl Hsv)
    as (c' & Hacc & (Hsame & Hs' & Hpc & Htk) & He' & Hsl' & Hsv' & Hms).
  { intros Ev. revert Hevicts. unfold victim. rewrite Hevc in Ev. rewrite Ev. by intros (?&?&?&?&?&?&?&?&?&?). }
  { rewrite Hevc, Hevs. done. }
  rewrite Hacc, bind_Ok. exists c', ev, evaddr, victim. split; [done|].
  assert (Htr : getTagOf inserted <> INVALID_TAG ->
    0 <= getTagOf inserted < 2 ^ (64 - j) /\ getTagOf inserted mod 2 ^ k = Z.of_nat n)
    by (rewrite Htag; auto).
  split; [|split; [exact Hsame|split; [done|split; [|split; [done|]]]]].
  - eapply (replace_wf c c' k j a n st st' w old inserted); try done.
    + by rewrite Hpc.
    + intros s. by rewrite Hsv', Hevs.
  - intros t. rewrite (replace_line c c' k j a n w st st' old inserted) by done.
    assert (Hf : way_data st' w = fill).
    { rewrite Hdata; [by rewrite decide_True|]. apply lookup_lt_Some in Hold.
      destruct (sw_shape _ _ _ _ _ Hwf) as (_&_&_&_&_&_&?&_). lia. }
    rewrite Htag, Hf.
    destruct (decide (t = INVALID_TAG)) as [->|Ht].
    { rewrite (decide_False (P := INVALID_TAG = getTag c address)) by congruence.
      destruct (decide (Some INVALID_TAG = victim)); [done|]. by rewrite cache_line_invalid. }
    destruct (decide (t = getTag c address)); [done|]. unfold victim. destruct (isValid old) eqn:Ev.
    + repeat case_decide; naive_solver.
    + rewrite decide_False; [by rewrite decide_False|]. intros ->.
      assert (isValid old = true); [by apply isValid_tag|congruence].
  - rewrite Hms, Hevc. unfold victim. by destruct (isValid old).
Qed.

(** ** getCacheLineInfo *)

Lemma getCacheLineInfo_spec c k j a address arg :
  cache_wf k j a c -> is_word 64 address ->
  exists c', getCacheLineInfo c address arg =
      Ok (c', match cache_line c (getTag c address) with Some (i, _) => i | None => arg end) /\
    cache_wf k j a c' /\ same_config c c' /\ forall t, cache_line c' t = cache_line c t.
Proof.
  intros Hc Ha.
  destruct (when_enabled_count TAG_ARRAY_READ c (cw_events _ _ _ _ Hc)) as (e & He & Hle).
  assert (Hwf : cache_wf k j a (set_events e c)) by (destruct Hc; split; done).
  exists (set_events e c). split; [|done].
  destruct (cache_line c (getTag c address)) as [[info data]|] eqn:Hl.
  - destruct (find_cached c k j a address info data Hc Ha Hl)
      as (n & w & st & Hi & Hg & Hst & _ & Hn & Hf & Hw & Htag & ->).
    unfold getCacheLineInfo, getCacheLineInfo_ptr. rewrite !Hg. simpl.
    by rewrite Hf, bind_Ok, (vec_get_nat _ _ _ Hw), !bind_Ok, assign_copy, He.
  - pose proof (find_uncached c k j a address Hc Ha Hl) as Hp.
    destruct (getSet_ok c k j a address Hc Ha) as (n & st & _ & Hg & _).
    unfold getCacheLineInfo. by rewrite Hg, bind_Ok, Hp, !bind_Ok, He.
Qed.

(** ** The constructor *)

Lemma in_state_all s l :
  Forall (fun i => getCState i = CS_INVALID) l ->
  in_state s l = if decide (s = CS_INVALID) then Z.of_nat (length l) else 0.
Proof.
  intros HF. unfold in_state. case_decide as Hs.
  - rewrite filter_all; [done|]. eapply Forall_impl; [done|]. naive_solver.
  - rewrite filter_none; [done|]. eapply Forall_impl; [done|]. naive_solver.
Qed.

Lemma Cache_new_wf cat wpol size a j k p track :
  0 <= k < 32 -> 0 < j < 32 -> 0 < a ->
  0 <= size -> k_KILO * size = 2 ^ k * (a * 2 ^ j) -> k_KILO * size < 2 ^ 32 ->
  policy_wf p a (2 ^ k) ->
  let c := Cache_new cat wpol size a (2 ^ j) p (CacheHashFn_new size a (2 ^ j)) track in
  cache_wf k j a c /\ forall t, cache_line c t = None.
Proof.
  intros Hk Hj Ha Hsize Heq Hlt Hp c.
  assert (Hpk : 0 < 2 ^ k) by (apply Z.pow_pos_nonneg; lia).
  assert (Hpj : 0 < 2 ^ j) by (apply Z.pow_pos_nonneg; lia).
  assert (Haj : 0 < a * 2 ^ j < 2 ^ 32) by nia.
  assert (Hns : wrap32 (k_KILO * size) / wrap32 (a * 2 ^ j) = 2 ^ k).
  { rewrite !wrap_id by (unfold is_word; lia). rewrite Heq. apply Z.div_mul. lia. }
  assert (Hlog : wrap32 (floorLog2 (2 ^ j)) = j).
  { rewrite floorLog2_pow2 by lia. apply wrap_id. unfold is_word. lia. }
  assert (Hsets : forall n st, c_sets c !! n = Some st ->
    st = CacheSet_new (Z.of_nat n) a (2 ^ j) /\ Z.of_nat n < 2 ^ k).
  { intros n st. simpl. rewrite Hns, list_lookup_fmap. intros (z & Hz & ->)%fmap_Some.
    apply lookup_seqZ in Hz as [-> Hz]. split; [done|lia]. }
  split; [split; try done|].
  - simpl. unfold CacheHashFn_new. rewrite Hlog, (Z.mul_comm size), (Z.mul_comm (2 ^ j)). by rewrite Hns.
  - simpl. rewrite Hns, length_map, length_seqZ. lia.
  - intros n st [-> Hn]%Hsets.
    destruct (CacheSet_new_wf (I:=I) (Z.of_nat n) a (2 ^ j)) as (Hsh & Hu & _); [lia|lia|lia|].
    split; [done|done| |].
    + intros w t i (Hi & Ht & Hne). simpl in Hi. apply lookup_replicate in Hi as [-> _].
      rewrite new_tag in Ht. done.
    + simpl. apply Forall_replicate. unfold info_ok. by rewrite new_tag, new_state.
  - split; [done|]. intros s. rewrite in_state_all.
    + assert (Hz : vec_get (c_states c) (cstate_index s) = Ok 0) by (by destruct s).
      rewrite Hz. f_equal. case_decide; [by rewrite Z.sub_diag|done].
    + unfold all_info. apply Forall_forall. intros i Hi.
      apply list_elem_of_join in Hi as (l & Hi & Hl).
      apply list_elem_of_fmap in Hl as (st & -> & Hst).
      apply list_elem_of_lookup in Hst as [n Hst]. apply Hsets in Hst as [-> _].
      simpl in Hi. apply elem_of_replicate in Hi as [-> _]. apply new_state.
  - intros t. unfold cache_line. case_match eqn:E; [|done]. apply Hsets in E as [-> _].
    apply (CacheSet_new_wf (I:=I)); lia.
Qed.
End Cache_spec.
