(* ===== verification/CacheThm.v ===== *)
(** * The cache as a map: what [Cache] promises to the protocol controllers

    The contract of the operations of cache/cache.cc in terms of the contents
    [cache_line], the invariant of every reachable cache, and the meaning of
    the miss types. *)

From S2P Require Import Prelude Utils CacheLine Replacement CacheSet Cache.

Section CacheThm.
Context {I P : Type} `{LineInfoLaws I} `{ReplacementLaws P}.
Implicit Types c : Cache I P.

(** C31: the cache implements a map from tags to lines.  On a well-formed cache
    and a 64-bit address: a load of a cached line that stays inside the line
    returns the bytes of the line and leaves the contents alone; a store
    overwrites exactly those bytes; an access to a line that is not cached
    stops the simulator; an insertion of an uncached line binds its tag to the
    new record and bytes and removes at most one other line, whose record,
    bytes and address are handed back; an update of a cached line's record
    rebinds it, or unbinds it when the record was invalidated; a lookup copies
    the record of a cached line into its argument and leaves the argument
    alone otherwise.  Every operation keeps the cache well formed. *)
Theorem Cache_refines_map c k j a address :
  cache_wf k j a c -> is_word 64 address ->
  let tag := getTag c address in
  let off := Z.to_nat (address mod 2 ^ j) in
  (forall info data buf bytes,
     cache_line c tag = Some (info, data) ->
     access_ok (2 ^ j) (address mod 2 ^ j) bytes buf ->
     (exists c', accessCacheLine c address LOAD buf bytes =
          Ok (c', (fun _ => slice off (Z.to_nat bytes) data) <$> buf) /\
        cache_wf k j a c' /\ forall t, cache_line c' t = cache_line c t) /\
     (exists c', accessCacheLine c address STORE buf bytes = Ok (c', buf) /\
        cache_wf k j a c' /\
        forall t, cache_line c' t =
          if decide (t = tag) then Some (info, splice off (default [] buf) data)
          else cache_line c t)) /\
  (forall ty buf bytes,
     cache_line c tag = None -> is_null buf = (bytes =? 0) ->
     accessCacheLine c address ty buf bytes = Err LogError) /\
  (forall inserted fill evicted wb,
     cache_line c tag = None -> getTagOf inserted = tag -> getCState inserted <> CS_INVALID ->
     Z.of_nat (length fill) = 2 ^ j -> fill_ok (2 ^ j) wb -> getCState evicted = CS_INVALID ->
     exists c' ev evaddr victim,
       insertCacheLine c address inserted (Some fill) evicted wb = Ok (c', ev, evaddr) /\
       cache_wf k j a c' /\ evicts c address wb evicted ev evaddr victim /\
       forall t, cache_line c' t =
         if decide (t = tag) then Some (inserted, fill)
         else if decide (Some t = victim) then None else cache_line c t) /\
  (forall info data updated,
     cache_line c tag = Some (info, data) -> info_ok updated ->
     getTagOf updated = tag \/ getTagOf updated = INVALID_TAG ->
     exists c', setCacheLineInfo c address updated = Ok c' /\ cache_wf k j a c' /\
       forall t, cache_line c' t =
         if decide (t = tag)
         then (if decide (getTagOf updated = INVALID_TAG) then None else Some (updated, data))
         else cache_line c t) /\
  (forall arg, exists c',
     getCacheLineInfo c address arg =
       Ok (c', match cache_line c tag with Some (i, _) => i | None => arg end) /\
     cache_wf k j a c' /\ forall t, cache_line c' t = cache_line c t).
Proof.
  intros Hc Ha tag off. split_and!.
  - intros info data buf bytes Hl Hacc. split.
    + destruct (accessCacheLine_load c k j a address buf bytes info data) as (c' & ? & ? & _ & ?); eauto.
    + destruct (accessCacheLine_store c k j a address buf bytes info data) as (c' & ? & ? & _ & ?); eauto.
  - intros ty buf bytes Hl Hb. unfold accessCacheLine.
    pose proof (find_uncached c k j a address Hc Ha Hl) as Hf. unfold getCacheLineInfo_ptr in Hf.
    destruct (getSet_ok c k j a address Hc Ha) as (n & st & _ & Hg & _).
    rewrite Hb, eqb_reflx, Hg in *. simpl in *. by rewrite Hf.
  - intros inserted fill evicted wb Hl Ht Hcs Hfl Hwb Hev.
    destruct (insertCacheLine_spec c k j a address inserted fill evicted wb)
      as (c' & ev & evaddr & victim & ? & ? & _ & ? & ? & _); eauto 10.
  - intros info data updated Hl Hok Ht.
    destruct (setCacheLineInfo_spec c k j a address info data updated) as (c' & ? & ? & _ & ? & _); eauto.
  - intros arg. destruct (getCacheLineInfo_spec c k j a address arg) as (c' & ? & ? & _ & ?); eauto.
Qed.

(** ** Reachable caches *)

(** One call by a controller, with what the controllers guarantee. *)
Inductive cache_step : Cache I P -> Cache I P -> Prop :=
  | step_access c k j a address ty buf bytes info data c' out :
      cache_wf k j a c -> is_word 64 address ->
      cache_line c (getTag c address) = Some (info, data) ->
      access_ok (2 ^ j) (address mod 2 ^ j) bytes buf ->
      accessCacheLine c address ty buf bytes = Ok (c', out) -> cache_step c c'
  | step_insert c k j a address inserted fill evicted wb c' ev evaddr :
      cache_wf k j a c -> is_word 64 address ->
      cache_line c (getTag c address) = None ->
      getTagOf inserted = getTag c address -> getCState inserted <> CS_INVALID ->
      Z.of_nat (length fill) = 2 ^ j -> fill_ok (2 ^ j) wb -> getCState evicted = CS_INVALID ->
      insertCacheLine c address inserted (Some fill) evicted wb = Ok (c', ev, evaddr) ->
      cache_step c c'
  | step_set c k j a address info data updated c' :
      cache_wf k j a c -> is_word 64 address ->
      cache_line c (getTag c address) = Some (info, data) -> info_ok updated ->
      getTagOf updated = getTag c address \/ getTagOf updated = INVALID_TAG ->
      setCacheLineInfo c address updated = Ok c' -> cache_step c c'
  | step_get c address arg c' out :
      is_word 64 address -> getCacheLineInfo c address arg = Ok (c', out) -> cache_step c c'
  | step_miss c address op miss c' mt :
      updateMissCounters c address op miss = Ok (c', mt) -> cache_step c c'
  | step_enable c b : cache_step c (set_enabled b c).

Lemma updateMissCounters_arrays c address op miss c' mt :
  updateMissCounters c address op miss = Ok (c', mt) -> exists m, c' = set_miss m c.
Proof.
  unfold updateMissCounters. destruct (c_enabled c) eqn:Een; simpl.
  2:{ intros [= <- <-]. exists (c_miss c). by destruct c. }
  intros E. inv_ok. destruct (negb miss); [inv_ok; simplify_eq; by eexists|].
  destruct (c_track_miss_types _); [|inv_ok; simplify_eq; by eexists].
  inv_ok. simplify_eq. unfold updateMissTypeCounters in *. inv_ok.
  repeat case_match; inv_ok; simplify_eq; by eexists.
Qed.

Lemma cache_step_wf c c' k j a : cache_step c c' -> cache_wf k j a c -> cache_wf k j a c'.
Proof.
  intros Hstep Hwf.
  assert (Hu : forall k' j' a', cache_wf k' j' a' c -> k' = k /\ j' = j /\ a' = a).
  { intros k' j' a' Hwf'. destruct Hwf, Hwf'.
    assert (2 ^ k' = 2 ^ k) by congruence.
    split_and!; [apply (Z.pow_inj_r 2); lia|congruence|congruence]. }
  destruct Hstep.
  - destruct (Hu _ _ _ H3) as (-> & -> & ->). destruct ty.
    + destruct (accessCacheLine_load c k j a address buf bytes info data) as (? & ? & ? & _); auto.
      by same_result.
    + destruct (accessCacheLine_store c k j a address buf bytes info data) as (? & ? & ? & _); auto.
      by same_result.
  - destruct (Hu _ _ _ H3) as (-> & -> & ->).
    destruct (insertCacheLine_spec c k j a address inserted fill evicted wb)
      as (? & ? & ? & ? & ? & ? & _); auto. by same_result.
  - destruct (Hu _ _ _ H3) as (-> & -> & ->).
    destruct (setCacheLineInfo_spec c k j a address info data updated) as (? & ? & ? & _); auto.
    by same_result.
  - destruct (getCacheLineInfo_spec c k j a address arg) as (? & ? & ? & _); auto. by same_result.
  - destruct (updateMissCounters_arrays _ _ _ _ _ _ H3) as [m ->]. destruct Hwf. by split.
  - destruct Hwf. by split.
Qed.

Lemma all_info_length c k j a :
  cache_wf k j a c -> Z.of_nat (length (all_info (c_sets c))) = a * 2 ^ k.
Proof.
  intros Hc. rewrite <- (cw_length _ _ _ _ Hc).
  assert (HF : Forall (fun st => Z.of_nat (length (cs_info st)) = a) (c_sets c)).
  { apply Forall_lookup_2. intros n st Hst.
    destruct (sw_shape _ _ _ _ _ (cw_sets _ _ _ _ Hc n st Hst)) as (_&_&_&_&_&_&?&_). done. }
  unfold all_info. induction HF as [|st l Hst HF IH]; [simpl; lia|].
  rewrite fmap_cons. simpl. rewrite length_app. lia.
Qed.

Lemma state_counter_exact c k j a s :
  cache_wf k j a c -> s <> CS_INVALID ->
  vec_get (c_states c) (cstate_index s) = Ok (in_state s (all_info (c_sets c))).
Proof.
  intros Hc Hs. destruct (cw_states _ _ _ _ Hc) as [_ Hv]. rewrite Hv, decide_False, Z.sub_0_r by done.
  rewrite wrap_id; [done|]. pose proof (all_info_length c k j a Hc) as Hlen.
  assert (Hle : in_state s (all_info (c_sets c)) <= Z.of_nat (length (all_info (c_sets c)))).
  { unfold in_state. apply inj_le. apply length_filter. }
  assert (Ha : a < 2 ^ 32).
  { destruct (lookup_lt_is_Some_2 (c_sets c) 0) as [st Hst].
    - pose proof (cw_length _ _ _ _ Hc) as Hl. pose proof (cw_k _ _ _ _ Hc).
      assert (0 < 2 ^ k) by (apply Z.pow_pos_nonneg; lia). lia.
    - destruct (sw_shape _ _ _ _ _ (cw_sets _ _ _ _ Hc _ st Hst)) as (_&_&_&?&?&?&_). nia. }
  pose proof (cw_k _ _ _ _ Hc). assert (2 ^ k < 2 ^ 32) by (apply Z.pow_lt_mono_r; lia).
  assert (0 < 2 ^ k) by (apply Z.pow_pos_nonneg; lia).
  unfold is_word, in_state in *. nia.
Qed.

(** C32: a cache built by the constructor, with a power-of-two number of sets
    and line size, stays well formed under every sequence of operations the
    controllers may call.  In every reachable cache no tag is held by two ways
    of the cache, a way is valid exactly when its state is not [INVALID], and
    [_cache_line_state_counters] holds, for each state other than [INVALID],
    the exact number of lines in that state. *)
Theorem Cache_reachable_invariant cat wpol size a j k p track c :
  0 <= k < 32 -> 0 < j < 32 -> 0 < a -> 0 <= size ->
  k_KILO * size = 2 ^ k * (a * 2 ^ j) -> k_KILO * size < 2 ^ 32 -> policy_wf p a (2 ^ k) ->
  rtc cache_step (Cache_new cat wpol size a (2 ^ j) p (CacheHashFn_new size a (2 ^ j)) track) c ->
  cache_wf k j a c /\
  (forall n n' st st' w w' t i i',
     c_sets c !! n = Some st -> c_sets c !! n' = Some st' ->
     holds st w t i -> holds st' w' t i' -> n = n' /\ w = w') /\
  (forall i, i ∈ all_info (c_sets c) -> isValid i = bool_decide (getCState i <> CS_INVALID)) /\
  (forall s, s <> CS_INVALID ->
     vec_get (c_states c) (cstate_index s) = Ok (in_state s (all_info (c_sets c)))).
Proof.
  intros Hk Hj Ha Hs Heq Hlt Hp Hsteps.
  assert (Hc : cache_wf k j a c).
  { pose proof (proj1 (Cache_new_wf cat wpol size a j k p track Hk Hj Ha Hs Heq Hlt Hp)) as H0'.
    revert H0'. cbv zeta. induction Hsteps as [|x y z Hxy _ IH]; [done|].
    intros Hx. by eapply IH, cache_step_wf. }
  split_and!; [done| | |intros s; by apply (state_counter_exact c k j a)].
  - intros n n' st st' w w' t i i' Hst Hst' Hh Hh'.
    pose proof (cw_sets _ _ _ _ Hc n st Hst) as Hw. pose proof (cw_sets _ _ _ _ Hc n' st' Hst') as Hw'.
    destruct (sw_tags _ _ _ _ _ Hw w t i Hh) as [_ Hn].
    destruct (sw_tags _ _ _ _ _ Hw' w' t i' Hh') as [_ Hn'].
    assert (n = n') as <- by lia. simplify_eq. split; [done|].
    by eapply (sw_unique _ _ _ _ _ Hw).
  - intros i Hi. apply list_elem_of_join in Hi as (l & Hi & Hl).
    apply list_elem_of_fmap in Hl as (st & -> & Hst).
    apply list_elem_of_lookup in Hst as [n Hst]. apply isValid_state.
    pose proof (sw_info _ _ _ _ _ (cw_sets _ _ _ _ Hc n st Hst)) as HF.
    rewrite Forall_forall in HF. by apply HF.
Qed.

(** ** Miss types *)

(** An address that names a line by its first byte. *)
Definition aligned c (x : Z) : Prop := is_word 64 x /\ getAddressFromTag c (getTag c x) = x.

(** The tracking sets record why a line left the cache last. *)
Record miss_ok c : Prop := {
  mo_cached x : aligned c x -> cache_line c (getTag c x) <> None ->
    x ∈ ms_fetched (c_miss_sets c) /\ (x ∉ ms_evicted (c_miss_sets c)) /\
    (x ∉ ms_invalidated (c_miss_sets c));
  mo_disjoint : ms_evicted (c_miss_sets c) ## ms_invalidated (c_miss_sets c);
  mo_fetched : ms_evicted (c_miss_sets c) ∪ ms_invalidated (c_miss_sets c)
               ⊆ ms_fetched (c_miss_sets c) }.

Lemma aligned_inj c x y : aligned c x -> aligned c y -> getTag c x = getTag c y -> x = y.
Proof. intros [_ Hx] [_ Hy] He. congruence. Qed.

Lemma aligned_config c c' x : same_config c c' -> aligned c x <-> aligned c' x.
Proof.
  intros (_ & Hl & _). unfold aligned, getAddressFromTag, getTag. by rewrite Hl.
Qed.

Lemma getTag_config c c' x : same_config c c' -> getTag c' x = getTag c x.
Proof. intros (_ & Hl & _). unfold getTag. by rewrite Hl. Qed.

Definition opt_set (o : option Z) : gset Z := match o with Some v => {[v]} | None => ∅ end.

Lemma insert_miss_sets_eq x victim m :
  ms_evicted m ## ms_invalidated m -> victim <> Some x ->
  let m' := insert_miss_sets true x victim m in
  ms_fetched m' = {[x]} ∪ ms_fetched m /\
  ms_evicted m' = (opt_set victim ∪ ms_evicted m) ∖ {[x]} /\
  ms_invalidated m' = ms_invalidated m ∖ {[x]}.
Proof.
  intros Hd Hv. destruct m as [f e i]. unfold insert_miss_sets, clearMissTypeTrackingSets.
  simpl in *. destruct victim as [v|]; simpl.
  - assert (v <> x) by congruence. repeat case_decide; simpl; split_and!; apply set_eq; intros y;
      (destruct (decide (y = x)); set_solver).
  - repeat case_decide; simpl; split_and!; apply set_eq; intros y;
      (destruct (decide (y = x)); set_solver).
Qed.

Lemma getMissType_cold m x :
  ms_evicted m ∪ ms_invalidated m ⊆ ms_fetched m ->
  getMissType m x = COLD_MISS <-> (x ∉ ms_fetched m).
Proof. intros Hs. unfold getMissType. repeat case_decide; split; try done; set_solver. Qed.

(** The miss type after an insertion, from the sets. *)
Lemma getMissType_insert m x victim y :
  ms_evicted m ## ms_invalidated m -> victim <> Some x -> y <> x ->
  getMissType (insert_miss_sets true x victim m) y =
  if decide (victim = Some y) then CAPACITY_MISS else getMissType m y.
Proof.
  intros Hd Hv Hy. destruct (insert_miss_sets_eq x victim m Hd Hv) as (Hf & He & Hi).
  unfold getMissType. rewrite Hf, He, Hi. destruct (decide (victim = Some y)) as [Hvy|Hvy].
  - subst victim. rewrite decide_True by set_solver. done.
  - assert (H1' : y ∈ (opt_set victim ∪ ms_evicted m) ∖ {[x]} <-> y ∈ ms_evicted m)
      by (destruct victim; set_solver).
    assert (H2' : y ∈ ms_invalidated m ∖ {[x]} <-> y ∈ ms_invalidated m) by set_solver.
    assert (H3' : y ∈ {[x]} ∪ ms_fetched m <-> y ∈ ms_fetched m) by set_solver.
    repeat case_decide; naive_solver.
Qed.

Lemma miss_ok_insert c c' k j a x inserted fill victim evaddr :
  cache_wf k j a c -> miss_ok c -> same_config c c' -> aligned c x ->
  (forall t, cache_line c' t =
      if decide (t = getTag c x) then Some (inserted, fill)
      else if decide (Some t = victim) then None else cache_line c t) ->
  (forall t, victim = Some t -> aligned c evaddr /\ getTag c evaddr = t /\
      evaddr <> x /\ cache_line c t <> None) ->
  c_miss_sets c' = insert_miss_sets true x (const evaddr <$> victim) (c_miss_sets c) ->
  miss_ok c'.
Proof.
  intros Hc Hm Hsame Hx Hline Hv Hms.
  assert (Hvx : const evaddr <$> victim <> Some x)
    by (destruct victim as [t|]; [destruct (Hv t eq_refl); naive_solver|done]).
  destruct (insert_miss_sets_eq x _ _ (mo_disjoint _ Hm) Hvx) as (Hf & He & Hi).
  rewrite <- Hms in Hf, He, Hi.
  assert (Hvs : forall y, y ∈ opt_set (const evaddr <$> victim) -> y = evaddr /\ exists t, victim = Some t)
    by (intros y; destruct victim; set_solver).
  split; rewrite ?Hf, ?He, ?Hi.
  - intros y Hy. rewrite (getTag_config c c') by done. rewrite Hline.
    apply (aligned_config c c') in Hy; [|done]. destruct (decide (getTag c y = getTag c x)) as [Hyt|Hyt].
    { rewrite (aligned_inj c y x Hy Hx Hyt). set_solver. }
    case_decide as Hyv; [done|]. intros Hyl. destruct (mo_cached _ Hm y Hy Hyl) as (? & ? & ?).
    assert (y ∉ opt_set (const evaddr <$> victim)).
    { intros [-> [t Ht]]%Hvs. destruct (Hv t Ht) as (_ & Hg & _). congruence. }
    set_solver.
  - pose proof (mo_disjoint _ Hm). intros y. intros [Hy _]%elem_of_difference [Hyi _]%elem_of_difference.
    apply elem_of_union in Hy as [Hy|Hy]; [|set_solver].
    apply Hvs in Hy as [-> [t Ht]]. destruct (Hv t Ht) as (Ha & Hg & _ & Hl). subst t.
    by destruct (mo_cached _ Hm evaddr Ha Hl) as (_ & _ & ?).
  - pose proof (mo_fetched _ Hm).
    intros y [[Hy _]%elem_of_difference|[Hy _]%elem_of_difference]%elem_of_union; [|set_solver].
    apply elem_of_union in Hy as [Hy|Hy]; [|set_solver].
    apply Hvs in Hy as [-> [t Ht]]. destruct (Hv t Ht) as (Ha & Hg & _ & Hl). subst t.
    destruct (mo_cached _ Hm evaddr Ha Hl) as (? & _). set_solver.
Qed.

(** A cache fresh from the constructor satisfies the invariant. *)
Lemma miss_ok_new c :
  (forall t, cache_line c t = None) -> c_miss_sets c = mkMissSets ∅ ∅ ∅ -> miss_ok c.
Proof. intros Hl Hm. split; rewrite ?Hm; simpl; [intros x _; by rewrite Hl|set_solver..]. Qed.

(** C36: with miss-type tracking on, [getMissType] tells why a line left the
    cache.  Inserting
    a line makes the address it evicts a capacity miss and changes no other
    uncached line's class; invalidating a line makes it a sharing miss and
    changes no other class; an address is a cold miss exactly when it was
    never fetched.  The invariant [miss_ok] is kept: a cached line is in
    neither the evicted nor the invalidated set, and these sets are disjoint,
    which is what makes the early exits of [clearMissTypeTrackingSets] right. *)
Theorem miss_types_explained c k j a x :
  cache_wf k j a c -> miss_ok c -> c_track_miss_types c = true -> aligned c x ->
  (forall inserted fill evicted wb,
     cache_line c (getTag c x) = None -> getTagOf inserted = getTag c x ->
     getCState inserted <> CS_INVALID -> Z.of_nat (length fill) = 2 ^ j ->
     fill_ok (2 ^ j) wb -> getCState evicted = CS_INVALID ->
     exists c' ev evaddr,
       insertCacheLine c x inserted (Some fill) evicted wb = Ok (c', ev, evaddr) /\ miss_ok c' /\
       forall y, aligned c y -> y <> x ->
         getMissType (c_miss_sets c') y =
         if decide (ev_eviction ev = true /\ y = evaddr) then CAPACITY_MISS
         else getMissType (c_miss_sets c) y) /\
  (forall info data updated,
     cache_line c (getTag c x) = Some (info, data) ->
     getTagOf updated = INVALID_TAG -> getCState updated = CS_INVALID ->
     exists c', setCacheLineInfo c x updated = Ok c' /\ miss_ok c' /\
       forall y, getMissType (c_miss_sets c') y =
         if decide (y = x) then SHARING_MISS else getMissType (c_miss_sets c) y) /\
  (forall y, getMissType (c_miss_sets c) y = COLD_MISS <-> (y ∉ ms_fetched (c_miss_sets c))).
Proof.
  intros Hc Hm Htk Hx. split_and!.
  - intros inserted fill evicted wb Hno Htag Hcs Hfill Hwb Hev.
    destruct (insertCacheLine_spec c k j a x inserted fill evicted wb Hc (proj1 Hx) Hno Htag Hcs Hfill Hwb Hev)
      as (c' & ev & evaddr & victim & Hins & Hc' & Hsame & Hvic & Hline & _ & Hms).
    exists c', ev, evaddr. split; [done|]. rewrite Htk in Hms.
    assert (Hv : forall t, victim = Some t -> aligned c evaddr /\ getTag c evaddr = t /\
      evaddr <> x /\ cache_line c t <> None /\ ev_eviction ev = true).
    { intros t ->. destruct Hvic as (i & d & Ht & Hl & _ & -> & Ha & Hg & _ & Hw).
      split; [split; [done|by rewrite Hg]|]. split; [done|]. split; [intros ->; by apply Ht|].
      split; [congruence|done]. }
    assert (Hvx : const evaddr <$> victim <> Some x)
      by (destruct victim as [t|]; [destruct (Hv t eq_refl); naive_solver|done]).
    split.
    + apply (miss_ok_insert c c' k j a x inserted fill victim evaddr); try done.
      intros t Ht. by destruct (Hv t Ht) as (? & ? & ? & ? & _).
    + intros y Hy Hyx. rewrite Hms, getMissType_insert by (done || apply Hm).
      destruct victim as [t|]; simpl.
      * destruct (Hv t eq_refl) as (_ & _ & _ & _ & Hevc).
        destruct (decide (y = evaddr)) as [->|Hye].
        -- by rewrite !decide_True.
        -- rewrite !decide_False; [done|by intros [_ ?]|congruence].
      * simpl in Hvic. subst ev. simpl. repeat (case_decide as Hd; [by destruct Hd|]). done.
  - intros info data updated Hl Hut Hus.
    destruct (setCacheLineInfo_spec c k j a x info data updated Hc (proj1 Hx) Hl) as
      (c' & Hset & Hc' & Hsame & Hline & _ & Hms); [by split|by right|].
    rewrite Htk, bool_decide_true in Hms by done. simpl in Hms.
    destruct (mo_cached _ Hm x Hx ltac:(congruence)) as (Hf & He & Hi).
    exists c'. split; [done|]. split.
    + split; rewrite Hms; simpl.
      * intros y Hy. rewrite (getTag_config c c') by done. rewrite Hline.
        apply (aligned_config c c') in Hy; [|done]. destruct (decide (getTag c y = getTag c x)) as [Hyt|Hyt].
        { by rewrite decide_True. }
        intros Hyl. destruct (mo_cached _ Hm y Hy Hyl) as (? & ? & ?).
        assert (y <> x) by (by intros ->). set_solver.
      * pose proof (mo_disjoint _ Hm). set_solver.
      * pose proof (mo_fetched _ Hm). set_solver.
    + intros y. rewrite Hms. unfold getMissType. simpl.
      destruct (decide (y = x)) as [->|Hne].
      * rewrite decide_False, decide_True by set_solver. done.
      * assert (y ∈ {[x]} ∪ ms_invalidated (c_miss_sets c) <-> y ∈ ms_invalidated (c_miss_sets c))
          by set_solver. repeat case_decide; tauto.
  - intros y. apply getMissType_cold, (mo_fetched _ Hm).
Qed.
End CacheThm.

(** ** A concrete cache: eight sets of two 64-byte lines, LRU *)

Definition example_cache : Cache CacheLineInfo Policy :=
  Cache_new DATA_CACHE WRITE_BACK 1 2 64 (P_LRU (LRU_new 1 2 64)) (CacheHashFn_new 1 2 64) true.

Lemma example_policy_wf : policy_wf (P_LRU (LRU_new 1 2 64)) 2 (2 ^ 3).
Proof.
  pose proof (Policy_create_wf "lru" 1 2 64 (P_LRU (LRU_new 1 2 64)) eq_refl) as Hp.
  apply Hp; [lia|by vm_compute].
Qed.

Lemma example_cache_wf :
  cache_wf 3 6 2 example_cache /\ forall t, cache_line example_cache t = None.
Proof.
  apply (Cache_new_wf DATA_CACHE WRITE_BACK 1 2 6 3 (P_LRU (LRU_new 1 2 64)) true);
    try (by vm_compute); try lia. apply example_policy_wf.
Qed.

(** A line is inserted at 0x1040, two of its bytes are overwritten and read
    back. *)
Lemma Cache_refines_map_witness :
  exists c1 c2 c3 ev evaddr,
    insertCacheLine example_cache 0x1040 (mkCLI 0x41 CS_MODIFIED 0 0 false) (Some (replicate 64 7))
      CacheLineInfo_new None = Ok (c1, ev, evaddr) /\
    accessCacheLine c1 0x1044 STORE (Some [1; 2]) 2 = Ok (c2, Some [1; 2]) /\
    accessCacheLine c2 0x1043 LOAD (Some [0; 0; 0; 0]) 4 = Ok (c3, Some [7; 1; 2; 7]).
Proof.
  destruct example_cache_wf as [Hc Hno].
  destruct (Cache_refines_map example_cache 3 6 2 0x1040 Hc ltac:(done)) as (_ & _ & Hins & _).
  destruct (Hins (mkCLI 0x41 CS_MODIFIED 0 0 false) (replicate 64 7) CacheLineInfo_new None)
    as (c1 & ev & evaddr & victim & E1 & Hc1 & _ & Hl1); try done.
  assert (Ht1 : forall x, getTag c1 x = Z.shiftr x 6)
    by (intros x; unfold getTag; by rewrite (cw_log _ _ _ _ Hc1)).
  destruct (Cache_refines_map c1 3 6 2 0x1044 Hc1 ltac:(done)) as (Hst & _).
  destruct (Hst (mkCLI 0x41 CS_MODIFIED 0 0 false) (replicate 64 7) (Some [1; 2]) 2)
    as (_ & c2 & E2 & Hc2 & Hl2); [by rewrite Ht1, Hl1|by vm_compute|].
  assert (Ht2 : forall x, getTag c2 x = Z.shiftr x 6)
    by (intros x; unfold getTag; by rewrite (cw_log _ _ _ _ Hc2)).
  destruct (Cache_refines_map c2 3 6 2 0x1043 Hc2 ltac:(done)) as (Hld & _).
  edestruct Hld as ((c3 & E3 & _) & _); [rewrite Ht2, Hl2, Ht1; reflexivity| |].
  2:{ exists c1, c2, c3, ev, evaddr. split; [exact E1|]. split; [exact E2|exact E3]. }
  by vm_compute.
Defined.

(** The same cache after the insertion has one MODIFIED line. *)
Lemma Cache_reachable_witness :
  exists c, rtc cache_step example_cache c /\ cache_wf 3 6 2 c /\
    vec_get (c_states c) (cstate_index CS_MODIFIED) = Ok 1.
Proof.
  destruct example_cache_wf as [Hc Hno].
  destruct (insertCacheLine_spec example_cache 3 6 2 0x1040 (mkCLI 0x41 CS_MODIFIED 0 0 false)
    (replicate 64 7) CacheLineInfo_new None Hc) as (c1 & ev & evaddr & victim & E1 & Hc1 & _); try done.
  assert (Hstep : rtc cache_step example_cache c1).
  { apply rtc_once. eapply (step_insert example_cache 3 6 2 0x1040
      (mkCLI 0x41 CS_MODIFIED 0 0 false) (replicate 64 7) CacheLineInfo_new None); [done..|exact E1]. }
  destruct (Cache_reachable_invariant DATA_CACHE WRITE_BACK 1 2 6 3 (P_LRU (LRU_new 1 2 64)) true c1)
    as (Hwf & _ & _ & Hcnt); try lia; try done; [apply example_policy_wf|].
  exists c1. split; [done|]. split; [done|]. rewrite Hcnt by done.
  vm_compute in E1. injection E1; intros. subst c1. by vm_compute.
Defined.

(** After one insertion the inserted line would be a sharing miss and an
    address that was never fetched is still a cold miss. *)
Lemma miss_types_witness :
  exists c1 ev1 ea1,
    insertCacheLine example_cache 0x1000 (mkCLI 0x40 CS_SHARED 0 0 false) (Some (replicate 64 7))
      CacheLineInfo_new None = Ok (c1, ev1, ea1) /\ miss_ok c1 /\
    getMissType (c_miss_sets c1) 0x1000 = SHARING_MISS /\
    getMissType (c_miss_sets c1) 0x2000 = COLD_MISS.
Proof.
  destruct example_cache_wf as [Hc Hno].
  destruct (miss_types_explained example_cache 3 6 2 0x1000 Hc) as (Hins & _ & Hcold).
  - by apply miss_ok_new.
  - done.
  - by split.
  - destruct (Hins (mkCLI 0x40 CS_SHARED 0 0 false) (replicate 64 7) CacheLineInfo_new None)
      as (c1 & ev & ea & E & Hm & Hmt); try done.
    exists c1, ev, ea. split_and!; [done|done| |].
    + vm_compute in E. injection E; intros. subst c1. by vm_compute.
    + rewrite Hmt by done. rewrite decide_False; [done|]. intros [Hd _]. vm_compute in E. injection E; intros. by subst ev.
Defined.
