(* ===== verification/CachePerf.v ===== *)
(** * Cache timing and clock domains:
    performance_models/cache_perf_model{,_parallel,_sequential}.{h,cc},
    [DVFSManager::convertToModule], [Cache::getSynchronizationDelay]

    The latency of a cache access by the kind of access, the delay of a
    crossing between clock domains, and a cache together with its timing. *)

From S2P Require Import Prelude CacheLine Replacement CacheSet Cache.

(** ** Modules of a tile (common/user/dvfs.h) *)

Inductive module_t : Type :=
  | INVALID_MODULE | CORE | L1_ICACHE | L1_DCACHE | L2_CACHE | DIRECTORY | TILE
  | NETWORK_USER | NETWORK_MEMORY | MAX_MODULE_TYPES.

#[export] Instance module_t_eq_dec : EqDecision module_t.
Proof. solve_decision. Defined.

Definition module_value (m : module_t) : Z :=
  match m with
  | INVALID_MODULE => 0 | CORE => 1 | L1_ICACHE => 2 | L1_DCACHE => 4 | L2_CACHE => 8
  | DIRECTORY => 16 | TILE => 31 | NETWORK_USER => 32 | NETWORK_MEMORY => 64 | MAX_MODULE_TYPES => 127
  end.

Definition convertToModule (component : MemComponent) : result module_t :=
  match component with
  | MC_L1_ICACHE => Ok L1_ICACHE
  | MC_L1_DCACHE => Ok L1_DCACHE
  | MC_L2_CACHE => Ok L2_CACHE
  | MC_DRAM_DIRECTORY => Ok DIRECTORY
  | _ => Err LogError
  end.

(** ** CachePerfModel *)

Inductive PerfAccess : Type :=
  | ACCESS_DATA_AND_TAGS | ACCESS_DATA | ACCESS_TAGS | NUM_ACCESS_TYPES | UNCOMPRESSED
  | WUNCOMPRESSED | COMPRESSED.

Inductive PerfModelType : Type := PARALLEL | SEQUENTIAL.

Record CachePerfModel : Type := mkPerfModel {
  cp_type : PerfModelType;
  cp_data_cycles : Z;
  cp_tags_cycles : Z;
  cp_uncompress_cycles : Z;
  cp_wuncompress_cycles : Z;
  cp_data : Z;                          (* the latencies, in picoseconds *)
  cp_tags : Z;
  cp_synchronization : Z;
  cp_uncompress : Z;
  cp_wuncompress : Z }.

(** [latency cycles] is [Time(Latency(cycles, frequency))] at the frequency of
    the call, [sync_cycles] is [DVFSManager::getSynchronizationDelay()]. *)
Definition CachePerfModel_new (ty : PerfModelType) (data_cycles tags_cycles : Z)
    (latency : Z -> Z) (sync_cycles : Z) : CachePerfModel :=
  mkPerfModel ty data_cycles tags_cycles 5 1 (latency data_cycles) (latency tags_cycles)
    (latency sync_cycles) (latency 5) (latency 1).

Definition parseModelType (s : string) : result PerfModelType :=
  if decide (s = "parallel"%string) then Ok PARALLEL
  else if decide (s = "sequential"%string) then Ok SEQUENTIAL
  else Err LogError.

Definition CachePerfModel_create (s : string) (data_cycles tags_cycles : Z) (latency : Z -> Z)
    (sync_cycles : Z) : result CachePerfModel :=
  ty ← parseModelType s;
  Ok (CachePerfModel_new ty data_cycles tags_cycles latency sync_cycles).

Definition cp_setDVFS (latency : Z -> Z) (sync_cycles : Z) (m : CachePerfModel) : CachePerfModel :=
  mkPerfModel (cp_type m) (cp_data_cycles m) (cp_tags_cycles m) (cp_uncompress_cycles m)
    (cp_wuncompress_cycles m) (latency (cp_data_cycles m)) (latency (cp_tags_cycles m))
    (latency sync_cycles) (cp_uncompress m) (cp_wuncompress m).

Definition cp_getLatency_parallel (m : CachePerfModel) (t : PerfAccess) : result Z :=
  match t with
  | ACCESS_TAGS => Ok (cp_tags m)
  | ACCESS_DATA | ACCESS_DATA_AND_TAGS => Ok (cp_data m)
  | UNCOMPRESSED => Ok (wrap64 (cp_data m + cp_uncompress m))
  | WUNCOMPRESSED => Ok (wrap64 (cp_data m + cp_wuncompress m))
  | _ => Err LogError
  end.

Definition cp_getLatency_sequential (m : CachePerfModel) (t : PerfAccess) : result Z :=
  match t with
  | ACCESS_TAGS => Ok (cp_tags m)
  | ACCESS_DATA => Ok (cp_data m)
  | ACCESS_DATA_AND_TAGS => Ok (wrap64 (cp_data m + cp_tags m))
  | UNCOMPRESSED => Ok (wrap64 (wrap64 (cp_data m + cp_tags m) + cp_uncompress m))
  | WUNCOMPRESSED => Ok (wrap64 (cp_data m + cp_wuncompress m))
  | _ => Err LogError
  end.

Definition cp_getLatency (m : CachePerfModel) (t : PerfAccess) : result Z :=
  match cp_type m with
  | PARALLEL => cp_getLatency_parallel m t
  | SEQUENTIAL => cp_getLatency_sequential m t
  end.

(** ** A cache of a tile: contents, timing, module and crossing statistics *)

Section unit.
Context {I : Type}.

Record CacheUnit : Type := mkUnit {
  u_cache : Cache I Policy;
  u_perf : CachePerfModel;
  u_module : module_t;
  u_async : gmap Z Z }.                 (* _asynchronous_map *)

Definition u_set_cache (c : Cache I Policy) (u : CacheUnit) : CacheUnit :=
  mkUnit c (u_perf u) (u_module u) (u_async u).

(** [domain] is [_dvfs_domain_map]: the clock domain of each module. *)
Definition hasSameDVFSDomain (domain : module_t -> Z) (m1 m2 : module_t) : bool :=
  domain m1 =? domain m2.

Definition getSynchronizationDelay (domain : module_t -> Z) (m : module_t) (u : CacheUnit)
    : Z * CacheUnit :=
  if negb (hasSameDVFSDomain domain (u_module u) m) && c_enabled (u_cache u) then
    let k := module_value m in
    (cp_synchronization (u_perf u),
     mkUnit (u_cache u) (u_perf u) (u_module u)
       (<[k := wrap64 (default 0 (u_async u !! k) + cp_synchronization (u_perf u))]> (u_async u)))
  else (0, u).

Lemma sync_delay_cache domain m u :
  u_cache (getSynchronizationDelay domain m u).2 = u_cache u /\
  u_perf (getSynchronizationDelay domain m u).2 = u_perf u.
Proof. unfold getSynchronizationDelay. by case_match. Qed.
End unit.
Arguments CacheUnit : clear implicits.

(** Tag, data and combined accesses have a latency in both models. *)
Lemma cp_getLatency_ok m t :
  t = ACCESS_TAGS \/ t = ACCESS_DATA \/ t = ACCESS_DATA_AND_TAGS -> is_ok (cp_getLatency m t).
Proof.
  intros [-> | [-> | ->]]; unfold cp_getLatency; destruct (cp_type m); by eexists.
Qed.

(** A change of frequency does not reach the decompression latencies: after
    it the model disagrees with one built at the new frequency whenever the
    latency of the five decompression cycles changed. *)
Lemma setDVFS_keeps_uncompress ty dc tc lat lat' sync :
  cp_setDVFS lat' sync (CachePerfModel_new ty dc tc lat sync) =
    CachePerfModel_new ty dc tc lat' sync <-> lat 5 = lat' 5 /\ lat 1 = lat' 1.
Proof.
  unfold cp_setDVFS, CachePerfModel_new. simpl. split; [by intros [= -> ->]|by intros [-> ->]].
Qed.
