(* ===== verification/Shmem.v ===== *)
(** * Messages, time and DRAM:
    pr_l1_pr_l2_dram_directory_msi/{shmem_msg,shmem_req}.{h,cc},
    performance_models/shmem_perf_model.cc, dram_cntlr.cc

    The data the controllers of the MSI protocol exchange, the clock of a
    tile's memory subsystem and the DRAM contents. *)

From S2P Require Import Prelude CacheLine CacheSet.

(** ** ShmemMsg *)

Inductive MsgType : Type :=
  | INVALID_MSG_TYPE | EX_REQ | SH_REQ | INV_REQ | FLUSH_REQ | WB_REQ | EX_REP | SH_REP
  | UPGRADE_REP | INV_REP | FLUSH_REP | WB_REP | NULLIFY_REQ.

#[export] Instance MsgType_eq_dec : EqDecision MsgType.
Proof. solve_decision. Defined.

Record ShmemMsg : Type := mkMsg {
  m_type : MsgType;
  m_sender : MemComponent;
  m_receiver : MemComponent;
  m_requester : Z;
  m_address : Z;
  m_data_buf : Buf;
  m_data_length : Z;
  m_modeled : bool }.

(** The constructor without and with a payload. *)
Definition ShmemMsg_new (t : MsgType) (sender receiver : MemComponent) (requester address : Z)
    (modeled : bool) : ShmemMsg :=
  mkMsg t sender receiver requester address None 0 modeled.
Definition ShmemMsg_data (t : MsgType) (sender receiver : MemComponent) (requester address : Z)
    (data_buf : Buf) (data_length : Z) (modeled : bool) : ShmemMsg :=
  mkMsg t sender receiver requester address data_buf data_length modeled.

(** The bytes of the object itself.  Its [_data_buf] is a pointer of the sender,
    which says nothing of the payload and is not kept; where it is used, the
    receiver replaces it. *)
Definition header_of (m : ShmemMsg) : ShmemMsg :=
  mkMsg (m_type m) (m_sender m) (m_receiver m) (m_requester m) (m_address m) None
        (m_data_length m) (m_modeled m).

(** [makeMsgBuf] writes the object and, after it, the bytes of the payload;
    [getShmemMsg] reads the object and copies the payload to a new buffer. *)
Definition makeMsgBuf (m : ShmemMsg) : result (ShmemMsg * list Z) :=
  if m_data_length m >? 0 then
    log_assert (negb (is_null (m_data_buf m))) ;;
    payload ← mem_read (default [] (m_data_buf m)) 0 (m_data_length m);
    Ok (header_of m, payload)
  else Ok (header_of m, []).

Definition getShmemMsg (buf : ShmemMsg * list Z) : result ShmemMsg :=
  let '(h, payload) := buf in
  let m := header_of h in
  if m_data_length m >? 0 then
    data ← mem_read payload 0 (m_data_length m);
    Ok (mkMsg (m_type m) (m_sender m) (m_receiver m) (m_requester m) (m_address m)
              (Some data) (m_data_length m) (m_modeled m))
  else Ok m.

Definition num_msg_type_bits : Z := 4.
Definition num_physical_address_bits : Z := 48.

Definition getModeledLength (m : ShmemMsg) : result Z :=
  match m_type m with
  | EX_REQ | SH_REQ | INV_REQ | FLUSH_REQ | WB_REQ | UPGRADE_REP | INV_REP =>
      Ok (num_msg_type_bits + num_physical_address_bits)
  | EX_REP | SH_REP | FLUSH_REP | WB_REP =>
      Ok (wrap32 (num_msg_type_bits + num_physical_address_bits + m_data_length m * 8))
  | _ => Err LogError
  end.

(** ** ShmemReq *)

Record ShmemReq : Type := mkReq { rq_msg : ShmemMsg; rq_time : Z }.

Definition ShmemReq_new (m : ShmemMsg) (time : Z) : result ShmemReq :=
  log_assert (is_null (m_data_buf m)) ;;
  Ok (mkReq m time).

Definition rq_updateTime (time : Z) (r : ShmemReq) : ShmemReq :=
  if rq_time r <? time then mkReq (rq_msg r) time else r.

(** ** ShmemPerfModel: times are [UInt64] picoseconds *)

Record ShmemPerfModel : Type := mkPerf { pm_curr_time : Z; pm_enabled : bool }.

Definition setCurrTime (t : Z) (p : ShmemPerfModel) : ShmemPerfModel := mkPerf t (pm_enabled p).
Definition updateCurrTime (t : Z) (p : ShmemPerfModel) : ShmemPerfModel :=
  if pm_curr_time p <? t then mkPerf t (pm_enabled p) else p.
Definition incrCurrTime (t : Z) (p : ShmemPerfModel) : ShmemPerfModel :=
  if pm_enabled p then mkPerf (wrap64 (pm_curr_time p + t)) (pm_enabled p) else p.

(** ** DramCntlr

    [run_dram] is the latency computed by the DRAM performance model, in
    picoseconds, as a function of the times of its calls so far while it was
    enabled (it keeps a queue model and floating-point bandwidth figures). *)

Record DramCntlr : Type := mkDram {
  dr_data_map : gmap Z (list Z);          (* absent: NULL *)
  dr_cache_line_size : Z;
  dr_perf_calls : list Z;
  dr_perf_enabled : bool;
  dr_read_count : gmap Z Z;
  dr_write_count : gmap Z Z }.

Definition addToDramAccessCount (address : Z) (m : gmap Z Z) : gmap Z Z :=
  <[address := wrap64 (default 0 (m !! address) + 1)]> m.

Definition dr_setEnabled (b : bool) (d : DramCntlr) : DramCntlr :=
  mkDram (dr_data_map d) (dr_cache_line_size d) (dr_perf_calls d) b (dr_read_count d) (dr_write_count d).

Section Dram.
Context (run_dram : list Z -> Z).

(** [getAccessLatency] does nothing while the model is disabled. *)
Definition runDramPerfModel (p : ShmemPerfModel) (d : DramCntlr) : Z * DramCntlr :=
  if dr_perf_enabled d then
    let calls := pm_curr_time p :: dr_perf_calls d in
    (run_dram calls,
     mkDram (dr_data_map d) (dr_cache_line_size d) calls true (dr_read_count d) (dr_write_count d))
  else (0, d).

(** [_data_map[address]], allocated with zeroes when it is [NULL]. *)
Definition dram_line (d : DramCntlr) (address : Z) : list Z :=
  default (replicate (Z.to_nat (dr_cache_line_size d)) 0) (dr_data_map d !! address).

(** The debug loop prints sixteen 32-bit words of the buffer, whatever the
    line size: with lines shorter than 64 bytes it reads past the buffer. *)
Definition getDataFromDram (address : Z) (modeled : bool) (d : DramCntlr) (p : ShmemPerfModel)
    : result (list Z * DramCntlr * ShmemPerfModel) :=
  let line := dram_line d address in
  let d := mkDram (<[address := line]> (dr_data_map d)) (dr_cache_line_size d) (dr_perf_calls d)
             (dr_perf_enabled d) (dr_read_count d) (dr_write_count d) in
  data_buf ← mem_read line 0 (dr_cache_line_size d);
  _ ← mem_read data_buf 0 64;
  let '(latency, d) := if modeled then runDramPerfModel p d else (0, d) in
  let p := incrCurrTime latency p in
  Ok (data_buf,
      mkDram (dr_data_map d) (dr_cache_line_size d) (dr_perf_calls d) (dr_perf_enabled d)
        (addToDramAccessCount address (dr_read_count d)) (dr_write_count d), p).

Definition putDataToDram (address : Z) (data_buf : list Z) (modeled : bool) (d : DramCntlr)
    (p : ShmemPerfModel) : result DramCntlr :=
  match dr_data_map d !! address with
  | None => Err LogError
  | Some line =>
      data ← mem_read data_buf 0 (dr_cache_line_size d);
      line ← mem_write line 0 data;
      let d := mkDram (<[address := line]> (dr_data_map d)) (dr_cache_line_size d)
                 (dr_perf_calls d) (dr_perf_enabled d) (dr_read_count d) (dr_write_count d) in
      let '(_, d) := if modeled then runDramPerfModel p d else (0, d) in
      Ok (mkDram (dr_data_map d) (dr_cache_line_size d) (dr_perf_calls d) (dr_perf_enabled d) (dr_read_count d)
            (addToDramAccessCount address (dr_write_count d)))
  end.
End Dram.

(** ** Properties *)

(** A payload is present exactly when its length is not zero, and has that
    length: what [MemoryManager::sendMsg] asserts of a message. *)
Definition msg_ok (m : ShmemMsg) : Prop :=
  0 <= m_data_length m /\
  match m_data_buf m with
  | None => m_data_length m = 0
  | Some l => 0 < m_data_length m /\ Z.of_nat (length l) = m_data_length m
  end.

Lemma header_of_none m : m_data_buf m = None -> header_of m = m.
Proof. destruct m. simpl. by intros ->. Qed.

(** Writing a message that [sendMsg] accepts. *)
Lemma makeMsgBuf_ok m : msg_ok m -> makeMsgBuf m = Ok (header_of m, default [] (m_data_buf m)).
Proof.
  intros [Hlen Hbuf]. unfold makeMsgBuf. destruct (m_data_buf m) as [l|].
  - destruct Hbuf as [Hpos Hl]. rewrite (proj2 (Z.gtb_lt _ 0)) by lia. simpl.
    rewrite mem_read_ok by lia. by rewrite bind_Ok, slice_full by lia.
  - by rewrite Hbuf.
Qed.

(** Reading a buffer with a payload, and one without. *)
Lemma getShmemMsg_cases h payload :
  (m_data_length h = 0 -> getShmemMsg (h, payload) = Ok (header_of h)) /\
  (0 < m_data_length h -> Z.of_nat (length payload) = m_data_length h ->
   getShmemMsg (h, payload) = Ok (mkMsg (m_type h) (m_sender h) (m_receiver h) (m_requester h) (m_address h)
                                  (Some payload) (m_data_length h) (m_modeled h))).
Proof.
  unfold getShmemMsg. simpl. split.
  - by intros ->.
  - intros Hlen Hpl. rewrite (proj2 (Z.gtb_lt _ _)) by lia. rewrite mem_read_ok by lia.
    by rewrite bind_Ok, slice_full by lia.
Qed.

(** C39: [ShmemMsg::getShmemMsg] undoes [ShmemMsg::makeMsgBuf] for every
    message [sendMsg] accepts: the payload arrives although the copied object
    holds none.  Conversely writing a message read from a buffer gives the
    buffer back, when the buffer holds as many payload bytes as it says. *)
Theorem ShmemMsg_roundtrip :
  (forall m, msg_ok m -> (makeMsgBuf m ≫= getShmemMsg) = Ok m) /\
  (forall h payload, m_data_buf h = None -> Z.of_nat (length payload) = m_data_length h ->
     (getShmemMsg (h, payload) ≫= makeMsgBuf) = Ok (h, payload)).
Proof.
  split.
  - intros m Hm. rewrite makeMsgBuf_ok by done. rewrite bind_Ok. destruct Hm as [Hlen Hbuf].
    destruct (getShmemMsg_cases (header_of m) (default [] (m_data_buf m))) as [H0 H1].
    destruct m as [t s r q a [l|] n md]; simpl in *; [by rewrite H1 by lia|by rewrite H0].
  - intros h payload Hh Hlen. destruct (getShmemMsg_cases h payload) as [H0 H1].
    destruct payload as [|b l]; [|rewrite H1 by (simpl in *; lia)].
    + rewrite H0 by (simpl in *; lia). rewrite bind_Ok, makeMsgBuf_ok by (split; simpl in *; lia).
      simpl. by rewrite !header_of_none by (by rewrite ?header_of_none).
    + rewrite bind_Ok, makeMsgBuf_ok by (split; simpl in *; lia). destruct h. simpl in *. by subst.
Qed.

Lemma ShmemMsg_roundtrip_witness :
  let m := ShmemMsg_data EX_REP MC_DRAM_DIRECTORY MC_L2_CACHE 3 0x1000 (Some [1; 2; 3]) 3 true in
  (makeMsgBuf m ≫= getShmemMsg) = Ok m.
Proof. apply (proj1 ShmemMsg_roundtrip). by split. Defined.

Definition dram_wf (d : DramCntlr) : Prop :=
  64 <= dr_cache_line_size d /\
  forall a l, dr_data_map d !! a = Some l -> Z.of_nat (length l) = dr_cache_line_size d.

Lemma getDataFromDram_spec run d p a md :
  dram_wf d ->
  exists d' p', getDataFromDram run a md d p = Ok (dram_line d a, d', p') /\ dram_wf d' /\
    dr_cache_line_size d' = dr_cache_line_size d /\
    dr_data_map d' = <[a := dram_line d a]> (dr_data_map d) /\
    pm_enabled p' = pm_enabled p.
Proof.
  intros [Hls Hd].
  assert (Hl : Z.of_nat (length (dram_line d a)) = dr_cache_line_size d).
  { unfold dram_line. destruct (dr_data_map d !! a) eqn:E; simpl; [by eapply Hd|].
    rewrite length_replicate. lia. }
  unfold getDataFromDram. simpl. rewrite mem_read_ok by lia. rewrite bind_Ok, slice_full by lia.
  rewrite mem_read_ok by lia. rewrite bind_Ok.
  assert (Hwf : forall calls en r w, dram_wf (mkDram (<[a:=dram_line d a]> (dr_data_map d))
    (dr_cache_line_size d) calls en r w)).
  { intros calls en r w. split; [done|]. simpl.
    intros a' l [[-> <-]|[_ Hl']]%lookup_insert_Some; [done|by eapply Hd]. }
  assert (Hen : forall t, pm_enabled (incrCurrTime t p) = pm_enabled p)
    by (intros t; unfold incrCurrTime; by destruct (pm_enabled p) eqn:E).
  destruct md; [unfold runDramPerfModel; simpl; destruct (dr_perf_enabled d) eqn:?|]; simpl; do 2 eexists; (split; [reflexivity|]); split_and!; simpl; auto; apply Hwf.
Qed.

Lemma putDataToDram_spec run d p a data md :
  dram_wf d -> Z.of_nat (length data) = dr_cache_line_size d -> is_Some (dr_data_map d !! a) ->
  exists d', putDataToDram run a data md d p = Ok d' /\ dram_wf d' /\
    dr_cache_line_size d' = dr_cache_line_size d /\
    dr_data_map d' = <[a := data]> (dr_data_map d).
Proof.
  intros [Hls Hd] Hlen [l Hl]. pose proof (Hd _ _ Hl) as Hll.
  unfold putDataToDram. rewrite Hl, mem_read_ok by lia. rewrite bind_Ok, slice_full by lia.
  rewrite mem_write_ok by lia. rewrite bind_Ok. simpl. rewrite splice_full by lia.
  assert (Hwf : forall calls en r w, dram_wf (mkDram (<[a:=data]> (dr_data_map d))
    (dr_cache_line_size d) calls en r w)).
  { intros calls en r w. split; [done|]. simpl.
    intros a' l' [[-> <-]|[_ Hl']]%lookup_insert_Some; [done|by eapply Hd]. }
  destruct md; [unfold runDramPerfModel; simpl; destruct (dr_perf_enabled d) eqn:?|]; simpl; eexists; (split; [reflexivity|]); split_and!; simpl; auto; apply Hwf.
Qed.

(** C38: the DRAM controller stores lines.  With lines of at least 64 bytes a
    read always succeeds, returns zeroes for a line never written, and keeps
    every line; a write to a line that was read before succeeds, and a later
    read returns the written bytes and leaves every other line's contents
    unchanged; a write to a line that was never read stops the simulator; with
    lines shorter than 64 bytes every read runs past its buffer. *)
Theorem DramCntlr_stores_lines run d p a data md :
  dram_wf d -> Z.of_nat (length data) = dr_cache_line_size d ->
  (exists d' p', getDataFromDram run a md d p = Ok (dram_line d a, d', p') /\ dram_wf d' /\
     (dr_data_map d !! a = None ->
      dram_line d a = replicate (Z.to_nat (dr_cache_line_size d)) 0) /\
     (forall b, dram_line d' b = dram_line d b) /\
     exists d'', putDataToDram run a data md d' p' = Ok d'' /\ dram_wf d'' /\
       (exists d3 p3, getDataFromDram run a md d'' p' = Ok (data, d3, p3)) /\
       forall b, b <> a -> dram_line d'' b = dram_line d b) /\
  (dr_data_map d !! a = None -> putDataToDram run a data md d p = Err LogError) /\
  (forall ls m calls en r w, 0 < ls < 64 -> m !! a = None ->
     getDataFromDram run a md (mkDram m ls calls en r w) p = Err OutOfRange).
Proof.
  intros Hwf Hlen. split_and!.
  - destruct (getDataFromDram_spec run d p a md Hwf) as (d' & p' & E & Hwf' & Hls & Hm & _).
    exists d', p'. split; [done|]. split; [done|].
    assert (Hsame : forall b, dram_line d' b = dram_line d b).
    { intros b. unfold dram_line at 1. rewrite Hls, Hm, lookup_insert. by case_decide; subst. }
    split; [intros Hn; unfold dram_line; by rewrite Hn|]. split; [done|].
    destruct (putDataToDram_spec run d' p' a data md) as (d'' & E2 & Hwf2 & Hls2 & Hm2);
      [done|by rewrite Hls|by rewrite Hm, lookup_insert_eq|].
    exists d''. split; [done|]. split; [done|].
    destruct (getDataFromDram_spec run d'' p' a md Hwf2) as (d3 & p3 & E3 & _).
    split.
    + exists d3, p3. rewrite E3. unfold dram_line. by rewrite Hm2, lookup_insert_eq.
    + intros b Hb. rewrite <- Hsame. unfold dram_line. by rewrite Hls2, Hm2, lookup_insert_ne.
  - intros Hn. unfold putDataToDram. by rewrite Hn.
  - intros ls m calls en r w Hls Hn. unfold getDataFromDram, dram_line. simpl. rewrite Hn. simpl.
    rewrite mem_read_ok by (rewrite ?length_replicate; lia). rewrite bind_Ok.
    rewrite slice_full by (rewrite length_replicate; lia).
    unfold mem_read. rewrite length_replicate.
    rewrite (proj2 (Z.leb_gt (0 + 64) (Z.of_nat (Z.to_nat ls)))) by lia. by rewrite andb_false_r.
Qed.

Lemma DramCntlr_stores_lines_witness :
  exists d' p' d'' d3 p3,
    getDataFromDram (fun _ => 100) 0x40 true (mkDram ∅ 64 [] true ∅ ∅) (mkPerf 0 true)
      = Ok (replicate 64 0, d', p') /\
    putDataToDram (fun _ => 100) 0x40 (replicate 64 9) true d' p' = Ok d'' /\
    getDataFromDram (fun _ => 100) 0x40 true d'' p' = Ok (replicate 64 9, d3, p3).
Proof.
  assert (Hwf : dram_wf (mkDram ∅ 64 [] true ∅ ∅)) by (split; [done|intros a l; simpl; by rewrite lookup_empty]).
  destruct (DramCntlr_stores_lines (fun _ => 100) _ (mkPerf 0 true) 0x40 (replicate 64 9) true Hwf
    eq_refl) as ((d' & p' & E1 & _ & _ & _ & d'' & E2 & _ & (d3 & p3 & E3) & _) & _).
  by exists d', p', d'', d3, p3.
Defined.
