(* ===== verification/DirCache.v ===== *)
(** * The directory: directory_schemes/directory.cc, cache/directory_cache.cc

    The directory is a set-associative array of pointers to entries; entries
    evicted from it stay on a side list until their line is nullified.  The
    controllers keep pointers to entries across calls, so entries live in a
    heap and are named by their address in it. *)

From S2P Require Import Prelude Utils BitVec DirEntry Shmem.

Record DirectoryCache : Type := mkDC {
  dc_heap : gmap Z DirectoryEntry;       (* allocated entries *)
  dc_next : Z;                           (* next fresh pointer *)
  dc_list : list Z;                      (* Directory::_directory_entry_list *)
  dc_sharer_count_vec : list Z;          (* Directory::_sharer_count_vec *)
  dc_replaced : list Z;                  (* _replaced_directory_entry_list *)
  dc_cfg : DirConfig;
  dc_type : DirectoryType;
  dc_max_hw_sharers : Z;
  dc_max_num_sharers : Z;
  dc_total_entries : Z;
  dc_associativity : Z;
  dc_log_num_sets : Z;
  dc_log_cache_line_size : Z;
  dc_log_num_directory_slices : Z;
  dc_access_cycles : Z;
  dc_enabled : bool;
  dc_accesses : Z;
  dc_evictions : Z;
  dc_back_invalidations : Z }.

Definition dc_set_heap (h : gmap Z DirectoryEntry) (c : DirectoryCache) : DirectoryCache :=
  mkDC h (dc_next c) (dc_list c) (dc_sharer_count_vec c) (dc_replaced c) (dc_cfg c) (dc_type c)
    (dc_max_hw_sharers c) (dc_max_num_sharers c) (dc_total_entries c) (dc_associativity c)
    (dc_log_num_sets c) (dc_log_cache_line_size c) (dc_log_num_directory_slices c)
    (dc_access_cycles c) (dc_enabled c) (dc_accesses c) (dc_evictions c) (dc_back_invalidations c).
Definition dc_set_alloc (h : gmap Z DirectoryEntry) (n : Z) (c : DirectoryCache) : DirectoryCache :=
  mkDC h n (dc_list c) (dc_sharer_count_vec c) (dc_replaced c) (dc_cfg c) (dc_type c)
    (dc_max_hw_sharers c) (dc_max_num_sharers c) (dc_total_entries c) (dc_associativity c)
    (dc_log_num_sets c) (dc_log_cache_line_size c) (dc_log_num_directory_slices c)
    (dc_access_cycles c) (dc_enabled c) (dc_accesses c) (dc_evictions c) (dc_back_invalidations c).
Definition dc_set_lists (l r : list Z) (c : DirectoryCache) : DirectoryCache :=
  mkDC (dc_heap c) (dc_next c) l (dc_sharer_count_vec c) r (dc_cfg c) (dc_type c)
    (dc_max_hw_sharers c) (dc_max_num_sharers c) (dc_total_entries c) (dc_associativity c)
    (dc_log_num_sets c) (dc_log_cache_line_size c) (dc_log_num_directory_slices c)
    (dc_access_cycles c) (dc_enabled c) (dc_accesses c) (dc_evictions c) (dc_back_invalidations c).
Definition dc_set_sharer_counts (v : list Z) (c : DirectoryCache) : DirectoryCache :=
  mkDC (dc_heap c) (dc_next c) (dc_list c) v (dc_replaced c) (dc_cfg c) (dc_type c)
    (dc_max_hw_sharers c) (dc_max_num_sharers c) (dc_total_entries c) (dc_associativity c)
    (dc_log_num_sets c) (dc_log_cache_line_size c) (dc_log_num_directory_slices c)
    (dc_access_cycles c) (dc_enabled c) (dc_accesses c) (dc_evictions c) (dc_back_invalidations c).
Definition dc_set_counters (a e b : Z) (c : DirectoryCache) : DirectoryCache :=
  mkDC (dc_heap c) (dc_next c) (dc_list c) (dc_sharer_count_vec c) (dc_replaced c) (dc_cfg c)
    (dc_type c) (dc_max_hw_sharers c) (dc_max_num_sharers c) (dc_total_entries c)
    (dc_associativity c) (dc_log_num_sets c) (dc_log_cache_line_size c)
    (dc_log_num_directory_slices c) (dc_access_cycles c) (dc_enabled c) a e b.
Definition dc_set_enabled (b : bool) (c : DirectoryCache) : DirectoryCache :=
  mkDC (dc_heap c) (dc_next c) (dc_list c) (dc_sharer_count_vec c) (dc_replaced c) (dc_cfg c)
    (dc_type c) (dc_max_hw_sharers c) (dc_max_num_sharers c) (dc_total_entries c)
    (dc_associativity c) (dc_log_num_sets c) (dc_log_cache_line_size c)
    (dc_log_num_directory_slices c) (dc_access_cycles c) b (dc_accesses c) (dc_evictions c)
    (dc_back_invalidations c).

(** ** Sizes *)

(** [ceil] of an exact quotient. *)
Definition ceil_div (x y : Z) : Z := - ((- x) / y).

(** computeDirectoryTotalEntries: [None] is the string "auto".  The product
    computed in [double] is exact below [2^53], and so is the [ceil]. *)
Definition computeDirectoryTotalEntries (total_entries_str : option Z)
    (max_L2_cache_size num_application_tiles cache_line_size associativity slices : Z) : result Z :=
  match total_entries_str with
  | None =>
      let num_sets := wrap32 (ceil_div (2 * max_L2_cache_size * 1024 * num_application_tiles)
                                (wrap32 (cache_line_size * associativity * slices))) in
      let num_sets := wrap32 (Z.shiftl 1 (ceilLog2 num_sets)) in
      Ok (wrap32 (num_sets * associativity))
  | Some total_entries => log_assert (negb (total_entries =? 0)) ;; Ok total_entries
  end.

(** computeDirectoryAccessCycles. *)
Definition computeDirectoryAccessCycles (access_cycles_str : option Z) (directory_size : Z)
    : result Z :=
  match access_cycles_str with
  | None =>
      let kb := ceil_div directory_size 1024 in
      Ok (if kb <=? 16 then 1 else if kb <=? 32 then 2 else if kb <=? 64 then 4
          else if kb <=? 128 then 6 else if kb <=? 256 then 8 else if kb <=? 512 then 10
          else if kb <=? 1024 then 13 else if kb <=? 2048 then 16 else 20)
  | Some cycles => log_assert (negb (cycles =? 0)) ;; Ok cycles
  end.

(** Directory::Directory: entry [i] is allocated at pointer [i]. *)
Definition Directory_new (cfg : DirConfig) (t : DirectoryType) (total_entries hw num : Z)
    : gmap Z DirectoryEntry * list Z * list Z :=
  let ids := seqZ 0 total_entries in
  (list_to_map (map (fun i => (i, DirectoryEntry_create cfg t hw num)) ids), ids,
   if decide (t = FULL_MAP) then replicate (Z.to_nat (cfg_total_tiles cfg + 1)) 0 else []).

Definition DirectoryCache_new (cfg : DirConfig) (directory_type_str : string)
    (total_entries_str : option Z) (max_L2_cache_size num_application_tiles associativity
     cache_line_size max_hw_sharers max_num_sharers num_directory_slices : Z)
    (directory_access_cycles_str : option Z) : result DirectoryCache :=
  t ← parseDirectoryType directory_type_str;
  total_entries ← computeDirectoryTotalEntries total_entries_str max_L2_cache_size
                    num_application_tiles cache_line_size associativity num_directory_slices;
  let num_sets := total_entries / associativity in
  let '(heap, l, stats) := Directory_new cfg t total_entries max_hw_sharers max_num_sharers in
  let entry_size := ceil_div (getSize t max_hw_sharers num_application_tiles) 8 in
  cycles ← computeDirectoryAccessCycles directory_access_cycles_str
             (wrap32 (total_entries * entry_size));
  Ok (mkDC heap total_entries l stats [] cfg t max_hw_sharers max_num_sharers total_entries
        associativity (wrap32 (floorLog2 num_sets)) (wrap32 (floorLog2 cache_line_size))
        (wrap32 (ceilLog2 num_directory_slices)) cycles false 0 0 0).

(** ** Directory: the sharer statistics *)

Definition updateSharerStats (old_count new_count : Z) (c : DirectoryCache) : result DirectoryCache :=
  let total := cfg_total_tiles (dc_cfg c) in
  log_assert (bool_decide (dc_type c = FULL_MAP)) ;;
  log_assert ((old_count >=? 0) && (old_count <=? total)) ;;
  log_assert ((new_count >=? 0) && (new_count <=? total)) ;;
  v ← (if old_count >? 0 then
         x ← vec_get (dc_sharer_count_vec c) old_count;
         log_assert (x >? 0) ;;
         vec_set (dc_sharer_count_vec c) old_count (wrap64 (x - 1))
       else Ok (dc_sharer_count_vec c));
  v ← (if new_count >? 0 then
         x ← vec_get v new_count;
         vec_set v new_count (wrap64 (x + 1))
       else Ok v);
  Ok (dc_set_sharer_counts v c).

(** ** DirectoryCache *)

(** The loop of [computeSetIndex]; [i] is a [UInt32]. *)
Fixpoint set_index_loop (fuel : nat) (address log_num_sets i set : Z) : result Z :=
  match fuel with
  | O => Err OutOfFuel
  | S fuel' =>
      if wrap32 (i + log_num_sets) <=? 64 then
        let addr_bits := getBits 64 address (wrap8 (i + log_num_sets)) (wrap8 i) in
        set_index_loop fuel' address log_num_sets (wrap32 (i + log_num_sets)) (Z.lxor set addr_bits)
      else Ok (wrap32 set)
  end.

(** 66 iterations are more than the loop makes when it terminates. *)
Definition computeSetIndex (c : DirectoryCache) (address : Z) : result Z :=
  set_index_loop 66 address (dc_log_num_sets c)
    (wrap32 (dc_log_cache_line_size c + dc_log_num_directory_slices c)) 0.

#[global] Arguments computeSetIndex : simpl never.

(** [*directory_entry] and the assignment to it. *)
Definition deref (c : DirectoryCache) (p : Z) : result DirectoryEntry :=
  match dc_heap c !! p with Some e => Ok e | None => Err NullDeref end.
Definition dc_store (p : Z) (e : DirectoryEntry) (c : DirectoryCache) : DirectoryCache :=
  dc_set_heap (<[p := e]> (dc_heap c)) c.

(** The slot of way [i], and [Directory::getDirectoryEntry] of it. *)
Definition slot (c : DirectoryCache) (set_index i : Z) : Z :=
  wrap32 (wrap32 (set_index * dc_associativity c) + i).
Definition slot_entry (c : DirectoryCache) (set_index i : Z) : result Z :=
  vec_get (dc_list c) (slot c set_index i).

(** The loops over the ways of a set that stop at an address. *)
Definition find_way (c : DirectoryCache) (set_index address : Z) : result (option (Z * Z)) :=
  find_first (seqZ 0 (dc_associativity c)) (fun i =>
    p ← slot_entry c set_index i;
    e ← deref c p;
    Ok (if de_address e =? address then Some (i, p) else None)).

(** The loops over [_replaced_directory_entry_list]. *)
Definition find_replaced (c : DirectoryCache) (address : Z) : result (option (Z * Z)) :=
  find_first (imap (fun i p => (Z.of_nat i, p)) (dc_replaced c)) (fun '(i, p) =>
    e ← deref c p;
    Ok (if de_address e =? address then Some (i, p) else None)).

(** The [push_back] loop of [getReplacementCandidates]. *)
Fixpoint set_ways (c : DirectoryCache) (set_index : Z) (idx : list Z) : result (list Z) :=
  match idx with
  | [] => Ok []
  | i :: idx' => p ← slot_entry c set_index i; l ← set_ways c set_index idx'; Ok (p :: l)
  end.

Section DirectoryCache.
(** [Latency(cycles, _frequency).toPicosec()] at the directory's frequency. *)
Context (toPicosec : Z -> Z).

Abbreviation DC := (ST (DirectoryCache * ShmemPerfModel)).

Definition updateCounters (c : DirectoryCache) : DirectoryCache :=
  dc_set_counters (wrap64 (dc_accesses c + 1)) (dc_evictions c) (dc_back_invalidations c) c.

Definition charge (cycles : Z) : DC unit :=
  modify (fun '(c, p) => (c, incrCurrTime (toPicosec cycles) p)).

(** The lookup: the set, then a free way of the set, then the side list. *)
Definition getDirectoryEntry (address : Z) : DC (option Z) :=
  enabled ← gets (fun s => dc_enabled s.1);
  cycles ← gets (fun s => dc_access_cycles s.1);
  _ ← when enabled (_ ← charge cycles; modify (fun '(c, p) => (updateCounters c, p)));
  c ← gets fst;
  set_index ← lift (computeSetIndex c address);
  hit ← lift (find_way c set_index address);
  match hit with
  | Some (_, p) =>
      e ← lift (deref c p);
      _ ← charge (getLatency (de_sharers e));
      mret (Some p)
  | None =>
      free ← lift (find_way c set_index INVALID_ADDRESS);
      match free with
      | Some (_, p) =>
          e ← lift (deref c p);
          _ ← modify (fun '(c, pm) => (dc_store p (de_setAddress address e) c, pm));
          mret (Some p)
      | None =>
          r ← lift (find_replaced c address);
          mret (snd <$> r)
      end
  end.

Definition getReplacementCandidates (address : Z) : DC (list Z) :=
  r ← getDirectoryEntry address;
  _ ← lift (assert_c (match r with None => true | Some _ => false end));
  c ← gets fst;
  set_index ← lift (computeSetIndex c address);
  lift (set_ways c set_index (seqZ 0 (dc_associativity c))).

Definition replaceDirectoryEntry (replaced_address address : Z) : DC Z :=
  c ← gets fst;
  set_index ← lift (computeSetIndex c replaced_address);
  let new_ptr := dc_next c in
  let new_entry := de_setAddress address
    (DirectoryEntry_create (dc_cfg c) (dc_type c) (dc_max_hw_sharers c) (dc_max_num_sharers c)) in
  _ ← modify (fun '(c, pm) => (dc_set_alloc (<[new_ptr := new_entry]> (dc_heap c)) (new_ptr + 1) c, pm));
  c ← gets fst;
  hit ← lift (find_way c set_index replaced_address);
  match hit with
  | None => stop LogError
  | Some (i, replaced) =>
      l ← lift (vec_set (dc_list c) (slot c set_index i) new_ptr);
      _ ← modify (fun '(c, pm) => (dc_set_lists l (dc_replaced c ++ [replaced]) c, pm));
      _ ← when (dc_enabled c) (
        _ ← charge (dc_access_cycles c);
        e ← lift (deref c replaced);
        modify (fun '(c, pm) =>
          let c := updateCounters c in
          (dc_set_counters (dc_accesses c) (wrap64 (dc_evictions c + 1))
             (if decide (de_dstate e = D_UNCACHED) then dc_back_invalidations c
              else wrap64 (dc_back_invalidations c + 1)) c, pm)));
      mret new_ptr
  end.

Definition invalidateDirectoryEntry (address : Z) : DC unit :=
  c ← gets fst;
  r ← lift (find_replaced c address);
  match r with
  | None => stop LogError
  | Some (i, p) =>
      modify (fun '(c, pm) =>
        (dc_set_heap (delete p (dc_heap c))
           (dc_set_lists (dc_list c) (delete (Z.to_nat i) (dc_replaced c)) c), pm))
  end.
End DirectoryCache.

(** ** The set index *)

Section set_index.
Context (L : Z) (HL : 1 <= L < 32).

Lemma set_index_loop_ok fuel address i set :
  0 <= i <= 64 + L -> 64 + 1 - i < Z.of_nat fuel -> (0 < fuel)%nat -> 0 <= set < 2 ^ L ->
  exists s, set_index_loop fuel address L i set = Ok s /\ 0 <= s < 2 ^ L.
Proof using HL.
  revert i set. induction fuel as [|fuel IH]; intros i set Hi Hf H0 Hset; [lia|].
  simpl. rewrite wrap_id by (unfold is_word; lia).
  destruct (Z.leb_spec (i + L) 64).
  - rewrite !(wrap_id 8) by (unfold is_word; lia).
    rewrite getBits_div_mod by lia. replace (i + L - i) with L by lia.
    apply IH; [lia|lia|lia|].
    pose proof (Z.mod_pos_bound (address / 2 ^ i) (2 ^ L) ltac:(lia)) as Hm.
    set (x := (address / 2 ^ i) mod 2 ^ L) in *. split; [apply Z.lxor_nonneg; lia|].
    destruct (decide (Z.lxor set x = 0)) as [->|Hne]; [lia|].
    assert (0 < Z.lxor set x) by (assert (0 <= Z.lxor set x) by (apply Z.lxor_nonneg; lia); lia).
    apply Z.log2_lt_pow2; [done|].
    assert (Hlog : forall y, 0 <= y < 2 ^ L -> Z.log2 y < L).
    { intros y Hy. destruct (decide (y = 0)) as [->|]; [simpl; lia|]. apply Z.log2_lt_pow2; lia. }
    pose proof (Z.log2_lxor set x ltac:(lia) ltac:(lia)).
    pose proof (Hlog set Hset). pose proof (Hlog x Hm). lia.
  - assert (2 ^ L < 2 ^ 32) by (apply Z.pow_lt_mono_r; lia).
    exists set. rewrite wrap_id by (unfold is_word; lia). done.
Qed.

(** Only the bits of the line number above the slice bits are used. *)
Lemma set_index_loop_line fuel a b j i set :
  0 <= j <= i -> i <= 64 + L -> a / 2 ^ j = b / 2 ^ j ->
  set_index_loop fuel a L i set = set_index_loop fuel b L i set.
Proof using HL.
  revert i set. induction fuel as [|fuel IH]; intros i set Hj Hi Hab; [done|].
  simpl. rewrite wrap_id by (unfold is_word; lia).
  destruct (Z.leb_spec (i + L) 64); [|done].
  rewrite !(wrap_id 8) by (unfold is_word; lia). rewrite !getBits_div_mod by lia.
  assert (Hd : forall x, x / 2 ^ i = x / 2 ^ j / 2 ^ (i - j)).
  { intros x. rewrite Z.div_div by lia. rewrite <- Z.pow_add_r by lia. do 2 f_equal. lia. }
  rewrite (Hd a), (Hd b), Hab. apply IH; [lia|lia|done].
Qed.
End set_index.

(** With one set the loop makes no progress. *)
Lemma set_index_loop_diverges fuel address i set :
  0 <= i <= 64 -> set_index_loop fuel address 0 i set = Err OutOfFuel.
Proof.
  revert set. induction fuel as [|fuel IH]; intros set Hi; [done|].
  simpl. rewrite Z.add_0_r, wrap_id by (unfold is_word; lia).
  rewrite (proj2 (Z.leb_le i 64)) by lia. by apply IH.
Qed.

(** C37: [DirectoryCache::computeSetIndex] folds the line number into an index
    below the number of sets: with [2^L] sets, [1 <= L < 32], it terminates for
    every address with a result in [0, 2^L), and two addresses of the same
    cache line get the same set.  With a single set the loop variable never
    advances and the loop does not terminate, whatever the bound on the number
    of iterations. *)
Theorem computeSetIndex_correct (c : DirectoryCache) (a b : Z) :
  0 <= dc_log_cache_line_size c < 32 -> 0 <= dc_log_num_directory_slices c < 32 ->
  (1 <= dc_log_num_sets c < 32 ->
    (exists s, computeSetIndex c a = Ok s /\ 0 <= s < 2 ^ dc_log_num_sets c) /\
    (a / 2 ^ dc_log_cache_line_size c = b / 2 ^ dc_log_cache_line_size c ->
     computeSetIndex c a = computeSetIndex c b)) /\
  (dc_log_num_sets c = 0 -> forall fuel,
    set_index_loop fuel a 0 (wrap32 (dc_log_cache_line_size c + dc_log_num_directory_slices c)) 0
    = Err OutOfFuel).
Proof.
  intros Hline Hsl. assert (Hi : wrap32 (dc_log_cache_line_size c + dc_log_num_directory_slices c) =
    dc_log_cache_line_size c + dc_log_num_directory_slices c)
    by (apply wrap_id; unfold is_word; lia).
  unfold computeSetIndex. rewrite Hi. split.
  - intros HL. assert (0 < 2 ^ dc_log_num_sets c) by (apply Z.pow_pos_nonneg; lia). split.
    + apply set_index_loop_ok; lia.
    + intros Hab. apply (set_index_loop_line _ HL) with (j := dc_log_cache_line_size c); [lia|lia|done].
  - intros _ fuel. apply set_index_loop_diverges. lia.
Qed.

(** A directory of 4 sets of 2 entries, 64-byte lines, one slice. *)
Definition example_directory : result DirectoryCache :=
  DirectoryCache_new (mkDirConfig 4 0) "full_map" (Some 8) 512 4 2 64 2 4 1 None.

Lemma computeSetIndex_witness :
  exists c s, example_directory = Ok c /\ computeSetIndex c 0x12345 = Ok s /\ 0 <= s < 4 /\
    computeSetIndex c 0x12345 = computeSetIndex c 0x12340.
Proof.
  destruct example_directory as [c|] eqn:E; [|by vm_compute in E].
  assert (Hc : dc_log_num_sets c = 2 /\ dc_log_cache_line_size c = 6 /\ dc_log_num_directory_slices c = 0).
  { vm_compute in E. injection E as <-. done. }
  destruct Hc as (H1 & H2 & H3).
  destruct (computeSetIndex_correct c 0x12345 0x12340) as [Hok _]; [lia|lia|].
  destruct Hok as [(s & Hs & Hr) Hl]; [lia|]. exists c, s. split; [done|]. split; [done|].
  rewrite H1 in Hr. split; [exact Hr|]. apply Hl. by rewrite H2.
Defined.

(** ** Invariant *)

Definition ptrs (c : DirectoryCache) : list Z := dc_list c ++ dc_replaced c.
(** The set an address selects, as a function of the logarithms only. *)
Definition set_of (log_num_sets log_line log_slices a : Z) : Z :=
  match set_index_loop 66 a log_num_sets (wrap32 (log_line + log_slices)) 0 with
  | Ok s => s
  | Err _ => 0
  end.
Definition dir_set (c : DirectoryCache) (a : Z) : Z :=
  set_of (dc_log_num_sets c) (dc_log_cache_line_size c) (dc_log_num_directory_slices c) a.
#[global] Opaque set_of.
Definition fresh_entry (c : DirectoryCache) : DirectoryEntry :=
  DirectoryEntry_create (dc_cfg c) (dc_type c) (dc_max_hw_sharers c) (dc_max_num_sharers c).

Record dc_wf (c : DirectoryCache) : Prop := {
  dw_logs : 1 <= dc_log_num_sets c < 32 /\ 0 <= dc_log_cache_line_size c < 32 /\
            0 <= dc_log_num_directory_slices c < 32;
  dw_assoc : 0 < dc_associativity c /\ 2 ^ dc_log_num_sets c * dc_associativity c < 2 ^ 31;
  dw_len : Z.of_nat (length (dc_list c)) = 2 ^ dc_log_num_sets c * dc_associativity c;
  dw_nodup : NoDup (ptrs c);
  dw_alloc p : p ∈ ptrs c <-> is_Some (dc_heap c !! p);
  dw_next p : is_Some (dc_heap c !! p) -> p < dc_next c;
  (* an entry sits in the set its address selects *)
  dw_set n p e : dc_list c !! n = Some p -> dc_heap c !! p = Some e ->
    de_address e = INVALID_ADDRESS \/ dir_set c (de_address e) = Z.of_nat n / dc_associativity c;
  (* an address has one entry *)
  dw_unique p q e e' : dc_heap c !! p = Some e -> dc_heap c !! q = Some e' ->
    de_address e = de_address e' -> de_address e <> INVALID_ADDRESS -> p = q;
  (* a way without an address is as created *)
  dw_free p e : dc_heap c !! p = Some e -> de_address e = INVALID_ADDRESS ->
    e = fresh_entry c /\ (p ∉ dc_replaced c);
  (* the set of an evicted entry has no free way *)
  dw_full p e i : p ∈ dc_replaced c -> dc_heap c !! p = Some e -> 0 <= i < dc_associativity c ->
    exists q e', slot_entry c (dir_set c (de_address e)) i = Ok q /\
      dc_heap c !! q = Some e' /\ de_address e' <> INVALID_ADDRESS }.

(** The entry of an address. *)
Definition tracks (c : DirectoryCache) (a p : Z) (e : DirectoryEntry) : Prop :=
  dc_heap c !! p = Some e /\ de_address e = a /\ a <> INVALID_ADDRESS.

Section dir_lemmas.
Context (c : DirectoryCache) (Hwf : dc_wf c).

Lemma dir_set_ok a : computeSetIndex c a = Ok (dir_set c a) /\ 0 <= dir_set c a < 2 ^ dc_log_num_sets c.
Proof using Hwf.
  destruct (dw_logs _ Hwf) as (HL & Hl & Hs). unfold dir_set, computeSetIndex. Transparent set_of. unfold set_of.
  Opaque set_of.
  rewrite wrap_id by (unfold is_word; lia).
  assert (0 < 2 ^ dc_log_num_sets c) by (apply Z.pow_pos_nonneg; lia).
  destruct (set_index_loop_ok (dc_log_num_sets c) HL 66 a
    (dc_log_cache_line_size c + dc_log_num_directory_slices c) 0) as (s & -> & Hr); try lia. done.
Qed.

Lemma slot_range s i :
  0 <= s < 2 ^ dc_log_num_sets c -> 0 <= i < dc_associativity c ->
  slot c s i = s * dc_associativity c + i /\ 0 <= slot c s i < Z.of_nat (length (dc_list c)).
Proof using Hwf.
  intros Hs Hi. pose proof (dw_len _ Hwf) as Hl. destruct (dw_assoc _ Hwf) as [Ha Hm].
  assert (s * dc_associativity c + i < 2 ^ dc_log_num_sets c * dc_associativity c) by nia.
  unfold slot. rewrite !wrap_id by (unfold is_word; rewrite ?wrap_id; unfold is_word; nia). nia.
Qed.

Lemma slot_entry_ok s i :
  0 <= s < 2 ^ dc_log_num_sets c -> 0 <= i < dc_associativity c ->
  exists p e, slot_entry c s i = Ok p /\ dc_list c !! Z.to_nat (slot c s i) = Some p /\
    dc_heap c !! p = Some e /\ deref c p = Ok e.
Proof using Hwf.
  intros Hs Hi. destruct (slot_range s i Hs Hi) as [_ Hr].
  destruct (lookup_lt_is_Some_2 (dc_list c) (Z.to_nat (slot c s i))) as [p Hp]; [lia|].
  destruct (proj1 (dw_alloc _ Hwf p)) as [e He].
  { unfold ptrs. apply elem_of_app. left. by eapply list_elem_of_lookup_2. }
  exists p, e. unfold slot_entry, deref. rewrite He.
  split_and!; [apply vec_get_ok; split; [lia|done]|done|done|done].
Qed.

Lemma slot_entry_in s i p : slot_entry c s i = Ok p -> p ∈ dc_list c.
Proof using. intros [_ Hp]%vec_get_ok. by eapply list_elem_of_lookup_2. Qed.

Lemma find_way_spec s a :
  0 <= s < 2 ^ dc_log_num_sets c ->
  (exists i p e, find_way c s a = Ok (Some (i, p)) /\ 0 <= i < dc_associativity c /\
     slot_entry c s i = Ok p /\ dc_heap c !! p = Some e /\ de_address e = a) \/
  (find_way c s a = Ok None /\
   forall i p e, 0 <= i < dc_associativity c -> slot_entry c s i = Ok p ->
     dc_heap c !! p = Some e -> de_address e <> a).
Proof using Hwf.
  intros Hs. unfold find_way.
  destruct (find_first_total (seqZ 0 (dc_associativity c)) (fun i =>
    p ← slot_entry c s i; e ← deref c p; Ok (if de_address e =? a then Some (i, p) else None)))
    as [(i & b & -> & Hi & Hb)|[-> Hn]].
  - intros i Hi%elem_of_seqZ. destruct (slot_entry_ok s i Hs) as (p & e & Hp & _ & _ & Hd); [lia|].
    rewrite Hp. simpl. rewrite Hd. by eexists.
  - left. apply elem_of_seqZ in Hi.
    destruct (slot_entry_ok s i Hs) as (p & e & Hp & _ & He & Hd); [lia|].
    rewrite Hp in Hb. simpl in Hb. rewrite Hd in Hb. simpl in Hb.
    destruct (Z.eqb_spec (de_address e) a); simplify_eq. exists i, p, e. split_and!; try done; lia.
  - right. split; [done|]. intros i p e Hi Hp He Hea.
    specialize (Hn i). rewrite Hp in Hn. unfold deref in Hn. simpl in Hn. rewrite He in Hn. simpl in Hn.
    rewrite (proj2 (Z.eqb_eq _ _)) in Hn by done. by discriminate Hn; apply elem_of_seqZ; lia.
Qed.

(** An address tracked in the array is found in its set. *)
Lemma tracked_in_set a p e :
  tracks c a p e -> p ∈ dc_list c ->
  exists i, 0 <= i < dc_associativity c /\ slot_entry c (dir_set c a) i = Ok p.
Proof using Hwf.
  intros (He & Ha & Hne) [n Hn]%list_elem_of_lookup.
  destruct (dw_set _ Hwf n p e Hn He) as [?|Hs]; [congruence|]. rewrite Ha in Hs.
  destruct (dw_assoc _ Hwf) as [Has _].
  exists (Z.of_nat n mod dc_associativity c).
  pose proof (Z.mod_pos_bound (Z.of_nat n) (dc_associativity c) Has) as Hm.
  split; [done|]. unfold slot_entry. apply vec_get_ok.
  destruct (slot_range (dir_set c a) (Z.of_nat n mod dc_associativity c)) as [Hsl Hr];
    [apply dir_set_ok|done|].
  split; [lia|]. rewrite Hsl, Hs.
  replace (Z.of_nat n / dc_associativity c * dc_associativity c + Z.of_nat n mod dc_associativity c)
    with (Z.of_nat n) by (pose proof (Z.div_mod (Z.of_nat n) (dc_associativity c)); lia).
  by rewrite Nat2Z.id.
Qed.

Lemma find_replaced_spec a :
  (exists i p e, find_replaced c a = Ok (Some (Z.of_nat i, p)) /\ dc_replaced c !! i = Some p /\
     dc_heap c !! p = Some e /\ de_address e = a) \/
  (find_replaced c a = Ok None /\
   forall p e, p ∈ dc_replaced c -> dc_heap c !! p = Some e -> de_address e <> a).
Proof using Hwf.
  assert (Hall : forall i p, dc_replaced c !! i = Some p -> exists e, dc_heap c !! p = Some e).
  { intros i p Hp. apply (dw_alloc _ Hwf). unfold ptrs. apply elem_of_app. right.
    by eapply list_elem_of_lookup_2. }
  assert (Hin : forall x, x ∈ imap (fun i p => (Z.of_nat i, p)) (dc_replaced c) <->
    exists i p, x = (Z.of_nat i, p) /\ dc_replaced c !! i = Some p).
  { intros x. rewrite elem_of_lookup_imap. naive_solver. }
  unfold find_replaced.
  destruct (find_first_total (imap (fun i p => (Z.of_nat i, p)) (dc_replaced c)) (fun '(i, p) =>
    e ← deref c p; Ok (if de_address e =? a then Some (i, p) else None)))
    as [(x & b & -> & Hx & Hb)|[-> Hn]].
  - intros x (i & p & -> & Hp)%Hin. destruct (Hall i p Hp) as [e He]. unfold deref. rewrite He.
    by eexists.
  - left. apply Hin in Hx as (i & p & -> & Hp). destruct (Hall i p Hp) as [e He].
    unfold deref in Hb. rewrite He in Hb. simpl in Hb.
    destruct (Z.eqb_spec (de_address e) a); simplify_eq. by exists i, p, e.
  - right. split; [done|]. intros p e [i Hi]%list_elem_of_lookup He Hea.
    specialize (Hn (Z.of_nat i, p)). unfold deref in Hn. rewrite He in Hn. simpl in Hn.
    rewrite (proj2 (Z.eqb_eq _ _)) in Hn by done. discriminate Hn. apply Hin. by exists i, p.
Qed.
End dir_lemmas.

(** ** What the operations do *)

(** The fields fixed at construction. *)
Definition dc_config (c : DirectoryCache) :=
  (dc_cfg c, dc_type c, dc_max_hw_sharers c, dc_max_num_sharers c, dc_associativity c,
   dc_log_num_sets c, dc_log_cache_line_size c, dc_log_num_directory_slices c).

(** [c'] has the entries of [c]; the counters may differ. *)
Definition same_entries (c c' : DirectoryCache) : Prop :=
  dc_config c' = dc_config c /\ dc_heap c' = dc_heap c /\ dc_next c' = dc_next c /\
  dc_list c' = dc_list c /\ dc_replaced c' = dc_replaced c.

Lemma config_set c c' a : dc_config c' = dc_config c -> dir_set c' a = dir_set c a.
Proof.
  unfold dc_config, dir_set. intros E. by injection E as _ _ _ _ _ -> -> ->.
Qed.

Lemma config_fresh c c' : dc_config c' = dc_config c -> fresh_entry c' = fresh_entry c.
Proof. unfold dc_config, fresh_entry. intros E. by injection E as -> -> -> -> _ _ _ _. Qed.

Lemma config_slot c c' s i : dc_config c' = dc_config c -> slot c' s i = slot c s i.
Proof. unfold dc_config, slot. intros E. by injection E as _ _ _ _ -> _ _ _. Qed.

Lemma same_entries_wf c c' : same_entries c c' -> dc_wf c -> dc_wf c'.
Proof.
  intros (Hcfg & Hh & Hn & Hl & Hr) [].
  pose proof (fun a => config_set c c' a Hcfg) as Hset. pose proof (config_fresh c c' Hcfg) as Hf.
  pose proof (fun s i => config_slot c c' s i Hcfg) as Hs.
  unfold dc_config in Hcfg. injection Hcfg as H1 H2 H3 H4 H5 H6 H7 H8.
  split; unfold ptrs, slot_entry in *; rewrite ?Hh, ?Hn, ?Hl, ?Hr, ?H5, ?H6, ?H7, ?H8, ?Hf; try done.
  - intros n p e. rewrite Hset. apply dw_set0.
  - intros p e i. rewrite Hset. intros Hp He Hi.
    destruct (dw_full0 p e i Hp He Hi) as (q & e' & Hq & Hrest). exists q, e'. by rewrite Hs.
Qed.

(** Writing through a pointer to a tracked entry. *)
Lemma dc_store_wf c p e e' :
  dc_wf c -> dc_heap c !! p = Some e -> de_address e <> INVALID_ADDRESS ->
  de_address e' = de_address e -> dc_wf (dc_store p e' c).
Proof.
  intros Hwf Hp Hne Ha. destruct Hwf.
  assert (Hlk : forall q x, dc_heap (dc_store p e' c) !! q = Some x ->
    exists y, dc_heap c !! q = Some y /\ de_address y = de_address x /\
      (de_address x = INVALID_ADDRESS -> x = y)).
  { intros q x. simpl. intros [[-> <-]|[_ Hq]]%lookup_insert_Some; [|by exists x].
    exists e. split_and!; congruence. }
  split; try done.
  - intros q. rewrite dw_alloc0. simpl. destruct (decide (p = q)) as [<-|Hpq].
    + rewrite lookup_insert_eq, Hp. by split.
    + by rewrite lookup_insert_ne.
  - intros q [x (y & Hy & _)%Hlk]. by apply dw_next0.
  - intros n q x Hn (y & Hy & <- & _)%Hlk. by apply (dw_set0 n q).
  - intros q r x y (x' & Hx & <- & _)%Hlk (y' & Hy & <- & _)%Hlk. by apply dw_unique0.
  - intros q x (y & Hy & Hya & Hxy)%Hlk Hx. rewrite (Hxy Hx). apply (dw_free0 q); congruence.
  - intros q x i Hq (y & Hy & Hya & _)%Hlk Hi. rewrite <- Hya.
    destruct (dw_full0 q y i Hq Hy Hi) as (r & z & Hr & Hz & Hza).
    simpl. destruct (decide (r = p)) as [->|Hrp].
    + exists p, e'. rewrite lookup_insert_eq. split_and!; [done|done|congruence].
    + exists r, z. by rewrite lookup_insert_ne by done.
Qed.

(** Claiming a free way for an address that is not tracked. *)
Lemma dc_claim_wf c p a e n :
  dc_wf c -> dc_list c !! n = Some p -> dc_heap c !! p = Some e ->
  de_address e = INVALID_ADDRESS -> a <> INVALID_ADDRESS ->
  dir_set c a = Z.of_nat n / dc_associativity c ->
  (forall q x, ~ tracks c a q x) -> dc_wf (dc_store p (de_setAddress a e) c).
Proof.
  intros Hwf Hn He Hinv Ha Hset Hnt. destruct (dw_free _ Hwf p e He Hinv) as [_ Hpr]. destruct Hwf.
  assert (Hlk : forall q x, dc_heap (dc_store p (de_setAddress a e) c) !! q = Some x ->
    (q = p /\ x = de_setAddress a e) \/ (q <> p /\ dc_heap c !! q = Some x)).
  { intros q x. simpl. intros [[-> <-]|[? ?]]%lookup_insert_Some; [by left|by right]. }
  split; try done.
  - intros q. rewrite dw_alloc0. simpl. destruct (decide (p = q)) as [<-|Hpq].
    + rewrite lookup_insert_eq, He. by split.
    + by rewrite lookup_insert_ne.
  - intros q [x [[-> ->]|[_ Hq]]%Hlk]; apply dw_next0; by eexists.
  - intros m q x Hm [[-> ->]|[_ Hq]]%Hlk; [|by apply (dw_set0 m q)].
    right. simpl. change (dir_set (dc_store p (de_setAddress a e) c) a) with (dir_set c a).
    assert (m = n) as ->; [|done]. apply NoDup_app in dw_nodup0 as (Hnd & _).
    by eapply NoDup_lookup.
  - intros q r x y [[-> ->]|[Hqp Hq]]%Hlk [[-> ->]|[Hrp Hr]]%Hlk Hxy Hx; simpl in *; try done.
    + exfalso. by apply (Hnt r y).
    + exfalso. apply (Hnt q x). split_and!; [done|done|]. congruence.
    + by apply (dw_unique0 q r x y).
  - intros q x [[-> ->]|[Hqp Hq]]%Hlk Hx; [done|]. by apply (dw_free0 q).
  - intros q x i Hq [[-> ->]|[Hqp Hx]]%Hlk Hi; [done|].
    destruct (dw_full0 q x i Hq Hx Hi) as (r & z & Hr & Hz & Hza). simpl.
    destruct (decide (r = p)) as [->|Hrp]; [congruence|].
    exists r, z. by rewrite lookup_insert_ne by done.
Qed.

Section dir_ops.
Context (toPicosec : Z -> Z).

(** Only the clock of the performance model moves. *)
Definition same_clock_mode (p p' : ShmemPerfModel) : Prop := pm_enabled p' = pm_enabled p.

Lemma incrCurrTime_mode t p : same_clock_mode p (incrCurrTime t p).
Proof. unfold same_clock_mode, incrCurrTime. by destruct (pm_enabled p) eqn:E. Qed.

(** The prologue of [getDirectoryEntry]. *)
Lemma prologue_run c pm :
  exists c' pm', same_entries c c' /\ same_clock_mode pm pm' /\
    forall A (k : ST _ A), (_ ← when (dc_enabled c)
      (_ ← charge toPicosec (dc_access_cycles c); modify (fun '(c, p) => (updateCounters c, p)));
      k) (c, pm) = k (c', pm').
Proof.
  destruct (dc_enabled c) eqn:E.
  - exists (updateCounters c), (incrCurrTime (toPicosec (dc_access_cycles c)) pm).
    split; [done|]. split; [apply incrCurrTime_mode|]. done.
  - exists c, pm. done.
Qed.

Lemma getDirectoryEntry_spec c pm a :
  dc_wf c -> a <> INVALID_ADDRESS ->
  exists r c' pm', getDirectoryEntry toPicosec a (c, pm) = Ok (r, (c', pm')) /\
    dc_wf c' /\ same_clock_mode pm pm' /\
    match r with
    | Some p =>
        (exists e, tracks c a p e /\ same_entries c c') \/
        ((forall q e, ~ tracks c a q e) /\ dc_heap c !! p = Some (fresh_entry c) /\
         (exists i, 0 <= i < dc_associativity c /\ slot_entry c (dir_set c a) i = Ok p) /\
         same_entries (dc_store p (de_setAddress a (fresh_entry c)) c) c')
    | None => (forall q e, ~ tracks c a q e) /\ same_entries c c' /\
        forall i, 0 <= i < dc_associativity c ->
          exists q e, slot_entry c (dir_set c a) i = Ok q /\ dc_heap c !! q = Some e /\
            de_address e <> INVALID_ADDRESS
    end.
Proof.
  intros Hwf Ha. destruct (prologue_run c pm) as (c0 & pm0 & Hsame & Hpm & Hrun).
  unfold getDirectoryEntry. run. rewrite Hrun. run. clear Hrun.
  pose proof (same_entries_wf _ _ Hsame Hwf) as Hwf0.
  destruct (dir_set_ok c0 Hwf0 a) as [Hs Hsr]. rewrite (lift_run _ _ _ _ Hs).
  pose proof Hsame as (Hcfg & Hh & Hn & Hl & Hr).
  assert (Hslot : forall i, slot_entry c0 (dir_set c0 a) i = slot_entry c (dir_set c a) i).
  { intros i. unfold slot_entry. by rewrite Hl, (config_slot c c0), (config_set c c0) by done. }
  destruct (find_way_spec c0 Hwf0 _ a Hsr) as [(i & p & e & Hf & Hi & Hp & He & Hea)|[Hf Hno]];
    rewrite (lift_run _ _ _ _ Hf).
  { unfold deref at 1. rewrite He. simpl. exists (Some p), c0. eexists. split; [done|].
    split; [done|]. split; [etrans; [apply incrCurrTime_mode|done]|].
    left. exists e. split; [|done]. split_and!; [by rewrite <- Hh|done|done]. }
  assert (Hnt : forall q e, tracks c a q e -> q ∈ dc_replaced c).
  { intros q e Hq. pose proof Hq as (Hqe & Hqa & _).
    assert (Hin : q ∈ ptrs c) by (apply (dw_alloc _ Hwf); by eexists).
    apply elem_of_app in Hin as [Hin|?]; [|done].
    destruct (tracked_in_set c Hwf a q e Hq Hin) as (i & Hi & Hsl). exfalso.
    eapply (Hno i q e); [by injection Hcfg as _ _ _ _ -> _ _ _|by rewrite Hslot|by rewrite Hh|done]. }
  destruct (find_way_spec c0 Hwf0 _ INVALID_ADDRESS Hsr)
    as [(i & p & e & Hf2 & Hi & Hp & He & Hea)|[Hf2 Hno2]]; rewrite (lift_run _ _ _ _ Hf2).
  - unfold deref at 1. rewrite He. simpl.
    destruct (dw_free _ Hwf0 p e He Hea) as [-> Hpr]. rewrite (config_fresh c c0 Hcfg) in *.
    assert (Hnone : forall q x, ~ tracks c a q x).
    { intros q x Hq. pose proof (Hnt q x Hq) as Hqr. pose proof Hq as (Hqe & Hqa & _).
      destruct (dw_full _ Hwf q x i Hqr Hqe) as (r & z & Hr' & Hz & Hza);
        [by injection Hcfg as _ _ _ _ <- _ _ _|].
      rewrite Hqa, <- Hslot, Hp in Hr'. injection Hr' as ->. rewrite Hh in He. congruence. }
    exists (Some p). do 2 eexists. split; [done|].
    destruct (slot_range c0 Hwf0 _ i Hsr Hi) as [Hsl _].
    pose proof Hp as Hps. apply vec_get_ok in Hp as [Hge Hpl].
    split; [|split; [done|]].
    + eapply dc_claim_wf; [done|exact Hpl|done|done|done| |].
      * rewrite Hsl, Z2Nat.id, Z.div_add_l, (Z.div_small i) by lia. lia.
      * intros q x Hq. apply (Hnone q x). unfold tracks in *. by rewrite <- Hh.
    + right. split; [done|]. split; [by rewrite <- Hh|].
      split; [exists i; rewrite <- Hslot; split; [by injection Hcfg as _ _ _ _ <- _ _ _|done]|].
      unfold same_entries. simpl. by rewrite Hh.
  - assert (Hfull : forall i, 0 <= i < dc_associativity c ->
      exists q e, slot_entry c (dir_set c a) i = Ok q /\ dc_heap c !! q = Some e /\
        de_address e <> INVALID_ADDRESS).
    { intros i Hi. destruct (slot_entry_ok c Hwf (dir_set c a) i) as (q & e & Hq & _ & He & _);
        [by apply dir_set_ok|done|].
      exists q, e. split_and!; [done|done|]. eapply (Hno2 i q e);
        [by injection Hcfg as _ _ _ _ -> _ _ _|by rewrite Hslot|by rewrite Hh]. }
    destruct (find_replaced_spec c0 Hwf0 a) as [(i & p & e & Hf3 & Hp & He & Hea)|[Hf3 Hno3]];
      rewrite (lift_run _ _ _ _ Hf3); do 3 eexists; (split; [done|]); (split; [done|]);
      (split; [done|]); simpl.
    + left. exists e. split; [|done]. split_and!; [by rewrite <- Hh|done|done].
    + split; [|done]. intros q e Hq. pose proof (Hnt q e Hq). destruct Hq as (He & Hea & _).
      eapply (Hno3 q e); [by rewrite Hr|by rewrite Hh|done].
Qed.

(** Moving the entry [p] to the side list and putting a new one in its way. *)
Definition dc_replace (c : DirectoryCache) (n : nat) (p a : Z) : DirectoryCache :=
  dc_set_lists (<[n := dc_next c]> (dc_list c)) (dc_replaced c ++ [p])
    (dc_set_alloc (<[dc_next c := de_setAddress a (fresh_entry c)]> (dc_heap c)) (dc_next c + 1) c).

Lemma replace_ptrs c n p a :
  dc_list c !! n = Some p -> ptrs (dc_replace c n p a) ≡ₚ dc_next c :: ptrs c.
Proof.
  intros Hn. unfold ptrs, dc_replace. simpl.
  rewrite (insert_take_drop _ n) by (by eapply lookup_lt_Some).
  rewrite <- (take_drop_middle (dc_list c) n p) at 3 by done. solve_Permutation.
Qed.

(** No way of a set is free. *)
Definition set_full (c : DirectoryCache) (s : Z) : Prop :=
  forall i, 0 <= i < dc_associativity c ->
    exists q e, slot_entry c s i = Ok q /\ dc_heap c !! q = Some e /\
      de_address e <> INVALID_ADDRESS.

Lemma next_fresh c : dc_wf c -> dc_heap c !! dc_next c = None.
Proof.
  intros Hwf. destruct (dc_heap c !! dc_next c) eqn:E; [|done].
  pose proof (dw_next _ Hwf (dc_next c)) as Hn. rewrite E in Hn. specialize (Hn ltac:(by eexists)). lia.
Qed.

Lemma replace_full c n p a s :
  dc_wf c -> dc_list c !! n = Some p -> a <> INVALID_ADDRESS -> set_full c s ->
  set_full (dc_replace c n p a) s.
Proof.
  intros Hwf Hn Ha Hf i Hi. destruct (Hf i Hi) as (q & e & Hq & He & Hea).
  pose proof (next_fresh c Hwf) as Hnone.
  apply vec_get_ok in Hq as [Hge Hql].
  change (slot (dc_replace c n p a) s i) with (slot c s i) in *.
  unfold slot_entry. change (slot (dc_replace c n p a) s i) with (slot c s i). simpl.
  destruct (decide (n = Z.to_nat (slot c s i))) as [->|Hne].
  - exists (dc_next c), (de_setAddress a (fresh_entry c)). split_and!.
    + apply vec_get_ok. split; [done|]. apply list_lookup_insert_eq. by eapply lookup_lt_Some.
    + by rewrite lookup_insert_eq.
    + done.
  - exists q, e. split_and!; [|by rewrite lookup_insert_ne by congruence|done].
    apply vec_get_ok. split; [done|]. by rewrite list_lookup_insert_ne.
Qed.

Lemma dc_replace_wf c n p e a :
  dc_wf c -> dc_list c !! n = Some p -> dc_heap c !! p = Some e ->
  de_address e <> INVALID_ADDRESS -> a <> INVALID_ADDRESS ->
  dir_set c a = dir_set c (de_address e) -> (forall q x, ~ tracks c a q x) ->
  set_full c (dir_set c a) -> dc_wf (dc_replace c n p a).
Proof.
  intros Hwf Hn He Hea Ha Hset Hnt Hfull.
  pose proof (next_fresh c Hwf) as Hnone. pose proof (replace_ptrs c n p a Hn) as Hptr.
  assert (Hnin : dc_next c ∉ ptrs c).
  { intros Hin%(dw_alloc _ Hwf). rewrite Hnone in Hin. by destruct Hin. }
  assert (Hnl : forall m, dc_list c !! m <> Some (dc_next c)).
  { intros m Hm. apply Hnin, elem_of_app. left. by eapply list_elem_of_lookup_2. }
  assert (Hfull' : forall s, set_full c s -> set_full (dc_replace c n p a) s)
    by (intros s; by apply replace_full).
  assert (Hlk : forall q x, dc_heap (dc_replace c n p a) !! q = Some x ->
    (q = dc_next c /\ x = de_setAddress a (fresh_entry c)) \/ (q <> dc_next c /\ dc_heap c !! q = Some x)).
  { intros q x. simpl. intros [[-> <-]|[? ?]]%lookup_insert_Some; [by left|by right]. }
  pose proof Hwf as Hwf0. destruct Hwf0. split; try done.
  - simpl. by rewrite length_insert.
  - rewrite Hptr. by apply NoDup_cons.
  - intros q. rewrite Hptr, elem_of_cons, dw_alloc0. simpl.
    destruct (decide (q = dc_next c)) as [->|Hq].
    + rewrite lookup_insert_eq, Hnone. split; [by eexists|by left].
    + rewrite lookup_insert_ne by done. split; [by intros [?|?]|by right].
  - simpl. intros q [x [[-> _]|[_ Hx]]%Hlk]; [lia|].
    assert (q < dc_next c) by (apply dw_next0; by eexists). lia.
  - intros m q x Hm Hx. change (dir_set (dc_replace c n p a)) with (dir_set c). simpl in Hm.
    apply list_lookup_insert_Some in Hm as [(<- & <- & _)|[Hmn Hm]].
    + apply Hlk in Hx as [[_ ->]|[? _]]; [|done]. right. simpl. rewrite Hset.
      by destruct (dw_set0 n p e Hn He).
    + apply Hlk in Hx as [[-> _]|[_ Hx]]; [by apply Hnl in Hm|]. by apply (dw_set0 m q).
  - intros q r x y [[-> ->]|[Hqn Hq]]%Hlk [[-> ->]|[Hrn Hr]]%Hlk Hxy Hx; simpl in *; try done.
    + exfalso. by apply (Hnt r y).
    + exfalso. apply (Hnt q x). split_and!; [done|done|congruence].
    + by apply (dw_unique0 q r x y).
  - intros q x [[-> ->]|[Hqn Hq]]%Hlk Hx; [done|]. destruct (dw_free0 q x Hq Hx) as [Hf Hnr].
    split; [done|]. simpl. rewrite not_elem_of_app, list_elem_of_singleton. split; [done|].
    intros ->. congruence.
  - intros q x i Hq Hx Hi. simpl in Hq.
    change (dir_set (dc_replace c n p a)) with (dir_set c).
    apply Hlk in Hx as [[-> ->]|[_ Hx]].
    { exfalso. apply Hnin. apply elem_of_app in Hq as [Hq|Hq%list_elem_of_singleton].
      - apply elem_of_app. by right.
      - apply elem_of_app. left. rewrite Hq. by eapply list_elem_of_lookup_2. }
    apply elem_of_app in Hq as [Hq|Hq%list_elem_of_singleton].
    + apply (Hfull' (dir_set c (de_address x))); [|done]. intros k Hk. by apply (dw_full0 q x).
    + subst q. assert (x = e) as -> by congruence. apply Hfull'; [|done]. by rewrite <- Hset.
Qed.

(** [replaceDirectoryEntry] on an address whose entry is in the array, for an
    address of the same set that is not tracked. *)
Lemma replaceDirectoryEntry_spec c pm p e a :
  dc_wf c -> tracks c (de_address e) p e -> p ∈ dc_list c -> a <> INVALID_ADDRESS ->
  dir_set c a = dir_set c (de_address e) -> (forall q x, ~ tracks c a q x) ->
  set_full c (dir_set c a) ->
  exists n c' pm', replaceDirectoryEntry toPicosec (de_address e) a (c, pm) = Ok (dc_next c, (c', pm')) /\
    dc_list c !! n = Some p /\ same_entries (dc_replace c n p a) c' /\ dc_wf c' /\
    same_clock_mode pm pm'.
Proof.
  intros Hwf Htr Hin Ha Hset Hnt Hfull. pose proof Htr as (He & _ & Hea).
  destruct (dir_set_ok c Hwf (de_address e)) as [Hs Hsr].
  destruct (find_way_spec c Hwf _ (de_address e) Hsr) as [(i & q & x & Hf & Hi & Hq & Hx & Hxa)|[_ Hno]].
  2:{ destruct (tracked_in_set c Hwf _ p e Htr Hin) as (i & Hi & Hp). by destruct (Hno i p e). }
  assert (q = p) as -> by (apply (dw_unique _ Hwf q p x e); congruence).
  pose proof (next_fresh c Hwf) as Hnone.
  unfold replaceDirectoryEntry. run. rewrite (lift_run _ _ _ _ Hs). run.
  set (c1 := dc_set_alloc _ _ c).
  assert (Hf1 : find_way c1 (dir_set c (de_address e)) (de_address e) = Ok (Some (i, p))).
  { rewrite <- Hf. apply find_first_ext. intros k Hk%elem_of_seqZ.
    destruct (slot_entry_ok c Hwf (dir_set c (de_address e)) k Hsr) as (r & y & Hr & _ & Hy & _); [simpl in *; lia|].
    change (slot_entry c1) with (slot_entry c). rewrite Hr. simpl. unfold deref. simpl.
    by rewrite lookup_insert_ne, Hy by congruence. }
  rewrite (lift_run _ _ _ _ Hf1). apply vec_get_ok in Hq as [Hge Hql].
  change (slot c1 (dir_set c (de_address e)) i) with (slot c (dir_set c (de_address e)) i).
  rewrite (lift_run _ _ _ (<[Z.to_nat (slot c (dir_set c (de_address e)) i) := dc_next c]> (dc_list c))).
  2:{ apply vec_set_eq. apply lookup_lt_Some in Hql. lia. }
  run. exists (Z.to_nat (slot c (dir_set c (de_address e)) i)).
  pose proof (dc_replace_wf c _ p e a Hwf Hql He Hea Ha Hset Hnt Hfull) as Hwf'.
  change (dc_enabled c1) with (dc_enabled c). change (dc_access_cycles c1) with (dc_access_cycles c).
  destruct (dc_enabled c); simpl.
  - unfold deref. simpl. rewrite lookup_insert_ne, He by congruence. simpl.
    do 2 eexists. split; [reflexivity|]. split; [done|]. split; [done|].
    split; [|apply incrCurrTime_mode]. eapply same_entries_wf; [|exact Hwf']. done.
  - do 2 eexists. split; [reflexivity|]. split; [done|]. split; [done|]. split; [|done]. exact Hwf'.
Qed.

(** Dropping the [k]-th entry of the side list. *)
Definition dc_drop (c : DirectoryCache) (k : nat) (p : Z) : DirectoryCache :=
  dc_set_heap (delete p (dc_heap c)) (dc_set_lists (dc_list c) (delete k (dc_replaced c)) c).

Lemma dc_drop_wf c k p :
  dc_wf c -> dc_replaced c !! k = Some p -> dc_wf (dc_drop c k p).
Proof.
  intros Hwf Hk. pose proof Hwf as [].
  assert (Hptr : ptrs c ≡ₚ p :: ptrs (dc_drop c k p)).
  { unfold ptrs. simpl. rewrite (delete_Permutation (dc_replaced c) k p) at 1 by done.
    solve_Permutation. }
  assert (Hnd : NoDup (p :: ptrs (dc_drop c k p))) by (by rewrite <- Hptr).
  apply NoDup_cons in Hnd as [Hp Hnd].
  assert (Hlk : forall q x, dc_heap (dc_drop c k p) !! q = Some x -> q <> p /\ dc_heap c !! q = Some x).
  { intros q x. simpl. intros [Hne Hq]%lookup_delete_Some. by split. }
  assert (Hpl : p ∉ dc_list c) by (intros Hin; apply Hp, elem_of_app; by left).
  assert (Hsub : forall q, q ∈ delete k (dc_replaced c) -> q ∈ dc_replaced c)
    by (intros q Hq; rewrite (delete_Permutation _ _ _ Hk); set_solver).
  split; try done.
  - intros q. simpl. destruct (decide (q = p)) as [->|Hq].
    + rewrite lookup_delete_eq. split; [done|by intros []].
    + rewrite lookup_delete_ne by done. rewrite <- dw_alloc0, Hptr, elem_of_cons. naive_solver.
  - intros q [x [_ Hx]%Hlk]. apply dw_next0. by eexists.
  - intros n q x Hn [_ Hx]%Hlk. by apply (dw_set0 n q).
  - intros q r x y [_ Hx]%Hlk [_ Hy]%Hlk. by apply dw_unique0.
  - intros q x [_ Hx]%Hlk Hxa. destruct (dw_free0 q x Hx Hxa) as [? Hnr]. split; [done|].
    simpl. intros Hq. by apply Hnr, Hsub.
  - intros q x i Hq [_ Hx]%Hlk Hi. simpl in Hq. apply Hsub in Hq.
    destruct (dw_full0 q x i Hq Hx Hi) as (r & z & Hr & Hz & Hza). exists r, z.
    split_and!; [done| |done]. simpl. rewrite lookup_delete_ne; [done|].
    intros <-. by apply Hpl, (slot_entry_in _ _ _ _ Hr).
Qed.

Lemma invalidateDirectoryEntry_spec c pm a p e :
  dc_wf c -> tracks c a p e -> p ∈ dc_replaced c ->
  exists k, dc_replaced c !! k = Some p /\
    invalidateDirectoryEntry a (c, pm) = Ok (tt, (dc_drop c k p, pm)) /\ dc_wf (dc_drop c k p).
Proof.
  intros Hwf (He & Hea & Hne) Hin. unfold invalidateDirectoryEntry. run.
  destruct (find_replaced_spec c Hwf a) as [(k & q & x & Hf & Hk & Hx & Hxa)|[_ Hno]].
  - assert (q = p) as -> by (apply (dw_unique _ Hwf q p x e); congruence).
    exists k. split; [done|]. rewrite (lift_run _ _ _ _ Hf). unfold modify. rewrite Nat2Z.id.
    split; [done|by apply dc_drop_wf].
  - by destruct (Hno p e).
Qed.

Lemma set_ways_spec c s idx :
  dc_wf c -> 0 <= s < 2 ^ dc_log_num_sets c -> Forall (fun i => 0 <= i < dc_associativity c) idx ->
  exists l, set_ways c s idx = Ok l /\
    forall p, p ∈ l <-> exists i, i ∈ idx /\ slot_entry c s i = Ok p.
Proof.
  intros Hwf Hs HF. induction HF as [|i idx Hi HF (l & IH & Hl)].
  { exists []. split; [done|]. set_solver. }
  destruct (slot_entry_ok c Hwf s i Hs Hi) as (p & e & Hp & _).
  exists (p :: l). simpl. rewrite Hp. simpl. rewrite IH. simpl. split; [done|].
  intros q. rewrite elem_of_cons, Hl. split.
  - intros [->|(k & Hk & Hq)]; [exists i|exists k]; (split; [set_solver|done]).
  - intros (k & [->|Hk]%elem_of_cons & Hq); [left; congruence|right; by exists k].
Qed.

(** The candidates are the entries of the set the new address selects. *)
Lemma getReplacementCandidates_spec c pm a :
  dc_wf c -> a <> INVALID_ADDRESS -> (forall q e, ~ tracks c a q e) -> set_full c (dir_set c a) ->
  exists l c' pm', getReplacementCandidates toPicosec a (c, pm) = Ok (l, (c', pm')) /\
    same_entries c c' /\ dc_wf c' /\ same_clock_mode pm pm' /\
    forall p, p ∈ l <-> exists i, 0 <= i < dc_associativity c /\ slot_entry c (dir_set c a) i = Ok p.
Proof.
  intros Hwf Ha Hnt Hfull.
  destruct (getDirectoryEntry_spec c pm a Hwf Ha) as (r & c' & pm' & E & Hwf' & Hpm & Hr).
  destruct r as [p|].
  { exfalso. destruct Hr as [(e & Ht & _)|(_ & Hp & (i & Hi & Hs) & _)]; [by apply (Hnt p e)|].
    destruct (Hfull i Hi) as (q & e & Hq & He & Hea). assert (q = p) as -> by congruence.
    rewrite Hp in He. by injection He as <-. }
  destruct Hr as (_ & Hsame & _). pose proof Hsame as (Hcfg & Hh & _ & Hl & _).
  unfold getReplacementCandidates. rewrite (st_bind_run _ _ _ _ _ E).
  rewrite (lift_run _ _ _ tt eq_refl). run. destruct (dir_set_ok c' Hwf' a) as [Hs Hsr].
  destruct (set_ways_spec c' (dir_set c' a) (seqZ 0 (dc_associativity c')) Hwf' Hsr)
    as (l & Hw & Hlp).
  { apply Forall_forall. intros i Hi%elem_of_seqZ. lia. }
  exists l, c', pm'. rewrite (lift_run _ _ _ _ Hs). unfold lift. rewrite Hw.
  split_and!; try done. intros p. rewrite Hlp, (config_set c c') by done.
  assert (Has : dc_associativity c' = dc_associativity c) by (by injection Hcfg as _ _ _ _ -> _ _ _).
  unfold slot_entry. rewrite Has, Hl. setoid_rewrite (fun s i => config_slot c c' s i Hcfg).
  setoid_rewrite elem_of_seqZ. naive_solver lia.
Qed.
End dir_ops.

(** ** The constructor *)

Lemma Directory_new_lookup cfg t total hw num p :
  list_to_map (M := gmap Z DirectoryEntry)
    (map (fun i => (i, DirectoryEntry_create cfg t hw num)) (seqZ 0 total)) !! p =
  if decide (0 <= p < total) then Some (DirectoryEntry_create cfg t hw num) else None.
Proof.
  destruct (decide (0 <= p < total)) as [Hp|Hp].
  - apply elem_of_list_to_map_1.
    + change (map ?f ?l) with (f <$> l). rewrite <- list_fmap_compose.
      change (fst ∘ _) with (@id Z). rewrite list_fmap_id. apply NoDup_seqZ.
    + apply list_elem_of_fmap. exists p. split; [done|]. apply elem_of_seqZ. lia.
  - apply not_elem_of_list_to_map_1. intros Hin. apply Hp.
    apply list_elem_of_fmap in Hin as (x & -> & Hx).
    apply list_elem_of_fmap in Hx as (y & -> & Hy). apply elem_of_seqZ in Hy. simpl. lia.
Qed.

Lemma DirectoryCache_new_wf cfg str L assoc l2 tiles j hw num slices cyc c :
  DirectoryCache_new cfg str (Some (2 ^ L * assoc)) l2 tiles assoc (2 ^ j) hw num slices cyc = Ok c ->
  1 <= L < 31 -> 0 <= j < 32 -> 0 <= ceilLog2 slices < 32 -> 0 < assoc -> 2 ^ L * assoc < 2 ^ 31 ->
  dc_wf c /\ forall a p e, ~ tracks c a p e.
Proof.
  intros E HL Hj Hsl Ha Hlt. assert (0 < 2 ^ L) by (apply Z.pow_pos_nonneg; lia).
  unfold DirectoryCache_new in E. inv_ok. simpl in *. inv_ok. simpl in *.
  set (t := x) in *. set (heap := list_to_map _).
  assert (Hheap : forall p, heap !! p = if decide (0 <= p < 2 ^ L * assoc)
    then Some (DirectoryEntry_create cfg t hw num) else None) by (intros; apply Directory_new_lookup).
  assert (Hlog : wrap32 (floorLog2 (2 ^ L * assoc / assoc)) = L).
  { rewrite Z.div_mul by lia. rewrite floorLog2_pow2 by lia. apply wrap_id. unfold is_word. lia. }
  assert (Hinv : forall p e, heap !! p = Some e ->
    e = DirectoryEntry_create cfg t hw num /\ 0 <= p < 2 ^ L * assoc).
  { intros p e. rewrite Hheap. case_decide; naive_solver. }
  split.
  - split; simpl; rewrite ?Hlog; try done.
    + rewrite floorLog2_pow2 by lia. rewrite !wrap_id by (unfold is_word; lia). lia.
    + rewrite length_seqZ. lia.
    + unfold ptrs. simpl. rewrite app_nil_r. apply NoDup_seqZ.
    + intros p. unfold ptrs. simpl. rewrite app_nil_r, elem_of_seqZ, Hheap. case_decide.
      * split; [by eexists|lia].
      * split; [lia|by intros []].
    + intros p [e He]. apply Hinv in He. lia.
    + intros n p e _ [-> _]%Hinv. by left.
    + intros p q e e' [-> _]%Hinv _ _ Hne. done.
    + intros p e [-> _]%Hinv _. split; [done|]. set_solver.
    + intros p e i Hp. set_solver.
  - intros a p e (He & Hea & Hne). apply Hinv in He as [-> _]. done.
Qed.

Definition untracked (c : DirectoryCache) (a : Z) : Prop := forall p e, ~ tracks c a p e.

Lemma same_entries_tracks c c' a p e : same_entries c c' -> tracks c' a p e <-> tracks c a p e.
Proof. intros (_ & Hh & _). unfold tracks. by rewrite Hh. Qed.

(** C33: the directory cache is a map from line addresses to directory
    entries, of bounded capacity.  The constructor (with at least two sets)
    builds a directory that tracks nothing.  [getDirectoryEntry] returns the
    one entry of a tracked address, unchanged; for an untracked address it
    returns a new entry (uncached, without sharers) if the set has a free way,
    and NULL exactly when the set is full.  [replaceDirectoryEntry] puts a new
    entry for an untracked address in the way of another address of the same,
    full, set; the other address stays tracked by the same entry.
    [invalidateDirectoryEntry] forgets an evicted address.  No operation
    affects the entry of any other address, and all keep the directory well
    formed; in particular no address ever has two entries. *)
Theorem DirectoryCache_refines_map (ps : Z -> Z) c pm a :
  dc_wf c -> a <> INVALID_ADDRESS ->
  (exists r c' pm', getDirectoryEntry ps a (c, pm) = Ok (r, (c', pm')) /\ dc_wf c' /\
     match r with
     | Some p => exists e, tracks c' a p e /\
         (tracks c a p e \/ (untracked c a /\ e = de_setAddress a (fresh_entry c)))
     | None => untracked c' a /\ set_full c (dir_set c a)
     end /\
     forall b p e, b <> a -> tracks c' b p e <-> tracks c b p e) /\
  (forall p e, tracks c (de_address e) p e -> p ∈ dc_list c ->
     dir_set c a = dir_set c (de_address e) -> untracked c a -> set_full c (dir_set c a) ->
     exists q c' pm', replaceDirectoryEntry ps (de_address e) a (c, pm) = Ok (q, (c', pm')) /\
       dc_wf c' /\ tracks c' a q (de_setAddress a (fresh_entry c)) /\
       (p ∈ dc_replaced c') /\ forall b r x, b <> a -> tracks c' b r x <-> tracks c b r x) /\
  (forall p e, tracks c a p e -> p ∈ dc_replaced c ->
     exists c', invalidateDirectoryEntry a (c, pm) = Ok (tt, (c', pm)) /\ dc_wf c' /\
       untracked c' a /\ forall b r x, b <> a -> tracks c' b r x <-> tracks c b r x).
Proof.
  intros Hwf Ha. split_and!.
  - destruct (getDirectoryEntry_spec ps c pm a Hwf Ha) as (r & c' & pm' & E & Hwf' & _ & Hr).
    exists r, c', pm'. split; [done|]. split; [done|].
    destruct r as [p|]; [destruct Hr as [(e & Ht & Hs)|(Hu & Hf & _ & Hs)]|destruct Hr as (Hu & Hs & Hf)].
    + split; [|intros b q x _; by apply same_entries_tracks].
      exists e. split; [by apply (same_entries_tracks c c')|by left].
    + split; [exists (de_setAddress a (fresh_entry c)); split; [|by right]|].
      * apply (same_entries_tracks _ _ _ _ _ Hs). split_and!; [simpl; by rewrite lookup_insert_eq|done|done].
      * intros b q x Hb. rewrite (same_entries_tracks _ _ _ _ _ Hs). unfold tracks. simpl.
        destruct (decide (q = p)) as [->|Hq].
        -- rewrite lookup_insert_eq, Hf. split; intros ([= <-] & Hx & Hn); exfalso; simpl in Hx; congruence.
        -- by rewrite lookup_insert_ne.
    + split; [split; [|done]|intros b q x _; by apply same_entries_tracks].
      intros q x Hq. apply (Hu q x). by apply (same_entries_tracks c c').
  - intros p e Ht Hin Hset Hu Hf.
    destruct (replaceDirectoryEntry_spec ps c pm p e a Hwf Ht Hin Ha Hset Hu Hf)
      as (n & c' & pm' & E & Hn & Hs & Hwf' & _).
    pose proof (next_fresh c Hwf) as Hnone. exists (dc_next c), c', pm'. split; [done|]. split; [done|].
    split; [|split].
    + apply (same_entries_tracks _ _ _ _ _ Hs). split_and!; [simpl; by rewrite lookup_insert_eq|done|done].
    + destruct Hs as (_ & _ & _ & _ & ->). simpl. apply elem_of_app. right. by apply list_elem_of_singleton.
    + intros b r x Hb. rewrite (same_entries_tracks _ _ _ _ _ Hs). unfold tracks. simpl.
      destruct (decide (r = dc_next c)) as [->|Hr].
      * rewrite lookup_insert_eq, Hnone. split; [|by intros (? & _)].
        intros ([= <-] & Hx & _). simpl in Hx. congruence.
      * by rewrite lookup_insert_ne.
  - intros p e Ht Hin. pose proof Ht as (He & Hea & _).
    destruct (invalidateDirectoryEntry_spec ps c pm a p e Hwf Ht Hin) as (k & Hk & E & Hwf').
    exists (dc_drop c k p). split; [done|]. split; [done|].
    assert (Hlk : forall b r x, tracks (dc_drop c k p) b r x <-> r <> p /\ tracks c b r x).
    { intros b r x. unfold tracks. simpl. rewrite lookup_delete_Some. naive_solver. }
    split.
    + intros r x [Hr (Hx & Hxa & _)]%Hlk. apply Hr. apply (dw_unique _ Hwf r p x e); congruence.
    + intros b r x Hb. rewrite Hlk. split; [naive_solver|]. intros Hx. split; [|done].
      intros ->. destruct Hx as (Hx & Hxa & _). congruence.
Qed.

(** The first lookup of an address in a new directory creates its entry. *)
Lemma DirectoryCache_refines_map_witness :
  exists c p c1 pm1, example_directory = Ok c /\ dc_wf c /\
    getDirectoryEntry (fun x => x * 1000) 0x1000 (c, mkPerf 0 true) = Ok (Some p, (c1, pm1)) /\
    tracks c1 0x1000 p (de_setAddress 0x1000 (fresh_entry c)) /\ dc_wf c1.
Proof.
  destruct example_directory as [c|] eqn:E; [|by vm_compute in E].
  destruct (DirectoryCache_new_wf (mkDirConfig 4 0) "full_map" 2 2 512 4 6 2 4 1 None c) as [Hwf Hno];
    [exact E|lia|lia|split; by vm_compute|lia|lia|].
  destruct (DirectoryCache_refines_map (fun x => x * 1000) c (mkPerf 0 true) 0x1000 Hwf ltac:(done))
    as ((r & c1 & pm1 & Er & Hwf1 & Hr & _) & _).
  destruct r as [p|].
  2:{ destruct Hr as [_ Hf]. destruct (Hf 0) as (q & e & _ & He & Hea);
        [pose proof (dw_assoc _ Hwf); lia|]. by destruct (Hno (de_address e) q e). }
  destruct Hr as (e & Ht & [Ht'|[_ Heq]]); [by apply Hno in Ht'|]. subst e.
  exists c, p, c1, pm1. done.
Defined.
