(* ===== verification/DirCntlr.v ===== *)
(** * The MSI directory controller:
    pr_l1_pr_l2_dram_directory_msi/dram_directory_cntlr.cc,
    and [sendMsg]/[broadcastMsg] of memory_manager.cc

    One controller per home tile serves the requests for its lines in order:
    requests for an address queue up, the head of the queue is the one being
    served, replies of the L2 caches make it progress.  The handlers of the
    source are routines over [DirState]; messages they send are appended to
    [ds_sent]. *)

From S2P Require Import Prelude Utils HashMapList BitVec DirEntry CacheLine CacheSet Shmem DirCache.

(** ** Packets *)

Inductive Receiver : Type := ToTile (tile : Z) | Broadcast.

Record Packet : Type := mkPacket {
  pk_time : Z;
  pk_sender : Z;
  pk_receiver : Receiver;
  pk_data : ShmemMsg * list Z }.          (* the serialized message *)

(** The common part of [MemoryManager::sendMsg] and [broadcastMsg]. *)
Definition makePacket (tile : Z) (p : ShmemPerfModel) (receiver : Receiver) (m : ShmemMsg)
    : result Packet :=
  assert_c (Bool.eqb (is_null (m_data_buf m)) (m_data_length m =? 0)) ;;
  data ← makeMsgBuf m;
  Ok (mkPacket (pm_curr_time p) tile receiver data).

(** ** State *)

Record DirState : Type := mkDir {
  ds_cache : DirectoryCache;
  ds_queue : gmap Z (list ShmemReq);       (* _dram_directory_req_queue *)
  ds_dram : DramCntlr;
  ds_perf : ShmemPerfModel;
  ds_sent : list Packet }.

Definition ds_set_cache (cp : DirectoryCache * ShmemPerfModel) (s : DirState) : DirState :=
  mkDir cp.1 (ds_queue s) (ds_dram s) cp.2 (ds_sent s).
Definition ds_set_queue (q : gmap Z (list ShmemReq)) (s : DirState) : DirState :=
  mkDir (ds_cache s) q (ds_dram s) (ds_perf s) (ds_sent s).
Definition ds_set_dram (d : DramCntlr) (p : ShmemPerfModel) (s : DirState) : DirState :=
  mkDir (ds_cache s) (ds_queue s) d p (ds_sent s).
Definition ds_set_perf (p : ShmemPerfModel) (s : DirState) : DirState :=
  mkDir (ds_cache s) (ds_queue s) (ds_dram s) p (ds_sent s).
Definition ds_send (p : Packet) (s : DirState) : DirState :=
  mkDir (ds_cache s) (ds_queue s) (ds_dram s) (ds_perf s) (ds_sent s ++ [p]).

Abbreviation DM := (ST DirState).

(** [MemoryManager::enableModels] and [disableModels] of a tile with a memory
    controller: the directory cache, the DRAM performance model and the clock
    ([mm_setModels] does the caches). *)
Definition dir_setModels (b : bool) : DM unit :=
  modify (fun s =>
    mkDir (dc_set_enabled b (ds_cache s)) (ds_queue s) (dr_setEnabled b (ds_dram s))
      (mkPerf (pm_curr_time (ds_perf s)) b) (ds_sent s)).

(** What the handlers read of their environment: the tile, the line size, the
    conversion of cycles at the directory's frequency, the synchronization
    delays of the two clock-domain crossings, the DRAM latency and the random
    number generator of [getOneSharer]. *)
Record DirEnv : Type := mkDirEnv {
  env_tile : Z;
  env_line_size : Z;
  env_toPicosec : Z -> Z;
  env_delay_L2 : Z;
  env_delay_network : Z;
  env_run_dram : list Z -> Z;
  env_rand : Z -> Z }.

Section DirCntlr.
Context (env : DirEnv).

(** Calls of the directory cache run on the cache and the clock. *)
Definition dcache {A} (m : ST (DirectoryCache * ShmemPerfModel) A) : DM A :=
  on_part (fun s => (ds_cache s, ds_perf s)) ds_set_cache m.

Definition get_entry (p : Z) : DM DirectoryEntry := fun s =>
  match deref (ds_cache s) p with Ok e => Ok (e, s) | Err x => Err x end.
Definition put_entry (p : Z) (e : DirectoryEntry) : DM unit :=
  modify (fun s => ds_set_cache (dc_store p e (ds_cache s), ds_perf s) s).

Definition sendMsg (receiver : Receiver) (m : ShmemMsg) : DM unit :=
  perf ← gets ds_perf;
  pk ← lift (makePacket (env_tile env) perf receiver m);
  modify (ds_send pk).

Definition dir_msg (t : MsgType) (requester address : Z) (modeled : bool) : ShmemMsg :=
  ShmemMsg_new t MC_DRAM_DIRECTORY MC_L2_CACHE requester address modeled.

(** [_dram_cntlr->getDataFromDram] and [putDataToDram]. *)
Definition dram_get (address : Z) (modeled : bool) : DM (list Z) := fun s =>
  match getDataFromDram (env_run_dram env) address modeled (ds_dram s) (ds_perf s) with
  | Ok (data, d, p) => Ok (data, ds_set_dram d p s)
  | Err x => Err x
  end.
Definition sendDataToDram (address : Z) (data_buf : Buf) (modeled : bool) : DM unit := fun s =>
  match data_buf with
  | None => Err NullDeref
  | Some data =>
      match putDataToDram (env_run_dram env) address data modeled (ds_dram s) (ds_perf s) with
      | Ok d => Ok (tt, ds_set_dram d (ds_perf s) s)
      | Err x => Err x
      end
  end.

Definition retrieveDataAndSendToL2Cache (reply : MsgType) (receiver address : Z)
    (cached_data_buf : Buf) (modeled : bool) : DM unit :=
  data ← match cached_data_buf with
         | Some data => mret data
         | None => dram_get address modeled
         end;
  sendMsg (ToTile receiver)
    (ShmemMsg_data reply MC_DRAM_DIRECTORY MC_L2_CACHE receiver address (Some data)
       (env_line_size env) modeled).

(** [shmem_req = queue.front(address)], then the two time updates. *)
Definition front_req (address : Z) : DM ShmemReq :=
  q ← gets ds_queue;
  r ← lift (front q address);
  match r with None => stop NullDeref | Some r => mret r end.

Definition set_front (address : Z) (r : ShmemReq) (q : gmap Z (list ShmemReq)) :=
  match q !! address with
  | Some (_ :: l) => <[address := r :: l]> q
  | _ => q
  end.

Definition front_with_times (address : Z) : DM ShmemReq :=
  r ← front_req address;
  p ← gets ds_perf;
  let r := rq_updateTime (pm_curr_time p) r in
  _ ← modify (fun s => ds_set_queue (set_front address r (ds_queue s)) s);
  _ ← modify (fun s => ds_set_perf (updateCurrTime (rq_time r) (ds_perf s)) s);
  mret r.

(** Invalidation of all sharers: a broadcast when the entry asks for it. *)
Definition invalidate_sharers (p requester address : Z) (modeled : bool) : DM unit :=
  e ← get_entry p;
  '(all_tiles_sharers, sharers_list, sh) ← lift (getSharersList (de_sharers e));
  _ ← put_entry p (de_setSharers sh e);
  if all_tiles_sharers : bool
  then sendMsg Broadcast (dir_msg INV_REQ requester address modeled)
  else for_each sharers_list (fun t => sendMsg (ToTile t) (dir_msg INV_REQ requester address modeled)).

(** The loop that picks the entry to replace: fewest sharers among the
    candidates without queued requests, the first of them. *)
Fixpoint pick_candidate (l : list Z) (best : option Z) : DM (option Z) :=
  match l with
  | [] => mret best
  | p :: l' =>
      e ← get_entry p;
      better ← match best with
               | None => mret true
               | Some b =>
                   eb ← get_entry b;
                   nb ← lift (getNumSharers (de_sharers eb));
                   n ← lift (getNumSharers (de_sharers e));
                   mret (nb >? n)
               end;
      q ← gets ds_queue;
      pick_candidate l'
        (if (better : bool) && (count q (de_address e) =? 0) then Some p else best)
  end.

(** [directory_entry->addSharer(...)] through the pointer. *)
Definition add_sharer (p t : Z) : DM bool :=
  e ← get_entry p;
  '(ok, sh) ← lift (addSharer (de_sharers e) t);
  _ ← put_entry p (de_setSharers sh e);
  mret ok.

Definition set_dstate (p : Z) (d : DirectoryState) : DM unit :=
  e ← get_entry p;
  put_entry p (de_setDState d e).

Definition set_owner (p t : Z) : DM unit :=
  e ← get_entry p;
  e ← lift (de_setOwner t e);
  put_entry p e.

(** The handlers call each other; every call spends fuel. *)
Fixpoint processNextReqFromL2Cache (fuel : nat) (address : Z) : DM unit :=
  match fuel with
  | O => stop OutOfFuel
  | S fuel =>
      q ← gets ds_queue;
      _ ← lift (assert_c (count q address >=? 1));
      '(_, q) ← lift (dequeue q address);
      _ ← modify (ds_set_queue q);
      if hml_empty q address then mret tt
      else
        r ← front_with_times address;
        match m_type (rq_msg r) with
        | EX_REQ => processExReqFromL2Cache fuel r None
        | SH_REQ => processShReqFromL2Cache fuel r None
        | _ => stop LogError
        end
  end

with processDirectoryEntryAllocationReq (fuel : nat) (r : ShmemReq) : DM Z :=
  match fuel with
  | O => stop OutOfFuel
  | S fuel =>
      let address := m_address (rq_msg r) in
      let requester := m_requester (rq_msg r) in
      msg_time ← gets (fun s => pm_curr_time (ds_perf s));
      candidates ← dcache (getReplacementCandidates (env_toPicosec env) address);
      best ← pick_candidate candidates None;
      match best with
      | None => stop LogError
      | Some b =>
          e ← get_entry b;
          let replaced_address := de_address e in
          directory_entry ← dcache (replaceDirectoryEntry (env_toPicosec env) replaced_address address);
          nullify_req ← lift (ShmemReq_new (ShmemMsg_new NULLIFY_REQ MC_DRAM_DIRECTORY
                                MC_DRAM_DIRECTORY requester replaced_address true) msg_time);
          _ ← modify (fun s => ds_set_queue (enqueue (ds_queue s) replaced_address nullify_req) s);
          q ← gets ds_queue;
          _ ← lift (assert_c (count q replaced_address =? 1));
          _ ← processNullifyReq fuel nullify_req;
          mret directory_entry
      end
  end

with processNullifyReq (fuel : nat) (r : ShmemReq) : DM unit :=
  match fuel with
  | O => stop OutOfFuel
  | S fuel =>
      let address := m_address (rq_msg r) in
      let requester := m_requester (rq_msg r) in
      let modeled := m_modeled (rq_msg r) in
      entry ← dcache (getDirectoryEntry (env_toPicosec env) address);
      match entry with
      | None => stop AssertFailed
      | Some p =>
          e ← get_entry p;
          match de_dstate e with
          | D_MODIFIED =>
              sendMsg (ToTile (de_owner_id e)) (dir_msg FLUSH_REQ requester address modeled)
          | D_SHARED => invalidate_sharers p requester address modeled
          | D_UNCACHED =>
              _ ← dcache (invalidateDirectoryEntry address);
              processNextReqFromL2Cache fuel address
          | _ => stop LogError
          end
      end
  end

with processExReqFromL2Cache (fuel : nat) (r : ShmemReq) (cached_data_buf : Buf) : DM unit :=
  match fuel with
  | O => stop OutOfFuel
  | S fuel =>
      let address := m_address (rq_msg r) in
      let requester := m_requester (rq_msg r) in
      let modeled := m_modeled (rq_msg r) in
      entry ← dcache (getDirectoryEntry (env_toPicosec env) address);
      p ← match entry with
          | Some p => mret p
          | None => processDirectoryEntryAllocationReq fuel r
          end;
      e ← get_entry p;
      match de_dstate e with
      | D_MODIFIED =>
          _ ← lift (assert_c (is_null cached_data_buf));
          sendMsg (ToTile (de_owner_id e)) (dir_msg FLUSH_REQ requester address modeled)
      | D_SHARED =>
          _ ← lift (assert_c (is_null cached_data_buf));
          invalidate_sharers p requester address modeled
      | D_UNCACHED =>
          add_result ← add_sharer p requester;
          _ ← lift (assert_c add_result);
          _ ← set_owner p requester;
          _ ← set_dstate p D_MODIFIED;
          _ ← retrieveDataAndSendToL2Cache EX_REP requester address cached_data_buf modeled;
          processNextReqFromL2Cache fuel address
      | _ => stop LogError
      end
  end

with processShReqFromL2Cache (fuel : nat) (r : ShmemReq) (cached_data_buf : Buf) : DM unit :=
  match fuel with
  | O => stop OutOfFuel
  | S fuel =>
      let address := m_address (rq_msg r) in
      let requester := m_requester (rq_msg r) in
      let modeled := m_modeled (rq_msg r) in
      entry ← dcache (getDirectoryEntry (env_toPicosec env) address);
      p ← match entry with
          | Some p => mret p
          | None => processDirectoryEntryAllocationReq fuel r
          end;
      e ← get_entry p;
      match de_dstate e with
      | D_MODIFIED =>
          _ ← lift (assert_c (is_null cached_data_buf));
          sendMsg (ToTile (de_owner_id e)) (dir_msg WB_REQ requester address modeled)
      | D_SHARED =>
          add_result ← add_sharer p requester;
          if add_result : bool then
            _ ← retrieveDataAndSendToL2Cache SH_REP requester address cached_data_buf modeled;
            processNextReqFromL2Cache fuel address
          else
            e ← get_entry p;
            '(sharer_id, sh) ← lift (sh_getOneSharer (env_rand env) (de_sharers e));
            _ ← put_entry p (de_setSharers sh e);
            sendMsg (ToTile sharer_id) (dir_msg INV_REQ requester address modeled)
      | D_UNCACHED =>
          add_result ← add_sharer p requester;
          _ ← lift (assert_c add_result);
          _ ← set_dstate p D_SHARED;
          _ ← retrieveDataAndSendToL2Cache SH_REP requester address cached_data_buf modeled;
          processNextReqFromL2Cache fuel address
      | _ => stop LogError
      end
  end.

(** ** Replies *)

(** [directory_entry->removeSharer(sender)]. *)
Definition remove_sharer (p t : Z) : DM unit :=
  e ← get_entry p;
  sh ← lift (removeSharer (de_sharers e) t false);
  put_entry p (de_setSharers sh e).

(** The entry of a reply, which must exist. *)
Definition reply_entry (address : Z) : DM Z :=
  entry ← dcache (getDirectoryEntry (env_toPicosec env) address);
  match entry with None => stop AssertFailed | Some p => mret p end.

Definition processInvRepFromL2Cache (fuel : nat) (sender : Z) (m : ShmemMsg) : DM unit :=
  let address := m_address m in
  p ← reply_entry address;
  e ← get_entry p;
  _ ← lift (assert_c (bool_decide (de_dstate e = D_SHARED)));
  _ ← remove_sharer p sender;
  e ← get_entry p;
  n ← lift (getNumSharers (de_sharers e));
  _ ← when (n =? 0) (set_dstate p D_UNCACHED);
  q ← gets ds_queue;
  if count q address >? 0 then
    r ← front_with_times address;
    e ← get_entry p;
    match m_type (rq_msg r) with
    | EX_REQ =>
        when (bool_decide (de_dstate e = D_UNCACHED)) (processExReqFromL2Cache fuel r None)
    | SH_REQ => processShReqFromL2Cache fuel r None
    | _ => when (bool_decide (de_dstate e = D_UNCACHED)) (processNullifyReq fuel r)
    end
  else mret tt.

Definition processFlushRepFromL2Cache (fuel : nat) (sender : Z) (m : ShmemMsg) : DM unit :=
  let address := m_address m in
  p ← reply_entry address;
  e ← get_entry p;
  _ ← lift (assert_c (bool_decide (de_dstate e = D_MODIFIED)));
  _ ← remove_sharer p sender;
  _ ← set_owner p INVALID_TILE_ID;
  _ ← set_dstate p D_UNCACHED;
  q ← gets ds_queue;
  if negb (count q address =? 0) then
    r ← front_with_times address;
    match m_type (rq_msg r) with
    | EX_REQ => processExReqFromL2Cache fuel r (m_data_buf m)
    | SH_REQ =>
        _ ← sendDataToDram address (m_data_buf m) (m_modeled m);
        processShReqFromL2Cache fuel r (m_data_buf m)
    | _ =>
        _ ← sendDataToDram address (m_data_buf m) (m_modeled m);
        processNullifyReq fuel r
    end
  else sendDataToDram address (m_data_buf m) (m_modeled m).

Definition processWbRepFromL2Cache (fuel : nat) (sender : Z) (m : ShmemMsg) : DM unit :=
  let address := m_address m in
  p ← reply_entry address;
  e ← get_entry p;
  _ ← lift (assert_c (bool_decide (de_dstate e = D_MODIFIED)));
  has ← lift (hasSharer (de_sharers e) sender);
  _ ← lift (assert_c has);
  _ ← set_owner p INVALID_TILE_ID;
  _ ← set_dstate p D_SHARED;
  q ← gets ds_queue;
  if negb (count q address =? 0) then
    r ← front_with_times address;
    _ ← sendDataToDram address (m_data_buf m) (m_modeled m);
    _ ← lift (log_assert (bool_decide (m_type (rq_msg r) = SH_REQ)));
    processShReqFromL2Cache fuel r (m_data_buf m)
  else stop LogError.

Definition handleMsgFromL2Cache (fuel : nat) (sender : Z) (m : ShmemMsg) : DM unit :=
  _ ← modify (fun s => ds_set_perf (incrCurrTime
        (if sender =? env_tile env then env_delay_L2 env else env_delay_network env) (ds_perf s)) s);
  msg_time ← gets (fun s => pm_curr_time (ds_perf s));
  match m_type m with
  | EX_REQ | SH_REQ =>
      let address := m_address m in
      r ← lift (ShmemReq_new m msg_time);
      _ ← modify (fun s => ds_set_queue (enqueue (ds_queue s) address r) s);
      q ← gets ds_queue;
      if count q address =? 1 then
        match m_type m with
        | EX_REQ => processExReqFromL2Cache fuel r None
        | _ => processShReqFromL2Cache fuel r None
        end
      else mret tt
  | INV_REP => processInvRepFromL2Cache fuel sender m
  | FLUSH_REP => processFlushRepFromL2Cache fuel sender m
  | WB_REP => processWbRepFromL2Cache fuel sender m
  | _ => stop LogError
  end.
End DirCntlr.
