(* ===== verification/DirThm.v ===== *)
(** * The directory controller grants permissions safely

    The messages a directory controller receives and sends form its history.
    From the history alone one reads off, for every line, which tiles hold a
    copy, which one may write it, and its current contents.  The directory
    state, the queues and the DRAM agree with that reading, every reply the
    controller sends is justified by it, and no handler stops or runs out of
    fuel on the messages the L2 caches send. *)

From S2P Require Import Prelude Utils HashMapList BitVec DirEntry CacheLine CacheSet Shmem DirCache DirCntlr.

(** ** Histories *)

Inductive Event : Type :=
  | Recv (sender : Z) (m : ShmemMsg)
  | Sent (pk : Packet).

(** Holders of a copy, and the tile that may write. *)
Abbreviation Perm := (gset Z * option Z)%type.

Definition reply_perm (a t : Z) (m : ShmemMsg) (w : Perm) : Perm :=
  if decide (m_address m = a) then
    match m_type m with
    | EX_REP => ({[t]} ∪ w.1, Some t)
    | SH_REP => ({[t]} ∪ w.1, w.2)
    | _ => w
    end
  else w.

Definition return_perm (a t : Z) (m : ShmemMsg) (w : Perm) : Perm :=
  if decide (m_address m = a) then
    match m_type m with
    | INV_REP => (w.1 ∖ {[t]}, w.2)
    | FLUSH_REP => (w.1 ∖ {[t]}, None)
    | WB_REP => (w.1, None)
    | _ => w
    end
  else w.

Definition ev_perm (a : Z) (w : Perm) (ev : Event) : Perm :=
  match ev with
  | Recv t m => return_perm a t m w
  | Sent pk =>
      match pk_receiver pk with
      | ToTile t => reply_perm a t (pk_data pk).1 w
      | Broadcast => w
      end
  end.

Definition perm (l : list Event) (a : Z) : Perm := fold_left (ev_perm a) l (∅, None).

(** The contents of a line: what was last written back, zeroes at first. *)
Definition ev_value (a : Z) (v : list Z) (ev : Event) : list Z :=
  match ev with
  | Recv _ m =>
      if decide (m_address m = a) then
        match m_type m, m_data_buf m with
        | (FLUSH_REP | WB_REP), Some data => data
        | _, _ => v
        end
      else v
  | Sent _ => v
  end.

(** The request sent to the writer of a line and not answered yet. *)
Definition ev_ask (a : Z) (o : option MsgType) (ev : Event) : option MsgType :=
  match ev with
  | Recv _ m =>
      if decide (m_address m = a)
      then match m_type m with FLUSH_REP | WB_REP => None | _ => o end else o
  | Sent pk =>
      if decide (m_address (pk_data pk).1 = a)
      then match m_type (pk_data pk).1 with
           | EX_REP => None | FLUSH_REQ => Some FLUSH_REQ | WB_REQ => Some WB_REQ | _ => o
           end
      else o
  end.
Definition ask (l : list Event) (a : Z) : option MsgType := fold_left (ev_ask a) l None.

(** The tiles that wait for a line, with what they asked for. *)
Definition ev_wait (a : Z) (w : gmap Z MsgType) (ev : Event) : gmap Z MsgType :=
  match ev with
  | Recv t m =>
      if decide (m_address m = a)
      then match m_type m with EX_REQ => <[t := EX_REQ]> w | SH_REQ => <[t := SH_REQ]> w | _ => w end
      else w
  | Sent pk =>
      match pk_receiver pk with
      | ToTile t =>
          if decide (m_address (pk_data pk).1 = a)
          then match m_type (pk_data pk).1 with EX_REP | SH_REP => delete t w | _ => w end else w
      | Broadcast => w
      end
  end.
Definition waits (l : list Event) (a : Z) : gmap Z MsgType := fold_left (ev_wait a) l ∅.

Section history.
Context (line_size home : Z).

(** The messages of a directory: requests without payload and lines. *)
Definition dir_format (pk : Packet) : Prop :=
  let m := (pk_data pk).1 in
  pk_sender pk = home /\ m_sender m = MC_DRAM_DIRECTORY /\ m_receiver m = MC_L2_CACHE /\
  match m_type m with
  | EX_REP | SH_REP => m_data_length m = line_size /\ Z.of_nat (length (pk_data pk).2) = line_size
  | _ => m_data_length m = 0 /\ m_data_buf m = None
  end.

Definition value (l : list Event) (a : Z) : list Z :=
  fold_left (ev_value a) l (replicate (Z.to_nat line_size) 0).

(** A reply that grants a copy answers a request and carries the current
    contents; an exclusive one is sent when no tile holds the line, a shared one
    when no tile may write it.  Invalidations are sent to tiles that hold a
    line nobody may write, and the writer of a line is asked once to give it
    back. *)
Definition justified (l : list Event) (ev : Event) : Prop :=
  match ev with
  | Sent pk =>
      let a := m_address (pk_data pk).1 in
      dir_format pk /\
      match pk_receiver pk with
      | ToTile t =>
          match m_type (pk_data pk).1 with
          | EX_REP => perm l a = (∅, None) /\ (pk_data pk).2 = value l a /\ waits l a !! t = Some EX_REQ
          | SH_REP => (perm l a).2 = None /\ (t ∉ (perm l a).1) /\ (pk_data pk).2 = value l a /\
                      waits l a !! t = Some SH_REQ
          | INV_REQ => t ∈ (perm l a).1 /\ (perm l a).2 = None
          | FLUSH_REQ | WB_REQ => (perm l a).2 = Some t /\ ask l a = None
          | _ => False
          end
      | Broadcast => m_type (pk_data pk).1 = INV_REQ /\ (perm l a).1 <> ∅ /\ (perm l a).2 = None
      end
  | Recv _ _ => True
  end.

Definition history_ok (l : list Event) : Prop :=
  forall l1 ev l2, l = l1 ++ ev :: l2 -> justified l1 ev.

Lemma perm_snoc l ev a : perm (l ++ [ev]) a = ev_perm a (perm l a) ev.
Proof using. unfold perm. by rewrite fold_left_app. Qed.
Lemma value_snoc l ev a : value (l ++ [ev]) a = ev_value a (value l a) ev.
Proof using. unfold value. by rewrite fold_left_app. Qed.

Lemma ask_snoc l ev a : ask (l ++ [ev]) a = ev_ask a (ask l a) ev.
Proof using. unfold ask. by rewrite fold_left_app. Qed.
Lemma waits_snoc l ev a : waits (l ++ [ev]) a = ev_wait a (waits l a) ev.
Proof using. unfold waits. by rewrite fold_left_app. Qed.

Lemma history_ok_snoc l ev : history_ok l -> justified l ev -> history_ok (l ++ [ev]).
Proof using.
  intros Hl Hev l1 x l2 E. destruct l2 as [|y l2 _] using rev_ind.
  - apply app_inj_tail in E as [-> ->]. done.
  - rewrite app_comm_cons, app_assoc in E. apply app_inj_tail in E as [E _]. by eapply Hl.
Qed.

(** Events that neither grant nor return anything. *)
Definition neutral (ev : Event) : Prop :=
  match ev with
  | Recv _ m => match m_type m with EX_REQ | SH_REQ => True | _ => False end
  | Sent pk => match m_type (pk_data pk).1 with INV_REQ | FLUSH_REQ | WB_REQ => True | _ => False end
  end.

Lemma neutral_perm ev a w : neutral ev -> ev_perm a w ev = w.
Proof using.
  destruct ev as [t m|[? ? [t|] [m ?]]]; simpl; unfold return_perm, reply_perm;
    intros Ht; try done; case_decide; try done; by destruct (m_type m).
Qed.

Lemma neutral_value ev a v : neutral ev -> ev_value a v ev = v.
Proof using.
  destruct ev as [t m|]; simpl; [|done]. intros Ht. case_decide; [|done]. by destruct (m_type m).
Qed.

End history.

(** ** The invariant *)

Section inv.
Context (env : DirEnv) (N : Z).
Abbreviation line_size := (env_line_size env).

(** A directory entry agrees with the permissions handed out. *)
Definition entry_ok (w : Perm) (e : DirectoryEntry) : Prop :=
  repr (de_sharers e) w.1 /\ N <= max_tile (de_sharers e) /\
  match de_dstate e with
  | D_UNCACHED => w = (∅, None) /\ de_owner_id e = INVALID_TILE_ID
  | D_SHARED => w.1 <> ∅ /\ w.2 = None /\ de_owner_id e = INVALID_TILE_ID
  | D_MODIFIED => w = ({[de_owner_id e]}, Some (de_owner_id e)) /\
                  hasSharer (de_sharers e) (de_owner_id e) = Ok true
  | _ => False
  end.

Definition normal_req (a : Z) (m : ShmemMsg) : Prop :=
  m_address m = a /\ a <> INVALID_ADDRESS /\ m_data_buf m = None /\
  0 <= m_requester m < N /\ (m_type m = EX_REQ \/ m_type m = SH_REQ).

Definition null_req (a : Z) (m : ShmemMsg) : Prop :=
  m_address m = a /\ a <> INVALID_ADDRESS /\ m_type m = NULLIFY_REQ.

(** Requests of tiles that do not hold the line, one per tile. *)
Definition waiting (a : Z) (S : gset Z) (q : list ShmemMsg) : Prop :=
  Forall (normal_req a) q /\ NoDup (m_requester <$> q) /\
  forall m, m ∈ q -> m_requester m ∉ S.

(** A request of the directory itself comes first in its queue. *)
Definition reqs_ok (a : Z) (S : gset Z) (q : list ShmemMsg) : Prop :=
  waiting a S q \/ exists m q', q = m :: q' /\ null_req a m /\ waiting a S q'.

Definition nullifies (q : list ShmemMsg) : Prop :=
  exists m q', q = m :: q' /\ m_type m = NULLIFY_REQ.

(** What the writer of a line is asked for on behalf of a request. *)
Definition ask_type (m : ShmemMsg) : MsgType := if decide (m_type m = SH_REQ) then WB_REQ else FLUSH_REQ.

(** The writer has been asked only on behalf of the head of the queue. *)
Definition ask_ok (w : Perm) (o : option MsgType) (q : list ShmemMsg) : Prop :=
  w.2 <> None -> o = None \/ exists m q', q = m :: q' /\ o = Some (ask_type m).

(** The queue holds the requests that wait for a reply. *)
Definition wait_ok (w : gmap Z MsgType) (q : list ShmemMsg) : Prop :=
  forall t ty, w !! t = Some ty <->
    exists m, m ∈ q /\ m_requester m = t /\ m_type m = ty /\ ty <> NULLIFY_REQ.

(** [ex]: an address whose current contents are on their way through the
    controller and not yet in DRAM. *)
Record inv (ex : option Z) (c : DirectoryCache) (d : DramCntlr) (Q : Z -> list ShmemMsg)
    (l : list Event) : Prop := {
  iv_wf : dc_wf c;
  iv_fresh : repr (de_sharers (fresh_entry c)) ∅ /\ N <= max_tile (de_sharers (fresh_entry c));
  iv_dram : dram_wf d /\ dr_cache_line_size d = line_size;
  iv_entry a p e : tracks c a p e -> entry_ok (perm l a) e;
  iv_free a : untracked c a -> perm l a = (∅, None);
  iv_value a : ex <> Some a -> (perm l a).2 = None -> dram_line d a = value line_size l a;
  iv_stored a : (perm l a).1 <> ∅ -> is_Some (dr_data_map d !! a);
  iv_reqs a : reqs_ok a (perm l a).1 (Q a);
  iv_null a : nullifies (Q a) <-> exists p e, tracks c a p e /\ p ∈ dc_replaced c;
  iv_ask a : ask_ok (perm l a) (ask l a) (Q a);
  iv_wait a : wait_ok (waits l a) (Q a);
  iv_hist : history_ok line_size (env_tile env) l }.

Lemma waiting_not_null a S q : waiting a S q -> ~ nullifies q.
Proof using.
  intros [HF _] (m & q' & -> & Hm). inversion HF as [|? ? (_ & _ & _ & _ & Ht)].
  rewrite Hm in Ht. by destruct Ht.
Qed.

Lemma inv_same ex c c' d Q Q' l :
  same_entries c c' -> (forall a, Q' a = Q a) -> inv ex c d Q l -> inv ex c' d Q' l.
Proof using.
  intros Hs HQ Hi. pose proof Hs as (Hcfg & _ & _ & _ & Hr). destruct Hi.
  split; try done.
  - by eapply same_entries_wf.
  - by rewrite (config_fresh c c').
  - intros a p e Ht%(same_entries_tracks _ _ _ _ _ Hs). by eapply iv_entry0.
  - intros a Hu. apply iv_free0. intros p e Ht. apply (Hu p e).
    by apply (same_entries_tracks _ _ _ _ _ Hs).
  - intros a. by rewrite HQ.
  - intros a. rewrite HQ, iv_null0, Hr. by setoid_rewrite (same_entries_tracks _ _ _ _ _ Hs).
  - intros a. rewrite HQ. apply iv_ask0.
  - intros a. rewrite HQ. apply iv_wait0.
Qed.

(** An event that changes neither permissions nor contents. *)
Lemma inv_neutral ex c d Q l ev :
  neutral ev -> justified line_size (env_tile env) l ev ->
  (forall a, ask_ok (perm l a) (ask (l ++ [ev]) a) (Q a)) ->
  (forall a, wait_ok (waits (l ++ [ev]) a) (Q a)) ->
  inv ex c d Q l -> inv ex c d Q (l ++ [ev]).
Proof using.
  intros Hn Hj Hask Hwait []. split; try done.
  7: { by apply history_ok_snoc. }
  all: intros a; rewrite ?perm_snoc, ?value_snoc, ?neutral_perm, ?neutral_value by done; eauto.
Qed.

Lemma store_tracks c p e e' b q x :
  dc_heap c !! p = Some e -> de_address e' = de_address e ->
  tracks (dc_store p e' c) b q x <->
  (q = p /\ x = e' /\ b = de_address e /\ b <> INVALID_ADDRESS) \/ (q <> p /\ tracks c b q x).
Proof using.
  intros He Ha. unfold tracks, dc_store. simpl. destruct (decide (q = p)) as [->|Hq].
  - rewrite lookup_insert_eq. split.
    + intros ([= <-] & <- & ?). left. by rewrite <- Ha.
    + intros [(_ & -> & -> & ?)|[? _]]; [|done]. by rewrite Ha.
  - rewrite lookup_insert_ne by done. naive_solver.
Qed.

(** Everything about one address changes, the others stay. *)
Definition qset (Q : Z -> list ShmemMsg) (a : Z) (q : list ShmemMsg) (b : Z) : list ShmemMsg :=
  if decide (b = a) then q else Q b.

Lemma qset_eq Q a q : qset Q a q a = q.
Proof using. unfold qset. by rewrite decide_True. Qed.
Lemma qset_ne Q a q b : b <> a -> qset Q a q b = Q b.
Proof using. intros. unfold qset. by rewrite decide_False. Qed.

Lemma unique_track c a p e q x : dc_wf c -> tracks c a p e -> tracks c a q x -> q = p /\ x = e.
Proof using.
  intros Hwf (H1 & H2 & H3) (H4 & H5 & _).
  assert (q = p) as -> by (apply (dw_unique _ Hwf q p x e); congruence). split; congruence.
Qed.

(** Storing an entry that agrees with the permissions of a longer history. *)
Lemma inv_update ex ex' c d d' Q l l' a p e e' q' :
  inv ex c d Q l -> tracks c a p e -> de_address e' = a ->
  (forall b, b <> a -> perm l' b = perm l b /\ ask l' b = ask l b /\ waits l' b = waits l b) ->
  (forall b, b <> a -> value line_size l' b = value line_size l b /\
     dram_line d' b = dram_line d b /\ (ex = Some b -> ex' = Some b) /\
     (is_Some (dr_data_map d !! b) -> is_Some (dr_data_map d' !! b))) ->
  dram_wf d' -> dr_cache_line_size d' = line_size ->
  entry_ok (perm l' a) e' ->
  (ex' <> Some a -> (perm l' a).2 = None -> dram_line d' a = value line_size l' a) ->
  ((perm l' a).1 <> ∅ -> is_Some (dr_data_map d' !! a)) ->
  reqs_ok a (perm l' a).1 q' -> (nullifies q' <-> p ∈ dc_replaced c) ->
  ask_ok (perm l' a) (ask l' a) q' -> wait_ok (waits l' a) q' ->
  history_ok line_size (env_tile env) l' ->
  inv ex' (dc_store p e' c) d' (qset Q a q') l'.
Proof using.
  intros Hi Ht Ha' Hb Hc Hd Hls He' Hv Hst Hq Hn Hask Hwait Hh. pose proof Ht as (Hp & Ha & Hne).
  pose proof (iv_wf _ _ _ _ _ Hi) as Hwf.
  assert (Htr : forall b q x, tracks (dc_store p e' c) b q x <->
    (q = p /\ x = e' /\ b = a) \/ (b <> a /\ tracks c b q x)).
  { intros b q x. rewrite (store_tracks c p e e') by congruence. rewrite Ha. split.
    - intros [?|[Hqp Hx]]; [left; naive_solver|right]. split; [|done]. intros ->.
      apply Hqp. by apply (unique_track c a p e q x).
    - intros [(-> & -> & ->)|[Hba Hx]]; [by left|right]. split; [|done]. intros ->.
      destruct Hx as (Hx & Hxa & _). congruence. }
  destruct Hi. split; try done.
  - by apply (dc_store_wf c p e e'); rewrite ?Ha.
  - intros b q x [(-> & -> & ->)|[Hba Hx]]%Htr; [done|].
    rewrite (proj1 (Hb b Hba)). by eapply iv_entry0.
  - intros b Hu. destruct (decide (b = a)) as [->|Hba]; [exfalso; apply (Hu p e'), Htr; by left|].
    rewrite (proj1 (Hb b Hba)). apply iv_free0. intros q x Hx. apply (Hu q x), Htr. by right.
  - intros b Hex. destruct (decide (b = a)) as [->|Hba]; [by apply Hv|].
    rewrite (proj1 (Hb b Hba)). destruct (Hc b Hba) as (-> & -> & Hxx & _). apply iv_value0. intros E. by apply Hex, Hxx.
  - intros b. destruct (decide (b = a)) as [->|Hba]; [done|].
    rewrite (proj1 (Hb b Hba)). destruct (Hc b Hba) as (_ & _ & _ & Hs). intros Hne'. apply Hs. by apply iv_stored0.
  - intros b. destruct (decide (b = a)) as [->|Hba]; [by rewrite qset_eq|].
    rewrite qset_ne by done. by rewrite (proj1 (Hb b Hba)).
  - intros b. destruct (decide (b = a)) as [->|Hba].
    + rewrite qset_eq, Hn. split; [intros ?; exists p, e'; split; [apply Htr; by left|done]|].
      intros (q & x & [(-> & _)|[? _]]%Htr & Hr); done.
    + rewrite qset_ne, iv_null0 by done. split; intros (q & x & Hx & Hr); exists q, x;
        (split; [|done]); apply Htr in Hx || apply Htr; [by right|naive_solver].
  - intros b. destruct (decide (b = a)) as [->|Hba]; [by rewrite qset_eq|].
    rewrite qset_ne by done. destruct (Hb b Hba) as (-> & -> & _). apply iv_ask0.
  - intros b. destruct (decide (b = a)) as [->|Hba]; [by rewrite qset_eq|].
    rewrite qset_ne by done. destruct (Hb b Hba) as (_ & _ & ->). apply iv_wait0.
Qed.

(** Changes of the directory that leave permissions and contents alone. *)
Lemma inv_retrack ex c c' d Q Q' l l' :
  inv ex c d Q l -> dc_wf c' -> fresh_entry c' = fresh_entry c ->
  (forall b, perm l' b = perm l b /\ value line_size l' b = value line_size l b) ->
  (forall b q x, tracks c' b q x -> tracks c b q x \/ entry_ok (perm l b) x) ->
  (forall b, untracked c' b -> perm l b = (∅, None)) ->
  (forall b, reqs_ok b (perm l b).1 (Q' b)) ->
  (forall b, nullifies (Q' b) <-> exists p e, tracks c' b p e /\ p ∈ dc_replaced c') ->
  (forall b, ask_ok (perm l b) (ask l' b) (Q' b)) -> (forall b, wait_ok (waits l' b) (Q' b)) ->
  history_ok line_size (env_tile env) l' ->
  inv ex c' d Q' l'.
Proof using.
  intros [] Hwf Hf Hl Ht Hu Hq Hn Hask Hwait Hh. split; try done.
  - by rewrite Hf.
  - intros b q x Hx. rewrite (proj1 (Hl b)). apply Ht in Hx as [Hx|Hx]; [by eapply iv_entry0|done].
  - intros b. rewrite (proj1 (Hl b)). apply Hu.
  - intros b. rewrite (proj1 (Hl b)), (proj2 (Hl b)). apply iv_value0.
  - intros b. rewrite (proj1 (Hl b)). apply iv_stored0.
  - intros b. rewrite (proj1 (Hl b)). apply Hq.
  - intros b. rewrite (proj1 (Hl b)). apply Hask.
Qed.

Lemma fresh_ok ex c d Q l a : inv ex c d Q l -> entry_ok (∅, None) (de_setAddress a (fresh_entry c)).
Proof using. intros Hi. destruct (iv_fresh _ _ _ _ _ Hi). by split_and!. Qed.

Lemma inv_claim ex c c' d Q l p a :
  inv ex c d Q l -> a <> INVALID_ADDRESS -> untracked c a -> dc_heap c !! p = Some (fresh_entry c) ->
  same_entries (dc_store p (de_setAddress a (fresh_entry c)) c) c' -> dc_wf c' ->
  inv ex c' d Q l /\ tracks c' a p (de_setAddress a (fresh_entry c)).
Proof using.
  intros Hi Ha Hu Hp Hs Hwf. pose proof (fresh_ok _ _ _ _ _ a Hi) as Hok.
  assert (Htr : forall b q x, tracks c' b q x <->
    (b = a /\ q = p /\ x = de_setAddress a (fresh_entry c)) \/ tracks c b q x).
  { intros b q x. rewrite (same_entries_tracks _ _ _ _ _ Hs). unfold tracks. simpl.
    destruct (decide (q = p)) as [->|Hq].
    - rewrite lookup_insert_eq, Hp. split; [intros ([= <-] & <- & _); by left|].
      intros [(-> & _ & ->)|([= <-] & Hx & Hx')]; [done|]. by destruct Hx'.
    - rewrite lookup_insert_ne by done. naive_solver. }
  pose proof Hs as (Hcfg & _ & _ & _ & Hr). simpl in Hr.
  split; [|apply Htr; by left]. pose proof Hi as [].
  apply (inv_retrack ex c c' d Q Q l l); try done.
  - by rewrite (config_fresh _ _ Hcfg).
  - intros b q x [(-> & _ & ->)|Hx]%Htr; [right|by left]. by rewrite iv_free0.
  - intros b Hub. apply iv_free0. intros q x Hx. apply (Hub q x), Htr. by right.
  - intros b. rewrite iv_null0, Hr. split; intros (q & x & Hx & Hin); exists q, x.
    + split; [apply Htr; by right|done].
    + apply Htr in Hx as [(-> & -> & ->)|Hx]; [|done].
      destruct (dw_free _ iv_wf0 p _ Hp) as [_ Hn]; done.
Qed.

Lemma lookup_runs ex c pm d Q l a :
  inv ex c d Q l -> a <> INVALID_ADDRESS ->
  runs (getDirectoryEntry (env_toPicosec env) a) (c, pm) (fun r s =>
    inv ex s.1 d Q l /\
    match r with
    | Some p => exists e, tracks s.1 a p e /\ dc_replaced s.1 = dc_replaced c /\
        ((tracks c a p e /\ same_entries c s.1) \/ (untracked c a /\ de_dstate e = D_UNCACHED))
    | None => untracked c a /\ same_entries c s.1 /\ set_full c (dir_set c a)
    end).
Proof using.
  intros Hi Ha.
  destruct (getDirectoryEntry_spec (env_toPicosec env) c pm a (iv_wf _ _ _ _ _ Hi) Ha)
    as (r & c' & pm' & E & Hwf & _ & Hr).
  exists r, (c', pm'). split; [done|]. simpl. destruct r as [p|].
  - destruct Hr as [(e & Ht & Hs)|(Hu & Hp & _ & Hs)].
    + split; [by eapply inv_same|]. exists e. pose proof Hs as (_ & _ & _ & _ & Hr).
      split; [by apply (same_entries_tracks c c')|]. split; [done|by left].
    + destruct (inv_claim ex c c' d Q l p a) as [Hi' Ht]; try done.
      split; [done|]. exists (de_setAddress a (fresh_entry c)). pose proof Hs as (_ & _ & _ & _ & Hr).
      split_and!; [done|done|by right].
  - destruct Hr as (Hu & Hs & Hf). split; [by eapply inv_same|]. done.
Qed.

Lemma inv_replace ex c c' d Q l n p e a m :
  inv ex c d Q l -> dc_list c !! n = Some p -> tracks c (de_address e) p e -> untracked c a ->
  a <> INVALID_ADDRESS -> same_entries (dc_replace c n p a) c' -> dc_wf c' ->
  Q (de_address e) = [] -> null_req (de_address e) m ->
  inv ex c' d (qset Q (de_address e) [m]) l /\
  tracks c' a (dc_next c) (de_setAddress a (fresh_entry c)) /\
  tracks c' (de_address e) p e /\ p ∈ dc_replaced c'.
Proof using.
  intros Hi Hn He Hu Ha Hs Hwf HQ Hm. pose proof (fresh_ok _ _ _ _ _ a Hi) as Hok.
  pose proof (next_fresh c (iv_wf _ _ _ _ _ Hi)) as Hnone.
  assert (Htr : forall b q x, tracks c' b q x <->
    (b = a /\ q = dc_next c /\ x = de_setAddress a (fresh_entry c)) \/ tracks c b q x).
  { intros b q x. rewrite (same_entries_tracks _ _ _ _ _ Hs). unfold tracks. simpl.
    destruct (decide (q = dc_next c)) as [->|Hq].
    - rewrite lookup_insert_eq, Hnone. split; [intros ([= <-] & <- & _); by left|naive_solver].
    - rewrite lookup_insert_ne by done. naive_solver. }
  pose proof Hs as (Hcfg & _ & _ & _ & Hr). simpl in Hr.
  assert (Hpr : p ∈ dc_replaced c') by (rewrite Hr; set_solver).
  split; [|split_and!; [apply Htr; by left|apply Htr; by right|done]].
  pose proof Hi as [].
  apply (inv_retrack ex c c' d Q _ l l); try done.
  - by rewrite (config_fresh _ _ Hcfg).
  - intros b q x [(-> & _ & ->)|Hx]%Htr; [right|by left]. by rewrite iv_free0.
  - intros b Hub. apply iv_free0. intros q x Hx. apply (Hub q x), Htr. by right.
  - intros b. destruct (decide (b = de_address e)) as [->|Hb].
    + rewrite qset_eq. right. exists m, []. split_and!; [done|done|].
      split_and!; [constructor|constructor|set_solver].
    + by rewrite qset_ne.
  - intros b. destruct (decide (b = de_address e)) as [->|Hb].
    + rewrite qset_eq. split; [intros _; exists p, e; split; [apply Htr; by right|done]|].
      intros _. exists m, []. split; [done|apply Hm].
    + rewrite qset_ne, iv_null0, Hr by done. split; intros (q & x & Hx & Hin); exists q, x.
      * split; [apply Htr; by right|set_solver].
      * apply Htr in Hx as [(-> & -> & ->)|Hx].
        -- exfalso. apply elem_of_app in Hin as [Hin|Hin%list_elem_of_singleton].
           ++ destruct (proj1 (dw_alloc _ iv_wf0 (dc_next c))) as [y Hy]; [set_solver|congruence].
           ++ destruct He as (He & _). congruence.
        -- split; [done|]. apply elem_of_app in Hin as [Hin|Hin%list_elem_of_singleton]; [done|].
           subst q. destruct He as (He & _), Hx as (Hx & Hxa & _). congruence.
  - intros b. destruct (decide (b = de_address e)) as [->|Hb]; [|by rewrite qset_ne].
    rewrite qset_eq. intros Hw. destruct (iv_ask0 (de_address e) Hw) as [?|(x & q & E & _)]; [by left|].
    by rewrite HQ in E.
  - intros b. destruct (decide (b = de_address e)) as [->|Hb]; [|by rewrite qset_ne].
    rewrite qset_eq. intros t ty. rewrite (iv_wait0 (de_address e) t ty), HQ. split; [by intros (x & ?%elem_of_nil & _)|].
    intros (x & ->%list_elem_of_singleton & _ & Hty & Hne). destruct Hm as (_ & _ & Hm). congruence.
Qed.

Lemma inv_drop ex c d Q l k p e a m q :
  inv ex c d Q l -> tracks c a p e -> dc_replaced c !! k = Some p ->
  perm l a = (∅, None) -> Q a = m :: q -> null_req a m -> waiting a ∅ q ->
  inv ex (dc_drop c k p) d (qset Q a q) l /\ untracked (dc_drop c k p) a /\
  forall b r x, b <> a -> tracks (dc_drop c k p) b r x <-> tracks c b r x.
Proof using.
  intros Hi Ht Hk Hp HQ Hm Hq. pose proof Hi as []. pose proof Ht as (He & Hea & Hne).
  assert (Htr : forall b r x, tracks (dc_drop c k p) b r x <-> b <> a /\ tracks c b r x).
  { intros b r x. transitivity (r <> p /\ tracks c b r x).
    - unfold tracks. simpl. rewrite lookup_delete_Some. naive_solver.
    - split; intros [H1 Hx]; (split; [|done]); intros ->.
      + apply H1. by apply (unique_track c a p e r x).
      + destruct Hx as (Hx & Hxa & _). congruence. }
  pose proof (dc_drop_wf (env_toPicosec env) c k p iv_wf0 Hk) as Hwf. split_and!.
  - apply (inv_retrack ex c (dc_drop c k p) d Q _ l l); try done.
    + intros b r x [_ Hx]%Htr. by left.
    + intros b Hu. destruct (decide (b = a)) as [->|Hb]; [done|].
      apply iv_free0. intros r x Hx. apply (Hu r x), Htr. done.
    + intros b. destruct (decide (b = a)) as [->|Hb]; [rewrite qset_eq, Hp; by left|by rewrite qset_ne].
    + intros b. destruct (decide (b = a)) as [->|Hb].
      * rewrite qset_eq. split; [by intros ?%(waiting_not_null _ _ _ Hq)|].
        intros (r & x & [? _]%Htr & _). done.
      * rewrite qset_ne, iv_null0 by done. simpl.
        assert (Hmem : forall r x, tracks c b r x -> r ∈ delete k (dc_replaced c) <-> r ∈ dc_replaced c).
        { intros r x Hx. assert (r <> p) by (intros ->; destruct Hx as (Hx & Hxa & _); congruence).
          transitivity (r ∈ p :: delete k (dc_replaced c)); [rewrite elem_of_cons; naive_solver|].
          by rewrite <- (delete_Permutation (dc_replaced c) k p). }
        split; intros (r & x & Hx & Hin); exists r, x.
        -- rewrite (Hmem r x Hx). split; [by apply Htr|done].
        -- apply Htr in Hx as [_ Hx]. by rewrite (Hmem r x Hx) in Hin.
    + intros b. destruct (decide (b = a)) as [->|Hb]; [intros Hw; by rewrite Hp in Hw|by rewrite qset_ne].
    + intros b. destruct (decide (b = a)) as [->|Hb]; [|by rewrite qset_ne]. rewrite qset_eq.
      intros t ty. rewrite (iv_wait0 a t ty), HQ. split; intros (x & Hx & Hxt & Hxty & Hnn); exists x.
      * split; [|done]. apply elem_of_cons in Hx as [->|Hx]; [|done].
        destruct Hm as (_ & _ & Hm). congruence.
      * split; [by right|done].
  - intros r x [? _]%Htr. done.
  - intros b r x Hb. rewrite Htr. naive_solver.
Qed.
End inv.
