(* ===== verification/DirSafe.v ===== *)
(** * The handlers of the directory controller keep its invariant

    Total correctness of every handler of DirCntlr.v under the invariant of
    DirThm.v: with enough fuel the handler finishes without stopping and its
    final state agrees with the extended history. *)

From S2P Require Import Prelude Utils HashMapList BitVec DirEntry CacheLine CacheSet Shmem DirCache DirCntlr DirThm.

Section handlers.
Context (env : DirEnv) (N : Z).
Abbreviation line_size := (env_line_size env).
Abbreviation inv := (inv env N).
Implicit Types (s : DirState) (h : list Event).

Definition msgs (s : DirState) (a : Z) : list ShmemMsg := rq_msg <$> queue_of (ds_queue s) a.
Definition log (h : list Event) (s : DirState) : list Event := h ++ (Sent <$> ds_sent s).

Definition good (ex : option Z) (h : list Event) (s : DirState) : Prop :=
  hml_wf (ds_queue s) /\ inv ex (ds_cache s) (ds_dram s) (msgs s) (log h s).

(** The writer of [a], if there is one, has not been asked to give it back. *)
Definition unasked (l : list Event) (a : Z) : Prop := (perm l a).2 = None \/ ask l a = None.

(** The head of the queue of [a] has been served and is about to leave. *)
Definition served (h : list Event) (s : DirState) (a : Z) : Prop :=
  hml_wf (ds_queue s) /\ unasked (log h s) a /\
  inv None (ds_cache s) (ds_dram s) (qset (msgs s) a (tail (msgs s a))) (log h s) /\
  waiting N a (perm (log h s) a).1 (tail (msgs s a)).

(** A way of the set of [a] is free or holds an address without requests. *)
Definition room (c : DirectoryCache) (Q : Z -> list ShmemMsg) (a : Z) : Prop :=
  exists i q e, 0 <= i < dc_associativity c /\ slot_entry c (dir_set c a) i = Ok q /\
    dc_heap c !! q = Some e /\ (de_address e = INVALID_ADDRESS \/ Q (de_address e) = []).

Definition can_track (s : DirState) (a : Z) : Prop :=
  untracked (ds_cache s) a -> room (ds_cache s) (msgs s) a.

(** ** Steps that touch one part of the state *)

Lemma log_send h s pk : log h (ds_send pk s) = log h s ++ [Sent pk].
Proof. unfold log. simpl. by rewrite fmap_app, app_assoc. Qed.

Definition same_but_sent (s s' : DirState) : Prop :=
  ds_cache s' = ds_cache s /\ ds_queue s' = ds_queue s /\ ds_dram s' = ds_dram s.

Lemma same_but_sent_trans s1 s2 s3 : same_but_sent s1 s2 -> same_but_sent s2 s3 -> same_but_sent s1 s3.
Proof. intros (? & ? & ?) (? & ? & ?). split_and!; congruence. Qed.

Definition put (p : Z) (e : DirectoryEntry) (s : DirState) : DirState :=
  ds_set_cache (dc_store p e (ds_cache s), ds_perf s) s.

Lemma put_put p e e' s : put p e' (put p e s) = put p e' s.
Proof.
  unfold put, ds_set_cache, dc_store, dc_set_heap. simpl. by rewrite insert_insert_eq.
Qed.

Lemma get_entry_runs p e s (P : DirectoryEntry -> DirState -> Prop) :
  dc_heap (ds_cache s) !! p = Some e -> P e s -> runs (get_entry p) s P.
Proof. intros He HP. exists e, s. unfold get_entry, deref. by rewrite He. Qed.

Lemma heap_put p e s : dc_heap (ds_cache (put p e s)) !! p = Some e.
Proof. simpl. apply lookup_insert_eq. Qed.

Lemma put_entry_runs p e s (P : unit -> DirState -> Prop) :
  P tt (put p e s) -> runs (put_entry p e) s P.
Proof. intros HP. by apply runs_modify. Qed.

Lemma add_sharer_runs p e s t b sh (P : bool -> DirState -> Prop) :
  dc_heap (ds_cache s) !! p = Some e -> addSharer (de_sharers e) t = Ok (b, sh) ->
  P b (put p (de_setSharers sh e) s) -> runs (add_sharer p t) s P.
Proof.
  intros He E HP. unfold add_sharer. runs_step. apply (get_entry_runs p e); [done|].
  runs_step. eapply runs_lift; [exact E|]. runs_step. apply put_entry_runs. by runs_step.
Qed.

Lemma remove_sharer_runs p e s t sh (P : unit -> DirState -> Prop) :
  dc_heap (ds_cache s) !! p = Some e -> removeSharer (de_sharers e) t false = Ok sh ->
  P tt (put p (de_setSharers sh e) s) -> runs (remove_sharer p t) s P.
Proof.
  intros He E HP. unfold remove_sharer. runs_step. apply (get_entry_runs p e); [done|].
  runs_step. eapply runs_lift; [exact E|]. by apply put_entry_runs.
Qed.

Lemma set_dstate_runs p e s d (P : unit -> DirState -> Prop) :
  dc_heap (ds_cache s) !! p = Some e -> P tt (put p (de_setDState d e) s) ->
  runs (set_dstate p d) s P.
Proof.
  intros He HP. unfold set_dstate. runs_step. apply (get_entry_runs p e); [done|].
  by apply put_entry_runs.
Qed.

Lemma set_owner_runs p e s t e' (P : unit -> DirState -> Prop) :
  dc_heap (ds_cache s) !! p = Some e -> de_setOwner t e = Ok e' -> P tt (put p e' s) ->
  runs (set_owner p t) s P.
Proof.
  intros He E HP. unfold set_owner. runs_step. apply (get_entry_runs p e); [done|].
  runs_step. eapply runs_lift; [exact E|]. by apply put_entry_runs.
Qed.

(** Messages without payload. *)
Lemma send_plain_runs rcv m s (P : unit -> DirState -> Prop) :
  m_data_buf m = None -> m_data_length m = 0 ->
  (forall t, P tt (ds_send (mkPacket t (env_tile env) rcv (m, [])) s)) ->
  runs (sendMsg env rcv m) s P.
Proof.
  intros Hb Hl HP. unfold sendMsg. runs_step. runs_step.
  eapply runs_lift; [|apply runs_modify, HP].
  unfold makePacket. rewrite makeMsgBuf_ok by (split; rewrite Hl, ?Hb; done).
  by rewrite header_of_none, Hb, Hl.
Qed.

Definition is_dir_req (t : MsgType) : bool :=
  match t with INV_REQ | FLUSH_REQ | WB_REQ => true | _ => false end.

(** The requests the controller may send at this point of the history. *)
Definition may_ask (h : list Event) (s : DirState) (rcv : Receiver) (t : MsgType) (a : Z) : Prop :=
  let w := perm (log h s) a in
  match t with
  | INV_REQ => w.2 = None /\ match rcv with ToTile o => o ∈ w.1 | Broadcast => w.1 <> ∅ end
  | FLUSH_REQ | WB_REQ =>
      match rcv with
      | ToTile o => w.2 = Some o /\ ask (log h s) a = None /\
          exists m rest, msgs s a = m :: rest /\ ask_type m = t
      | Broadcast => False
      end
  | _ => False
  end.

Lemma send_req_runs ex h rcv t req a md s :
  may_ask h s rcv t a -> good ex h s ->
  runs (sendMsg env rcv (dir_msg t req a md)) s
    (fun _ s' => good ex h s' /\ same_but_sent s s' /\
       forall b, perm (log h s') b = perm (log h s) b).
Proof.
  intros Hmay [Hq Hi]. apply send_plain_runs; [done|done|]. intros tm. rewrite log_send.
  set (pk := mkPacket _ _ _ _). set (l := log h s) in *.
  assert (Hneu : neutral (Sent pk)) by (simpl; by destruct t).
  split; [split; [done|]|split; [done|]; intros b; rewrite perm_snoc; by apply neutral_perm].
  rewrite log_send. change (msgs (ds_send pk s)) with (msgs s). fold l.
  apply inv_neutral; [done| | | |exact Hi].
  - split; [split_and!; try done; simpl; by destruct t|]. simpl.
    unfold may_ask in Hmay. fold l in Hmay. destruct rcv as [o|], t; try done; naive_solver.
  - intros b. rewrite ask_snoc. simpl. case_decide as Hb; [|apply (iv_ask _ _ _ _ _ _ _ Hi)]. subst b.
    destruct t; try done; try apply (iv_ask _ _ _ _ _ _ _ Hi);
      (destruct rcv; [|done]); destruct Hmay as (_ & _ & m & rest & Hm & Hty); intros _; right;
      exists m, rest; by rewrite Hty.
  - intros b. rewrite waits_snoc. simpl. pose proof (iv_wait _ _ _ _ _ _ _ Hi b) as Hw.
    destruct rcv; [|done]. case_decide; [|done]. by destruct t.
Qed.

(** *** Looking an entry up *)

Lemma dcache_lookup_runs ex h s a (P : option Z -> DirState -> Prop) :
  good ex h s -> a <> INVALID_ADDRESS ->
  (forall r c pm, let s' := ds_set_cache (c, pm) s in
     good ex h s' ->
     match r with
     | Some p => exists e, tracks c a p e /\ dc_replaced c = dc_replaced (ds_cache s) /\
         ((tracks (ds_cache s) a p e /\ same_entries (ds_cache s) c) \/ (untracked (ds_cache s) a /\ de_dstate e = D_UNCACHED))
     | None => untracked (ds_cache s) a /\ same_entries (ds_cache s) c /\
         set_full (ds_cache s) (dir_set (ds_cache s) a)
     end -> P r s') ->
  runs (dcache (getDirectoryEntry (env_toPicosec env) a)) s P.
Proof.
  intros [Hq Hi] Ha HP. apply runs_part. eapply runs_mono; [by apply lookup_runs|].
  intros r [c pm] [Hi' Hr]. by apply HP.
Qed.

(** The entry of a tracked address. *)
Lemma lookup_tracked_runs ex h s a p e (P : option Z -> DirState -> Prop) :
  good ex h s -> tracks (ds_cache s) a p e ->
  (forall c pm, let s' := ds_set_cache (c, pm) s in
     good ex h s' -> tracks c a p e -> same_entries (ds_cache s) c -> P (Some p) s') ->
  runs (dcache (getDirectoryEntry (env_toPicosec env) a)) s P.
Proof.
  intros Hg Ht HP. pose proof Ht as (_ & _ & Ha). apply (dcache_lookup_runs ex h); [done|done|].
  intros r c pm s' Hg' Hr. destruct r as [q|].
  - destruct Hr as (x & Hx & Hrep & [[Hx' Hs]|[Hu _]]); [|by apply Hu in Ht].
    destruct (unique_track _ _ _ _ _ _ (iv_wf _ _ _ _ _ _ _ (proj2 Hg)) Ht Hx') as [-> ->].
    by apply HP.
  - destruct Hr as [Hu _]. by apply Hu in Ht.
Qed.

(** *** The queues *)

Lemma msgs_queue s a r rest : queue_of (ds_queue s) a = r :: rest -> msgs s a = rq_msg r :: (rq_msg <$> rest).
Proof. intros E. unfold msgs. by rewrite E. Qed.

Lemma inv_Q ex c d Q Q' l : (forall a, Q' a = Q a) -> inv ex c d Q l -> inv ex c d Q' l.
Proof. intros HQ. apply inv_same; [by split_and!|done]. Qed.

Lemma front_with_times_runs s a r rest (P : ShmemReq -> DirState -> Prop) :
  hml_wf (ds_queue s) -> queue_of (ds_queue s) a = r :: rest ->
  (forall r' q pm, rq_msg r' = rq_msg r -> hml_wf q ->
     (forall b, queue_of q b = if decide (b = a) then r' :: rest else queue_of (ds_queue s) b) ->
     P r' (ds_set_perf pm (ds_set_queue q s))) ->
  runs (front_with_times a) s P.
Proof.
  intros Hwf Hq HP. unfold front_with_times, front_req. do 2 runs_step. runs_step.
  eapply runs_lift; [by apply front_queue|]. rewrite Hq. simpl. runs_step. runs_step.
  set (r' := rq_updateTime (pm_curr_time (ds_perf s)) r).
  assert (Hl : ds_queue s !! a = Some (r :: rest)).
  { unfold queue_of in Hq. destruct (ds_queue s !! a); simpl in Hq; congruence. }
  assert (Hset : set_front a r' (ds_queue s) = <[a := r' :: rest]> (ds_queue s))
    by (unfold set_front; by rewrite Hl).
  runs_step. runs_step. runs_step. cbn beta. simpl. rewrite Hset. apply HP.
  - unfold r', rq_updateTime. by destruct (rq_time r <? _).
  - intros b l. rewrite lookup_insert. case_decide; [naive_solver|]. apply Hwf.
  - intros b. rewrite queue_of_insert. destruct (decide (a = b)) as [->|Hab].
    + by rewrite decide_True.
    + by rewrite decide_False by congruence.
Qed.

(** Removing a served request: nothing is left, or the next one follows. *)
Lemma dequeue_served h s a :
  served h s a -> msgs s a <> [] ->
  exists x q, dequeue (ds_queue s) a = Ok (x, q) /\ good None h (ds_set_queue q s) /\
    (forall b, b <> a -> queue_of q b = queue_of (ds_queue s) b) /\
    queue_of q a = tail (queue_of (ds_queue s) a).
Proof.
  intros (Hwf & _ & Hi & _) Hne. destruct (dequeue_queue (ds_queue s) a Hwf) as (q & E & Hwf' & Hq).
  exists (head (queue_of (ds_queue s) a)), q. split; [done|]. split; [split; [done|]|split].
  - eapply inv_Q; [|exact Hi]. intros b. unfold msgs. simpl. rewrite Hq. unfold qset.
    destruct (decide (a = b)) as [->|Hab].
    + rewrite decide_True by done. by destruct (queue_of (ds_queue s) b).
    + by rewrite decide_False by congruence.
  - intros b Hb. by rewrite Hq, decide_False by congruence.
  - by rewrite Hq, decide_True.
Qed.

Lemma count_pos s a : msgs s a <> [] -> (count (ds_queue s) a >=? 1) = true.
Proof.
  unfold msgs. rewrite count_queue. destruct (queue_of (ds_queue s) a); simpl; [done|].
  intros _. apply Z.geb_le. lia.
Qed.

Lemma next_last_runs h s a fuel :
  served h s a -> length (msgs s a) = 1%nat ->
  runs (processNextReqFromL2Cache env (S fuel) a) s (fun _ s' => good None h s' /\
    ds_cache s' = ds_cache s /\ msgs s' a = [] /\
    forall b, b <> a -> queue_of (ds_queue s') b = queue_of (ds_queue s) b).
Proof.
  intros Hs Hl. assert (Hne : msgs s a <> []) by (by intros E; rewrite E in Hl).
  destruct (dequeue_served h s a Hs Hne) as (x & q & E & Hg & Hb & Ha).
  cbn [processNextReqFromL2Cache]. runs_step. runs_step. apply runs_assert; [by apply count_pos|].
  runs_step. eapply runs_lift; [exact E|]. runs_step.
  assert (Hnil : queue_of q a = []).
  { rewrite Ha. unfold msgs in Hl. by destruct (queue_of (ds_queue s) a) as [|? []]. }
  rewrite (proj2 (empty_queue q a (proj1 Hg))) by done. runs_step.
  split_and!; [done|done| |done]. unfold msgs. simpl. by rewrite Hnil.
Qed.

(** *** Invalidations and evictions *)

Lemma inv_store ex c d Q l a p e e' :
  inv ex c d Q l -> tracks c a p e -> entry_ok N (perm l a) e' -> de_address e' = a ->
  inv ex (dc_store p e' c) d Q l.
Proof.
  intros Hi Ht He' Ha'. pose proof Hi as [].
  apply (inv_Q _ _ _ (qset Q a (Q a))).
  { intros b. unfold qset. by case_decide; subst. }
  apply (inv_update env N ex ex c d d Q l l a p e e' (Q a)); try done; try apply iv_dram.
  - apply iv_value.
  - apply iv_stored.
  - rewrite iv_null. split; [|intros Hin; by exists p, e].
    intros (q & x & Hx & Hin). by destruct (unique_track c a p e q x) as [-> _].
Qed.

Lemma store_others c a p e e' b q x :
  dc_wf c -> tracks c a p e -> de_address e' = a -> b <> a ->
  tracks (dc_store p e' c) b q x <-> tracks c b q x.
Proof.
  intros Hwf (He & Ha & Hne) Ha' Hb. rewrite (store_tracks c p e e') by congruence. split.
  - intros [(_ & _ & ? & _)|[_ ?]]; [congruence|done].
  - intros Hx. right. split; [|done]. intros ->. destruct Hx as (Hx & Hxa & _). congruence.
Qed.

Lemma invalidate_sharers_runs ex h s p e req a md :
  good ex h s -> tracks (ds_cache s) a p e -> de_dstate e = D_SHARED ->
  runs (invalidate_sharers env p req a md) s (fun _ s' => good ex h s' /\
    ds_queue s' = ds_queue s /\
    forall b q x, b <> a -> tracks (ds_cache s') b q x <-> tracks (ds_cache s) b q x).
Proof.
  intros Hg Ht Hd. pose proof Hg as [Hq Hi]. pose proof (iv_entry _ _ _ _ _ _ _ Hi _ _ _ Ht) as He.
  pose proof Ht as (Hp & Ha & _). destruct He as (Hr & HN & Hst).
  destruct (list_law (de_sharers e) _ Hr) as (all & l & sh & E & Hr' & Hm & Hlist).
  rewrite Hd in Hst. destruct Hst as (HS & Hw & Hown).
  unfold invalidate_sharers. runs_step. apply (get_entry_runs p e); [done|].
  runs_step. eapply runs_lift; [exact E|]. runs_step. apply put_entry_runs.
  set (s1 := put p (de_setSharers sh e) s).
  assert (Hg1 : good ex h s1).
  { split; [done|]. apply (inv_store _ _ _ _ _ a p e); [done|done| |done].
    split_and!; [done|by rewrite <- Hm in HN|]. simpl. by rewrite Hd. }
  assert (Hpost : forall s', good ex h s' -> same_but_sent s1 s' -> good ex h s' /\
    ds_queue s' = ds_queue s /\
    forall b q x, b <> a -> tracks (ds_cache s') b q x <-> tracks (ds_cache s) b q x).
  { intros s' Hg' (Hc & Hq' & _). split_and!; [done|done|]. intros b q x Hb. rewrite Hc.
    apply (store_others _ a p e); [apply (iv_wf _ _ _ _ _ _ _ Hi)|done|done|done]. }
  cbn beta iota. destruct all.
  - eapply runs_mono; [by apply (send_req_runs ex h)|]. intros _ s' (? & ? & _). by apply Hpost.
  - eapply runs_mono.
    + apply (runs_for_each _ _ (fun s' => good ex h s' /\ same_but_sent s1 s' /\
        perm (log h s') a = perm (log h s) a)); [by split_and!|].
      intros t s' Hin (Hg' & Hs' & Hp'). eapply runs_mono.
      * apply (send_req_runs ex h); [|done]. split; rewrite Hp'; [done|].
        destruct Hlist as (_ & Hsub & _). by apply Hsub, elem_of_list_to_set.
      * intros _ s'' (Hg'' & Hs'' & Hp''). split_and!; [done|by eapply same_but_sent_trans|].
        by rewrite Hp''.
    + intros _ s' (Hg' & Hs' & _). by apply Hpost.
Qed.

Lemma room_drop c k p Q a :
  dc_wf c -> dc_replaced c !! k = Some p -> room c Q a -> room (dc_drop c k p) Q a.
Proof.
  intros Hwf Hk (i & q & e & Hi & Hq & He & Hr). exists i, q, e. do 2 (split; [done|]). split; [|done].
  simpl. rewrite lookup_delete_ne; [done|]. intros ->.
  pose proof (dw_nodup _ Hwf) as (_ & Hd & _)%NoDup_app.
  apply (Hd q); [by eapply slot_entry_in|by eapply list_elem_of_lookup_2].
Qed.

Lemma room_same c c' Q Q' a :
  same_entries c c' -> (forall b, b <> INVALID_ADDRESS -> Q b = [] -> Q' b = []) ->
  room c Q a -> room c' Q' a.
Proof.
  intros (Hcfg & Hh & _ & Hl & _) HQ (i & q & e & Hi & Hq & He & Hr). exists i, q, e.
  assert (dc_associativity c' = dc_associativity c) as -> by (by injection Hcfg as _ _ _ _ -> _ _ _).
  split; [done|]. split; [|split; [by rewrite Hh|]].
  - unfold slot_entry. by rewrite Hl, (config_slot c c'), (config_set c c').
  - destruct (decide (de_address e = INVALID_ADDRESS)); [by left|]. naive_solver.
Qed.

(** A request of the directory itself: ask for the copies, or forget the
    entry and go on. *)
Lemma nullify_runs h s b p e r fuel (P : unit -> DirState -> Prop) :
  good None h s -> tracks (ds_cache s) b p e -> p ∈ dc_replaced (ds_cache s) ->
  m_address (rq_msg r) = b -> unasked (log h s) b ->
  (forall s', good None h s' -> ds_queue s' = ds_queue s ->
     (forall a q x, a <> b -> tracks (ds_cache s') a q x <-> tracks (ds_cache s) a q x) -> P tt s') ->
  (forall s', served h s' b -> untracked (ds_cache s') b -> ds_queue s' = ds_queue s ->
     (forall a q x, a <> b -> tracks (ds_cache s') a q x <-> tracks (ds_cache s) a q x) ->
     (room (ds_cache s) (msgs s) b -> room (ds_cache s') (msgs s) b) ->
     runs (processNextReqFromL2Cache env fuel b) s' P) ->
  runs (processNullifyReq env (S fuel) r) s P.
Proof.
  intros Hg Ht Hin Hb Hun Hwait Hdone. cbn [processNullifyReq]. rewrite Hb. runs_step.
  apply (lookup_tracked_runs None h s b p e); [done|done|].
  intros c pm s1 Hg1 Ht1 Hs1. cbn beta iota. runs_step.
  pose proof Ht1 as (Hp1 & _ & _). apply (get_entry_runs p e); [done|]. cbn beta.
  pose proof Hg1 as [Hq1 Hi1]. pose proof (iv_entry _ _ _ _ _ _ _ Hi1 _ _ _ Ht1) as (Hr & HN & Hst).
  assert (Htr1 : forall a q x, tracks c a q x <-> tracks (ds_cache s) a q x)
    by (intros a q x; by apply same_entries_tracks).
  assert (Hnul : nullifies (msgs s1 b)).
  { apply (iv_null _ _ _ _ _ _ _ Hi1). exists p, e. split; [done|].
    destruct Hs1 as (_ & _ & _ & _ & Hrep). simpl. by rewrite Hrep. }
  destruct (de_dstate e) eqn:Hd; try done.
  - destruct Hst as [Hperm _]. simpl in Hp1.
    assert (Hin1 : p ∈ dc_replaced c) by (destruct Hs1 as (_ & _ & _ & _ & ->); done).
    pose proof (iv_wf _ _ _ _ _ _ _ Hi1) as Hwf1.
    destruct (invalidateDirectoryEntry_spec (env_toPicosec env) c pm b p e Hwf1 Ht1 Hin1)
      as (k & Hk & E & _).
    runs_step. apply runs_part. exists tt, (dc_drop c k p, pm). split; [done|].
    pose proof (iv_reqs _ _ _ _ _ _ _ Hi1 b) as Hreq.
    destruct Hreq as [Hw|(m & q' & Eq & Hnm & Hw)]; [by apply waiting_not_null in Hw|].
    rewrite Hperm in Hw. simpl in Hw.
    destruct (inv_drop env N None c (ds_dram s1) (msgs s1) (log h s1) k p e b m q') as (Hi2 & Hu2 & Htr2);
      try done.
    apply Hdone; [|done|done| |].
    + split; [done|]. split; [left; change (log h _) with (log h s1); by rewrite Hperm|].
      change (msgs (ds_set_cache _ _)) with (msgs s1). rewrite Eq.
      split; [exact Hi2|]. change (log h _) with (log h s1). by rewrite Hperm.
    + intros a q x Ha. simpl. rewrite Htr2 by done. apply Htr1.
    + intros Hroom. simpl. apply room_drop; [done|done|]. by eapply room_same.
  - (* SHARED *)
    eapply runs_mono; [by apply (invalidate_sharers_runs None h s1 p e)|].
    intros [] s' (Hg' & Hq' & Htr'). apply Hwait; [done|done|]. intros a q x Ha.
    rewrite Htr' by done. apply Htr1.
  - eapply runs_mono; [apply (send_req_runs None h); [|done]|].
    + destruct Hst as [Hperm _]. unfold may_ask. change (log h s1) with (log h s) in *.
      split; [by rewrite Hperm|].
      split; [destruct Hun as [Hun|?]; [by rewrite Hperm in Hun|done]|].
      destruct Hnul as (m & q & Em & Hty). exists m, q. split; [done|]. unfold ask_type. by rewrite Hty.
    + intros [] s' (Hg' & (Hc & Hq' & _) & _). apply Hwait; [done|done|]. intros a q x Ha.
      rewrite Hc. apply Htr1.
Qed.

(** *** Allocation *)

Definition idle (s : DirState) (p : Z) : Prop :=
  exists e, dc_heap (ds_cache s) !! p = Some e /\ count (ds_queue s) (de_address e) = 0.
Definition sharer_count (s : DirState) (p n : Z) : Prop :=
  exists e, dc_heap (ds_cache s) !! p = Some e /\ getNumSharers (de_sharers e) = Ok n.

Lemma sharer_count_fun s p n m : sharer_count s p n -> sharer_count s p m -> n = m.
Proof. intros (e & He & Hn) (e' & He' & Hm). congruence. Qed.

Lemma better_runs s p n e best :
  sharer_count s p n -> dc_heap (ds_cache s) !! p = Some e ->
  (forall b, best = Some b -> exists m, sharer_count s b m) ->
  runs (match best with
        | None => mret true
        | Some b =>
            eb ← get_entry b;
            nb ← lift (getNumSharers (de_sharers eb));
            n ← lift (getNumSharers (de_sharers e));
            mret (nb >? n)
        end) s (fun better s' => s' = s /\
    (better = true <-> forall b m, best = Some b -> sharer_count s b m -> n < m)).
Proof.
  intros (e' & He' & Hn) He Hb. assert (e' = e) as -> by congruence. destruct best as [b|].
  - destruct (Hb b eq_refl) as (m & eb & Heb & Hm).
    runs_step. apply (get_entry_runs b eb); [done|]. runs_step. eapply runs_lift; [exact Hm|].
    runs_step. eapply runs_lift; [exact Hn|]. runs_step. split; [done|].
    rewrite Z.gtb_lt. split; [|intros Hall; apply (Hall b m); [done|by exists eb]].
    intros Hlt b' m' [= <-] Hm'. rewrite <- (sharer_count_fun s b m m'); [done|by exists eb|done].
  - apply runs_ret. split; [done|]. split; [by intros _ b m|done].
Qed.

(** The candidate is idle and has the fewest sharers of the idle ways. *)
Lemma pick_candidate_runs s l best :
  (forall p, p ∈ l -> exists n, sharer_count s p n) ->
  (forall b, best = Some b -> idle s b /\ exists n, sharer_count s b n) ->
  runs (pick_candidate l best) s (fun r s' => s' = s /\
    match r with
    | Some b => idle s b /\ (best = Some b \/ b ∈ l) /\
        forall p n m, (best = Some p \/ p ∈ l) -> idle s p ->
          sharer_count s p n -> sharer_count s b m -> m <= n
    | None => best = None /\ forall p, p ∈ l -> ~ idle s p
    end).
Proof.
  revert best. induction l as [|p l IH]; intros best Hl Hbest; cbn [pick_candidate].
  { apply runs_ret. split; [done|]. destruct best as [b|]; [|set_solver].
    split; [by apply Hbest|]. split; [by left|]. intros p n m [[= <-]|Hp]; [|set_solver].
    intros _ Hn Hm. by rewrite (sharer_count_fun _ _ _ _ Hn Hm). }
  destruct (Hl p) as [n Hn]; [set_solver|]. pose proof Hn as (e & He & _).
  runs_step. apply (get_entry_runs p e); [done|]. eapply runs_seq.
  { apply (better_runs s p n e best); [done|done|]. intros b Hb. by apply Hbest. }
  intros better s' [-> Hbetter]. runs_step. cbn beta.
  destruct (better && (count (ds_queue s) (de_address e) =? 0)) eqn:Ht.
  - apply andb_prop in Ht as [-> Hc]. apply Z.eqb_eq in Hc.
    assert (Hidle : idle s p) by (by exists e).
    eapply runs_mono; [apply IH|].
    + intros q Hq. apply Hl. by right.
    + intros b [= <-]. split; [done|by exists n].
    + intros [b|] s' [-> Hr]; (split; [done|]); [|by destruct Hr].
      destruct Hr as (Hib & Hin & Hmin). split; [done|]. split; [right; set_solver|].
      intros q k m [->|Hq] Hiq Hk Hm.
      * assert (Hlt : n < k) by (by apply (proj1 Hbetter eq_refl q)).
        specialize (Hmin p n m ltac:(by left) Hidle Hn Hm). lia.
      * apply elem_of_cons in Hq as [->|Hq].
        -- apply (Hmin p k m); [by left|done|done|done].
        -- apply (Hmin q k m); [by right|done|done|done].
  - eapply runs_mono; [apply IH|].
    + intros q Hq. apply Hl. by right.
    + done.
    + assert (Hskip : idle s p -> exists b m, best = Some b /\ sharer_count s b m /\ m <= n).
      { intros (e' & He' & Hc). assert (e' = e) as -> by congruence.
        rewrite Hc, andb_true_r in Ht. subst better. destruct best as [b|].
        - destruct (Hbest b eq_refl) as [_ [m Hm]]. exists b, m. split; [done|]. split; [done|].
          destruct (decide (n < m)); [|lia]. discriminate (proj2 Hbetter).
          intros b' m' [= <-] Hm'. by rewrite <- (sharer_count_fun _ _ _ _ Hm Hm').
        - discriminate (proj2 Hbetter). by intros b m. }
      intros [b|] s' [-> Hr]; (split; [done|]).
      * destruct Hr as (Hib & Hin & Hmin). split; [done|]. split; [set_solver|].
        intros q k m [Hq|Hq] Hiq Hk Hm; [by apply (Hmin q k m); [left| | |]|].
        apply elem_of_cons in Hq as [->|Hq]; [|by apply (Hmin q k m); [right| | |]].
        destruct (Hskip Hiq) as (b0 & m0 & -> & Hm0 & Hle).
        rewrite (sharer_count_fun _ _ _ _ Hk Hn).
        specialize (Hmin b0 m0 m ltac:(by left) (proj1 (Hbest b0 eq_refl)) Hm0 Hm). lia.
      * destruct Hr as [-> Hr]. split; [done|]. intros q Hq. apply elem_of_cons in Hq as [->|Hq].
        -- intros Hiq. by destruct (Hskip Hiq) as (b0 & m0 & ? & _).
        -- by apply Hr.
Qed.

Lemma slot_dir_set c a i p e :
  dc_wf c -> 0 <= i < dc_associativity c -> slot_entry c (dir_set c a) i = Ok p ->
  dc_heap c !! p = Some e -> de_address e <> INVALID_ADDRESS -> dir_set c (de_address e) = dir_set c a.
Proof.
  intros Hwf Hi [Hge Hp]%vec_get_ok He Hne.
  destruct (dir_set_ok c Hwf a) as [_ Hsr].
  destruct (slot_range c Hwf _ i Hsr Hi) as [Hsl _].
  destruct (dw_set _ Hwf _ p e Hp He) as [?| ->]; [done|].
  rewrite Hsl, Z2Nat.id, Z.div_add_l, (Z.div_small i) by lia. lia.
Qed.

Lemma tracked_count ex h s a p e :
  good ex h s -> tracks (ds_cache s) a p e -> exists n, sharer_count s p n.
Proof.
  intros [_ Hi] Ht. pose proof (iv_entry _ _ _ _ _ _ _ Hi _ _ _ Ht) as (Hr & _).
  exists (Z.of_nat (size (perm (log h s) a).1)), e. destruct Ht as (He & _). split; [done|].
  by apply num_law.
Qed.

Lemma good_same_cache ex h s c pm :
  good ex h s -> same_entries (ds_cache s) c -> good ex h (ds_set_cache (c, pm) s).
Proof. intros [Hq Hi] Hs. split; [done|]. by eapply inv_same. Qed.

(** Switching the performance models on or off changes no contents. *)
Lemma dir_setModels_good ex h s b : good ex h s -> runs (dir_setModels b) s (fun _ => good ex h).
Proof.
  intros [Hq Hi]. apply runs_modify. split; [done|].
  assert (Hi' : inv ex (dc_set_enabled b (ds_cache s)) (ds_dram s) (msgs s) (log h s)).
  { eapply inv_same; [|done|exact Hi]. by split_and!. }
  destruct Hi'. by split.
Qed.

(** The eviction: the victim moves to the side list with a request of its own. *)
Lemma evict_good h s c pm n p e a m t :
  good None h s -> dc_list (ds_cache s) !! n = Some p ->
  tracks (ds_cache s) (de_address e) p e -> untracked (ds_cache s) a -> a <> INVALID_ADDRESS ->
  same_entries (dc_replace (ds_cache s) n p a) c -> dc_wf c ->
  queue_of (ds_queue s) (de_address e) = [] -> null_req (de_address e) m ->
  let s' := ds_set_queue (enqueue (ds_queue s) (de_address e) (mkReq m t)) (ds_set_cache (c, pm) s) in
  good None h s' /\ tracks c a (dc_next (ds_cache s)) (de_setAddress a (fresh_entry (ds_cache s))) /\
  tracks c (de_address e) p e /\ p ∈ dc_replaced c /\
  (forall b, queue_of (ds_queue s') b =
     if decide (b = de_address e) then [mkReq m t] else queue_of (ds_queue s) b).
Proof.
  intros [Hq Hi] Hn Ht Hu Ha Hs Hwf Hqe Hm s'.
  destruct (inv_replace env N None (ds_cache s) c (ds_dram s) (msgs s) (log h s) n p e a m)
    as (Hi' & Ht' & Hte & Hin); try done.
  { unfold msgs. by rewrite Hqe. }
  assert (Hqs : forall b, queue_of (ds_queue s') b =
    if decide (b = de_address e) then [mkReq m t] else queue_of (ds_queue s) b).
  { intros b. simpl. rewrite enqueue_queue. destruct (decide (de_address e = b)) as [<-|Hb].
    - by rewrite decide_True, Hqe.
    - by rewrite decide_False by congruence. }
  split_and!; [split; [by apply enqueue_wf|]|done|done|done|done].
  eapply inv_Q; [|exact Hi']. intros b. unfold msgs at 1. rewrite Hqs. unfold qset.
  by case_decide.
Qed.

Lemma alloc_runs h s a r fuel :
  good None h s -> a <> INVALID_ADDRESS -> m_address (rq_msg r) = a ->
  untracked (ds_cache s) a -> set_full (ds_cache s) (dir_set (ds_cache s) a) ->
  room (ds_cache s) (msgs s) a ->
  runs (processDirectoryEntryAllocationReq env (S (S (S fuel))) r) s (fun p s' => good None h s' /\
    queue_of (ds_queue s') a = queue_of (ds_queue s) a /\
    exists e, tracks (ds_cache s') a p e /\ de_dstate e = D_UNCACHED).
Proof.
  intros Hg Ha Hra Hu Hfull (i0 & q0 & e0 & Hi0 & Hq0 & He0 & Hroom).
  cbn [processDirectoryEntryAllocationReq]. rewrite Hra. pose proof Hg as [Hq Hi].
  pose proof (iv_wf _ _ _ _ _ _ _ Hi) as Hwf. runs_step. runs_step.
  destruct (getReplacementCandidates_spec (env_toPicosec env) (ds_cache s) (ds_perf s) a Hwf Ha Hu Hfull)
    as (l & c1 & pm1 & E1 & Hs1 & Hwf1 & _ & Hl).
  apply runs_part. exists l, (c1, pm1). split; [done|]. cbn beta.
  set (s1 := ds_set_cache (c1, pm1) s). assert (Hg1 : good None h s1) by (by apply good_same_cache).
  pose proof Hs1 as (Hcfg1 & Hh1 & _ & Hl1 & _).
  assert (Hcand : forall p, p ∈ l -> exists i e, 0 <= i < dc_associativity c1 /\
    slot_entry c1 (dir_set c1 a) i = Ok p /\ tracks c1 (de_address e) p e).
  { intros p (i & Hi' & Hp)%Hl. destruct (Hfull i Hi') as (p' & e & Hp' & He & Hne).
    assert (p' = p) as -> by congruence. exists i, e.
    split; [by injection Hcfg1 as _ _ _ _ -> _ _ _|]. split; [|by rewrite <- Hh1 in He].
    unfold slot_entry. by rewrite Hl1, (config_slot _ _ _ _ Hcfg1), (config_set _ _ _ Hcfg1). }
  eapply runs_seq; [apply pick_candidate_runs; [|done]|].
  { intros p (i & e & _ & _ & Ht)%Hcand. by eapply (tracked_count None h s1). }
  intros best s' [-> Hbest].
  assert (Hidle : q0 ∈ l /\ idle s1 q0).
  { split; [apply Hl; by exists i0|]. exists e0. split; [by simpl; rewrite Hh1|].
    destruct (Hfull i0 Hi0) as (q' & e' & Hq' & He' & Hne').
    assert (q' = q0) as -> by congruence. assert (e' = e0) as -> by congruence.
    destruct Hroom as [?|Hr]; [done|]. rewrite count_queue. unfold msgs in Hr.
    apply fmap_nil_inv in Hr. simpl. by rewrite Hr. }
  destruct best as [b|]; [|destruct Hbest as [_ Hno]; by destruct (Hno q0); destruct Hidle].
  destruct Hbest as ((e & He & Hc) & [?|Hbl] & _); [done|].
  destruct (Hcand b Hbl) as (i & e' & Hi' & Hb & Ht). pose proof Ht as (He' & _ & Hne).
  assert (e' = e) as -> by (simpl in He; congruence). clear He'.
  runs_step. apply (get_entry_runs b e); [done|].
  assert (Hu1 : untracked c1 a) by (intros q x Hx; apply (Hu q x); by apply (same_entries_tracks _ _ _ _ _ Hs1)).
  destruct (replaceDirectoryEntry_spec (env_toPicosec env) c1 pm1 b e a Hwf1 Ht)
    as (n & c2 & pm2 & E2 & Hn & Hs2 & Hwf2 & _).
  { by eapply slot_entry_in. }
  { done. }
  { symmetry. by eapply slot_dir_set. }
  { exact Hu1. }
  { intros k Hk. destruct (Hfull k) as (q & x & Hqk & Hx & Hxn);
      [by injection Hcfg1 as _ _ _ _ <- _ _ _|].
    exists q, x. unfold slot_entry. rewrite Hl1, (config_slot _ _ _ _ Hcfg1), (config_set _ _ _ Hcfg1), Hh1.
    done. }
  runs_step. apply runs_part. eexists _, (c2, pm2). split; [exact E2|]. cbn beta.
  runs_step. eapply runs_lift; [done|]. runs_step. runs_step. runs_step.
  set (m := ShmemMsg_new NULLIFY_REQ _ _ _ _ _). set (t := pm_curr_time (ds_perf s)).
  assert (Hqb : queue_of (ds_queue s1) (de_address e) = []).
  { rewrite count_queue in Hc. by destruct (queue_of (ds_queue s1) (de_address e)). }
  destruct (evict_good h s1 c2 pm2 n b e a m t) as (Hg2 & Hta & Htb & Hin & Hqs); try done.
  set (s2 := ds_set_queue _ (ds_set_cache (c2, pm2) s1)) in *.
  change (ds_set_queue _ _) with s2.
  apply runs_assert. { rewrite count_queue, Hqs, decide_True by done. done. }
  assert (Hab : a <> de_address e) by (intros ->; by apply (Hu1 b e)).
  assert (Hqa : queue_of (ds_queue s2) a = queue_of (ds_queue s) a)
    by (by rewrite Hqs, decide_False).
  assert (Hun : unasked (log h s2) (de_address e)).
  { change (log h s2) with (log h s1). unfold unasked.
    destruct (perm (log h s1) (de_address e)).2 as [o|] eqn:Eo; [right|by left].
    destruct (iv_ask _ _ _ _ _ _ _ (proj2 Hg1) (de_address e)) as [?|(m' & q' & E & _)]; [by rewrite Eo|done|].
    unfold msgs in E. by rewrite Hqb in E. }
  runs_step. apply (nullify_runs h s2 (de_address e) b e); [done|done|done|done|done| |].
  - intros s' Hg' Hq' Htr. runs_step. split_and!; [done|by rewrite Hq'|]. eexists. split; [by apply Htr|done].
  - intros s' Hserved Hub Hq' Htr _. eapply runs_mono.
    + apply (next_last_runs h); [done|]. unfold msgs. by rewrite Hq', Hqs, decide_True.
    + intros [] s'' (Hg' & Hc' & _ & Hqo). runs_step. split_and!; [done|by rewrite Hqo, Hq'|].
      rewrite Hc'. eexists. split; [by apply Htr|done].
Qed.

(** *** Replies with data *)

Lemma dram_line_length d a : dram_wf d -> Z.of_nat (length (dram_line d a)) = dr_cache_line_size d.
Proof.
  intros [Hls Hd]. unfold dram_line. destruct (dr_data_map d !! a) eqn:E; simpl; [by eapply Hd|].
  rewrite length_replicate. lia.
Qed.

(** The line is sent to the receiver; DRAM keeps its contents. *)
Lemma retrieve_runs s reply t a buf md (P : unit -> DirState -> Prop) :
  dram_wf (ds_dram s) -> dr_cache_line_size (ds_dram s) = line_size -> reply = EX_REP \/ reply = SH_REP ->
  (forall data, buf = Some data -> Z.of_nat (length data) = line_size) ->
  (forall d pm pk, dram_wf d -> dr_cache_line_size d = line_size ->
     (forall b, dram_line d b = dram_line (ds_dram s) b) ->
     (forall b, is_Some (dr_data_map (ds_dram s) !! b) -> is_Some (dr_data_map d !! b)) ->
     (buf = None -> is_Some (dr_data_map d !! a)) ->
     pk_receiver pk = ToTile t -> m_type (pk_data pk).1 = reply -> m_address (pk_data pk).1 = a ->
     (pk_data pk).2 = default (dram_line (ds_dram s) a) buf ->
     dir_format line_size (env_tile env) pk ->
     P tt (ds_send pk (ds_set_dram d pm s))) ->
  runs (retrieveDataAndSendToL2Cache env reply t a buf md) s P.
Proof.
  intros Hd Hls Hrep Hbuf HP. unfold retrieveDataAndSendToL2Cache.
  assert (Hsend : forall d pm data, dram_wf d -> dr_cache_line_size d = line_size ->
    (forall b, dram_line d b = dram_line (ds_dram s) b) ->
    (forall b, is_Some (dr_data_map (ds_dram s) !! b) -> is_Some (dr_data_map d !! b)) ->
    (buf = None -> is_Some (dr_data_map d !! a)) ->
    data = default (dram_line (ds_dram s) a) buf ->
    runs (sendMsg env (ToTile t) (ShmemMsg_data reply MC_DRAM_DIRECTORY MC_L2_CACHE t a (Some data)
      line_size md)) (ds_set_dram d pm s) P).
  { intros d pm data Hd' Hls' Hdl Hmono Hst ->. pose proof (proj1 Hd) as H64.
    assert (Hlen : Z.of_nat (length (default (dram_line (ds_dram s) a) buf)) = line_size).
    { destruct buf as [data|]; simpl; [by apply Hbuf|]. by rewrite dram_line_length. }
    unfold sendMsg. runs_step. runs_step. eapply runs_lift.
    - unfold makePacket. rewrite makeMsgBuf_ok by (split; simpl; lia). simpl.
      by rewrite (proj2 (Z.eqb_neq line_size 0)) by lia.
    - apply runs_modify. apply HP; try done. split_and!; try done. simpl. by destruct Hrep as [-> | ->]. }
  destruct buf as [data|].
  - runs_step.
    replace s with (ds_set_dram (ds_dram s) (ds_perf s) s) at 1 by (by destruct s).
    by apply Hsend.
  - destruct (getDataFromDram_spec (env_run_dram env) (ds_dram s) (ds_perf s) a md Hd)
      as (d & pm & E & Hd' & Hls' & Hm & _).
    runs_step. exists (dram_line (ds_dram s) a), (ds_set_dram d pm s).
    split; [unfold dram_get; by rewrite E|]. cbn beta. apply Hsend; [done|congruence| | | |done].
    + intros b. unfold dram_line at 1. rewrite Hls', Hm, lookup_insert. by case_decide; subst.
    + intros b Hb. rewrite Hm, lookup_insert. case_decide; [by eexists|done].
    + intros _. rewrite Hm, lookup_insert_eq. by eexists.
Qed.

(** *** Serving requests *)

(** The contents a handler has in hand: they are current, and the DRAM copy
    of the line may be stale only while the line is being handed over. *)
Definition in_hand (h : list Event) (s : DirState) (a : Z) (buf : Buf) : Prop :=
  forall data, buf = Some data ->
    data = value line_size (log h s) a /\ Z.of_nat (length data) = line_size /\
    (perm (log h s) a).2 = None /\ (exists p e, tracks (ds_cache s) a p e) /\
    is_Some (dr_data_map (ds_dram s) !! a).

Definition stale (ex : option Z) (h : list Event) (s : DirState) (a : Z) (buf : Buf) : Prop :=
  ex = None \/ (ex = Some a /\ buf <> None /\ perm (log h s) a = (∅, None)).

(** The common start of both requests: the entry exists or is allocated. *)
Lemma locate_runs ex h s a r buf fuel (K : Z -> DM unit) (P : unit -> DirState -> Prop) :
  good ex h s -> a <> INVALID_ADDRESS -> m_address (rq_msg r) = a ->
  in_hand h s a buf -> stale ex h s a buf -> can_track s a ->
  (forall p e s', good ex h s' -> tracks (ds_cache s') a p e ->
     queue_of (ds_queue s') a = queue_of (ds_queue s) a ->
     in_hand h s' a buf -> stale ex h s' a buf -> (unasked (log h s) a -> unasked (log h s') a) ->
     (buf <> None -> log h s' = log h s) -> runs (K p) s' P) ->
  runs (entry ← dcache (getDirectoryEntry (env_toPicosec env) a);
        p ← match entry with
            | Some p => mret p
            | None => processDirectoryEntryAllocationReq env (S (S (S fuel))) r
            end;
        K p) s P.
Proof.
  intros Hg Ha Hr Hhand Hst Hroom HK. runs_step.
  apply (dcache_lookup_runs ex h); [done|done|]. intros [p|] c pm s1 Hg1 Hr1; cbn beta iota.
  - destruct Hr1 as (e & Ht & _ & Hor). runs_step.
    eapply HK; [done|exact Ht|done| |exact Hst|done|done].
    intros data Hd. destruct (Hhand data Hd) as (? & ? & ? & ? & ?). split_and!; try done. by exists p, e.
  - destruct Hr1 as (Hu & Hs & Hfull).
    assert (buf = None) as ->.
    { destruct buf as [data|]; [|done]. destruct (Hhand data eq_refl) as (_ & _ & _ & (p & e & Ht) & _).
      by apply Hu in Ht. }
    assert (ex = None) as -> by (by destruct Hst as [?|(_ & ? & _)]).
    pose proof Hs as (Hcfg & Hh & _ & Hl & _).
    eapply runs_seq; [apply (alloc_runs h s1 a r fuel)|].
    + done.
    + done.
    + done.
    + intros q x Hx. apply (Hu q x). by apply (same_entries_tracks _ _ _ _ _ Hs).
    + intros i Hi. destruct (Hfull i) as (q & x & Hq & Hx & Hne);
        [by injection Hcfg as _ _ _ _ <- _ _ _|].
      exists q, x. unfold slot_entry. simpl.
      by rewrite Hl, (config_slot _ _ _ _ Hcfg), (config_set _ _ _ Hcfg), Hh.
    + by apply (room_same (ds_cache s) c (msgs s) (msgs s) a Hs); [|apply Hroom].
    + intros p s' (Hg' & Hq' & e & Ht & Hd). cbn beta.
      eapply HK; [done|exact Ht|by rewrite Hq'|done|by left| |done]. intros _. left.
      pose proof (iv_entry _ _ _ _ _ _ _ (proj2 Hg') _ _ _ Ht) as (_ & _ & Hst'). rewrite Hd in Hst'.
      by destruct Hst' as [-> _].
Qed.

Definition tail_waits (s : DirState) (a : Z) (m : ShmemMsg) : Prop :=
  exists rest, msgs s a = m :: rest.

(** A grant: the entry and the history gain the same permission. *)
Lemma grant_served ex h s p e e' a t reply d pm pk buf m :
  good ex h s -> tracks (ds_cache s) a p e -> de_address e' = a ->
  tail_waits s a m -> normal_req N a m -> m_requester m = t ->
  in_hand h s a buf -> stale ex h s a buf ->
  (reply = EX_REP /\ perm (log h s) a = (∅, None) /\ m_type m = EX_REQ \/
   reply = SH_REP /\ (perm (log h s) a).2 = None /\ ex = None /\ m_type m = SH_REQ) ->
  entry_ok N (reply_perm a t (pk_data pk).1 (perm (log h s) a)) e' ->
  dram_wf d -> dr_cache_line_size d = line_size ->
  (forall b, dram_line d b = dram_line (ds_dram s) b) ->
  (forall b, is_Some (dr_data_map (ds_dram s) !! b) -> is_Some (dr_data_map d !! b)) ->
  (buf = None -> is_Some (dr_data_map d !! a)) ->
  pk_receiver pk = ToTile t -> m_type (pk_data pk).1 = reply -> m_address (pk_data pk).1 = a ->
  (pk_data pk).2 = default (dram_line (ds_dram s) a) buf -> dir_format line_size (env_tile env) pk ->
  served h (ds_send pk (ds_set_dram d pm (put p e' s))) a.
Proof.
  intros [Hq Hi] Ht Ha' (rest & Hm) Hnorm Hreq Hhand Hst Hcase He' Hd Hls Hdl Hmono Hsto Hrcv Hty Had Hpay Hfmt.
  split; [done|]. rewrite log_send. set (l := log h s).
  change (log h (ds_set_dram d pm (put p e' s))) with l.
  assert (Hpa : perm (l ++ [Sent pk]) a = reply_perm a t (pk_data pk).1 (perm l a))
    by (rewrite perm_snoc; simpl; by rewrite Hrcv).
  assert (Hpay' : (pk_data pk).2 = value line_size l a).
  { rewrite Hpay. destruct buf as [data|]; simpl; [by apply (Hhand data)|].
    destruct Hst as [->|(_ & ? & _)]; [|done].
    apply (iv_value _ _ _ _ _ _ _ Hi); [done|]. by destruct Hcase as [(_ & -> & _)|(_ & ? & _)]. }
  assert (Hw : waiting N a (perm l a).1 (m :: rest)).
  { destruct (iv_reqs _ _ _ _ _ _ _ Hi a) as [Hw|(m' & q' & E & (_ & _ & Hn) & _)]; [by rewrite Hm in Hw|].
    rewrite Hm in E. injection E as -> _. destruct Hnorm as (_ & _ & _ & _ & []); congruence. }
  pose proof (iv_wait _ _ _ _ _ _ _ Hi a) as Hwait. rewrite Hm in Hwait. fold l in Hwait.
  destruct Hw as (HF & Hnd & Hni). inversion HF as [|? ? _ HF']; subst x l0. inversion Hnd as [|? ? Hnm Hnd']; subst x l0.
  assert (Hset : (perm (l ++ [Sent pk]) a).1 = {[t]} ∪ (perm l a).1).
  { rewrite Hpa. unfold reply_perm. rewrite decide_True, Hty by done.
    by destruct Hcase as [(-> & _)|(-> & _)]. }
  assert (Hun : unasked (l ++ [Sent pk]) a).
  { unfold unasked. rewrite Hpa, ask_snoc. unfold reply_perm. simpl. rewrite !decide_True, Hty by done.
    destruct Hcase as [(-> & _)|(-> & ? & _)]; [by right|by left]. }
  change (msgs (ds_send pk (ds_set_dram d pm (put p e' s)))) with (msgs s). rewrite Hm.
  assert (Hw' : waiting N a (perm (l ++ [Sent pk]) a).1 rest).
  { split; [done|]. split; [done|]. intros x Hx. rewrite Hset, elem_of_union, elem_of_singleton.
    intros [Hxt|Hxin]; [|by apply (Hni x); [right|]].
    apply Hnm. rewrite Hreq, <- Hxt. by apply list_elem_of_fmap_2. }
  split; [exact Hun|]. split; [|exact Hw'].
  eapply (inv_update env N ex None); [exact Hi|exact Ht|done| | |done|done|by rewrite Hpa| | | | | | |].
  - intros b Hb. rewrite perm_snoc, ask_snoc, waits_snoc. simpl. rewrite Hrcv. unfold reply_perm.
    by rewrite !decide_False by congruence.
  - intros b Hb. rewrite value_snoc. simpl. split_and!; [done|done| |by apply Hmono].
    intros ->. by destruct Hst as [?|([= ->] & _)].
  - intros _ Hnone. rewrite value_snoc, Hdl. simpl.
    rewrite Hpa in Hnone. unfold reply_perm in Hnone. rewrite decide_True, Hty in Hnone by done.
    destruct Hcase as [(-> & _)|(-> & Hw & -> & _)]; [done|]. by apply (iv_value _ _ _ _ _ _ _ Hi).
  - intros _. destruct buf as [data|]; [|by apply Hsto]. apply Hmono. by apply (Hhand data).
  - by left.
  - split.
    + intros Hnul. exfalso. by apply (waiting_not_null _ _ _ _ Hw').
    + intros Hin. assert (Hnul : nullifies (msgs s a)) by (apply (iv_null _ _ _ _ _ _ _ Hi); by exists p, e).
      rewrite Hm in Hnul. destruct Hnul as (x & q & [= <- <-] & Hx). destruct Hnorm as (_ & _ & _ & _ & []); congruence.
  - intros Hsome. left. by destruct Hun as [?|?].
  - intros t' ty. rewrite waits_snoc. simpl. rewrite Hrcv, decide_True, Hty by done.
    assert (Hdel : match reply with EX_REP | SH_REP => delete t (waits l a) | _ => waits l a end = delete t (waits l a))
      by (by destruct Hcase as [(-> & _)|(-> & _)]).
    rewrite Hdel, lookup_delete_Some, (Hwait t' ty). split.
    + intros (Htt & x & Hx & Hxt & Hrest). exists x. split; [|done]. apply elem_of_cons in Hx as [->|Hx]; [congruence|done].
    + intros (x & Hx & Hxt & Hrest). split; [|exists x; split; [by right|done]].
      intros <-. apply Hnm. rewrite Hreq, <- Hxt. by apply list_elem_of_fmap_2.
  - apply history_ok_snoc; [apply (iv_hist _ _ _ _ _ _ _ Hi)|]. split; [done|]. rewrite Hrcv, Hty, Had.
    destruct Hcase as [(-> & Hw & Htm)|(-> & Hw & _ & Htm)]; split_and!; try done.
    + apply Hwait. exists m. split; [by left|done].
    + rewrite <- Hreq. apply Hni. by left.
    + apply Hwait. exists m. split; [by left|done].
Qed.

Lemma head_requester ex h s a p e m :
  good ex h s -> tracks (ds_cache s) a p e -> tail_waits s a m -> normal_req N a m ->
  0 <= m_requester m < max_tile (de_sharers e) /\ m_requester m ∉ (perm (log h s) a).1.
Proof.
  intros [_ Hi] Ht (rest & Hm) Hn. pose proof (iv_entry _ _ _ _ _ _ _ Hi _ _ _ Ht) as (_ & HN & _).
  destruct (iv_reqs _ _ _ _ _ _ _ Hi a) as [(_ & _ & Hni)|(m' & q' & E & (_ & _ & Hty) & _)].
  - split; [destruct Hn as (_ & _ & _ & ? & _); lia|]. apply Hni. rewrite Hm. by left.
  - rewrite Hm in E. injection E as -> _. destruct Hn as (_ & _ & _ & _ & []); congruence.
Qed.

Section serve.
Context (h : list Event) (a : Z) (r : ShmemReq) (n f : nat).
Context (Hnorm : normal_req N a (rq_msg r)).
Context (Hnext : forall s', served h s' a -> length (msgs s' a) = n ->
  (exists p e, tracks (ds_cache s') a p e) ->
  runs (processNextReqFromL2Cache env (S (S (S f))) a) s' (fun _ => good None h)).

(** After a grant the next request is looked at. *)
Lemma finish_runs ex s p e e' reply buf md :
  good ex h s -> tracks (ds_cache s) a p e -> de_address e' = a ->
  tail_waits s a (rq_msg r) -> length (msgs s a) = n -> in_hand h s a buf -> stale ex h s a buf ->
  (reply = EX_REP /\ perm (log h s) a = (∅, None) /\ m_type (rq_msg r) = EX_REQ \/
   reply = SH_REP /\ (perm (log h s) a).2 = None /\ ex = None /\ m_type (rq_msg r) = SH_REQ) ->
  entry_ok N ({[m_requester (rq_msg r)]} ∪ (perm (log h s) a).1,
    if decide (reply = EX_REP) then Some (m_requester (rq_msg r)) else (perm (log h s) a).2) e' ->
  runs (_ ← retrieveDataAndSendToL2Cache env reply (m_requester (rq_msg r)) a buf md;
        processNextReqFromL2Cache env (S (S (S f))) a) (put p e' s) (fun _ => good None h).
Proof using Hnorm Hnext.
  intros Hg Ht Ha' Hw Hlen Hhand Hst Hcase He'. pose proof (proj2 Hg) as Hi.
  destruct (iv_dram _ _ _ _ _ _ _ Hi) as [Hd Hls].
  runs_step. apply retrieve_runs; [done|done| |intros data Hb; by apply (Hhand data)|].
  { destruct Hcase as [(-> & _)|(-> & _)]; auto. }
  intros d pm pk Hd' Hls' Hdl Hmono Hsto Hrcv Hty Had Hpay Hfmt.
  apply Hnext; [|done|].
  - eapply (grant_served ex h s p e e' a); try done.
    unfold reply_perm. rewrite decide_True, Hty by done.
    destruct Hcase as [(-> & _)|(-> & _)]; exact He'.
  - exists p, e'. simpl. apply (store_tracks _ _ e); destruct Ht as (He & Hae & Hne); [done|congruence|].
    left. split_and!; congruence.
Qed.

Lemma set_owner_ok t e : 0 <= t -> hasSharer (de_sharers e) t = Ok true ->
  de_setOwner t e = Ok (mkDirEntry (de_address e) (de_dstate e) t (de_sharers e)).
Proof.
  intros Ht Hh. unfold de_setOwner. rewrite decide_False by (unfold INVALID_TILE_ID; lia).
  by rewrite Hh.
Qed.

(** The writer may be asked on behalf of the head of the queue. *)
Lemma ask_writer s m o t :
  tail_waits s a m -> ask_type m = t -> unasked (log h s) a -> (perm (log h s) a).2 = Some o ->
  may_ask h s (ToTile o) t a.
Proof.
  intros [rest Hm] Ht [Hun|Hun] Ho; [congruence|]. unfold may_ask.
  assert (Hres : (perm (log h s) a).2 = Some o /\ ask (log h s) a = None /\
    exists m rest, msgs s a = m :: rest /\ ask_type m = t) by (split_and!; [done|done|by exists m, rest]).
  unfold ask_type in Ht. case_decide; subst t; exact Hres.
Qed.

Lemma stale_none ex s buf : stale ex h s a buf -> buf = None -> ex = None.
Proof. intros [?|(_ & ? & _)] ->; done. Qed.

Lemma ex_runs ex s buf :
  good ex h s -> tail_waits s a (rq_msg r) -> length (msgs s a) = n ->
  in_hand h s a buf -> stale ex h s a buf -> can_track s a ->
  (buf <> None -> perm (log h s) a = (∅, None)) -> unasked (log h s) a -> m_type (rq_msg r) = EX_REQ ->
  runs (processExReqFromL2Cache env (S (S (S (S f)))) r buf) s (fun _ => good None h).
Proof using Hnorm Hnext.
  intros Hg Hw Hlen Hhand Hst Htrack Hbuf Hun Htyp. pose proof Hnorm as (Ha & Hne & _ & Hreq & _).
  cbn [processExReqFromL2Cache]. rewrite Ha.
  apply (locate_runs ex h s a r buf f); try done.
  intros p e s1 Hg1 Ht Hq1 Hhand1 Hst1 Hun1 Hlog. pose proof Ht as (Hp & Hea & _). specialize (Hun1 Hun).
  assert (Hm1 : msgs s1 a = msgs s a) by (unfold msgs; by rewrite Hq1).
  assert (Hw1 : tail_waits s1 a (rq_msg r)) by (unfold tail_waits; by rewrite Hm1).
  pose proof (iv_entry _ _ _ _ _ _ _ (proj2 Hg1) _ _ _ Ht) as (Hr & HN & Hd).
  destruct (head_requester ex h s1 a p e (rq_msg r) Hg1 Ht Hw1 Hnorm) as [Hrt Hni].
  runs_step. apply (get_entry_runs p e); [done|]. cbn beta.
  assert (Hnobuf : perm (log h s1) a <> (∅, None) -> buf = None).
  { intros Hp1. destruct buf; [|done]. destruct Hp1. rewrite Hlog by done. by apply Hbuf. }
  destruct (de_dstate e) eqn:Ed; try done.
  - destruct Hd as [Hperm Hown]. rewrite Hperm in Hr.
    destruct (sh_add_first (de_sharers e) _ Hr Hrt) as (sh & Eadd & Hmax & Hrep & Hhas).
    runs_step. eapply add_sharer_runs; [done|exact Eadd|]. runs_step. apply runs_assert; [done|].
    runs_step. eapply set_owner_runs; [apply heap_put|apply set_owner_ok; [lia|exact Hhas]|].
    runs_step. eapply set_dstate_runs; [apply heap_put|]. rewrite !put_put.
    apply (finish_runs ex s1 p e); try done; [by rewrite Hm1|by left|].
    rewrite Hperm. simpl. rewrite (right_id_L ∅ (∪)).
    split; [done|]. split; [by rewrite <- Hmax in HN|done].
  - destruct Hd as (Hs & _ & _). rewrite (Hnobuf ltac:(intros E; by rewrite E in Hs)) in *.
    rewrite (stale_none ex s1 None Hst1 eq_refl) in *.
    runs_step. apply runs_assert; [done|].
    eapply runs_mono; [by apply (invalidate_sharers_runs None h s1 p e)|]. by intros _ s' [? _].
  - destruct Hd as [Hperm _]. rewrite (Hnobuf ltac:(by rewrite Hperm)) in *.
    rewrite (stale_none ex s1 None Hst1 eq_refl) in *.
    runs_step. apply runs_assert; [done|].
    eapply runs_mono; [apply (send_req_runs None h); [|done]|by intros _ s' [? _]].
    apply (ask_writer s1 (rq_msg r) (de_owner_id e)); [done| |done|by rewrite Hperm].
    unfold ask_type. by rewrite Htyp.
Qed.

Lemma sh_runs s buf (Hrand : forall n, 0 < n -> 0 <= env_rand env n < n) :
  good None h s -> tail_waits s a (rq_msg r) -> length (msgs s a) = n ->
  in_hand h s a buf -> can_track s a -> unasked (log h s) a -> m_type (rq_msg r) = SH_REQ ->
  runs (processShReqFromL2Cache env (S (S (S (S f)))) r buf) s (fun _ => good None h).
Proof using Hnorm Hnext.
  intros Hg Hw Hlen Hhand Htrack Hun Htyp. pose proof Hnorm as (Ha & Hne & _ & Hreq & _).
  cbn [processShReqFromL2Cache]. rewrite Ha.
  apply (locate_runs None h s a r buf f); try done; [by left|].
  intros p e s1 Hg1 Ht Hq1 Hhand1 Hst1 Hun1 _. pose proof Ht as (Hp & Hea & _). specialize (Hun1 Hun).
  assert (Hm1 : msgs s1 a = msgs s a) by (unfold msgs; by rewrite Hq1).
  assert (Hw1 : tail_waits s1 a (rq_msg r)) by (unfold tail_waits; by rewrite Hm1).
  pose proof (iv_entry _ _ _ _ _ _ _ (proj2 Hg1) _ _ _ Ht) as (Hr & HN & Hd).
  destruct (head_requester None h s1 a p e (rq_msg r) Hg1 Ht Hw1 Hnorm) as [Hrt Hni].
  runs_step. apply (get_entry_runs p e); [done|]. cbn beta.
  destruct (de_dstate e) eqn:Ed; try done.
  - destruct Hd as [Hperm Hown]. rewrite Hperm in Hr.
    destruct (sh_add_first (de_sharers e) _ Hr Hrt) as (sh & Eadd & Hmax & Hrep & Hhas).
    runs_step. eapply add_sharer_runs; [done|exact Eadd|]. runs_step. apply runs_assert; [done|].
    runs_step. eapply set_dstate_runs; [apply heap_put|]. rewrite !put_put.
    apply (finish_runs None s1 p e); try done; [by rewrite Hm1|right; by rewrite Hperm|].
    rewrite Hperm, decide_False by done. simpl. rewrite (right_id_L ∅ (∪)).
    split; [done|]. split; [by rewrite <- Hmax in HN|]. split_and!; [set_solver|done|done].
  - destruct Hd as (HS & Hw2 & Hown).
    destruct (add_law (de_sharers e) _ _ Hr Hrt Hni) as (b & sh & Eadd & Hmax & Hb).
    runs_step. eapply add_sharer_runs; [done|exact Eadd|]. cbn beta. destruct b; cbn iota.
    + apply (finish_runs None s1 p e); try done; [by rewrite Hm1|by right|].
      rewrite decide_False by done. split_and!; simpl; [done|by rewrite <- Hmax in HN|].
      rewrite Ed. split_and!; simpl; [set_solver|done|done].
    + destruct (sh_refused_victim (env_rand env) _ _ _ _ Hrand Hr Hrt Hni Eadd) as (-> & v & Ev & Hv).
      runs_step. eapply get_entry_runs; [apply heap_put|].
      runs_step. eapply runs_lift; [exact Ev|]. runs_step. apply put_entry_runs. rewrite put_put.
      eapply runs_mono; [apply (send_req_runs None h); [|]|by intros _ s' [? _]]; [by split|].
      split; [apply Hg1|]. eapply inv_store; [apply Hg1|exact Ht| |done].
      split_and!; simpl; [done|done|]. by rewrite Ed.
  - destruct Hd as [Hperm _].
    assert (buf = None) as ->.
    { destruct buf as [data|]; [|done]. destruct (Hhand1 data eq_refl) as (_ & _ & Hn & _).
      by rewrite Hperm in Hn. }
    runs_step. apply runs_assert; [done|].
    eapply runs_mono; [apply (send_req_runs None h); [|done]|by intros _ s' [? _]].
    apply (ask_writer s1 (rq_msg r) (de_owner_id e)); [done| |done|by rewrite Hperm].
    unfold ask_type. by rewrite Htyp.
Qed.
End serve.

(** A queue of [n] requests needs fuel for two calls per request. *)
Lemma next_runs (Hrand : forall n, 0 < n -> 0 <= env_rand env n < n) n fuel h s a :
  (2 * n + 1 <= fuel)%nat -> (0 < n)%nat -> served h s a -> length (msgs s a) = n ->
  ((1 < n)%nat -> can_track s a) ->
  runs (processNextReqFromL2Cache env fuel a) s (fun _ => good None h).
Proof.
  revert fuel h s. induction n as [|n IH]; intros fuel h s Hf Hn Hs Hl Htrack; [lia|].
  destruct fuel as [|fuel]; [lia|]. destruct n as [|n].
  { eapply runs_mono; [by apply next_last_runs|]. by intros _ s' [? _]. }
  do 4 (destruct fuel as [|fuel]; [lia|]).
  assert (Hne : msgs s a <> []) by (by intros E; rewrite E in Hl).
  destruct (dequeue_served h s a Hs Hne) as (x & q & E & Hg & Hb & Ha). pose proof Hs as (_ & Hun & _ & Hw).
  cbn [processNextReqFromL2Cache]. runs_step. runs_step. apply runs_assert; [by apply count_pos|].
  runs_step. eapply runs_lift; [exact E|]. runs_step.
  destruct (queue_of q a) as [|r rest] eqn:Hqa.
  { exfalso. unfold msgs in Hl. rewrite length_fmap in Hl.
    by destruct (queue_of (ds_queue s) a) as [|? []]. }
  destruct (hml_empty q a) eqn:Ee; [apply (empty_queue q a (proj1 Hg)) in Ee; congruence|].
  runs_step. apply (front_with_times_runs _ a r rest); [apply Hg|done|].
  intros r' q' pm Hr' Hwf' Hq'. cbn beta.
  set (s1 := ds_set_perf pm _).
  assert (Hm1 : forall b, msgs s1 b = msgs (ds_set_queue q s) b).
  { intros b. unfold msgs. simpl. rewrite Hq'. case_decide as Hba; [|done]. subst b.
    rewrite Hqa. simpl. by rewrite Hr'. }
  assert (Hg1 : good None h s1) by (split; [done|]; eapply inv_Q; [exact Hm1|apply Hg]).
  assert (Hma : msgs s1 a = tail (msgs s a)).
  { rewrite Hm1. unfold msgs. simpl. rewrite Hqa, Ha. by destruct (queue_of (ds_queue s) a). }
  assert (Hw1 : tail_waits s1 a (rq_msg r')).
  { exists (rq_msg <$> rest). unfold msgs. simpl. by rewrite Hq', decide_True. }
  assert (Hnorm : normal_req N a (rq_msg r')).
  { destruct Hw1 as [w Hw1]. rewrite Hma in Hw1. destruct Hw as [HF _]. rewrite Hw1 in HF. by inversion HF. }
  assert (Hlen1 : length (msgs s1 a) = S n) by (rewrite Hma; by destruct (msgs s a); simpl in *; lia).
  assert (Htrack1 : can_track s1 a).
  { intros Hu. eapply (room_same (ds_cache s)); [by split_and!| |apply Htrack; [lia|exact Hu]].
    intros b _ Hnil. destruct (decide (b = a)) as [->|Hba]; [done|].
    rewrite Hm1. unfold msgs in *. simpl. by rewrite Hb. }
  assert (Hnext : forall s', served h s' a -> length (msgs s' a) = S n ->
    (exists p e, tracks (ds_cache s') a p e) ->
    runs (processNextReqFromL2Cache env (S (S (S fuel))) a) s' (fun _ => good None h)).
  { intros s' Hs' Hl' (p & e & Ht). apply IH; [lia|lia|done|done|]. intros _ Hu. by apply Hu in Ht. }
  pose proof Hnorm as (_ & _ & _ & _ & [Ety|Ety]); rewrite Ety.
  - by apply (ex_runs h a r' (S n) fuel Hnorm Hnext None); [| | | |left| | | |].
  - by apply (sh_runs h a r' (S n) fuel Hnorm Hnext).
Qed.

Section requests.
Context (Hrand : forall n, 0 < n -> 0 <= env_rand env n < n).

Lemma next_after n fuel h a :
  (2 * n + 2 <= fuel)%nat -> (0 < n)%nat ->
  exists f, fuel = S (S (S (S f))) /\
  forall s', served h s' a -> length (msgs s' a) = n -> (exists p e, tracks (ds_cache s') a p e) ->
    runs (processNextReqFromL2Cache env (S (S (S f))) a) s' (fun _ => good None h).
Proof using Hrand.
  intros Hf Hn. do 4 (destruct fuel as [|fuel]; [lia|]). exists fuel. split; [done|].
  intros s' Hs Hl (p & e & Ht). eapply next_runs; [done| |exact Hn|done|done|]; [lia|].
  intros _ Hu. by apply Hu in Ht.
Qed.

(** Both kinds of request at the head of a queue. *)
Lemma request_runs n fuel ex h s a r buf :
  (2 * n + 2 <= fuel)%nat -> good ex h s -> tail_waits s a (rq_msg r) -> length (msgs s a) = n ->
  normal_req N a (rq_msg r) -> in_hand h s a buf -> stale ex h s a buf -> can_track s a ->
  unasked (log h s) a ->
  (m_type (rq_msg r) = EX_REQ -> (buf <> None -> perm (log h s) a = (∅, None)) ->
     runs (processExReqFromL2Cache env fuel r buf) s (fun _ => good None h)) /\
  (m_type (rq_msg r) = SH_REQ -> ex = None ->
     runs (processShReqFromL2Cache env fuel r buf) s (fun _ => good None h)).
Proof using Hrand.
  intros Hf Hg Hw Hl Hnorm Hhand Hst Htrack Hun.
  assert (0 < n)%nat by (destruct Hw as [w Hw]; rewrite Hw in Hl; simpl in Hl; lia).
  destruct (next_after n fuel h a Hf ltac:(done)) as (f & -> & Hnext). split.
  - intros Hty Hbuf. by apply (ex_runs h a r n f Hnorm Hnext ex).
  - intros Hty ->. by apply (sh_runs h a r n f Hnorm Hnext).
Qed.

(** *** Replies of the L2 caches *)

Definition same_view (h : list Event) (s s' : DirState) : Prop :=
  ds_cache s' = ds_cache s /\ log h s' = log h s /\ forall b, msgs s' b = msgs s b.

Lemma front_good_runs ex h s a m rest (P : ShmemReq -> DirState -> Prop) :
  good ex h s -> msgs s a = m :: rest ->
  (forall r s', rq_msg r = m -> good ex h s' -> same_view h s s' -> ds_dram s' = ds_dram s -> P r s') ->
  runs (front_with_times a) s P.
Proof.
  intros [Hq Hi] Hm HP. unfold msgs in Hm.
  destruct (queue_of (ds_queue s) a) as [|r rest'] eqn:E; [done|]. injection Hm as Hr Hrest.
  apply (front_with_times_runs _ a r rest'); [done|done|]. intros r' q pm Hr' Hwf Hq'.
  set (s' := ds_set_perf pm (ds_set_queue q s)).
  assert (Hm' : forall b, msgs s' b = msgs s b).
  { intros b. unfold msgs. simpl. rewrite Hq'. case_decide as Hba; [|done]. subst b.
    rewrite E. simpl. by rewrite Hr'. }
  apply HP; [congruence| |by split_and!|done]. split; [done|]. by eapply inv_Q.
Qed.

Lemma same_view_room h s s' Q a : same_view h s s' -> room (ds_cache s) Q a -> room (ds_cache s') Q a.
Proof. intros (-> & _). done. Qed.

Lemma reply_entry_runs ex h s a (P : Z -> DirState -> Prop) :
  good ex h s -> a <> INVALID_ADDRESS -> perm (log h s) a <> (∅, None) ->
  (forall p e c pm, let s' := ds_set_cache (c, pm) s in
     good ex h s' -> tracks c a p e -> same_entries (ds_cache s) c -> P p s') ->
  runs (reply_entry env a) s P.
Proof.
  intros Hg Ha Hp HP. unfold reply_entry. runs_step. apply (dcache_lookup_runs ex h); [done|done|].
  intros [p|] c pm s' Hg' Hr; cbn beta iota.
  - destruct Hr as (e & Ht & _ & [[_ Hs]|[Hu _]]); [|by destruct Hp; apply (iv_free _ _ _ _ _ _ _ (proj2 Hg))].
    runs_step. by eapply HP.
  - destruct Hr as [Hu _]. by destruct Hp; apply (iv_free _ _ _ _ _ _ _ (proj2 Hg)).
Qed.

(** Receiving a reply: the entry gives the permission back as the history does. *)
Lemma return_good ex h s p e e' a t m :
  good None h s -> ds_sent s = [] -> tracks (ds_cache s) a p e -> de_address e' = a ->
  m_address m = a -> (return_perm a t m (perm h a)).1 ⊆ (perm h a).1 -> (perm h a).1 <> ∅ ->
  entry_ok N (return_perm a t m (perm h a)) e' -> (return_perm a t m (perm h a)).2 = None ->
  m_type m = INV_REP \/ m_type m = FLUSH_REP \/ m_type m = WB_REP ->
  (ex = Some a \/ (ex = None /\ (perm h a).2 = None /\ m_type m = INV_REP)) ->
  good ex (h ++ [Recv t m]) (put p e' s).
Proof.
  intros [Hq Hi] Hsent Ht Ha' Ham Hsub Hne He' Hnw Hret Hex. split; [done|].
  assert (Hlog : log h s = h) by (unfold log; rewrite Hsent; apply app_nil_r). rewrite Hlog in Hi.
  unfold log. simpl. rewrite Hsent. simpl. rewrite app_nil_r.
  assert (Hpa : perm (h ++ [Recv t m]) a = return_perm a t m (perm h a)) by (by rewrite perm_snoc).
  pose proof Hi as [].
  eapply (inv_Q _ _ _ (qset (msgs s) a (msgs s a))).
  { intros b. unfold qset. by case_decide; subst. }
  eapply (inv_update env N None ex); [exact Hi|exact Ht|done| | |apply iv_dram|apply iv_dram
    |by rewrite Hpa| | | | | | |].
  - intros b Hb. rewrite perm_snoc, ask_snoc, waits_snoc. simpl. unfold return_perm.
    rewrite !decide_False by congruence. done.
  - intros b Hb. rewrite value_snoc. simpl. rewrite !decide_False by congruence. done.
  - intros Hnex _. destruct Hex as [?|(_ & Hn & Hty)]; [done|].
    rewrite value_snoc. simpl. rewrite Hty. rewrite iv_value by done. by case_decide.
  - intros _. by apply iv_stored.
  - rewrite Hpa. destruct (iv_reqs a) as [(? & ? & Hni)|(m' & q' & E & Hn & ? & ? & Hni)].
    + left. split_and!; [done|done|]. intros x Hx Hin. by apply (Hni x Hx), Hsub.
    + right. exists m', q'. split; [done|]. split; [done|]. split_and!; [done|done|].
      intros x Hx Hin. by apply (Hni x Hx), Hsub.
  - rewrite iv_null. split; [|intros Hin; by exists p, e].
    intros (q & x & Hx & Hin). by destruct (unique_track (ds_cache s) a p e q x) as [-> _].
  - intros Hw. by rewrite Hpa in Hw.
  - rewrite waits_snoc. simpl. rewrite decide_True by done.
    destruct Hret as [-> | [-> | ->]]; apply iv_wait.
  - apply history_ok_snoc; done.
Qed.

(** Writing the line in hand to DRAM. *)
Lemma write_back_runs h s a data md (P : unit -> DirState -> Prop) :
  good (Some a) h s -> is_Some (dr_data_map (ds_dram s) !! a) ->
  Z.of_nat (length data) = line_size -> data = value line_size (log h s) a ->
  (forall d, let s' := ds_set_dram d (ds_perf s) s in
     good None h s' -> is_Some (dr_data_map d !! a) -> P tt s') ->
  runs (sendDataToDram env a (Some data) md) s P.
Proof.
  intros [Hq Hi] Hst Hlen Hv HP. pose proof Hi as []. destruct iv_dram as [Hd Hls].
  destruct (putDataToDram_spec (env_run_dram env) (ds_dram s) (ds_perf s) a data md Hd) as
    (d & E & Hd' & Hls' & Hm); [by rewrite Hls|done|].
  exists tt, (ds_set_dram d (ds_perf s) s). unfold sendDataToDram. rewrite E. split; [done|].
  apply HP; [|rewrite Hm, lookup_insert_eq; by eexists]. split; [done|]. simpl.
  change (log h (ds_set_dram d (ds_perf s) s)) with (log h s).
  split; try done.
  - split; [done|]. by rewrite Hls'.
  - intros b _ Hb. unfold dram_line. rewrite Hm, Hls', lookup_insert. case_decide as Hab.
    + subst b. by simpl.
    + apply (iv_value b); [congruence|done].
  - intros b Hb. rewrite Hm, lookup_insert. case_decide; [by eexists|by apply iv_stored].
Qed.
End requests.
End handlers.
