(* ===== verification/DirProtocol.v ===== *)
(** * The directory protocol

    What the L2 caches may send to a directory controller, and what the
    controller guarantees in return: every such message is handled to the end,
    and the permissions and data it hands out are justified by the history. *)

From S2P Require Import Prelude Utils HashMapList BitVec DirEntry CacheLine CacheSet Shmem DirCache DirCntlr DirThm DirSafe.

Section protocol.
Context (env : DirEnv) (N : Z).
Context (Hrand : forall n, 0 < n -> 0 <= env_rand env n < n).
Abbreviation line_size := (env_line_size env).
Abbreviation good := (good env N).

(** An eviction that other requests wait for can be followed by an allocation. *)
Definition can_retrack (s : DirState) (a : Z) : Prop :=
  forall m rest, msgs s a = m :: rest -> rest <> [] -> m_type m = NULLIFY_REQ ->
    room (ds_cache s) (msgs s) a.

(** A request for a line the sender does not hold and does not wait for. *)
Definition asks (h : list Event) (sender : Z) (m : ShmemMsg) : Prop :=
  m_requester m = sender /\ m_data_buf m = None /\ (sender ∉ (perm h (m_address m)).1) /\
  waits h (m_address m) !! sender = None.

(** The messages of a correct L2 cache, by the messages exchanged before, [h]:
    a request for a line it neither holds nor waits for, the return of a copy
    or of the line it was granted, or the data of a line it may write, which
    the directory has asked it to write back. *)
Definition legit (h : list Event) (sender : Z) (m : ShmemMsg) : Prop :=
  let a := m_address m in
  a <> INVALID_ADDRESS /\ 0 <= sender < N /\
  match m_type m with
  | EX_REQ | SH_REQ => asks h sender m
  | INV_REP => sender ∈ (perm h a).1 /\ (perm h a).2 = None
  | FLUSH_REP =>
      (perm h a).2 = Some sender /\
      exists data, m_data_buf m = Some data /\ Z.of_nat (length data) = line_size
  | WB_REP =>
      (perm h a).2 = Some sender /\
      (exists data, m_data_buf m = Some data /\ Z.of_nat (length data) = line_size) /\
      ask h a = Some WB_REQ
  | _ => False
  end.

(** The condition on the directory, which no cache can ensure: where serving the
    message can allocate an entry, a way of the set is free or holds a line
    nobody asks for.  A request allocates one when it is alone in its queue and
    its line has no entry, an answer when it lets an eviction finish that other
    requests for the line wait for. *)
Definition has_room (s : DirState) (m : ShmemMsg) : Prop :=
  match m_type m with
  | EX_REQ | SH_REQ => msgs s (m_address m) = [] -> can_track s (m_address m)
  | INV_REP | FLUSH_REP => can_retrack s (m_address m)
  | _ => True
  end.

Lemma legit_asks h sender m :
  legit h sender m -> (m_type m = EX_REQ \/ m_type m = SH_REQ) ->
  m_address m <> INVALID_ADDRESS /\ 0 <= sender < N /\ asks h sender m.
Proof using. intros (Ha & Hr & Hl) [E|E]; by rewrite E in Hl. Qed.

(** No request of a sender is queued for a line it does not wait for. *)
Lemma asks_other h s sender m :
  good None h s -> ds_sent s = [] -> asks h sender m ->
  forall m', m' ∈ msgs s (m_address m) -> m_type m' <> NULLIFY_REQ -> m_requester m' <> sender.
Proof using.
  intros [_ Hi] Hs (_ & _ & _ & Hw) m' Hm' Hn E.
  pose proof (proj2 (iv_wait _ _ _ _ _ _ _ Hi (m_address m) sender (m_type m'))) as Hx.
  unfold log in Hx. rewrite Hs, app_nil_r, Hw in Hx. discriminate Hx. by exists m'.
Qed.

Lemma normal_head ex h s a m rest :
  good ex h s -> msgs s a = m :: rest -> m_type m <> NULLIFY_REQ -> normal_req N a m.
Proof using.
  intros [_ Hi] Hm Hn. destruct (iv_reqs _ _ _ _ _ _ _ Hi a) as [[HF _]|(m' & q & E & (_ & _ & Ht) & _)].
  - rewrite Hm in HF. by inversion HF.
  - rewrite Hm in E. by injection E as -> _.
Qed.

Lemma null_head ex h s a m rest p e :
  good ex h s -> msgs s a = m :: rest -> m_type m = NULLIFY_REQ -> tracks (ds_cache s) a p e ->
  m_address m = a /\ p ∈ dc_replaced (ds_cache s).
Proof using.
  intros [_ Hi] Hm Hn Ht. split.
  - destruct (iv_reqs _ _ _ _ _ _ _ Hi a) as [[HF _]|(m' & q & E & (? & _) & _)].
    + rewrite Hm in HF. by inversion HF as [|? ? (? & _)].
    + rewrite Hm in E. by injection E as -> _.
  - destruct (proj1 (iv_null _ _ _ _ _ _ _ Hi a)) as (q & x & Hx & Hin); [by exists m, rest|].
    by destruct (unique_track _ _ _ _ _ _ (iv_wf _ _ _ _ _ _ _ Hi) Ht Hx) as [-> _].
Qed.

(** Continuing with the head of the queue after a reply. *)
Lemma nullify_head_runs h s a r rest p e fuel :
  (2 * length (msgs s a) + 2 <= fuel)%nat ->
  good None h s -> msgs s a = rq_msg r :: rest -> m_type (rq_msg r) = NULLIFY_REQ ->
  tracks (ds_cache s) a p e -> unasked (log h s) a -> (rest <> [] -> room (ds_cache s) (msgs s) a) ->
  runs (processNullifyReq env fuel r) s (fun _ => good None h).
Proof using Hrand.
  intros Hf Hg Hm Hty Ht Hun Hroom. destruct (null_head _ _ _ _ _ _ _ _ Hg Hm Hty Ht) as [Ha Hin].
  destruct fuel as [|fuel]; [lia|].
  apply (nullify_runs env N h s a p e); [done|done|done|done|done|by intros s' ? _ _|].
  intros s' Hs Hu Hq _ Hr.
  assert (Hmm : forall b, msgs s' b = msgs s b) by (intros b; unfold msgs; by rewrite Hq).
  eapply (next_runs env N Hrand (length (msgs s' a))); [rewrite Hmm; lia|rewrite Hmm, Hm; simpl; lia|done|done|].
  intros Hl _. eapply room_same; [by split_and!| |apply Hr, Hroom].
  - intros b _ Hb. by rewrite Hmm.
  - intros ->. rewrite Hmm, Hm in Hl. simpl in Hl. lia.
Qed.

Lemma room_store c Q a b p e e' :
  tracks c a p e -> de_address e' = a -> room c Q b -> room (dc_store p e' c) Q b.
Proof using.
  intros (Hp & Ha & _) Ha' (i & q & x & Hi & Hq & Hx & Hr).
  assert (Hcfg : dc_config (dc_store p e' c) = dc_config c) by reflexivity.
  assert (Hq' : slot_entry (dc_store p e' c) (dir_set (dc_store p e' c) b) i = Ok q).
  { unfold slot_entry in Hq |- *. rewrite (config_slot _ _ _ _ Hcfg), (config_set _ _ b Hcfg).
    change (dc_list (dc_store p e' c)) with (dc_list c). exact Hq. }
  destruct (decide (q = p)) as [->|Hne].
  - assert (x = e) as -> by congruence. exists i, p, e'. split; [exact Hi|]. split; [exact Hq'|].
    split; [apply lookup_insert_eq|]. by rewrite Ha', <- Ha.
  - exists i, q, x. split; [exact Hi|]. split; [exact Hq'|]. split; [|exact Hr].
    simpl. by rewrite lookup_insert_ne.
Qed.

Section reply.
Context (h : list Event) (s : DirState) (sender : Z) (m : ShmemMsg) (fuel : nat).
Context (Hg : good None h s) (Hsent : ds_sent s = []) (Hl : legit h sender m) (Hroom : has_room s m).
Context (Hf : (2 * length (msgs s (m_address m)) + 2 <= fuel)%nat).
Let a := m_address m.
Let h' := h ++ [Recv sender m].

Lemma log_h : log h s = h.
Proof using Hsent. unfold log. rewrite Hsent. apply app_nil_r. Qed.

Lemma count_msgs s1 b : count (ds_queue s1) b = Z.of_nat (length (msgs s1 b)).
Proof using. unfold msgs. by rewrite length_fmap, count_queue. Qed.

Lemma perm_h' : perm h' a = return_perm a sender m (perm h a).
Proof using. unfold h'. by rewrite perm_snoc. Qed.

Lemma tracked_can_track s1 p e : tracks (ds_cache s1) a p e -> can_track s1 a.
Proof using. intros Ht Hu. by apply Hu in Ht. Qed.

Lemma inv_continue s2 p e :
  good None h' s2 -> (2 * length (msgs s2 a) + 2 <= fuel)%nat -> tracks (ds_cache s2) a p e ->
  can_retrack s2 a -> unasked (log h' s2) a ->
  runs (q ← gets ds_queue;
        if count q a >? 0 then
          r ← front_with_times a;
          e ← get_entry p;
          match m_type (rq_msg r) with
          | EX_REQ =>
              when (bool_decide (de_dstate e = D_UNCACHED)) (processExReqFromL2Cache env fuel r None)
          | SH_REQ => processShReqFromL2Cache env fuel r None
          | _ => when (bool_decide (de_dstate e = D_UNCACHED)) (processNullifyReq env fuel r)
          end
        else mret tt) s2 (fun _ => good None h').
Proof using Hrand.
  intros Hg2 Hf2 Ht Hre Hun. runs_step. cbn beta. rewrite count_msgs.
  destruct (msgs s2 a) as [|m' rest] eqn:Hm2; simpl; [by apply runs_ret|].
  runs_step. eapply (front_good_runs env N None h'); [done|exact Hm2|].
  intros r s3 Hr Hg3 (Hc3 & Hl3 & Hm3) _. cbn beta. pose proof Ht as (Hp & _).
  runs_step. apply (get_entry_runs p e); [by rewrite Hc3|]. cbn beta.
  assert (Hma : msgs s3 a = rq_msg r :: rest) by (by rewrite Hm3, Hm2, Hr).
  assert (Ht3 : tracks (ds_cache s3) a p e) by (by rewrite Hc3).
  assert (Hun3 : unasked (log h' s3) a) by (by rewrite Hl3).
  assert (Hreq : m_type (rq_msg r) <> NULLIFY_REQ ->
    (m_type (rq_msg r) = EX_REQ -> runs (processExReqFromL2Cache env fuel r None) s3 (fun _ => good None h')) /\
    (m_type (rq_msg r) = SH_REQ -> runs (processShReqFromL2Cache env fuel r None) s3 (fun _ => good None h'))).
  { intros Hn. destruct (request_runs env N Hrand (length (msgs s3 a)) fuel None h' s3 a r None) as [Hx Hsh];
      [by rewrite Hma; simpl in *|done|by exists rest|done|by eapply normal_head|done|by left| |done|].
    - by eapply tracked_can_track.
    - split; [intros E; by apply Hx|intros E; by apply Hsh]. }
  assert (Hnull : m_type (rq_msg r) = NULLIFY_REQ ->
    runs (processNullifyReq env fuel r) s3 (fun _ => good None h')).
  { intros E. eapply nullify_head_runs; [by rewrite Hma; simpl in *|done|exact Hma|done|exact Ht3|done|].
    intros Hne. eapply room_same; [rewrite Hc3; by split_and!| |].
    - intros b _ Hb. rewrite Hm3. exact Hb.
    - eapply (Hre m' rest); [done|done|by rewrite <- Hr]. }
  assert (Hkind : m_type (rq_msg r) = EX_REQ \/ m_type (rq_msg r) = SH_REQ \/ m_type (rq_msg r) = NULLIFY_REQ).
  { destruct (decide (m_type (rq_msg r) = NULLIFY_REQ)); [naive_solver|].
    destruct (normal_head _ _ _ _ _ _ Hg3 Hma) as (_ & _ & _ & _ & []); naive_solver. }
  destruct Hkind as [E|[E|E]]; rewrite E.
  - apply runs_when; intros _; [|done]. by apply Hreq; rewrite E.
  - by apply Hreq; rewrite E.
  - apply runs_when; intros _; [|done]. by apply Hnull.
Qed.

Lemma inv_rep_runs :
  m_type m = INV_REP ->
  runs (processInvRepFromL2Cache env fuel sender m) s (fun _ => good None h').
Proof using Hrand Hg Hsent Hl Hroom Hf.
  intros Hty. destruct Hl as (Ha & Hrange & Hm). pose proof Hroom as Hre. unfold has_room in Hre.
  rewrite Hty in Hm, Hre. destruct Hm as (Hin & Hw).
  fold a in Ha, Hin, Hw, Hre. unfold processInvRepFromL2Cache. fold a. runs_step.
  apply (reply_entry_runs env N None h); [done|done|rewrite log_h; intros E; rewrite E in Hin; set_solver|].
  intros p e c pm s1 Hg1 Ht Hs. cbn beta.
  pose proof (iv_entry _ _ _ _ _ _ _ (proj2 Hg1) _ _ _ Ht) as (Hr & HN & Hd).
  change (log h s1) with (log h s) in *. rewrite log_h in *. pose proof Ht as (Hp & Hea & _).
  assert (Hd' : de_dstate e = D_SHARED /\ de_owner_id e = INVALID_TILE_ID).
  { destruct (de_dstate e); try done; destruct Hd as [Hd1 Hd2].
    - rewrite Hd1 in Hin. set_solver.
    - split; [done|]. apply Hd2.
    - by rewrite Hd1 in Hw. }
  clear Hd. destruct Hd' as [Hd Hown].
  runs_step. apply (get_entry_runs p e); [done|]. runs_step. apply runs_assert; [by rewrite Hd|].
  destruct (remove_law (de_sharers e) _ sender Hr Hin) as (sh & Erm & Hmax & Hrep).
  runs_step. eapply remove_sharer_runs; [done|exact Erm|].
  runs_step. eapply get_entry_runs; [apply heap_put|].
  runs_step. eapply runs_lift; [by apply (num_law sh ((perm h a).1 ∖ {[sender]}))|].
  set (S' := (perm h a).1 ∖ {[sender]}) in *.
  assert (Hupd : forall e', e' = (if Z.of_nat (size S') =? 0 then de_setDState D_UNCACHED (de_setSharers sh e)
                                  else de_setSharers sh e) ->
    good None h' (put p e' s1)).
  { intros e' ->. assert (Hret : return_perm a sender m (perm h a) = (S', None))
      by (unfold return_perm; by rewrite decide_True, Hty, Hw).
    eapply (return_good env N None); [exact Hg1|done|exact Ht|by case_match|done| | | |by rewrite Hret|by left|by right].
    - rewrite Hret. set_solver.
    - set_solver.
    - rewrite Hret. destruct (Z.eqb_spec (Z.of_nat (size S')) 0) as [Hz|Hnz].
      + assert (S' = ∅) as HS by (apply leibniz_equiv, size_empty_inv; lia). rewrite HS in *.
        split; [done|]. split; [by rewrite <- Hmax in HN|done].
      + split; [done|]. split; [by rewrite <- Hmax in HN|]. simpl. rewrite Hd.
        split_and!; [|done|done]. intros HS. simpl in HS. rewrite HS in Hnz. by rewrite size_empty in Hnz. }
  set (e' := if Z.of_nat (size S') =? 0 then _ else _) in Hupd. specialize (Hupd e' eq_refl).
  assert (Hdst : de_dstate e' = if Z.of_nat (size S') =? 0 then D_UNCACHED else D_SHARED)
    by (unfold e'; by case_match).
  eapply runs_seq with (P := fun _ s' => s' = put p e' s1).
  { apply runs_when; intros Hz.
    - eapply set_dstate_runs; [apply heap_put|]. rewrite put_put. unfold e'. by rewrite Hz.
    - unfold e'. by rewrite Hz. }
  intros [] s2 ->. set (s2 := put p e' s1) in *.
  assert (Ht2 : tracks (ds_cache s2) a p e').
  { split_and!; [apply heap_put|unfold e'; by case_match|done]. }
  assert (Hm2 : forall b, msgs s2 b = msgs s b) by done.
  assert (Hre2 : can_retrack s2 a).
  { intros m' rest Hmr Hne Hn. eapply room_store; [exact Ht|unfold e'; by case_match|].
    by apply (room_same _ _ (msgs s) _ _ Hs); [|eapply Hre]. }
  apply (inv_continue s2 p e'); [done|by rewrite Hm2|done|done|]. left.
  assert (Hlog2 : log h' s2 = h') by (unfold log; simpl; rewrite Hsent; apply app_nil_r).
  rewrite Hlog2, perm_h'. unfold return_perm. by rewrite decide_True, Hty.
Qed.

(** What is known after a reply that carried the line. *)
Definition returned (ex : option Z) (s2 : DirState) (data : list Z) : Prop :=
  good ex h' s2 /\ (2 * length (msgs s2 a) + 2 <= fuel)%nat /\
  is_Some (dr_data_map (ds_dram s2) !! a) /\ log h' s2 = h' /\
  data = value line_size h' a /\ Z.of_nat (length data) = line_size /\ (perm h' a).2 = None.

Lemma returned_unasked ex s2 data : returned ex s2 data -> unasked (log h' s2) a.
Proof using. intros (_ & _ & _ & Hlog & _ & _ & Hw). left. by rewrite Hlog. Qed.

Lemma returned_in_hand ex s2 p e data :
  returned ex s2 data -> tracks (ds_cache s2) a p e -> in_hand env h' s2 a (Some data).
Proof using.
  intros (_ & _ & Hst & Hlog & Hv & Hlen & Hw) Ht d [= <-]. rewrite Hlog.
  split_and!; try done. by exists p, e.
Qed.

Lemma returned_written s2 data md (P : unit -> DirState -> Prop) :
  returned (Some a) s2 data ->
  (forall d, let s3 := ds_set_dram d (ds_perf s2) s2 in returned None s3 data -> P tt s3) ->
  runs (sendDataToDram env a (Some data) md) s2 P.
Proof using.
  intros (Hg2 & Hf2 & Hst & Hlog & Hv & Hlen & Hw) HP.
  apply (write_back_runs env N h'); [done|done|done|by rewrite Hlog|].
  intros d s3 Hg3 Hst3. apply HP. by split_and!.
Qed.

Lemma returned_view ex s2 s3 data :
  returned ex s2 data -> good ex h' s3 -> same_view h' s2 s3 -> ds_dram s3 = ds_dram s2 ->
  returned ex s3 data.
Proof using.
  intros (_ & Hf2 & Hst & Hlog & Hrest) Hg3 (Hc & Hl3 & Hm) Hd.
  split; [done|]. rewrite Hm, Hd, Hl3. done.
Qed.

(** A shared request or an eviction goes on once the line is in DRAM. *)
Lemma sh_continue s3 data p e r rest :
  returned None s3 data -> tracks (ds_cache s3) a p e -> msgs s3 a = rq_msg r :: rest ->
  m_type (rq_msg r) = SH_REQ ->
  runs (processShReqFromL2Cache env fuel r (Some data)) s3 (fun _ => good None h').
Proof using Hrand.
  intros Hret Ht Hm Hty. pose proof Hret as (Hg3 & Hf3 & _).
  destruct (request_runs env N Hrand (length (msgs s3 a)) fuel None h' s3 a r (Some data)) as [_ Hsh];
    [done|done|by exists rest|done| | |by left|by eapply tracked_can_track|by eapply returned_unasked|by apply Hsh].
  - eapply normal_head; [done|done|congruence].
  - by eapply returned_in_hand.
Qed.

Lemma flush_continue s2 p e data :
  m_data_buf m = Some data -> returned (Some a) s2 data -> perm h' a = (∅, None) ->
  tracks (ds_cache s2) a p e -> can_retrack s2 a ->
  runs (q ← gets ds_queue;
        if negb (count q a =? 0) then
          r ← front_with_times a;
          match m_type (rq_msg r) with
          | EX_REQ => processExReqFromL2Cache env fuel r (m_data_buf m)
          | SH_REQ =>
              _ ← sendDataToDram env a (m_data_buf m) (m_modeled m);
              processShReqFromL2Cache env fuel r (m_data_buf m)
          | _ =>
              _ ← sendDataToDram env a (m_data_buf m) (m_modeled m);
              processNullifyReq env fuel r
          end
        else sendDataToDram env a (m_data_buf m) (m_modeled m)) s2 (fun _ => good None h').
Proof using Hrand.
  intros Hbuf Hret Hp Ht Hre. rewrite Hbuf. runs_step. cbn beta. rewrite count_msgs.
  destruct (msgs s2 a) as [|m' rest] eqn:Hm2; simpl.
  { eapply returned_written; [exact Hret|]. intros d s3 Hret3. apply Hret3. }
  runs_step. eapply (front_good_runs env N (Some a) h'); [apply Hret|exact Hm2|].
  intros r s3 Hr Hg3 Hview Hd3. cbn beta.
  pose proof (returned_view _ _ _ _ Hret Hg3 Hview Hd3) as Hret3. destruct Hview as (Hc3 & Hl3 & Hm3).
  assert (Hma : msgs s3 a = rq_msg r :: rest) by (by rewrite Hm3, Hm2, Hr).
  assert (Ht3 : tracks (ds_cache s3) a p e) by (by rewrite Hc3).
  assert (Hkind : m_type (rq_msg r) = EX_REQ \/ m_type (rq_msg r) = SH_REQ \/ m_type (rq_msg r) = NULLIFY_REQ).
  { destruct (decide (m_type (rq_msg r) = NULLIFY_REQ)); [naive_solver|].
    destruct (normal_head _ _ _ _ _ _ Hg3 Hma) as (_ & _ & _ & _ & []); naive_solver. }
  destruct Hkind as [E|[E|E]]; rewrite E.
  - pose proof Hret3 as (_ & Hf3 & _ & Hlog3 & _).
    destruct (request_runs env N Hrand (length (msgs s3 a)) fuel (Some a) h' s3 a r (Some data)) as [Hx _];
      [done|done|by exists rest|done| | | |by eapply tracked_can_track
       |by eapply returned_unasked|apply Hx; [done|by rewrite Hlog3]].
    + eapply normal_head; [done|done|congruence].
    + by eapply returned_in_hand.
    + right. by rewrite Hlog3.
  - runs_step. eapply returned_written; [exact Hret3|]. intros d s4 Hret4.
    by eapply (sh_continue s4 data p e).
  - runs_step. eapply returned_written; [exact Hret3|]. intros d s4 Hret4.
    pose proof Hret4 as (Hg4 & Hf4 & _).
    eapply nullify_head_runs; [exact Hf4|done|exact Hma|done|exact Ht3|by eapply returned_unasked|].
    intros Hne. eapply room_same; [change (ds_cache s4) with (ds_cache s3); rewrite Hc3; by split_and!| |].
    + intros b _ Hb. change (msgs s4 b) with (msgs s3 b). by rewrite Hm3.
    + eapply (Hre m' rest); [done|done|by rewrite <- Hr].
Qed.

(** The entry of a line that its writer returns. *)
Lemma writer_entry s1 p e :
  good None h s1 -> log h s1 = h -> tracks (ds_cache s1) a p e -> (perm h a).2 = Some sender ->
  de_dstate e = D_MODIFIED /\ de_owner_id e = sender /\ perm h a = ({[sender]}, Some sender) /\
  repr (de_sharers e) {[sender]} /\ N <= max_tile (de_sharers e) /\
  hasSharer (de_sharers e) sender = Ok true.
Proof using.
  intros Hg1 Hlog Ht Hw. pose proof (iv_entry _ _ _ _ _ _ _ (proj2 Hg1) _ _ _ Ht) as (Hr & HN & Hd).
  rewrite Hlog in *. destruct (de_dstate e); try done; destruct Hd as [Hd1 Hd2].
  - by rewrite Hd1 in Hw.
  - destruct Hd2 as [Hd2 _]. congruence.
  - rewrite Hd1 in Hw, Hr. simpl in Hw, Hr. injection Hw as Hw. rewrite Hw in *. done.
Qed.

Lemma set_owner_invalid e :
  de_setOwner INVALID_TILE_ID e = Ok (mkDirEntry (de_address e) (de_dstate e) INVALID_TILE_ID (de_sharers e)).
Proof using. done. Qed.

Lemma flush_rep_runs :
  m_type m = FLUSH_REP ->
  runs (processFlushRepFromL2Cache env fuel sender m) s (fun _ => good None h').
Proof using Hrand Hg Hsent Hl Hroom Hf.
  intros Hty. destruct Hl as (Ha & Hrange & Hm). pose proof Hroom as Hre. unfold has_room in Hre.
  rewrite Hty in Hm, Hre. destruct Hm as (Hw & data & Hbuf & Hlen).
  fold a in Ha, Hw, Hre. unfold processFlushRepFromL2Cache. fold a. runs_step.
  apply (reply_entry_runs env N None h); [done|done|rewrite log_h; intros E; by rewrite E in Hw|].
  intros p e c pm s1 Hg1 Ht Hs. cbn beta. pose proof Ht as (Hp & Hea & _).
  destruct (writer_entry s1 p e Hg1 log_h Ht Hw) as (Hd & Hown & Hperm & Hr & HN & Hhas).
  runs_step. apply (get_entry_runs p e); [done|]. runs_step. apply runs_assert; [by rewrite Hd|].
  destruct (remove_law (de_sharers e) _ sender Hr ltac:(set_solver)) as (sh & Erm & Hmax & Hrep).
  rewrite difference_diag_L in Hrep.
  runs_step. eapply remove_sharer_runs; [done|exact Erm|].
  runs_step. eapply set_owner_runs; [apply heap_put|apply set_owner_invalid|].
  runs_step. eapply set_dstate_runs; [apply heap_put|]. rewrite !put_put.
  set (e' := de_setDState D_UNCACHED _). set (s2 := put p e' s1).
  assert (Hret : return_perm a sender m (perm h a) = (∅, None))
    by (unfold return_perm; rewrite decide_True, Hty, Hperm by done; simpl; by rewrite difference_diag_L).
  apply (flush_continue s2 p e' data); [done| |by rewrite perm_h'|split_and!; [apply heap_put|done|done]|].
  - split_and!; [|done| |unfold log; simpl; rewrite Hsent; apply app_nil_r| |done|by rewrite perm_h', Hret].
    + eapply (return_good env N (Some a)); [exact Hg1|done|exact Ht|done|done| | | |by rewrite Hret|by auto|by left].
      * rewrite Hret. set_solver.
      * rewrite Hperm. set_solver.
      * rewrite Hret. split; [done|]. split; [by rewrite <- Hmax in HN|done].
    + apply (iv_stored _ _ _ _ _ _ _ (proj2 Hg1)). change (log h s1) with (log h s).
      rewrite log_h, Hperm. set_solver.
    + unfold h'. rewrite value_snoc. simpl. by rewrite decide_True, Hty, Hbuf.
  - intros m' rest Hmr Hne Hn. eapply room_store; [exact Ht|done|].
    by apply (room_same _ _ (msgs s) _ _ Hs); [|eapply Hre].
Qed.

Lemma wb_rep_runs :
  m_type m = WB_REP ->
  runs (processWbRepFromL2Cache env fuel sender m) s (fun _ => good None h').
Proof using Hrand Hg Hsent Hl Hf.
  clear Hroom. intros Hty. destruct Hl as (Ha & Hrange & Hm). rewrite Hty in Hm.
  destruct Hm as (Hw & (data & Hbuf & Hlen) & Hask).
  assert (Hhead : exists m' rest, msgs s a = m' :: rest /\ m_type m' = SH_REQ).
  { destruct (iv_ask _ _ _ _ _ _ _ (proj2 Hg) a) as [E|(m' & rest & E & Hty')]; rewrite log_h in *;
      [by fold a in Hw; rewrite Hw|fold a in Hask; congruence|].
    exists m', rest. split; [done|]. fold a in Hask. rewrite Hask in Hty'. unfold ask_type in Hty'.
    by destruct (decide (m_type m' = SH_REQ)). }
  destruct Hhead as (m' & rest & Hmm & Hty').
  fold a in Ha, Hw, Hmm. unfold processWbRepFromL2Cache. fold a. runs_step.
  apply (reply_entry_runs env N None h); [done|done|rewrite log_h; intros E; by rewrite E in Hw|].
  intros p e c pm s1 Hg1 Ht Hs. cbn beta. pose proof Ht as (Hp & Hea & _).
  destruct (writer_entry s1 p e Hg1 log_h Ht Hw) as (Hd & Hown & Hperm & Hr & HN & Hhas).
  runs_step. apply (get_entry_runs p e); [done|]. runs_step. apply runs_assert; [by rewrite Hd|].
  runs_step. eapply runs_lift; [exact Hhas|]. runs_step. apply runs_assert; [done|].
  runs_step. eapply set_owner_runs; [done|apply set_owner_invalid|].
  runs_step. eapply set_dstate_runs; [apply heap_put|]. rewrite !put_put.
  set (e' := de_setDState D_SHARED _). set (s2 := put p e' s1).
  assert (Hret : return_perm a sender m (perm h a) = ({[sender]}, None))
    by (unfold return_perm; by rewrite decide_True, Hty, Hperm).
  assert (Hret2 : returned (Some a) s2 data).
  { split_and!; [|done| |unfold log; simpl; rewrite Hsent; apply app_nil_r| |done|by rewrite perm_h', Hret].
    - eapply (return_good env N (Some a)); [exact Hg1|done|exact Ht|done|done| | | |by rewrite Hret|by auto|by left].
      + by rewrite Hret, Hperm.
      + rewrite Hperm. set_solver.
      + rewrite Hret. split; [done|]. split; [done|]. split_and!; [set_solver|done|done].
    - apply (iv_stored _ _ _ _ _ _ _ (proj2 Hg1)). change (log h s1) with (log h s).
      rewrite log_h, Hperm. set_solver.
    - unfold h'. rewrite value_snoc. simpl. by rewrite decide_True, Hty, Hbuf. }
  runs_step. cbn beta. rewrite count_msgs. change (msgs s2) with (msgs s). rewrite Hmm. simpl.
  runs_step. eapply (front_good_runs env N (Some a) h'); [apply Hret2|exact Hmm|].
  intros r s3 Hr3 Hg3 Hview Hd3. cbn beta.
  pose proof (returned_view _ _ _ _ Hret2 Hg3 Hview Hd3) as Hret3. destruct Hview as (Hc3 & Hl3 & Hm3).
  rewrite Hbuf. runs_step. eapply returned_written; [exact Hret3|]. intros d s4 Hret4.
  runs_step. apply runs_log_assert; [by rewrite Hr3, Hty'|].
  eapply (sh_continue s4 data p e'); [done| |by rewrite <- Hr3 in Hmm; rewrite <- Hmm; apply Hm3|by rewrite Hr3].
  change (ds_cache s4) with (ds_cache s3). rewrite Hc3. split_and!; [apply heap_put|done|done].
Qed.
End reply.

(** *** Requests *)

Lemma request_enqueued h s sender m t :
  good None h s -> ds_sent s = [] -> m_address m <> INVALID_ADDRESS -> 0 <= sender < N ->
  asks h sender m -> (m_type m = EX_REQ \/ m_type m = SH_REQ) ->
  let s' := ds_set_queue (enqueue (ds_queue s) (m_address m) (mkReq m t)) s in
  good None (h ++ [Recv sender m]) s' /\ normal_req N (m_address m) m /\
  forall b, msgs s' b = if decide (b = m_address m) then msgs s b ++ [m] else msgs s b.
Proof using.
  clear Hrand. intros Hg Hsent Ha Hrange Has Hty s'. pose proof (asks_other _ _ _ _ Hg Hsent Has) as Hother.
  destruct Hg as [Hq Hi], Has as (Hreq & Hbuf & Hni & _).
  set (a := m_address m) in *.
  assert (Hnorm : normal_req N a m) by (unfold normal_req; rewrite Hreq; naive_solver).
  assert (Hmsgs : forall b, msgs s' b = if decide (b = a) then msgs s b ++ [m] else msgs s b).
  { intros b. unfold msgs. simpl. rewrite enqueue_queue. destruct (decide (a = b)) as [<-|Hb].
    - by rewrite decide_True, fmap_app.
    - by rewrite decide_False. }
  split_and!; [|done|done]. split; [by apply enqueue_wf|].
  assert (Hlog : log h s = h) by (unfold log; rewrite Hsent; apply app_nil_r). rewrite Hlog in Hi.
  unfold log. simpl. rewrite Hsent. simpl. rewrite app_nil_r.
  assert (Happ : forall q, waiting N a (perm h a).1 q -> (forall x, x ∈ q -> x ∈ msgs s a) ->
    waiting N a (perm h a).1 (q ++ [m])).
  { intros q (HF & Hnd & Hn) Hsub. split; [by apply Forall_app; split; [|constructor]|]. split.
    - rewrite fmap_app. apply NoDup_app. split_and!; [done| |apply NoDup_singleton].
      intros x (y & -> & Hy)%list_elem_of_fmap Hx. simpl in Hx. apply list_elem_of_singleton in Hx.
      apply (Hother y); [by apply Hsub| |congruence].
      rewrite Forall_forall in HF. by destruct (HF y Hy) as (_ & _ & _ & _ & [-> | ->]).
    - intros x [Hx|Hx%list_elem_of_singleton]%elem_of_app; [by apply Hn|]. subst x. by rewrite Hreq. }
  assert (Hneu : neutral (Recv sender m)) by (simpl; by destruct Hty as [-> | ->]).
  pose proof Hi as []. apply (inv_retrack env N None (ds_cache s) _ (ds_dram s) (msgs s) _ h); try done.
  - intros b. rewrite perm_snoc, value_snoc. by rewrite neutral_perm, neutral_value.
  - intros b q x Hx. by left.
  - intros b. rewrite Hmsgs. case_decide as Hb; [|done]. subst b.
    destruct (iv_reqs a) as [Hw|(m' & q' & E & Hn & Hw)].
    + left. by apply Happ.
    + right. exists m', (q' ++ [m]). rewrite E. split_and!; [done|done|]. apply Happ; [done|].
      intros x Hx. rewrite E. by right.
  - intros b. rewrite Hmsgs, <- iv_null. case_decide as Hb; [|done]. subst b. unfold nullifies.
    destruct (msgs s a) as [|m' q']; simpl.
    + split; [intros (x & q & [= <- <-] & Hx); destruct Hty; congruence|naive_solver].
    + split; intros (x & q & E & Hx); injection E as <- _; eauto.
  - intros b. rewrite ask_snoc, Hmsgs. simpl.
    assert (Ea : (if decide (m_address m = b) then match m_type m with FLUSH_REP | WB_REP => None | _ => ask h b end
                  else ask h b) = ask h b) by (case_decide; [by destruct Hty as [-> | ->]|done]).
    rewrite Ea. intros Hw. destruct (iv_ask b Hw) as [?|(x & q & E & ?)]; [by left|right].
    destruct (decide (b = a)); [|by exists x, q]. exists x, (q ++ [m]). by rewrite E.
  - intros b. rewrite waits_snoc, Hmsgs. simpl. fold a. destruct (decide (b = a)) as [->|Hb].
    2:{ rewrite decide_False by congruence. apply iv_wait. }
    rewrite decide_True by done. set (w := match m_type m with EX_REQ => _ | _ => _ end).
    assert (Ew : w = <[sender := m_type m]> (waits h a)) by (unfold w; by destruct Hty as [-> | ->]).
    clearbody w. subst w. intros t' ty. rewrite lookup_insert_Some, (iv_wait a t' ty). split.
    + intros [[<- <-]|(Hne & x & Hx & Hrest)].
      * exists m. split; [apply elem_of_app; right; by left|]. split_and!; [done|done|]. destruct Hty; congruence.
      * exists x. split; [apply elem_of_app; by left|done].
    + intros (x & [Hx|Hx%list_elem_of_singleton]%elem_of_app & Hxt & Hxty & Hn).
      * right. split; [|by exists x]. intros ->. by apply (Hother x Hx); [congruence|].
      * subst x. left. split; congruence.
  - by apply history_ok_snoc.
Qed.

(** The writer of a line without requests has not been asked. *)
Lemma enqueued_unasked h s s' sender m :
  good None h s -> ds_sent s = [] -> msgs s (m_address m) = [] -> log (h ++ [Recv sender m]) s' = h ++ [Recv sender m] ->
  m_type m = EX_REQ \/ m_type m = SH_REQ -> unasked (log (h ++ [Recv sender m]) s') (m_address m).
Proof using.
  clear Hrand. intros [_ Hi] Hsent Hm Hlog Hty. rewrite Hlog. unfold unasked. rewrite perm_snoc, ask_snoc.
  rewrite neutral_perm by (simpl; by destruct Hty as [-> | ->]). simpl. rewrite decide_True by done.
  assert (Hl : log h s = h) by (unfold log; rewrite Hsent; apply app_nil_r). rewrite Hl in Hi.
  assert (Ea : match m_type m with FLUSH_REP | WB_REP => None | _ => ask h (m_address m) end = ask h (m_address m))
    by (by destruct Hty as [-> | ->]).
  rewrite Ea. destruct (perm h (m_address m)).2 eqn:Ep; [right|by left].
  destruct (iv_ask _ _ _ _ _ _ _ Hi (m_address m)) as [?|(x & q & E & _)]; [by rewrite Ep|done|].
  by rewrite Hm in E.
Qed.

Definition dir_fuel (s : DirState) (m : ShmemMsg) : nat := 2 * length (msgs s (m_address m)) + 4.

Lemma good_perf ex h s pm : good ex h s -> good ex h (ds_set_perf pm s).
Proof using. done. Qed.

(** Every message of a correct L2 cache is handled to the end. *)
Lemma handle_runs h s sender m fuel :
  good None h s -> ds_sent s = [] -> legit h sender m -> has_room s m -> (dir_fuel s m <= fuel)%nat ->
  runs (handleMsgFromL2Cache env fuel sender m) s (fun _ => good None (h ++ [Recv sender m])).
Proof using Hrand.
  intros Hg Hsent Hl Hroom Hf. unfold dir_fuel in Hf. unfold handleMsgFromL2Cache. runs_step. runs_step.
  set (s1 := ds_set_perf _ s).
  assert (Hg1 : good None h s1) by (by apply good_perf).
  assert (Hroom1 : has_room s1 m) by done.
  change (msgs s (m_address m)) with (msgs s1 (m_address m)) in Hf.
  change (ds_sent s) with (ds_sent s1) in Hsent. clearbody s1. clear Hg Hroom.
  assert (Hreq : m_type m = EX_REQ \/ m_type m = SH_REQ ->
    forall t, let s2 := ds_set_queue (enqueue (ds_queue s1) (m_address m) (mkReq m t)) s1 in
    runs (if count (ds_queue s2) (m_address m) =? 1 then
            match m_type m with
            | EX_REQ => processExReqFromL2Cache env fuel (mkReq m t) None
            | _ => processShReqFromL2Cache env fuel (mkReq m t) None
            end
          else mret tt) s2 (fun _ => good None (h ++ [Recv sender m]))).
  { intros Hty t s2. destruct (legit_asks h sender m Hl Hty) as (Ha1 & Hr1 & Has1).
    assert (Htr : msgs s1 (m_address m) = [] -> can_track s1 (m_address m))
      by (unfold has_room in Hroom1; by destruct Hty as [E|E]; rewrite E in Hroom1).
    destruct (request_enqueued h s1 sender m t Hg1 Hsent Ha1 Hr1 Has1 Hty) as (Hg2 & Hnorm & Hms).
    assert (Hma : msgs s2 (m_address m) = msgs s1 (m_address m) ++ [m]) by (by rewrite Hms, decide_True).
    rewrite count_msgs, Hma. destruct (msgs s1 (m_address m)) as [|m' q] eqn:Em.
    2:{ rewrite (proj2 (Z.eqb_neq _ _)); [by apply runs_ret|]. rewrite length_app. simpl. lia. }
    change (Z.of_nat (length ([] ++ [m])) =? 1) with true. cbn iota. simpl in Hma, Hf.
    destruct (request_runs env N Hrand 1 fuel None (h ++ [Recv sender m]) s2 (m_address m) (mkReq m t) None)
      as [Hx Hs]; [lia|done|by exists []|by rewrite Hma|done|done|by left| | |].
    - intros Hu.
      destruct (Htr eq_refl Hu) as (i & q & e & Hi & Hq & He & Hor). exists i, q, e.
      do 3 (split; [done|]). destruct Hor as [?|Hor]; [by left|].
      destruct (decide (de_address e = INVALID_ADDRESS)); [by left|right].
      rewrite Hms, decide_False; [done|]. intros E. apply (Hu q e). split_and!; [done|done|congruence].
    - apply (enqueued_unasked h s1); [done|done|exact Em|unfold log; simpl; rewrite Hsent; apply app_nil_r|done].
    - destruct Hty as [E|E]; rewrite E; [by apply Hx|by apply Hs]. }
  assert (Hbuf : m_type m = EX_REQ \/ m_type m = SH_REQ -> m_data_buf m = None).
  { intros Hty. by destruct (legit_asks h sender m Hl Hty) as (_ & _ & _ & ? & _). }
  pose proof Hl as (_ & _ & Hkind).
  destruct (m_type m) eqn:Hty; try done.
  - runs_step. eapply runs_lift; [unfold ShmemReq_new; by rewrite Hbuf by auto|].
    runs_step. runs_step. apply Hreq. by left.
  - runs_step. eapply runs_lift; [unfold ShmemReq_new; by rewrite Hbuf by auto|].
    runs_step. runs_step. apply Hreq. by right.
  - apply inv_rep_runs; try done. lia.
  - apply flush_rep_runs; try done. lia.
  - apply wb_rep_runs; try done. lia.
Qed.

(** ** Runs of a directory controller *)

(** The network takes the packets of a handler when it returns. *)
Definition ds_taken (s : DirState) : DirState :=
  mkDir (ds_cache s) (ds_queue s) (ds_dram s) (ds_perf s) [].

Inductive dir_run (s0 : DirState) : list Event -> DirState -> Prop :=
  | run_start : dir_run s0 [] s0
  | run_message h s sender m s' :
      dir_run s0 h s -> legit h sender m -> has_room s m ->
      handleMsgFromL2Cache env (dir_fuel s m) sender m s = Ok (tt, s') ->
      dir_run s0 (h ++ Recv sender m :: (Sent <$> ds_sent s')) (ds_taken s').

(** A new controller: an empty directory of a scheme of the MSI protocol with
    room for [N] sharers, no requests, and DRAM not yet touched. *)
Record fresh_dir (s : DirState) : Prop := {
  fd_wf : dc_wf (ds_cache s);
  fd_empty a : untracked (ds_cache s) a;
  fd_scheme : dc_type (ds_cache s) <> LIMITED_BROADCAST;
  fd_sharers : 0 < dc_max_hw_sharers (ds_cache s) /\
               0 <= N <= dc_max_num_sharers (ds_cache s) /\ dc_max_num_sharers (ds_cache s) <= 2 ^ 15;
  fd_queue : ds_queue s = ∅;
  fd_dram : dr_data_map (ds_dram s) = ∅ /\ dr_cache_line_size (ds_dram s) = line_size /\
            64 <= line_size;
  fd_sent : ds_sent s = [] }.

Lemma fresh_dir_room s a : fresh_dir s -> room (ds_cache s) (msgs s) a.
Proof using.
  intros []. pose proof (proj1 (dw_assoc _ fd_wf0)) as Hi.
  destruct (slot_entry_ok (ds_cache s) fd_wf0 (dir_set (ds_cache s) a) 0)
    as (q & e & Hq & _ & He & _); [by apply dir_set_ok|done|].
  exists 0, q, e. split; [done|]. split; [done|]. split; [done|]. left.
  destruct (decide (de_address e = INVALID_ADDRESS)) as [?|Hne]; [done|].
  by destruct (fd_empty0 (de_address e) q e).
Qed.

Lemma fresh_dir_good s : fresh_dir s -> good None [] s.
Proof using.
  clear Hrand. intros []. assert (Hm : forall a, msgs s a = []).
  { intros a. unfold msgs, queue_of. by rewrite fd_queue0, lookup_empty. }
  split; [intros k l; by rewrite fd_queue0, lookup_empty|]. unfold log. rewrite fd_sent0. simpl.
  destruct fd_dram0 as (Hd & Hls & H64).
  assert (Hdw : dram_wf (ds_dram s)) by (split; [lia|]; intros b l; by rewrite Hd, lookup_empty).
  split; try done.
  - destruct (Sharers_create_repr (dc_cfg (ds_cache s)) (dc_type (ds_cache s))
      (dc_max_hw_sharers (ds_cache s)) (dc_max_num_sharers (ds_cache s))); try lia; [done|].
    split; [done|]. change (N <= max_tile (Sharers_create (dc_cfg (ds_cache s)) (dc_type (ds_cache s))
      (dc_max_hw_sharers (ds_cache s)) (dc_max_num_sharers (ds_cache s)))). lia.
  - intros b p e Ht. by apply fd_empty0 in Ht.
  - intros b _ _. unfold dram_line, value. by rewrite Hd, lookup_empty, Hls.
  - intros b. rewrite Hm. left. split_and!; [constructor|constructor|set_solver].
  - intros b. rewrite Hm. split; [by intros (? & ? & ? & _)|]. intros (p & e & Ht & _). by apply fd_empty0 in Ht.
  - intros b. by left.
  - intros b t ty. rewrite Hm. unfold waits. simpl. rewrite lookup_empty. split; [done|].
    by intros (x & ?%elem_of_nil & _).
  - intros l1 ev l2 E. by destruct l1.
Qed.

Lemma dir_run_good s0 h s : fresh_dir s0 -> dir_run s0 h s -> good None h s /\ ds_sent s = [].
Proof using Hrand.
  intros Hf Hrun. induction Hrun as [|h s sender m s' _ [IH Hsent] Hl Hroom E].
  - split; [by apply fresh_dir_good|by destruct Hf].
  - destruct (handle_runs h s sender m _ IH Hsent Hl Hroom (le_n _)) as (u & s2 & E' & Hg).
    rewrite E in E'. injection E' as _ <-. split; [|done]. destruct Hg as [Hq Hi]. split; [done|].
    unfold log in *. simpl. rewrite app_nil_r. by rewrite <- app_assoc in Hi.
Qed.

(** C13: the directory controller hands out permissions and data safely.  In
    every run of a controller, from its construction and over any messages of
    correct L2 caches, each exclusive reply is sent when no tile holds the
    line, each shared reply when no tile may write it (and not to a tile that
    already holds it); both answer a request of that kind that waits, and carry
    what was last written back to the directory, zeroes if nothing was.
    Invalidations go to holders of lines nobody may write, flush and write-back
    requests to the writer of a line, once until it answers; no other message
    is sent. *)
Theorem Directory_grants_justified s0 h s :
  fresh_dir s0 -> dir_run s0 h s -> history_ok line_size (env_tile env) h.
Proof using Hrand.
  intros Hf Hr. destruct (dir_run_good s0 h s Hf Hr) as [[_ Hi] Hs].
  pose proof (iv_hist _ _ _ _ _ _ _ Hi) as Hh. unfold log in Hh. rewrite Hs in Hh.
  by rewrite app_nil_r in Hh.
Qed.

(** C15: the directory's records are exact.  In every reachable state an entry
    is UNCACHED exactly when no tile holds the line, SHARED when several tiles
    may read it and none may write, MODIFIED when its owner alone holds it; an
    untracked line has no holders; a tile that may write is the only holder;
    and DRAM is up to date for every line without a writer. *)
Theorem Directory_matches_history s0 h s :
  fresh_dir s0 -> dir_run s0 h s ->
  (forall a p e, tracks (ds_cache s) a p e -> entry_ok N (perm h a) e) /\
  (forall a, untracked (ds_cache s) a -> perm h a = (∅, None)) /\
  (forall a t, (perm h a).2 = Some t -> (perm h a).1 = {[t]}) /\
  (forall a, (perm h a).2 = None -> dram_line (ds_dram s) a = value line_size h a).
Proof using Hrand.
  intros Hf Hr. destruct (dir_run_good s0 h s Hf Hr) as [[_ Hi] Hs].
  assert (Hlog : log h s = h) by (unfold log; rewrite Hs; apply app_nil_r). rewrite Hlog in Hi.
  pose proof Hi as []. split; [done|]. split; [done|]. split.
  - intros a t Hw. destruct (decide (perm h a = (∅, None))) as [E|E]; [by rewrite E in Hw|].
    destruct (decide (a = INVALID_ADDRESS)) as [->|Ha].
    { destruct E. apply iv_free. intros p e (_ & _ & ?). done. }
    destruct (getDirectoryEntry_spec (env_toPicosec env) (ds_cache s) (ds_perf s) a iv_wf Ha)
      as (r & c' & pm' & _ & _ & _ & Hres). destruct r as [p|].
    + destruct Hres as [(e & Ht & _)|(Hu & _)]; [|by destruct E; apply iv_free].
      destruct (iv_entry a p e Ht) as (_ & _ & Hd).
      destruct (de_dstate e); try done; destruct Hd as [Hd Hd']; try done.
      * destruct Hd' as [Hd' _]. congruence.
      * rewrite Hd in Hw |- *. simpl in *. congruence.
    + destruct Hres as [Hu _]. destruct E. by apply iv_free.
  - intros a. by apply iv_value.
Qed.

(** C14: while the directory has room, its controller never stops and its
    mutually recursive handlers terminate.  In every reachable state, every
    message of a correct L2 cache (a request for a line it neither holds nor
    waits for, the return of a permission it was granted, or the data it was
    asked for) is handled to the end, under one condition on the directory,
    [has_room]: where the message can make the controller allocate an entry, a
    way of the set is free or holds a line without queued requests.  Then no
    assertion fails and, with two calls per queued request and four more, the
    recursion through the queue does not run out of fuel.  The condition is
    needed: a request for which there is no room stops the simulator, as the
    theorem on exhausted sets below shows. *)
Theorem Directory_handles_every_message s0 h s sender m fuel :
  fresh_dir s0 -> dir_run s0 h s -> legit h sender m -> has_room s m -> (dir_fuel s m <= fuel)%nat ->
  exists s', handleMsgFromL2Cache env fuel sender m s = Ok (tt, s').
Proof using Hrand.
  intros Hf Hr Hl Hroom Hfuel. destruct (dir_run_good s0 h s Hf Hr) as [Hg Hs].
  destruct (handle_runs h s sender m fuel Hg Hs Hl Hroom Hfuel) as ([] & s' & E & _). by exists s'.
Qed.
(** ** What is sent *)

(** Receivers and messages of the packets of a handler. *)
Definition outbox (s : DirState) : list (Receiver * ShmemMsg) :=
  (fun pk => (pk_receiver pk, (pk_data pk).1)) <$> ds_sent s.

Lemma send_all_runs l m s :
  m_data_buf m = None -> m_data_length m = 0 ->
  runs (for_each l (fun t => sendMsg env (ToTile t) m)) s (fun _ s' =>
    outbox s' = outbox s ++ ((fun t => (ToTile t, m)) <$> l)).
Proof using.
  intros Hb Hn. revert s. induction l as [|t l IH]; intros s; simpl.
  { apply runs_ret. by rewrite app_nil_r. }
  runs_step. apply send_plain_runs; [done|done|]. intros tm. eapply runs_mono; [apply IH|].
  intros _ s' ->. unfold outbox at 1. simpl. rewrite fmap_app. simpl. by rewrite <- app_assoc.
Qed.

Lemma invalidate_all_runs s p e req a md S :
  dc_heap (ds_cache s) !! p = Some e -> repr (de_sharers e) S -> ds_sent s = [] ->
  runs (invalidate_sharers env p req a md) s (fun _ s' =>
    outbox s' = [(Broadcast, dir_msg INV_REQ req a md)] \/
    exists l, list_to_set l = S /\ NoDup l /\
      outbox s' = (fun t => (ToTile t, dir_msg INV_REQ req a md)) <$> l).
Proof using.
  intros He Hr Hs. destruct (list_law (de_sharers e) S Hr) as (all & l & sh & E & _ & _ & Hnd & _ & Hl).
  unfold invalidate_sharers. runs_step. apply (get_entry_runs p e); [done|].
  runs_step. eapply runs_lift; [exact E|]. runs_step. apply put_entry_runs. cbn beta iota.
  destruct all.
  - apply send_plain_runs; [done|done|]. intros t. left. unfold outbox. simpl. by rewrite Hs.
  - eapply runs_mono; [by apply send_all_runs|]. intros _ s' ->. right. exists l.
    split; [by apply Hl|]. split; [done|]. unfold outbox. simpl. by rewrite Hs.
Qed.

(** What a request finds at the directory, and what is sent for it. *)
Definition asked_back (w : Perm) (t : MsgType) (req a : Z) (md : bool)
    (out : list (Receiver * ShmemMsg)) : Prop :=
  match w.2 with
  | Some owner =>
      out = [(ToTile owner, dir_msg (if decide (t = EX_REQ) then FLUSH_REQ else WB_REQ) req a md)]
  | None =>
      out = [(Broadcast, dir_msg INV_REQ req a md)] \/
      exists l, list_to_set l = w.1 /\ NoDup l /\
        out = (fun t => (ToTile t, dir_msg INV_REQ req a md)) <$> l
  end.

Lemma request_asks_back h s r a p e fuel :
  good None h s -> ds_sent s = [] -> log h s = h ->
  tracks (ds_cache s) a p e -> m_address (rq_msg r) = a ->
  let req := m_requester (rq_msg r) in let md := m_modeled (rq_msg r) in
  ((perm h a).1 <> ∅ -> runs (processExReqFromL2Cache env (S fuel) r None) s
     (fun _ s' => asked_back (perm h a) EX_REQ req a md (outbox s'))) /\
  ((perm h a).2 <> None -> runs (processShReqFromL2Cache env (S fuel) r None) s
     (fun _ s' => asked_back (perm h a) SH_REQ req a md (outbox s'))).
Proof using.
  intros Hg Hs Hlog Ht Ha req md.
  assert (Hent : forall c pm, let s1 := ds_set_cache (c, pm) s in good None h s1 -> tracks c a p e ->
    entry_ok N (perm h a) e /\ dc_heap c !! p = Some e).
  { intros c pm s1 Hg1 Ht1. split; [|by destruct Ht1 as (? & _)].
    pose proof (iv_entry _ _ _ _ _ _ _ (proj2 Hg1) _ _ _ Ht1) as He.
    change (log h s1) with (log h s) in He. by rewrite Hlog in He. }
  assert (Hout : forall c pm pk, outbox (ds_send pk (ds_set_cache (c, pm) s)) =
    [(pk_receiver pk, (pk_data pk).1)]) by (intros c pm pk; unfold outbox; simpl; by rewrite Hs).
  split; intros Hw; [cbn [processExReqFromL2Cache]|cbn [processShReqFromL2Cache]]; rewrite Ha; runs_step;
    apply (lookup_tracked_runs env N None h s a p e); try done; intros c pm s1 Hg1 Ht1 Hs1;
    destruct (Hent c pm Hg1 Ht1) as [(Hr & _ & Hd) Hp]; runs_step; runs_step;
    apply (get_entry_runs p e); try done; cbn beta; destruct (de_dstate e) eqn:Ed; try done.
  - destruct Hd as [Hd _]. by rewrite Hd in Hw.
  - runs_step. apply runs_assert; [done|]. unfold asked_back. destruct Hd as (_ & -> & _).
    by apply (invalidate_all_runs s1 p e).
  - runs_step. apply runs_assert; [done|]. destruct Hd as [Hd _]. unfold asked_back. rewrite Hd.
    apply send_plain_runs; [done|done|]. intros t. subst s1. by rewrite Hout.
  - destruct Hd as [Hd _]. by rewrite Hd in Hw.
  - destruct Hd as (_ & Hd & _). by rewrite Hd in Hw.
  - runs_step. apply runs_assert; [done|]. destruct Hd as [Hd _]. unfold asked_back. rewrite Hd.
    apply send_plain_runs; [done|done|]. intros t. subst s1. by rewrite Hout.
Qed.
(** A request that finds its queue empty is served at once. *)
Lemma handle_request_eq h s sender m fuel :
  good None h s -> ds_sent s = [] -> m_address m <> INVALID_ADDRESS -> 0 <= sender < N ->
  asks h sender m -> (m_type m = EX_REQ \/ m_type m = SH_REQ) -> msgs s (m_address m) = [] ->
  exists t s2,
    handleMsgFromL2Cache env fuel sender m s =
      (if decide (m_type m = EX_REQ) then processExReqFromL2Cache env fuel (mkReq m t) None
       else processShReqFromL2Cache env fuel (mkReq m t) None) s2 /\
    good None (h ++ [Recv sender m]) s2 /\ ds_cache s2 = ds_cache s /\ ds_sent s2 = [] /\
    (forall b, msgs s2 b = if decide (b = m_address m) then [m] else msgs s b).
Proof using.
  intros Hg Hsent Ha Hrange Hl Hty Hm.
  set (s1 := ds_set_perf (incrCurrTime (if sender =? env_tile env then env_delay_L2 env
               else env_delay_network env) (ds_perf s)) s).
  set (t := pm_curr_time (ds_perf s1)).
  destruct (request_enqueued h s1 sender m t) as (Hg2 & Hnorm & Hms); [done..|].
  set (s2 := ds_set_queue (enqueue (ds_queue s1) (m_address m) (mkReq m t)) s1) in *.
  assert (Hbuf : m_data_buf m = None) by (by destruct Hnorm as (_ & _ & ? & _)).
  assert (Hc : count (ds_queue s2) (m_address m) = 1).
  { rewrite count_msgs, Hms, decide_True by done. change (msgs s1) with (msgs s). by rewrite Hm. }
  exists t, s2. split; [|split_and!; [done|done|done|]].
  - unfold handleMsgFromL2Cache. run. fold s1. run. fold t.
    assert (Hnew : ShmemReq_new m t = Ok (mkReq m t)) by (unfold ShmemReq_new; by rewrite Hbuf).
    destruct Hty as [E|E]; rewrite E; rewrite (lift_run _ _ _ _ Hnew); run; fold s2; by rewrite Hc.
  - intros b. rewrite Hms. change (msgs s1) with (msgs s). case_decide as Hb; [|done]. subst b. by rewrite Hm.
Qed.

(** C16: a request for a line held elsewhere asks exactly its holders.  When an
    exclusive request reaches a line with readers, the only packets sent are
    invalidations to every one of them (or one broadcast); when a request
    reaches a line with a writer, the only packet is a flush request (for an
    exclusive request) or a write-back request (for a shared one) to it. *)
Theorem Directory_asks_holders s0 h s sender m p e :
  fresh_dir s0 -> dir_run s0 h s -> legit h sender m -> msgs s (m_address m) = [] ->
  tracks (ds_cache s) (m_address m) p e ->
  (m_type m = EX_REQ /\ (perm h (m_address m)).1 <> ∅) \/
  (m_type m = SH_REQ /\ (perm h (m_address m)).2 <> None) ->
  exists s', handleMsgFromL2Cache env (dir_fuel s m) sender m s = Ok (tt, s') /\
    asked_back (perm h (m_address m)) (m_type m) sender (m_address m) (m_modeled m) (outbox s').
Proof using Hrand.
  intros Hf Hr Hl Hm Ht Hcase. destruct (dir_run_good s0 h s Hf Hr) as [Hg Hs].
  assert (Hty : m_type m = EX_REQ \/ m_type m = SH_REQ) by (clear Hrand; naive_solver).
  destruct (legit_asks h sender m Hl Hty) as (Ha & Hrg & Has). pose proof Has as (Hreq & _).
  destruct (handle_request_eq h s sender m (dir_fuel s m) Hg Hs Ha Hrg Has Hty Hm) as (t & s2 & -> & Hg2 & Hc & Hs2 & _).
  assert (Hperm : perm (h ++ [Recv sender m]) (m_address m) = perm h (m_address m)).
  { rewrite perm_snoc. apply neutral_perm. simpl. by destruct Hty as [-> | ->]. }
  assert (Hlog : log (h ++ [Recv sender m]) s2 = h ++ [Recv sender m])
    by (unfold log; rewrite Hs2; apply app_nil_r).
  destruct (request_asks_back _ s2 (mkReq m t) (m_address m) p e (2 * length (msgs s (m_address m)) + 3)
    Hg2 Hs2 Hlog) as [Hx Hsh]; [by rewrite Hc|done|].
  rewrite Hperm in Hx, Hsh. cbn [rq_msg] in Hx, Hsh. rewrite Hreq in Hx, Hsh. unfold dir_fuel.
  replace (2 * length (msgs s (m_address m)) + 4)%nat with (S (2 * length (msgs s (m_address m)) + 3)) by lia.
  destruct Hcase as [[E Hw]|[E Hw]]; rewrite E; [rewrite decide_True by done|rewrite decide_False by done].
  - destruct (Hx Hw) as ([] & s' & E' & Hout). by exists s'.
  - destruct (Hsh Hw) as ([] & s' & E' & Hout). by exists s'.
Qed.

(** C17: the entry evicted to make room is idle (no request is queued for its
    address) and has the fewest sharers of the idle entries of the set; there
    is none exactly when every candidate has requests queued. *)
Theorem Directory_evicts_idle_fewest s0 h s l :
  fresh_dir s0 -> dir_run s0 h s -> (forall p, p ∈ l -> exists a e, tracks (ds_cache s) a p e) ->
  exists r, pick_candidate l None s = Ok (r, s) /\
    match r with
    | Some b => b ∈ l /\ idle s b /\
        forall p n k, p ∈ l -> idle s p -> sharer_count s p n -> sharer_count s b k -> k <= n
    | None => forall p, p ∈ l -> ~ idle s p
    end.
Proof using Hrand.
  intros Hf Hr Hl. destruct (dir_run_good s0 h s Hf Hr) as [Hg Hs].
  destruct (pick_candidate_runs s l None) as (r & s' & E & -> & Hres).
  - intros p Hp. destruct (Hl p Hp) as (a & e & Ht). by eapply tracked_count.
  - done.
  - exists r. split; [done|]. destruct r as [b|]; [|apply Hres].
    destruct Hres as (Hi & [?|Hin] & Hmin); [done|]. split; [done|]. split; [done|].
    intros p n k Hp Hip. apply Hmin; [by right|done].
Qed.

Lemma err_bind {S A B} (m : ST S A) (f : A -> ST S B) s x : m s = Err x -> (m ≫= f) s = Err x.
Proof using. intros E. unfold mbind, ST_bind. by rewrite E. Qed.

Lemma exhausted_stops h s a r fuel (K : Z -> DM unit) :
  good None h s -> a <> INVALID_ADDRESS -> m_address (rq_msg r) = a ->
  untracked (ds_cache s) a -> set_full (ds_cache s) (dir_set (ds_cache s) a) ->
  ~ room (ds_cache s) (msgs s) a ->
  (entry ← dcache (getDirectoryEntry (env_toPicosec env) a);
   p ← match entry with
       | Some p => mret p
       | None => processDirectoryEntryAllocationReq env (S fuel) r
       end; K p) s = Err LogError.
Proof using.
  intros Hg Ha Hra Hu Hfull Hno. pose proof (iv_wf _ _ _ _ _ _ _ (proj2 Hg)) as Hwf.
  destruct (getDirectoryEntry_spec (env_toPicosec env) (ds_cache s) (ds_perf s) a Hwf Ha)
    as (res & c1 & pm1 & E1 & _ & _ & Hres).
  assert (res = None) as ->.
  { destruct res as [p|]; [exfalso|done]. destruct Hres as [(e & Ht & _)|(_ & Hp & (i & Hi & Hs) & _)].
    - by apply Hu in Ht.
    - destruct (Hfull i Hi) as (q & e & Hq & He & Hne). assert (q = p) as -> by congruence.
      rewrite Hp in He. by injection He as <-. }
  destruct Hres as (_ & Hs1 & _).
  assert (E : dcache (getDirectoryEntry (env_toPicosec env) a) s = Ok (None, ds_set_cache (c1, pm1) s))
    by (unfold dcache, on_part; by rewrite E1).
  rewrite (st_bind_run _ _ _ _ _ E). apply err_bind.
  set (s1 := ds_set_cache (c1, pm1) s). assert (Hg1 : good None h s1) by (by apply good_same_cache).
  pose proof (iv_wf _ _ _ _ _ _ _ (proj2 Hg1)) as Hwf1. pose proof Hs1 as (Hcfg & Hh & _ & Hl & _).
  assert (Hslot : forall i, slot_entry c1 (dir_set c1 a) i = slot_entry (ds_cache s) (dir_set (ds_cache s) a) i).
  { intros i. unfold slot_entry. by rewrite Hl, (config_slot _ _ _ _ Hcfg), (config_set _ _ _ Hcfg). }
  assert (Has : dc_associativity c1 = dc_associativity (ds_cache s)) by (by injection Hcfg as _ _ _ _ -> _ _ _).
  destruct (getReplacementCandidates_spec (env_toPicosec env) c1 pm1 a Hwf1 Ha)
    as (l & c2 & pm2 & E2 & Hs2 & _ & _ & Hcand).
  { intros p e Ht. apply (Hu p e). by apply (same_entries_tracks _ _ _ _ _ Hs1). }
  { intros i Hi. rewrite Hslot, Hh. apply Hfull. by rewrite <- Has. }
  assert (Hways : forall p, p ∈ l -> exists i e, 0 <= i < dc_associativity (ds_cache s) /\
    slot_entry (ds_cache s) (dir_set (ds_cache s) a) i = Ok p /\ tracks (ds_cache s) (de_address e) p e).
  { intros p (i & Hi & Hp)%Hcand. rewrite Has in Hi. rewrite Hslot in Hp.
    destruct (Hfull i Hi) as (q & e & Hq & He & Hne). assert (q = p) as -> by congruence.
    exists i, e. done. }
  assert (Hheap : dc_heap c2 = dc_heap (ds_cache s)) by (destruct Hs2 as (_ & -> & _); done).
  set (s2 := ds_set_cache (c2, pm2) s1).
  assert (Hg2 : good None h s2) by (by apply (good_same_cache env N None h s1)).
  destruct (pick_candidate_runs s2 l None) as (best & s3 & E3 & -> & Hb); [|done|].
  { intros p (i & e & _ & _ & Ht)%Hways. apply (tracked_count env N None h s2 (de_address e) p e Hg2).
    unfold tracks. simpl. by rewrite Hheap. }
  cbn [processDirectoryEntryAllocationReq]. rewrite Hra. run.
  assert (E4 : dcache (getReplacementCandidates (env_toPicosec env) a) s1 = Ok (l, s2))
    by (unfold dcache, on_part; simpl; by rewrite E2).
  rewrite (st_bind_run _ _ _ _ _ E4), (st_bind_run _ _ _ _ _ E3).
  destruct best as [b|]; [exfalso|done]. destruct Hb as ((e & He & Hcount) & [?|Hin] & _); [done|].
  simpl in He. rewrite Hheap in He. apply Hno. destruct (Hways b Hin) as (i & e' & Hi & Hp & (He' & _)).
  exists i, b, e. split; [done|]. split; [done|]. split; [done|]. right.
  rewrite count_msgs in Hcount. change (msgs s2) with (msgs s) in Hcount.
  by destruct (msgs s (de_address e)).
Qed.

(** C18: a request stops the simulator when its set is full and every way of it
    has requests queued: [LOG_ASSERT_ERROR] in
    [processDirectoryEntryAllocationReq].  This is the one way a message of a
    correct L2 cache can stop the controller. *)
Theorem Directory_set_exhausted s0 h s sender m fuel :
  fresh_dir s0 -> dir_run s0 h s ->
  m_address m <> INVALID_ADDRESS -> 0 <= sender < N -> asks h sender m ->
  (m_type m = EX_REQ \/ m_type m = SH_REQ) -> 
  untracked (ds_cache s) (m_address m) -> msgs s (m_address m) = [] ->
  set_full (ds_cache s) (dir_set (ds_cache s) (m_address m)) ->
  ~ room (ds_cache s) (msgs s) (m_address m) ->
  handleMsgFromL2Cache env (S (S fuel)) sender m s = Err LogError.
Proof using Hrand.
  intros Hf Hr Ha Hrg Has Hty Hu Hm Hfull Hno. destruct (dir_run_good s0 h s Hf Hr) as [Hg Hs].
  destruct (handle_request_eq h s sender m (S (S fuel)) Hg Hs Ha Hrg Has Hty Hm)
    as (t & s2 & -> & Hg2 & Hc & _ & Hms).
  assert (Hstop : forall K : Z -> DM unit,
    (entry ← dcache (getDirectoryEntry (env_toPicosec env) (m_address m));
     p ← match entry with
         | Some p => mret p
         | None => processDirectoryEntryAllocationReq env (S fuel) (mkReq m t)
         end; K p) s2 = Err LogError).
  { intros K. apply (exhausted_stops (h ++ [Recv sender m])); rewrite ?Hc; try done.
    intros (i & q & e & Hi & Hq & He & Hor). apply Hno. exists i, q, e.
    do 3 (split; [done|]). destruct Hor as [?|Hor]; [by left|right].
    rewrite Hms in Hor. by case_decide. }
  case_decide; apply Hstop.
Qed.
End protocol.

(** ** A concrete run: tile 1 writes a line and gives it back *)

Definition ex_env : DirEnv :=
  mkDirEnv 0 64 (fun cycles => cycles * 1000) 0 0 (fun _ => 100) (fun n => n - 1).
Definition ex_cache : DirectoryCache :=
  match example_directory with Ok c => c | Err _ => mkDC ∅ 0 [] [] [] (mkDirConfig 0 0) FULL_MAP 0 0 0 0 0 0 0 0 false 0 0 0 end.
Definition ex_dir : DirState := mkDir ex_cache ∅ (mkDram ∅ 64 [] true ∅ ∅) (mkPerf 0 true) [].
Definition ex_request : ShmemMsg :=
  ShmemMsg_new EX_REQ MC_L2_CACHE MC_DRAM_DIRECTORY 1 0x1000 true.
Definition ex_flush : ShmemMsg :=
  ShmemMsg_data FLUSH_REP MC_L2_CACHE MC_DRAM_DIRECTORY 1 0x1000 (Some (replicate 64 7)) 64 true.

Lemma ex_rand : forall n, 0 < n -> 0 <= env_rand ex_env n < n.
Proof. simpl. lia. Qed.

Lemma ex_fresh : fresh_dir ex_env 4 ex_dir.
Proof.
  assert (E : example_directory = Ok ex_cache) by (by vm_compute).
  destruct (DirectoryCache_new_wf (mkDirConfig 4 0) "full_map" 2 2 512 4 6 2 4 1 None ex_cache) as [Hwf Hno];
    [exact E|lia|lia|split; by vm_compute|lia|lia|].
  split; done.
Qed.

Lemma ex_legit : legit ex_env 4 [] 1 ex_request /\ has_room ex_dir ex_request.
Proof.
  split; [split; [done|]; split; [by vm_compute|]; split; [done|]; split; [done|]; split|].
  - set_solver.
  - done.
  - intros _ _. apply (fresh_dir_room ex_env 4), ex_fresh.
Qed.

Lemma Directory_handles_witness :
  exists s', handleMsgFromL2Cache ex_env 4 1 ex_request ex_dir = Ok (tt, s').
Proof.
  apply (Directory_handles_every_message ex_env 4 ex_rand ex_dir [] ex_dir 1 ex_request 4).
  - exact ex_fresh.
  - apply run_start.
  - apply ex_legit.
  - apply ex_legit.
  - apply (bool_decide_unpack _). by vm_compute.
Defined.

(** The states and the history of the run. *)
Definition ex_step (s : DirState) (m : ShmemMsg) : DirState :=
  match handleMsgFromL2Cache ex_env (dir_fuel s m) 1 m s with Ok (_, s') => s' | Err _ => s end.
Definition ex_granted : DirState := ex_step ex_dir ex_request.
Definition ex_history : list Event := Recv 1 ex_request :: (Sent <$> ds_sent ex_granted).

Lemma ex_run : dir_run ex_env 4 ex_dir ex_history (ds_taken ex_granted).
Proof.
  apply (run_message ex_env 4 ex_dir [] ex_dir 1 ex_request ex_granted);
    [apply run_start|apply ex_legit|apply ex_legit|by vm_compute].
Qed.

Lemma ex_perm : perm ex_history 0x1000 = ({[1]}, Some 1).
Proof. by vm_compute. Qed.

Lemma ex_flush_run :
  dir_run ex_env 4 ex_dir
    (ex_history ++ Recv 1 ex_flush :: (Sent <$> ds_sent (ex_step (ds_taken ex_granted) ex_flush)))
    (ds_taken (ex_step (ds_taken ex_granted) ex_flush)).
Proof.
  apply (run_message ex_env 4 ex_dir ex_history (ds_taken ex_granted) 1 ex_flush);
    [exact ex_run| | |by vm_compute].
  { split; [done|]. split; [by vm_compute|]. change (m_type ex_flush) with FLUSH_REP. cbn iota.
    change (m_address ex_flush) with 0x1000. rewrite ex_perm. split; [done|]. by exists (replicate 64 7). }
  intros m rest E _ _. exfalso. vm_compute in E. discriminate E.
Qed.

Lemma Directory_grants_witness :
  history_ok 64 0
    (ex_history ++ Recv 1 ex_flush :: (Sent <$> ds_sent (ex_step (ds_taken ex_granted) ex_flush))).
Proof.
  exact (Directory_grants_justified ex_env 4 ex_rand ex_dir _ _ ex_fresh ex_flush_run).
Defined.

(** After the flush no tile holds the line and DRAM has the written bytes. *)
Lemma Directory_matches_witness :
  dram_line (ds_dram (ex_step (ds_taken ex_granted) ex_flush)) 0x1000 = replicate 64 7.
Proof.
  destruct (Directory_matches_history ex_env 4 ex_rand ex_dir _ _ ex_fresh ex_flush_run) as (_ & _ & _ & Hv).
  transitivity (value 64 (ex_history ++ Recv 1 ex_flush ::
    (Sent <$> ds_sent (ex_step (ds_taken ex_granted) ex_flush))) 0x1000).
  - apply (Hv 0x1000). by vm_compute.
  - by vm_compute.
Defined.

(** ** Deciding the conditions of a request *)

(** An entry of the set of [a] for which [f] holds of its address. *)
Definition some_way (c : DirectoryCache) (a : Z) (f : Z -> bool) : bool :=
  existsb (fun i =>
    match slot_entry c (dir_set c a) i with
    | Ok q => match dc_heap c !! q with Some e => f (de_address e) | None => false end
    | Err _ => false
    end) (seqZ 0 (dc_associativity c)).

Lemma some_way_true c a f :
  some_way c a f = true <-> exists i q e, 0 <= i < dc_associativity c /\
    slot_entry c (dir_set c a) i = Ok q /\ dc_heap c !! q = Some e /\ f (de_address e) = true.
Proof.
  unfold some_way. rewrite existsb_exists. setoid_rewrite <- list_elem_of_In. setoid_rewrite elem_of_seqZ.
  split.
  - intros (i & Hi & Hf). destruct (slot_entry c (dir_set c a) i) as [q|] eqn:Eq; [|done].
    destruct (dc_heap c !! q) as [e|] eqn:Ee; [|done]. exists i, q, e. split; [lia|done].
  - intros (i & q & e & Hi & Hq & He & Hf). exists i. split; [lia|]. by rewrite Hq, He.
Qed.

Definition room_b (s : DirState) (a : Z) : bool :=
  some_way (ds_cache s) a (fun b => (b =? INVALID_ADDRESS) || bool_decide (msgs s b = [])).

Lemma room_b_spec s a : room_b s a = true <-> room (ds_cache s) (msgs s) a.
Proof.
  unfold room_b, room. rewrite some_way_true. setoid_rewrite orb_true_iff.
  setoid_rewrite Z.eqb_eq. by setoid_rewrite bool_decide_eq_true.
Qed.

Definition asks_b (N : Z) (h : list Event) (sender : Z) (m : ShmemMsg) : bool :=
  negb (m_address m =? INVALID_ADDRESS) && (0 <=? sender) && (sender <? N) &&
  (m_requester m =? sender) && is_null (m_data_buf m) &&
  bool_decide (sender ∉ (perm h (m_address m)).1) &&
  bool_decide (waits h (m_address m) !! sender = None) &&
  bool_decide (m_type m = EX_REQ \/ m_type m = SH_REQ).

Lemma asks_b_ok N h sender m :
  asks_b N h sender m = true ->
  m_address m <> INVALID_ADDRESS /\ 0 <= sender < N /\ asks h sender m /\
  (m_type m = EX_REQ \/ m_type m = SH_REQ).
Proof.
  unfold asks_b. intros H. bool_facts. rewrite !bool_decide_eq_true in *.
  repeat match goal with H : bool_decide _ = true |- _ => apply bool_decide_eq_true in H end.
  split; [done|]. split; [lia|]. split; [|done]. split; [done|].
  split; [by destruct (m_data_buf m)|]. by split.
Qed.

(** Serving a list of requests in order. *)
Fixpoint drive (env : DirEnv) (N : Z) (l : list ShmemMsg) (h : list Event) (s : DirState)
    : option (list Event * DirState) :=
  match l with
  | [] => Some (h, s)
  | m :: l' =>
      if asks_b N h (m_requester m) m && room_b s (m_address m) then
        match handleMsgFromL2Cache env (dir_fuel s m) (m_requester m) m s with
        | Ok (_, s') => drive env N l' (h ++ Recv (m_requester m) m :: (Sent <$> ds_sent s')) (ds_taken s')
        | Err _ => None
        end
      else None
  end.

Lemma drive_run env N s0 l h s h' s' :
  dir_run env N s0 h s -> drive env N l h s = Some (h', s') -> dir_run env N s0 h' s'.
Proof.
  revert h s. induction l as [|m l IH]; intros h s Hr; simpl; [by intros [= <- <-]|].
  destruct (asks_b N h (m_requester m) m && room_b s (m_address m)) eqn:E; [|done].
  apply andb_prop in E as [(Ha & Hrg & Has & Hty)%asks_b_ok Hroom%room_b_spec].
  destruct (handleMsgFromL2Cache _ _ _ _ _) as [[[] s1]|] eqn:Eh; [|done]. apply IH.
  apply (run_message env N s0 h s); [done| | |done].
  - split; [done|]. split; [done|]. by destruct Hty as [-> | ->].
  - unfold has_room. destruct Hty as [-> | ->]; by intros _ _.
Qed.

(** Lines 0x1000, 0x1140 and 0x1280 fall in one set of two ways; tiles 1 and 2
    contend for the first two. *)
Definition ex_ex (t a : Z) : ShmemMsg := ShmemMsg_new EX_REQ MC_L2_CACHE MC_DRAM_DIRECTORY t a true.
Definition ex_requests : list ShmemMsg := [ex_ex 1 0x1000; ex_ex 2 0x1000; ex_ex 1 0x1140; ex_ex 2 0x1140].
Definition ex_busy : list Event * DirState :=
  match drive ex_env 4 ex_requests [] ex_dir with
  | Some r => r
  | None => ([], ex_dir)
  end.

Lemma ex_busy_run : dir_run ex_env 4 ex_dir ex_busy.1 ex_busy.2.
Proof.
  assert (E : drive ex_env 4 ex_requests [] ex_dir = Some ex_busy) by (vm_compute; reflexivity).
  apply (drive_run ex_env 4 ex_dir ex_requests [] ex_dir ex_busy.1 ex_busy.2 (run_start _ _ _)).
  rewrite E. apply f_equal, surjective_pairing.
Qed.

Definition untracked_b (c : DirectoryCache) (a : Z) : bool :=
  forallb (fun pe => negb (de_address pe.2 =? a)) (map_to_list (dc_heap c)).

Lemma untracked_b_ok c a : untracked_b c a = true -> untracked c a.
Proof.
  unfold untracked_b. rewrite forallb_forall. intros Hf p e (He & Ha & _).
  specialize (Hf (p, e)). rewrite <- list_elem_of_In, elem_of_map_to_list in Hf.
  specialize (Hf He). simpl in Hf. bool_facts. done.
Qed.

Definition set_full_b (c : DirectoryCache) (a : Z) : bool :=
  negb (some_way c a (fun b => b =? INVALID_ADDRESS)).

Lemma set_full_b_ok c a : dc_wf c -> set_full_b c a = true -> set_full c (dir_set c a).
Proof.
  unfold set_full_b. intros Hwf Hn i Hi. bool_facts.
  destruct (slot_entry_ok c Hwf (dir_set c a) i) as (q & e & Hq & _ & He & _); [by apply dir_set_ok|done|].
  exists q, e. split; [done|]. split; [done|]. intros Hinv.
  assert (Ht : some_way c a (fun b => b =? INVALID_ADDRESS) = true); [|congruence].
  apply some_way_true. exists i, q, e. do 3 (split; [done|]). by apply Z.eqb_eq.
Qed.

Lemma Directory_exhausted_witness :
  handleMsgFromL2Cache ex_env 2 3 (ex_ex 3 0x1280) ex_busy.2 = Err LogError.
Proof.
  pose proof (proj1 (dir_run_good ex_env 4 ex_rand ex_dir _ _ ex_fresh ex_busy_run)) as Hg.
  apply (Directory_set_exhausted ex_env 4 ex_rand ex_dir ex_busy.1 ex_busy.2 3 (ex_ex 3 0x1280) 0
    ex_fresh ex_busy_run).
  - done.
  - lia.
  - apply (asks_b_ok 4). by vm_compute.
  - by left.
  - apply untracked_b_ok. by vm_compute.
  - by vm_compute.
  - apply set_full_b_ok; [exact (iv_wf _ _ _ _ _ _ _ (proj2 Hg))|by vm_compute].
  - rewrite <- room_b_spec. by vm_compute.
Defined.

(** Tile 2 asks for the line tile 1 may write. *)
Lemma Directory_asks_witness :
  exists s', handleMsgFromL2Cache ex_env 4 2 (ex_ex 2 0x1000) (ds_taken ex_granted) = Ok (tt, s') /\
    outbox s' = [(ToTile 1, dir_msg FLUSH_REQ 2 0x1000 true)].
Proof.
  destruct (dc_heap (ds_cache ex_granted) !! 2) as [e|] eqn:Ee; [|by vm_compute in Ee].
  destruct (Directory_asks_holders ex_env 4 ex_rand ex_dir ex_history (ds_taken ex_granted) 2
    (ex_ex 2 0x1000) 2 e ex_fresh ex_run) as (s' & E & Hout).
  - destruct (asks_b_ok 4 ex_history 2 (ex_ex 2 0x1000)) as (H1 & H2 & H3 & _); [by vm_compute|].
    split; [exact H1|]. split; [exact H2|exact H3].
  - by vm_compute.
  - vm_compute in Ee. injection Ee as <-. split; [by vm_compute|]. by vm_compute.
  - left. split; [done|]. by vm_compute.
  - exists s'. split; [exact E|]. change (m_address (ex_ex 2 0x1000)) with 0x1000 in Hout.
    unfold asked_back in Hout. rewrite ex_perm in Hout. exact Hout.
Defined.

Lemma Directory_evicts_witness :
  exists r, pick_candidate [2] None (ds_taken ex_granted) = Ok (r, ds_taken ex_granted) /\ r = Some 2.
Proof.
  destruct (Directory_evicts_idle_fewest ex_env 4 ex_rand ex_dir ex_history (ds_taken ex_granted) [2]
    ex_fresh ex_run) as (r & E & Hr).
  - intros p ->%list_elem_of_singleton.
    destruct (dc_heap (ds_cache ex_granted) !! 2) as [e|] eqn:Ee; [|by vm_compute in Ee].
    exists 0x1000, e. vm_compute in Ee. injection Ee as <-. split; [by vm_compute|]. by vm_compute.
  - exists r. split; [exact E|]. vm_compute in E. by injection E as <-.
Defined.
