(* ===== verification/Tile.v ===== *)
(** * The private caches of a tile:
    pr_l1_pr_l2_dram_directory_msi/{l1_cache_cntlr,l2_cache_cntlr,memory_manager}.cc
    and [MemoryManager::__coreInitiateMemoryAccess]/[__handleMsgFromNetwork] of
    memory_subsystem/memory_manager.cc

    A tile has an L1 instruction cache, a write-through L1 data cache and an
    inclusive L2 cache.  The core's accesses are served by the L1 controller;
    misses go through the L2 controller to the directory of the line's home
    tile, whose requests and replies the L2 controller handles.  The routines
    of the source run on [TileState]; messages they send are appended to
    [ts_sent].  The application thread and the simulation thread of a tile run
    one at a time under the tile's lock: a core access that misses waits until
    the reply has been handled, and continues before any other message. *)

From S2P Require Import Prelude Utils CacheLine Replacement CacheSet Cache CachePerf Shmem DirEntry DirCache DirCntlr.

(** ** State *)

Record TileState : Type := mkTile {
  ts_icache : CacheUnit CacheLineInfo;
  ts_dcache : CacheUnit CacheLineInfo;
  ts_l2 : CacheUnit PrL2CacheLineInfo;
  ts_out_address : Z;                    (* _outstanding_shmem_msg *)
  ts_out_component : MemComponent;
  ts_out_time : Z;                       (* _outstanding_shmem_msg_time *)
  ts_perf : ShmemPerfModel;
  ts_sent : list Packet }.

Definition ts_set_icache (u : CacheUnit CacheLineInfo) (s : TileState) : TileState :=
  mkTile u (ts_dcache s) (ts_l2 s) (ts_out_address s) (ts_out_component s) (ts_out_time s)
    (ts_perf s) (ts_sent s).
Definition ts_set_dcache (u : CacheUnit CacheLineInfo) (s : TileState) : TileState :=
  mkTile (ts_icache s) u (ts_l2 s) (ts_out_address s) (ts_out_component s) (ts_out_time s)
    (ts_perf s) (ts_sent s).
Definition ts_set_l2 (u : CacheUnit PrL2CacheLineInfo) (s : TileState) : TileState :=
  mkTile (ts_icache s) (ts_dcache s) u (ts_out_address s) (ts_out_component s) (ts_out_time s)
    (ts_perf s) (ts_sent s).
Definition ts_set_out (address : Z) (mc : MemComponent) (time : Z) (s : TileState) : TileState :=
  mkTile (ts_icache s) (ts_dcache s) (ts_l2 s) address mc time (ts_perf s) (ts_sent s).
Definition ts_set_perf (p : ShmemPerfModel) (s : TileState) : TileState :=
  mkTile (ts_icache s) (ts_dcache s) (ts_l2 s) (ts_out_address s) (ts_out_component s)
    (ts_out_time s) p (ts_sent s).
Definition ts_send (p : Packet) (s : TileState) : TileState :=
  mkTile (ts_icache s) (ts_dcache s) (ts_l2 s) (ts_out_address s) (ts_out_component s)
    (ts_out_time s) (ts_perf s) (ts_sent s ++ [p]).

Abbreviation TM := (ST TileState).

(** What the controllers read of their environment: the tile, the line size,
    the homes of the lines, the clock domains of the modules and whether the
    tile runs application threads. *)
Record TileEnv : Type := mkTileEnv {
  te_tile : Z;
  te_line_size : Z;
  te_home : AddressHomeLookup;
  te_domain : module_t -> Z;
  te_application : bool }.

Inductive lock_signal_t : Type := NONE | LOCK | UNLOCK.     (* Core::lock_signal_t *)

#[export] Instance lock_signal_eq_dec : EqDecision lock_signal_t.
Proof. solve_decision. Defined.

Section Tile.
Context (env : TileEnv).

(** ** Access to the components *)

Definition getL1Cache (mc : MemComponent) : TM (CacheUnit CacheLineInfo) :=
  match mc with
  | MC_L1_ICACHE => gets ts_icache
  | MC_L1_DCACHE => gets ts_dcache
  | _ => stop LogError
  end.

Definition put_l1 (mc : MemComponent) (u : CacheUnit CacheLineInfo) : TM unit :=
  match mc with
  | MC_L1_ICACHE => modify (ts_set_icache u)
  | MC_L1_DCACHE => modify (ts_set_dcache u)
  | _ => stop LogError
  end.

(** A call of an operation of an L1 cache and of the L2 cache. *)
Definition on_l1 {A} (mc : MemComponent)
    (f : Cache CacheLineInfo Policy -> result (Cache CacheLineInfo Policy * A)) : TM A :=
  u ← getL1Cache mc;
  '(c, a) ← lift (f (u_cache u));
  _ ← put_l1 mc (u_set_cache c u);
  mret a.
Definition on_l2 {A}
    (f : Cache PrL2CacheLineInfo Policy -> result (Cache PrL2CacheLineInfo Policy * A)) : TM A :=
  u ← gets ts_l2;
  '(c, a) ← lift (f (u_cache u));
  _ ← modify (ts_set_l2 (u_set_cache c u));
  mret a.

(** An operation that returns nothing. *)
Definition no_result {C} (r : result C) : result (C * unit) :=
  c ← r; Ok (c, tt).

Definition incr_time (t : Z) : TM unit :=
  modify (fun s => ts_set_perf (incrCurrTime t (ts_perf s)) s).

(** [MemoryManager::incrCurrTime] *)
Definition mm_incrCurrTime (mc : MemComponent) (access : PerfAccess) : TM unit :=
  match mc with
  | MC_L1_ICACHE => u ← gets ts_icache; t ← lift (cp_getLatency (u_perf u) access); incr_time t
  | MC_L1_DCACHE => u ← gets ts_dcache; t ← lift (cp_getLatency (u_perf u) access); incr_time t
  | MC_L2_CACHE => u ← gets ts_l2; t ← lift (cp_getLatency (u_perf u) access); incr_time t
  | MC_INVALID => mret tt
  | _ => stop LogError
  end.

(** [MemoryManager::sendMsg] *)
Definition mm_sendMsg (receiver : Z) (m : ShmemMsg) : TM unit :=
  perf ← gets ts_perf;
  pk ← lift (makePacket (te_tile env) perf (ToTile receiver) m);
  _ ← (if receiver =? te_tile env then mret INVALID_MODULE
       else lift (convertToModule (m_sender m)));
  modify (ts_send pk).

(** [getShmemPerfModel()->incrCurrTime(cache->getSynchronizationDelay(m))] *)
Definition l1_sync (mc : MemComponent) (m : module_t) : TM unit :=
  u ← getL1Cache mc;
  let '(t, u) := getSynchronizationDelay (te_domain env) m u in
  _ ← put_l1 mc u;
  incr_time t.
Definition l2_sync (m : module_t) : TM unit :=
  u ← gets ts_l2;
  let '(t, u) := getSynchronizationDelay (te_domain env) m u in
  _ ← modify (ts_set_l2 u);
  incr_time t.

(** ** L1CacheCntlr: one cache line *)

Definition l1_insertCacheLine (mc : MemComponent) (address : Z) (cstate : CacheState) (fill_buf : Buf)
    : TM (bool * Z) :=
  u ← getL1Cache mc;
  let info := cl_setCState cstate (cl_setTag (getTag (u_cache u) address) CacheLineInfo_new) in
  '(ev, evicted_address) ← on_l1 mc (fun c =>
      '(c, ev, evaddr) ← insertCacheLine c address info fill_buf CacheLineInfo_new None;
      Ok (c, (ev, evaddr)));
  mret (ev_eviction ev, evicted_address).

Definition l1_getCacheLineState (mc : MemComponent) (address : Z) : TM CacheState :=
  info ← on_l1 mc (fun c => getCacheLineInfo c address CacheLineInfo_new);
  mret (cl_cstate info).

Definition l1_setCacheLineState (mc : MemComponent) (address : Z) (cstate : CacheState) : TM unit :=
  info ← on_l1 mc (fun c => getCacheLineInfo c address CacheLineInfo_new);
  _ ← lift (assert_c (bool_decide (cl_cstate info <> CS_INVALID)));
  on_l1 mc (fun c => no_result (setCacheLineInfo c address (cl_setCState cstate info))).

Definition l1_invalidateCacheLine (mc : MemComponent) (address : Z) : TM unit :=
  info ← on_l1 mc (fun c => getCacheLineInfo c address CacheLineInfo_new);
  when (cl_isValid info)
    (on_l1 mc (fun c => no_result (setCacheLineInfo c address (cl_invalidate info)))).

Definition l1_addSynchronizationCost (mc : MemComponent) (m : module_t) : TM unit :=
  when (bool_decide (mc <> MC_INVALID)) (l1_sync mc m).

Definition getShmemMsgType (op : mem_op_t) : MsgType :=
  match op with READ => SH_REQ | READ_EX | WRITE => EX_REQ end.

Definition op_permits (op : mem_op_t) (c : CacheState) : bool :=
  match op with READ => readable c | READ_EX | WRITE => writable c end.

Definition operationPermissibleinL1Cache (mc : MemComponent) (address : Z) (op : mem_op_t)
    (access_num : Z) : TM bool :=
  cstate ← l1_getCacheLineState mc address;
  let cache_hit := op_permits op cstate in
  _ ← when (access_num =? 1)
        (_ ← on_l1 mc (fun c => updateMissCounters c address op (negb cache_hit)); mret tt);
  mret cache_hit.

(** ** L2CacheCntlr *)

Definition l2_invalidateCacheLine (address : Z) (info : PrL2CacheLineInfo) : TM unit :=
  on_l2 (fun c => no_result (setCacheLineInfo c address (l2_invalidate info))).

(** The buffer on the stack of the caller is not initialised; its contents are
    never read before [accessCacheLine] has filled it. *)
Definition stack_buf : list Z := replicate (Z.to_nat (te_line_size env)) 0.

Definition l2_readCacheLine (address : Z) : TM Buf :=
  on_l2 (fun c => accessCacheLine c address LOAD (Some stack_buf) (te_line_size env)).

Definition l2_writeCacheLine (address offset : Z) (data_buf : Buf) (data_length : Z) : TM unit :=
  _ ← on_l2 (fun c => accessCacheLine c (wrap64 (address + offset)) STORE data_buf data_length);
  mret tt.

Definition l2_getInfo (address : Z) : TM PrL2CacheLineInfo :=
  on_l2 (fun c => getCacheLineInfo c address PrL2_new).

Definition setCacheLineStateInL1 (mc : MemComponent) (address : Z) (cstate : CacheState) : TM unit :=
  when (bool_decide (mc <> MC_INVALID)) (l1_setCacheLineState mc address cstate).

Definition invalidateCacheLineInL1 (mc : MemComponent) (address : Z) : TM unit :=
  when (bool_decide (mc <> MC_INVALID)) (l1_invalidateCacheLine mc address).

(** Sending to the directory of the home tile. *)
Definition l2_msg (t : MsgType) (requester address : Z) (modeled : bool) : ShmemMsg :=
  ShmemMsg_new t MC_L2_CACHE MC_DRAM_DIRECTORY requester address modeled.
Definition l2_data_msg (t : MsgType) (requester address : Z) (data : Buf) (modeled : bool) : ShmemMsg :=
  ShmemMsg_data t MC_L2_CACHE MC_DRAM_DIRECTORY requester address data (te_line_size env) modeled.

Definition l2_insertCacheLine (address : Z) (cstate : CacheState) (fill_buf : Buf) (mc : MemComponent)
    : TM unit :=
  u ← gets ts_l2;
  info ← lift (l2_setCachedLoc mc
                 (li_setCState cstate (li_setTag (getTag (u_cache u) address) PrL2_new)));
  '(ev, evicted_address) ← on_l2 (fun c =>
      '(c, ev, evaddr) ← insertCacheLine c address info fill_buf PrL2_new (Some stack_buf);
      Ok (c, (ev, evaddr)));
  when (ev_eviction ev)
    (let evicted := ev_info ev in
     _ ← invalidateCacheLineInL1 (l2_cached_loc evicted) evicted_address;
     home_node_id ← lift (getHome (te_home env) evicted_address);
     if decide (getCState evicted = CS_MODIFIED) then
       mm_sendMsg home_node_id
         (l2_data_msg FLUSH_REP (te_tile env) evicted_address (ev_writeback ev) (te_application env))
     else
       _ ← lift (log_assert (bool_decide (getCState evicted = CS_SHARED)));
       mm_sendMsg home_node_id
         (l2_msg INV_REP (te_tile env) evicted_address (te_application env))).

Definition insertCacheLineInL1 (mc : MemComponent) (address : Z) (cstate : CacheState) (fill_buf : Buf)
    : TM unit :=
  _ ← lift (assert_c (bool_decide (mc <> MC_INVALID)));
  '(eviction, evicted_address) ← l1_insertCacheLine mc address cstate fill_buf;
  when eviction
    (evicted ← l2_getInfo evicted_address;
     evicted ← (if decide (l2_cached_loc evicted <> mc) then
                  _ ← lift (log_assert (bool_decide (mc = MC_L1_ICACHE))); mret evicted
                else lift (l2_clearCachedLoc mc evicted));
     on_l2 (fun c => no_result (setCacheLineInfo c evicted_address evicted))).

Definition insertCacheLineInHierarchy (address : Z) (cstate : CacheState) (fill_buf : Buf) : TM unit :=
  out ← gets ts_out_address;
  _ ← lift (assert_c (address =? out));
  mc ← gets ts_out_component;
  _ ← l2_insertCacheLine address cstate fill_buf mc;
  insertCacheLineInL1 mc address cstate fill_buf.

Definition operationPermissibleinL2Cache (op : mem_op_t) (address : Z) (cstate : CacheState)
    : TM (bool * MissType) :=
  let cache_hit := op_permits op cstate in
  miss_type ← on_l2 (fun c => updateMissCounters c address op (negb cache_hit));
  mret (negb cache_hit, miss_type).

Definition l2_addSynchronizationCost (mc : MemComponent) : TM unit :=
  when (bool_decide (mc <> MC_INVALID))
    (m ← lift (convertToModule mc); l2_sync m).

Definition processShmemRequestFromL1Cache (mc : MemComponent) (op : mem_op_t) (address : Z)
    : TM (bool * MissType) :=
  _ ← l2_addSynchronizationCost mc;
  info ← l2_getInfo address;
  let cstate := getCState info in
  status ← operationPermissibleinL2Cache op address cstate;
  _ ← when (negb (fst status))
        (data_buf ← l2_readCacheLine address;
         _ ← insertCacheLineInL1 mc address cstate data_buf;
         info ← (if decide (l2_cached_loc info <> MC_INVALID) then
                   _ ← lift (assert_c (bool_decide (l2_cached_loc info <> mc)));
                   _ ← lift (assert_c (bool_decide (cstate = CS_SHARED)));
                   lift (l2_setForcedCachedLoc MC_L1_DCACHE info)
                 else lift (l2_setCachedLoc mc info));
         on_l2 (fun c => no_result (setCacheLineInfo c address info)));
  mret status.

(** *** Messages of the L1 caches *)

Definition processExReqFromL1Cache (m : ShmemMsg) : TM unit :=
  let address := m_address m in
  info ← l2_getInfo address;
  let cstate := getCState info in
  _ ← lift (assert_c (bool_decide (cstate = CS_INVALID \/ cstate = CS_SHARED)));
  _ ← when (bool_decide (cstate = CS_SHARED))
        (_ ← l2_invalidateCacheLine address info;
         home ← lift (getHome (te_home env) address);
         mm_sendMsg home (l2_msg INV_REP (te_tile env) address (m_modeled m)));
  home ← lift (getHome (te_home env) address);
  mm_sendMsg home (l2_msg EX_REQ (te_tile env) address (m_modeled m)).

Definition processShReqFromL1Cache (m : ShmemMsg) : TM unit :=
  home ← lift (getHome (te_home env) (m_address m));
  mm_sendMsg home (l2_msg SH_REQ (te_tile env) (m_address m) (m_modeled m)).

Definition handleMsgFromL1Cache (m : ShmemMsg) : TM unit :=
  _ ← lift (assert_c (is_null (m_data_buf m)));
  _ ← lift (assert_c (m_data_length m =? 0));
  out ← gets ts_out_address;
  _ ← lift (assert_c (out =? INVALID_ADDRESS));
  _ ← modify (fun s => ts_set_out (m_address m) (m_sender m) (pm_curr_time (ts_perf s)) s);
  match m_type m with
  | EX_REQ => processExReqFromL1Cache m
  | SH_REQ => processShReqFromL1Cache m
  | _ => stop LogError
  end.

(** *** Messages of the directory *)

Definition processExRepFromDramDirectory (m : ShmemMsg) : TM unit :=
  insertCacheLineInHierarchy (m_address m) CS_MODIFIED (m_data_buf m).

Definition processShRepFromDramDirectory (m : ShmemMsg) : TM unit :=
  insertCacheLineInHierarchy (m_address m) CS_SHARED (m_data_buf m).

Definition processInvReqFromDramDirectory (sender : Z) (m : ShmemMsg) : TM unit :=
  let address := m_address m in
  info ← l2_getInfo address;
  let cstate := getCState info in
  if decide (cstate <> CS_INVALID) then
    _ ← lift (assert_c (bool_decide (cstate = CS_SHARED)));
    _ ← mm_incrCurrTime MC_L2_CACHE ACCESS_TAGS;
    _ ← mm_incrCurrTime (l2_cached_loc info) ACCESS_TAGS;
    _ ← l1_addSynchronizationCost (l2_cached_loc info) L2_CACHE;
    _ ← invalidateCacheLineInL1 (l2_cached_loc info) address;
    _ ← l2_addSynchronizationCost (l2_cached_loc info);
    _ ← l2_invalidateCacheLine address info;
    mm_sendMsg sender (l2_msg INV_REP (m_requester m) address (m_modeled m))
  else mm_incrCurrTime MC_L2_CACHE ACCESS_TAGS.

Definition processFlushReqFromDramDirectory (sender : Z) (m : ShmemMsg) : TM unit :=
  let address := m_address m in
  info ← l2_getInfo address;
  let cstate := getCState info in
  if decide (cstate <> CS_INVALID) then
    _ ← lift (assert_c (bool_decide (cstate = CS_MODIFIED)));
    _ ← mm_incrCurrTime MC_L2_CACHE ACCESS_DATA_AND_TAGS;
    _ ← mm_incrCurrTime (l2_cached_loc info) ACCESS_TAGS;
    _ ← l1_addSynchronizationCost (l2_cached_loc info) L2_CACHE;
    _ ← invalidateCacheLineInL1 (l2_cached_loc info) address;
    _ ← l2_addSynchronizationCost (l2_cached_loc info);
    data_buf ← l2_readCacheLine address;
    _ ← l2_invalidateCacheLine address info;
    mm_sendMsg sender (l2_data_msg FLUSH_REP (m_requester m) address data_buf (m_modeled m))
  else mm_incrCurrTime MC_L2_CACHE ACCESS_TAGS.

Definition processWbReqFromDramDirectory (sender : Z) (m : ShmemMsg) : TM unit :=
  let address := m_address m in
  info ← l2_getInfo address;
  let cstate := getCState info in
  if decide (cstate <> CS_INVALID) then
    _ ← lift (assert_c (bool_decide (cstate = CS_MODIFIED)));
    _ ← mm_incrCurrTime MC_L2_CACHE ACCESS_DATA_AND_TAGS;
    _ ← mm_incrCurrTime (l2_cached_loc info) ACCESS_TAGS;
    _ ← l1_addSynchronizationCost (l2_cached_loc info) L2_CACHE;
    _ ← setCacheLineStateInL1 (l2_cached_loc info) address CS_SHARED;
    _ ← l2_addSynchronizationCost (l2_cached_loc info);
    data_buf ← l2_readCacheLine address;
    _ ← on_l2 (fun c => no_result (setCacheLineInfo c address (li_setCState CS_SHARED info)));
    mm_sendMsg sender (l2_data_msg WB_REP (m_requester m) address data_buf (m_modeled m))
  else mm_incrCurrTime MC_L2_CACHE ACCESS_TAGS.

(** What follows a reply: the clock, and the end of the outstanding miss. *)
Definition finish_reply (m : ShmemMsg) : TM unit :=
  s ← gets id;
  _ ← lift (log_assert (ts_out_time s <=? pm_curr_time (ts_perf s)));
  _ ← when (negb (m_modeled m))
        (modify (fun s => ts_set_perf (setCurrTime (ts_out_time s) (ts_perf s)) s));
  _ ← mm_incrCurrTime MC_L2_CACHE ACCESS_DATA_AND_TAGS;
  modify (fun s => ts_set_out INVALID_ADDRESS (ts_out_component s) (ts_out_time s) s).

Definition handleMsgFromDramDirectory (sender : Z) (m : ShmemMsg) : TM unit :=
  _ ← l2_sync (if sender =? te_tile env then DIRECTORY else NETWORK_MEMORY);
  match m_type m with
  | EX_REP => _ ← processExRepFromDramDirectory m; finish_reply m
  | SH_REP => _ ← processShRepFromDramDirectory m; finish_reply m
  | INV_REQ => processInvReqFromDramDirectory sender m
  | FLUSH_REQ => processFlushReqFromDramDirectory sender m
  | WB_REQ => processWbReqFromDramDirectory sender m
  | _ => stop LogError
  end.

(** ** L1CacheCntlr: accesses of the core *)

Definition accessCache (mc : MemComponent) (op : mem_op_t) (ca_address offset : Z) (data_buf : Buf)
    (data_length : Z) : TM Buf :=
  match op with
  | READ | READ_EX =>
      on_l1 mc (fun c => accessCacheLine c (wrap64 (ca_address + offset)) LOAD data_buf data_length)
  | WRITE =>
      out ← on_l1 mc (fun c => accessCacheLine c (wrap64 (ca_address + offset)) STORE data_buf data_length);
      _ ← l2_writeCacheLine ca_address offset data_buf data_length;
      mret out
  end.

(** One iteration of the loop of [processMemOpFromCore]: [None] is a miss in
    the L2 cache, after the request has been sent. *)
Definition mem_op_iteration (access_num : Z) (hit : bool) (mc : MemComponent) (lock : lock_signal_t)
    (op : mem_op_t) (ca_address offset : Z) (data_buf : Buf) (data_length : Z)
    : TM (option (bool * Buf)) :=
  _ ← lift (log_assert ((access_num =? 1) || (access_num =? 2)));
  ok ← operationPermissibleinL1Cache mc ca_address op access_num;
  if ok : bool then
    _ ← mm_incrCurrTime mc ACCESS_DATA_AND_TAGS;
    out ← accessCache mc op ca_address offset data_buf data_length;
    mret (Some (hit, out))
  else
    _ ← mm_incrCurrTime mc ACCESS_TAGS;
    _ ← lift (log_assert (bool_decide (lock <> UNLOCK)));
    _ ← l1_invalidateCacheLine mc ca_address;
    '(l2_cache_miss, _) ← processShmemRequestFromL1Cache mc op ca_address;
    if negb l2_cache_miss then
      _ ← l1_sync mc L2_CACHE;
      _ ← mm_incrCurrTime MC_L2_CACHE ACCESS_DATA_AND_TAGS;
      _ ← mm_incrCurrTime mc ACCESS_DATA_AND_TAGS;
      out ← accessCache mc op ca_address offset data_buf data_length;
      mret (Some (false, out))
    else
      _ ← mm_incrCurrTime MC_L2_CACHE ACCESS_TAGS;
      _ ← mm_sendMsg (te_tile env)
            (ShmemMsg_new (getShmemMsgType op) mc MC_L2_CACHE (te_tile env) ca_address
               (te_application env));
      mret None.

(** The loop; [wait] is [waitForSimThread], which returns when the simulation
    thread has handled the reply.  The third iteration stops at its first
    assertion, so three iterations of fuel are never used up. *)
Fixpoint mem_op_loop (wait : TM unit) (fuel : nat) (access_num : Z) (hit : bool) (mc : MemComponent)
    (lock : lock_signal_t) (op : mem_op_t) (ca_address offset : Z) (data_buf : Buf) (data_length : Z)
    : TM (bool * Buf) :=
  match fuel with
  | O => stop OutOfFuel
  | S fuel =>
      r ← mem_op_iteration access_num hit mc lock op ca_address offset data_buf data_length;
      match r with
      | Some out => mret out
      | None =>
          _ ← wait;
          _ ← l1_sync mc L2_CACHE;
          mem_op_loop wait fuel (access_num + 1) false mc lock op ca_address offset data_buf data_length
      end
  end.

Definition processMemOpFromCore (wait : TM unit) (mc : MemComponent) (lock : lock_signal_t)
    (op : mem_op_t) (ca_address offset : Z) (data_buf : Buf) (data_length : Z) : TM (bool * Buf) :=
  _ ← l1_sync mc CORE;
  mem_op_loop wait 3 1 true mc lock op ca_address offset data_buf data_length.

(** ** MemoryManager *)

(** [__coreInitiateMemoryAccess] around [coreInitiateMemoryAccess]; the result
    carries the updated [curr_time]. *)
Definition mm_coreInitiateMemoryAccess (wait : TM unit) (mc : MemComponent) (lock : lock_signal_t)
    (op : mem_op_t) (address offset : Z) (data_buf : Buf) (data_length curr_time : Z)
    : TM (bool * Buf * Z) :=
  _ ← modify (fun s => ts_set_perf (setCurrTime curr_time (ts_perf s)) s);
  '(hit, out) ← processMemOpFromCore wait mc lock op address offset data_buf data_length;
  t ← gets (fun s => pm_curr_time (ts_perf s));
  mret (hit, out, t).

(** [__handleMsgFromNetwork] around [handleMsgFromNetwork], for the messages
    to the L2 cache; messages to the directory run the directory controller. *)
Definition mm_handleMsgFromNetwork (pk : Packet) : TM unit :=
  _ ← modify (fun s => ts_set_perf (setCurrTime (pk_time pk) (ts_perf s)) s);
  m ← lift (getShmemMsg (pk_data pk));
  match m_receiver m with
  | MC_L2_CACHE =>
      match m_sender m with
      | MC_L1_ICACHE | MC_L1_DCACHE =>
          _ ← lift (assert_c (pk_sender pk =? te_tile env));
          handleMsgFromL1Cache m
      | MC_DRAM_DIRECTORY => handleMsgFromDramDirectory (pk_sender pk) m
      | _ => stop LogError
      end
  | _ => stop LogError
  end.

(** [enableModels] and [disableModels]: the caches of the tile and its clock; the
    directory cache and the DRAM model of the tile are set by [dir_setModels]. *)
Definition mm_setModels (b : bool) : TM unit :=
  modify (fun s =>
    let en {I} (u : CacheUnit I) := u_set_cache (set_enabled b (u_cache u)) u in
    mkTile (en (ts_icache s)) (en (ts_dcache s)) (en (ts_l2 s)) (ts_out_address s)
      (ts_out_component s) (ts_out_time s) (mkPerf (pm_curr_time (ts_perf s)) b) (ts_sent s)).
End Tile.

(** ** Construction *)

Record CacheParams : Type := mkParams {
  cpar_size : Z;                         (* in KB *)
  cpar_associativity : Z;
  cpar_policy : string;
  cpar_data_cycles : Z;
  cpar_tags_cycles : Z;
  cpar_perf_model : string;
  cpar_track_miss_types : bool }.

(** [new Cache(...)] with its policy and hash function, as in the constructors
    of the two controllers. *)
Definition CacheUnit_new {I} `{LineInfo I} (cat : CacheCategory) (wp : WritePolicy) (module : module_t)
    (line_size : Z) (latency : Z -> Z) (sync_cycles : Z) (track : bool) (p : CacheParams)
    : result (CacheUnit I) :=
  policy ← Policy_create (cpar_policy p) (cpar_size p) (cpar_associativity p) line_size;
  perf ← CachePerfModel_create (cpar_perf_model p) (cpar_data_cycles p) (cpar_tags_cycles p)
           latency sync_cycles;
  Ok (mkUnit (Cache_new cat wp (cpar_size p) (cpar_associativity p) line_size policy
                (CacheHashFn_new (cpar_size p) (cpar_associativity p) line_size) track)
        perf module ∅).

(** The data cache is built with the instruction cache's choice of tracking
    miss types. *)
Definition TileState_new (line_size : Z) (latency : module_t -> Z -> Z) (sync_cycles : Z)
    (icache dcache l2 : CacheParams) : result TileState :=
  i ← CacheUnit_new INSTRUCTION_CACHE UNDEFINED_WRITE_POLICY L1_ICACHE line_size (latency L1_ICACHE)
        sync_cycles (cpar_track_miss_types icache) icache;
  d ← CacheUnit_new DATA_CACHE WRITE_THROUGH L1_DCACHE line_size (latency L1_DCACHE)
        sync_cycles (cpar_track_miss_types icache) dcache;
  l ← CacheUnit_new UNIFIED_CACHE WRITE_BACK L2_CACHE line_size (latency L2_CACHE)
        sync_cycles (cpar_track_miss_types l2) l2;
  Ok (mkTile i d l INVALID_ADDRESS MC_INVALID 0 (mkPerf 0 false) []).
