(* ===== verification/TileThm.v ===== *)
(** * The private caches of a tile keep their invariant

    The contents of the three caches of a tile as maps from tags to lines, the
    invariant that ties them together (the L2 cache includes both L1 caches,
    and records which of them holds a line), and the effect of every routine
    of the controllers on these maps. *)

From S2P Require Import Prelude Utils CacheLine Replacement CacheSet Cache CacheThm CachePerf Shmem DirEntry DirCache DirCntlr Tile.

(** ** One cache of the tile, at the level of its contents *)

Section unit.
Context (j : Z).
Context {I : Type} `{LineInfoLaws I}.
Implicit Types u : CacheUnit I.

Definition addr (t : Z) : Z := t * 2 ^ j.
Definition tag_ok (t : Z) : Prop := 0 <= t < 2 ^ (64 - j).

Abbreviation Lines := (Z -> option (I * list Z)).

(** The cache [u] has lines of [2^j] bytes, the contents [L] and is (not) an
    instruction cache. *)
Definition unit_ok (instr : bool) u (L : Lines) : Prop :=
  (exists k a, cache_wf k j a (u_cache u)) /\
  instr = bool_decide (c_category (u_cache u) = INSTRUCTION_CACHE) /\
  forall t, cache_line (u_cache u) t = L t.

Lemma unit_j instr u L : unit_ok instr u L -> 0 < j < 32.
Proof. intros ((k & a & Hwf) & _). apply Hwf. Qed.

Lemma unit_ext instr u L L' : (forall t, L t = L' t) -> unit_ok instr u L -> unit_ok instr u L'.
Proof. intros HL (Hwf & Hc & Hl). split; [done|]. split; [done|]. intros t. by rewrite Hl. Qed.

Lemma unit_sync instr u L domain m :
  unit_ok instr u L -> unit_ok instr (getSynchronizationDelay domain m u).2 L.
Proof. intros Hu. unfold unit_ok. by rewrite (proj1 (sync_delay_cache domain m u)). Qed.

Lemma addr_facts instr u L t off :
  unit_ok instr u L -> tag_ok t -> 0 <= off < 2 ^ j ->
  wrap64 (addr t + off) = addr t + off /\ is_word 64 (addr t + off) /\
  getTag (u_cache u) (addr t + off) = t /\ (addr t + off) mod 2 ^ j = off.
Proof.
  intros Hu Ht Hoff. pose proof (unit_j _ _ _ Hu) as Hj. destruct Hu as ((k & a & Hwf) & _).
  assert (Hp : 2 ^ 64 = 2 ^ (64 - j) * 2 ^ j) by (rewrite <- Z.pow_add_r by lia; f_equal; lia).
  assert (Hw : is_word 64 (addr t + off)) by (unfold is_word, addr, tag_ok in *; nia).
  split; [by apply wrap_id|]. split; [done|].
  unfold getTag. rewrite (cw_log _ _ _ _ Hwf), Z.shiftr_div_pow2 by lia. unfold addr.
  rewrite Z.add_comm. rewrite Z.div_add, Z.mod_add by lia.
  rewrite Z.div_small, Z.mod_small by lia. lia.
Qed.

Lemma addr_line instr u L t :
  unit_ok instr u L -> tag_ok t ->
  is_word 64 (addr t) /\ getTag (u_cache u) (addr t) = t /\ addr t mod 2 ^ j = 0 /\
  addr t <> INVALID_ADDRESS.
Proof.
  intros Hu Ht. pose proof (unit_j _ _ _ Hu) as Hj.
  assert (0 < 2 ^ j) by (apply Z.pow_pos_nonneg; lia).
  destruct (addr_facts _ _ _ t 0 Hu Ht) as (_ & Hw & Hg & Hm); [lia|].
  rewrite Z.add_0_r in *. do 3 (split; [done|]). destruct Hu as ((k & a & Hwf) & _).
  by apply (address_from_tag (u_cache u) k j a t).
Qed.

Lemma line_facts instr u L t i d :
  unit_ok instr u L -> L t = Some (i, d) ->
  getTagOf i = t /\ tag_ok t /\ Z.of_nat (length d) = 2 ^ j /\ info_ok i /\ getCState i <> CS_INVALID.
Proof.
  intros Hu Hl. pose proof (unit_j _ _ _ Hu) as Hj. destruct Hu as ((k & a & Hwf) & _ & HL).
  rewrite <- HL in Hl.
  unfold cache_line in Hl. destruct (c_sets (u_cache u) !! _) as [st|] eqn:Hst; [|done].
  pose proof (cw_sets _ _ _ _ Hwf _ _ Hst) as Hsw. pose proof (sw_shape _ _ _ _ _ Hsw) as Hsh.
  apply (set_line_spec _ _ _ _ _ _ _ Hsh (sw_unique _ _ _ _ _ Hsw)) in Hl as (w & Hh & ->).
  pose proof (sw_tags _ _ _ _ _ Hsw _ _ _ Hh) as [Hr _]. destruct Hh as (Hi & Ht & Hne).
  pose proof (sw_info _ _ _ _ _ Hsw) as HF. rewrite Forall_forall in HF.
  assert (Hok : info_ok i) by (apply HF; by eapply list_elem_of_lookup_2).
  split; [done|]. split; [done|]. split; [|split; [done|]; intros E%Hok; congruence].
  destruct Hsh as (_ & _ & Hls & Ha & Hl & _ & Hil & Hll).
  apply lookup_lt_Some in Hi. unfold way_data. rewrite Hls, length_slice; nia.
Qed.

Section ops.
Context (instr : bool) (u : CacheUnit I) (L : Lines) (t : Z).
Context (Hu : unit_ok instr u L) (Ht : tag_ok t).

Lemma unit_tag : getTag (u_cache u) (addr t) = t.
Proof using All. by apply (addr_line instr u L). Qed.

Lemma unit_wf' c : 
  (exists k a, cache_wf k j a c /\ same_config (u_cache u) c) -> 
  (exists k a, cache_wf k j a c) /\ instr = bool_decide (c_category c = INSTRUCTION_CACHE).
Proof using All.
  intros (k & a & Hwf & Hs). split; [by exists k, a|]. destruct Hu as (_ & -> & _).
  destruct Hs as (_ & _ & _ & _ & _ & _ & ->). done.
Qed.

Lemma unit_get arg :
  exists c, getCacheLineInfo (u_cache u) (addr t) arg =
      Ok (c, match L t with Some (i, _) => i | None => arg end) /\
    unit_ok instr (u_set_cache c u) L.
Proof using All.
  destruct (addr_line _ _ _ _ Hu Ht) as (Hw & Hg & _). pose proof Hu as ((k & a & Hwf) & _ & HL).
  destruct (getCacheLineInfo_spec (u_cache u) k j a (addr t) arg Hwf Hw) as (c & E & Hwf' & Hs & Hl).
  exists c. rewrite E, Hg, HL. split; [done|]. destruct (unit_wf' c) as [H1' H2']; [by exists k, a|].
  split; [done|]. split; [done|]. intros t'. simpl. by rewrite Hl.
Qed.

Lemma unit_load off bytes buf i d :
  L t = Some (i, d) -> access_ok (2 ^ j) off bytes buf -> off < 2 ^ j ->
  exists c, accessCacheLine (u_cache u) (addr t + off) LOAD buf bytes =
      Ok (c, (fun _ => slice (Z.to_nat off) (Z.to_nat bytes) d) <$> buf) /\
    unit_ok instr (u_set_cache c u) L.
Proof using All.
  intros Hl Ha Hoff. destruct (addr_facts _ _ _ _ off Hu Ht) as (_ & Hw & Hg & Hm); [split; [apply Ha|done]|].
  pose proof Hu as ((k & a & Hwf) & _ & HL).
  destruct (accessCacheLine_load (u_cache u) k j a (addr t + off) buf bytes i d) as (c & E & Hwf' & Hs & Hl');
    [done|done|by rewrite Hg, HL|by rewrite Hm|].
  exists c. rewrite E, Hm. split; [done|]. destruct (unit_wf' c) as [H1' H2']; [by exists k, a|].
  split; [done|]. split; [done|]. intros t'. simpl. by rewrite Hl'.
Qed.

Lemma unit_store off bytes buf i d :
  L t = Some (i, d) -> access_ok (2 ^ j) off bytes buf -> off < 2 ^ j ->
  exists c, accessCacheLine (u_cache u) (addr t + off) STORE buf bytes = Ok (c, buf) /\
    unit_ok instr (u_set_cache c u) (upd L t (Some (i, splice (Z.to_nat off) (default [] buf) d))).
Proof using All.
  intros Hl Ha Hoff. destruct (addr_facts _ _ _ _ off Hu Ht) as (_ & Hw & Hg & Hm); [split; [apply Ha|done]|].
  pose proof Hu as ((k & a & Hwf) & _ & HL).
  destruct (accessCacheLine_store (u_cache u) k j a (addr t + off) buf bytes i d) as (c & E & Hwf' & Hs & Hl');
    [done|done|by rewrite Hg, HL|by rewrite Hm|].
  exists c. rewrite E. split; [done|]. destruct (unit_wf' c) as [H1' H2']; [by exists k, a|].
  split; [done|]. split; [done|]. intros t'. simpl. rewrite Hl', Hg, Hm. unfold upd. by rewrite HL.
Qed.

Lemma unit_set i d i' :
  L t = Some (i, d) -> info_ok i' -> getTagOf i' = t \/ getTagOf i' = INVALID_TAG ->
  exists c, setCacheLineInfo (u_cache u) (addr t) i' = Ok c /\
    unit_ok instr (u_set_cache c u)
      (upd L t (if decide (getTagOf i' = INVALID_TAG) then None else Some (i', d))).
Proof using All.
  intros Hl Hok Htag. destruct (addr_line _ _ _ _ Hu Ht) as (Hw & Hg & _).
  pose proof Hu as ((k & a & Hwf) & _ & HL).
  destruct (setCacheLineInfo_spec (u_cache u) k j a (addr t) i d i') as (c & E & Hwf' & Hs & Hl' & _);
    [done|done|by rewrite Hg, HL|done|by rewrite Hg|].
  exists c. rewrite E. split; [done|]. destruct (unit_wf' c) as [H1' H2']; [by exists k, a|].
  split; [done|]. split; [done|]. intros t'. simpl. rewrite Hl', Hg. unfold upd. by rewrite HL.
Qed.

Lemma unit_miss op miss :
  (op = WRITE -> instr = false) ->
  exists c mt, updateMissCounters (u_cache u) (addr t) op miss = Ok (c, mt) /\
    unit_ok instr (u_set_cache c u) L.
Proof using All.
  intros Hop. destruct Hu as ((k & a & Hwf) & Hc & HL).
  assert (Hex : exists c mt, updateMissCounters (u_cache u) (addr t) op miss = Ok (c, mt)).
  { unfold updateMissCounters. destruct (c_enabled (u_cache u)) eqn:Een; [|by do 2 eexists]. simpl.
    assert (Hcat : is_read op = false -> bool_decide (c_category (u_cache u) <> INSTRUCTION_CACHE) = true).
    { intros Hr. apply bool_decide_true. destruct op; try done. rewrite Hop in Hc by done.
      intros E. by rewrite E in Hc. }
    destruct (is_read op); [simpl|rewrite Hcat by done; simpl];
      (destruct miss; simpl; [|by do 2 eexists]); (destruct (c_track_miss_types _); [|by do 2 eexists]);
      unfold updateMissTypeCounters; simpl; rewrite Een; simpl;
      (destruct (getMissType _ _) eqn:E; simpl; [by do 2 eexists..|]);
      exfalso; revert E; unfold getMissType; by repeat case_decide. }
  destruct Hex as (c & mt & E). exists c, mt. split; [done|].
  destruct (updateMissCounters_arrays _ _ _ _ _ _ E) as [m ->].
  split; [exists k, a; destruct Hwf; by split|]. by split.
Qed.

(** The insertion of an uncached line, with the line it evicts. *)
Lemma unit_insert i d evicted wb :
  L t = None -> getTagOf i = t -> getCState i <> CS_INVALID -> Z.of_nat (length d) = 2 ^ j ->
  fill_ok (2 ^ j) wb -> getCState evicted = CS_INVALID ->
  exists c ev evaddr, insertCacheLine (u_cache u) (addr t) i (Some d) evicted wb = Ok (c, ev, evaddr) /\
    ((ev_eviction ev = false /\ unit_ok instr (u_set_cache c u) (upd L t (Some (i, d)))) \/
     (exists v vi vd, v <> t /\ tag_ok v /\ L v = Some (vi, vd) /\
        ev = mkEviction true vi ((fun _ => vd) <$> wb) /\ evaddr = addr v /\
        unit_ok instr (u_set_cache c u) (upd (upd L v None) t (Some (i, d))))).
Proof using All.
  intros Hl Htag Hcs Hd Hwb Hev. destruct (addr_line _ _ _ _ Hu Ht) as (Hw & Hg & _).
  pose proof Hu as ((k & a & Hwf) & _ & HL).
  destruct (insertCacheLine_spec (u_cache u) k j a (addr t) i d evicted wb)
    as (c & ev & evaddr & victim & E & Hwf' & Hs & Hvic & Hl' & _);
    [done|done|by rewrite Hg, HL|congruence|done..|].
  destruct (unit_wf' c) as [H1' H2']; [by exists k, a|].
  exists c, ev, evaddr. split; [done|]. destruct victim as [v|].
  - right. destruct Hvic as (vi & vd & Hvt & Hvl & Hvtag & -> & -> & _).
    rewrite Hg in *. rewrite HL in Hvl. destruct (line_facts _ _ _ _ _ _ Hu Hvl) as (_ & Hvr & _).
    exists v, vi, vd. do 4 (split; [done|]).
    split; [by apply (address_from_tag (u_cache u) k j a v)|].
    split; [done|]. split; [done|]. intros t'. simpl. rewrite Hl'. unfold upd. rewrite HL.
    destruct (decide (t' = t)); [done|]. destruct (decide (t' = v)) as [->|Hne]; [by rewrite decide_True|].
    by rewrite decide_False by congruence.
  - left. simpl in Hvic. subst ev. split; [done|].
    split; [done|]. split; [done|]. intros t'. simpl. rewrite Hl'. unfold upd. rewrite HL, Hg. done.
Qed.
End ops.
End unit.

(** ** The tile *)

Abbreviation L1Lines := (MemComponent -> Z -> option (CacheLineInfo * list Z)).
Abbreviation L2Lines := (Z -> option (PrL2CacheLineInfo * list Z)).

Definition is_l1 (mc : MemComponent) : Prop := mc = MC_L1_ICACHE \/ mc = MC_L1_DCACHE.
Definition is_icache (mc : MemComponent) : bool := bool_decide (mc = MC_L1_ICACHE).

Definition fset {A} (F : MemComponent -> A) (mc : MemComponent) (x : A) (mc' : MemComponent) : A :=
  if decide (mc' = mc) then x else F mc'.

Lemma fset_eq {A} (F : MemComponent -> A) mc x : fset F mc x mc = x.
Proof. unfold fset. by rewrite decide_True. Qed.
Lemma fset_ne {A} (F : MemComponent -> A) mc x mc' : mc' <> mc -> fset F mc x mc' = F mc'.
Proof. intros. unfold fset. by rewrite decide_False. Qed.

(** The fields of the state beside the caches. *)
Record Rest : Type := mkRest {
  r_address : Z; r_component : MemComponent; r_time : Z; r_perf : ShmemPerfModel;
  r_sent : list Packet }.
Definition rest_of (s : TileState) : Rest :=
  mkRest (ts_out_address s) (ts_out_component s) (ts_out_time s) (ts_perf s) (ts_sent s).
Definition with_perf (p : ShmemPerfModel) (r : Rest) : Rest :=
  mkRest (r_address r) (r_component r) (r_time r) p (r_sent r).
Definition with_sent (l : list Packet) (r : Rest) : Rest :=
  mkRest (r_address r) (r_component r) (r_time r) (r_perf r) l.
Definition with_out (a : Z) (mc : MemComponent) (t : Z) (r : Rest) : Rest :=
  mkRest a mc t (r_perf r) (r_sent r).

Section tile.
Context (env : TileEnv) (j : Z).
Context (Hls : te_line_size env = 2 ^ j).
Abbreviation addr := (addr j).
Abbreviation tag_ok := (tag_ok j).

(** The tile [s] has the cache contents [F] and [L] and the rest [r]. *)
Record tile (s : TileState) (F : L1Lines) (L : L2Lines) (r : Rest) : Prop := {
  tl_i : unit_ok j true (ts_icache s) (F MC_L1_ICACHE);
  tl_d : unit_ok j false (ts_dcache s) (F MC_L1_DCACHE);
  tl_l : unit_ok j false (ts_l2 s) L;
  tl_rest : rest_of s = r }.

Lemma tile_ext s F F' L L' r :
  tile s F L r -> (forall mc t, is_l1 mc -> F mc t = F' mc t) -> (forall t, L t = L' t) ->
  tile s F' L' r.
Proof using.
  intros [] HF HL. split; [| | |done].
  - eapply unit_ext; [|exact tl_i0]. intros t. apply HF. by left.
  - eapply unit_ext; [|exact tl_d0]. intros t. apply HF. by right.
  - by eapply unit_ext; [|exact tl_l0].
Qed.

Definition l1_of (mc : MemComponent) (s : TileState) : CacheUnit CacheLineInfo :=
  if decide (mc = MC_L1_ICACHE) then ts_icache s else ts_dcache s.

Lemma tile_l1 s F L r mc :
  tile s F L r -> is_l1 mc -> unit_ok j (is_icache mc) (l1_of mc s) (F mc).
Proof using. by intros [] [-> | ->]. Qed.

(** *** Running an operation of one cache *)

Lemma getL1_runs mc s (Q : CacheUnit CacheLineInfo -> TileState -> Prop) :
  is_l1 mc -> Q (l1_of mc s) s -> runs (getL1Cache mc) s Q.
Proof using. intros [-> | ->] HQ; by apply runs_gets. Qed.

Lemma put_l1_runs mc u s F L r X (Q : unit -> TileState -> Prop) :
  is_l1 mc -> tile s F L r -> unit_ok j (is_icache mc) u X ->
  (forall s', tile s' (fset F mc X) L r -> Q tt s') -> runs (put_l1 mc u) s Q.
Proof using.
  intros [-> | ->] [] Hu HQ; apply runs_modify, HQ; by split.
Qed.

Lemma on_l1_runs {A} mc f s F L r X (a : A) (Q : A -> TileState -> Prop) :
  is_l1 mc -> tile s F L r ->
  (forall u, unit_ok j (is_icache mc) u (F mc) ->
     exists c, f (u_cache u) = Ok (c, a) /\ unit_ok j (is_icache mc) (u_set_cache c u) X) ->
  (forall s', tile s' (fset F mc X) L r -> Q a s') -> runs (on_l1 mc f) s Q.
Proof using.
  intros Hmc Ht Hf HQ. unfold on_l1. runs_step. apply getL1_runs; [done|].
  destruct (Hf (l1_of mc s)) as (c & E & Hc); [by apply (tile_l1 s F L r)|].
  runs_step. eapply runs_lift; [exact E|]. runs_step. eapply put_l1_runs; [done|done|exact Hc|].
  intros s' Hs'. runs_step. by apply HQ.
Qed.

Lemma on_l2_runs {A} f s F L r X (a : A) (Q : A -> TileState -> Prop) :
  tile s F L r ->
  (forall u, unit_ok j false u L ->
     exists c, f (u_cache u) = Ok (c, a) /\ unit_ok j false (u_set_cache c u) X) ->
  (forall s', tile s' F X r -> Q a s') -> runs (on_l2 f) s Q.
Proof using.
  intros [] Hf HQ. unfold on_l2. runs_step. destruct (Hf (ts_l2 s)) as (c & E & Hc); [done|].
  runs_step. eapply runs_lift; [exact E|]. runs_step. runs_step. apply HQ. by split.
Qed.

Lemma fset_self s F L r mc : tile s (fset F mc (F mc)) L r -> tile s F L r.
Proof using.
  intros Ht. eapply tile_ext; [exact Ht| |done]. intros mc' t _. unfold fset. by case_decide; subst.
Qed.

(** *** Operations that leave the contents alone *)

Lemma incr_time_runs x s F L r (Q : unit -> TileState -> Prop) :
  tile s F L r -> (forall p s', tile s' F L (with_perf p r) -> Q tt s') -> runs (incr_time x) s Q.
Proof using.
  intros [] HQ. apply runs_modify. eapply HQ. split; try done. by rewrite <- tl_rest0.
Qed.

Lemma mm_incr_runs mc acc s F L r (Q : unit -> TileState -> Prop) :
  is_l1 mc \/ mc = MC_L2_CACHE \/ mc = MC_INVALID -> acc = ACCESS_TAGS \/ acc = ACCESS_DATA_AND_TAGS ->
  tile s F L r -> (forall p s', tile s' F L (with_perf p r) -> Q tt s') ->
  runs (mm_incrCurrTime mc acc) s Q.
Proof using.
  intros Hmc Hacc Ht HQ.
  assert (Hlat : forall m, is_ok (cp_getLatency m acc)) by (intros m; apply cp_getLatency_ok; tauto).
  assert (Hstep : forall m, runs (t ← lift (cp_getLatency m acc); incr_time t) s Q).
  { intros m. destruct (Hlat m) as [x E]. runs_step. eapply runs_lift; [exact E|].
    eapply incr_time_runs; [exact Ht|done]. }
  destruct Hmc as [[-> | ->]|[-> | ->]]; simpl; try (runs_step; apply Hstep).
  apply runs_ret. apply (HQ (r_perf r)). by destruct r.
Qed.

Lemma l1_sync_runs mc m s F L r (Q : unit -> TileState -> Prop) :
  is_l1 mc -> tile s F L r -> (forall p s', tile s' F L (with_perf p r) -> Q tt s') ->
  runs (l1_sync env mc m) s Q.
Proof using.
  intros Hmc Ht HQ. unfold l1_sync. runs_step. apply getL1_runs; [done|]. cbn beta.
  pose proof (unit_sync _ _ _ _ (te_domain env) m (tile_l1 _ _ _ _ _ Ht Hmc)) as Hu.
  destruct (getSynchronizationDelay (te_domain env) m (l1_of mc s)) as [x u]. cbn [snd] in Hu.
  runs_step. eapply put_l1_runs; [done|done|exact Hu|]. intros s' Hs'%fset_self.
  by eapply incr_time_runs.
Qed.

(** The clock after the crossing into the L2 cache. *)
Definition sync_l2_perf (m : module_t) (s : TileState) : ShmemPerfModel :=
  incrCurrTime (getSynchronizationDelay (te_domain env) m (ts_l2 s)).1 (ts_perf s).

Lemma l2_sync_runs m s F L r (Q : unit -> TileState -> Prop) :
  tile s F L r ->
  (forall s', tile s' F L (with_perf (sync_l2_perf m s) r) -> Q tt s') ->
  runs (l2_sync env m) s Q.
Proof using.
  intros [] HQ. unfold l2_sync. runs_step. cbn beta. unfold sync_l2_perf in HQ.
  pose proof (unit_sync _ _ _ _ (te_domain env) m tl_l0) as Hu.
  destruct (getSynchronizationDelay (te_domain env) m (ts_l2 s)) as [x u]. cbn [fst snd] in *.
  runs_step. apply runs_modify. apply HQ. split; try done. by rewrite <- tl_rest0.
Qed.

Lemma l1_cost_runs mc m s F L r (Q : unit -> TileState -> Prop) :
  is_l1 mc \/ mc = MC_INVALID -> tile s F L r ->
  (forall p s', tile s' F L (with_perf p r) -> Q tt s') ->
  runs (l1_addSynchronizationCost env mc m) s Q.
Proof using.
  intros Hmc Ht HQ. unfold l1_addSynchronizationCost. apply runs_when; intros Hb.
  - eapply l1_sync_runs; [|exact Ht|exact HQ]. apply bool_decide_eq_true in Hb. tauto.
  - apply (HQ (r_perf r)). by destruct r.
Qed.

Lemma l2_cost_runs mc s F L r (Q : unit -> TileState -> Prop) :
  is_l1 mc \/ mc = MC_INVALID -> tile s F L r ->
  (forall p s', tile s' F L (with_perf p r) -> Q tt s') ->
  runs (l2_addSynchronizationCost env mc) s Q.
Proof using.
  intros Hmc Ht HQ. unfold l2_addSynchronizationCost. apply runs_when; intros Hb.
  - apply bool_decide_eq_true in Hb. assert (exists m, convertToModule mc = Ok m) as [m E].
    { destruct Hmc as [[-> | ->]|]; [by eexists..|done]. }
    runs_step. eapply runs_lift; [exact E|]. eapply l2_sync_runs; [exact Ht|]. intros s'. apply HQ.
  - apply (HQ (r_perf r)). by destruct r.
Qed.

Lemma l2_info_runs t s F L r (Q : PrL2CacheLineInfo -> TileState -> Prop) :
  tag_ok t -> tile s F L r ->
  (forall s', tile s' F L r -> Q (match L t with Some (i, _) => i | None => PrL2_new end) s') ->
  runs (l2_getInfo (addr t)) s Q.
Proof using.
  intros Ht Hs HQ. eapply on_l2_runs; [exact Hs| |exact HQ].
  intros u Hu. exact (unit_get j false u L t Hu Ht PrL2_new).
Qed.

Lemma l1_info_runs mc t s F L r (Q : CacheLineInfo -> TileState -> Prop) :
  is_l1 mc -> tag_ok t -> tile s F L r ->
  (forall s', tile s' F L r -> Q (match F mc t with Some (i, _) => i | None => CacheLineInfo_new end) s') ->
  runs (on_l1 mc (fun c => getCacheLineInfo c (addr t) CacheLineInfo_new)) s Q.
Proof using.
  intros Hmc Ht Hs HQ. eapply (on_l1_runs _ _ _ _ _ _ (F mc)); [done|exact Hs| |].
  - intros u Hu. exact (unit_get j _ u (F mc) t Hu Ht CacheLineInfo_new).
  - intros s' Hs'%fset_self. by apply HQ.
Qed.

Lemma l1_permits_runs mc t op n s F L r (Q : bool -> TileState -> Prop) :
  is_l1 mc -> tag_ok t -> (op = WRITE -> mc = MC_L1_DCACHE) -> tile s F L r ->
  (forall s', tile s' F L r ->
     Q (op_permits op (match F mc t with Some (i, _) => cl_cstate i | None => CS_INVALID end)) s') ->
  runs (operationPermissibleinL1Cache mc (addr t) op n) s Q.
Proof using.
  intros Hmc Ht Hop Hs HQ. unfold operationPermissibleinL1Cache, l1_getCacheLineState. runs_step.
  eapply l1_info_runs; [done|done|exact Hs|]. intros s1 Hs1. runs_step. cbn beta.
  replace (cl_cstate (match F mc t with Some (i, _) => i | None => CacheLineInfo_new end))
    with (match F mc t with Some (i, _) => cl_cstate i | None => CS_INVALID end)
    by (by destruct (F mc t) as [[]|]).
  set (b := op_permits _ _) in *. runs_step. apply runs_when; intros _; [|runs_step; by apply HQ].
  runs_step. destruct (unit_miss j _ _ _ t (tile_l1 _ _ _ _ _ Hs1 Hmc) Ht op (negb b)) as (c & mt & E & Hu).
  { intros ->. by rewrite Hop. }
  unfold on_l1. runs_step. apply getL1_runs; [done|]. runs_step. eapply runs_lift; [exact E|].
  runs_step. eapply put_l1_runs; [done|done|exact Hu|]. intros s2 Hs2%fset_self.
  repeat runs_step. by apply HQ.
Qed.

Lemma l2_permits_runs t op cstate s F L r (Q : bool * MissType -> TileState -> Prop) :
  tag_ok t -> tile s F L r ->
  (forall mt s', tile s' F L r -> Q (negb (op_permits op cstate), mt) s') ->
  runs (operationPermissibleinL2Cache op (addr t) cstate) s Q.
Proof using.
  intros Ht Hs HQ. unfold operationPermissibleinL2Cache. set (b := op_permits _ _) in *. runs_step.
  destruct (unit_miss j _ _ _ t (tl_l _ _ _ _ Hs) Ht op (negb b)) as (c & mt & E & Hu); [done|].
  unfold on_l2. repeat first [eapply runs_lift; [exact E|]|runs_step].
  apply (HQ mt). destruct Hs. by split.
Qed.
End tile.
