(* ===== verification/TileSafe.v ===== *)
(** * The routines of the cache controllers on the contents of a tile

    The invariant of a line in the three caches of a tile, the view of the
    tile as one map from lines to states and bytes, and the effect of the
    controllers' routines on that view. *)

From S2P Require Import Prelude Utils CacheLine Replacement CacheSet Cache CacheThm CachePerf Shmem DirEntry DirCache DirCntlr Tile TileThm.

Section safe.
Context (env : TileEnv) (j : Z) (home_l1 : Z -> MemComponent).
Context (Hls : te_line_size env = 2 ^ j).
Context (Hl1 : forall t, is_l1 (home_l1 t)).
Context (Hhome : forall t, tag_ok j t -> is_ok (getHome (te_home env) (addr j t))).
Abbreviation addr := (addr j).
Abbreviation tag_ok := (tag_ok j).
Abbreviation tile := (tile j).

(** ** Changes of the contents *)

Definition fdrop (F : L1Lines) (loc : MemComponent) (t : Z) : L1Lines :=
  fun mc t' => if decide (mc = loc /\ t' = t) then None else F mc t'.

Definition packet (p : ShmemPerfModel) (receiver : Z) (m : ShmemMsg) : Packet :=
  mkPacket (pm_curr_time p) (te_tile env) (ToTile receiver) (header_of m, default [] (m_data_buf m)).

Lemma send_runs receiver m s F L r (Q : unit -> TileState -> Prop) :
  msg_ok m -> receiver = te_tile env \/ m_sender m = MC_L2_CACHE -> tile s F L r ->
  (forall s', tile s' F L (with_sent (r_sent r ++ [packet (r_perf r) receiver m]) r) -> Q tt s') ->
  runs (mm_sendMsg env receiver m) s Q.
Proof using.
  intros Hm Hrec [] HQ. unfold mm_sendMsg. runs_step. runs_step.
  assert (E : makePacket (te_tile env) (ts_perf s) (ToTile receiver) m =
    Ok (packet (ts_perf s) receiver m)).
  { unfold makePacket, packet. rewrite makeMsgBuf_ok by done. destruct Hm as [_ Hbuf].
    destruct (m_data_buf m) as [l|]; simpl; [by rewrite (proj2 (Z.eqb_neq _ _)) by lia|by rewrite Hbuf]. }
  eapply runs_lift; [exact E|].
  assert (Hmod : runs (if receiver =? te_tile env then mret INVALID_MODULE
                       else lift (convertToModule (m_sender m))) s (fun _ s' => s' = s)).
  { destruct (Z.eqb_spec receiver (te_tile env)); [by apply runs_ret|].
    destruct Hrec as [?|Hrec]; [done|]. rewrite Hrec. by eapply runs_lift. }
  eapply runs_seq; [exact Hmod|]. intros ? ? ->. apply runs_modify. apply HQ. split; try done.
  unfold rest_of in *. subst r. done.
Qed.

Lemma tile_out s F L r a mc time :
  tile s F L r -> tile (ts_set_out a mc time s) F L (with_out a mc time r).
Proof using. intros []. split; try done. by subst r. Qed.

Lemma l1_invalidate_runs mc t s F L r (Q : unit -> TileState -> Prop) :
  is_l1 mc -> tag_ok t -> tile s F L r ->
  (forall s', tile s' (fdrop F mc t) L r -> Q tt s') ->
  runs (l1_invalidateCacheLine mc (addr t)) s Q.
Proof using.
  intros Hmc Ht Hs HQ. unfold l1_invalidateCacheLine. runs_step.
  eapply l1_info_runs; [done|done|exact Hs|]. intros s1 Hs1. cbn beta.
  destruct (F mc t) as [[i d]|] eqn:E.
  - destruct (line_facts _ _ _ _ _ _ _ (tile_l1 _ _ _ _ _ _ Hs Hmc) E) as (Htag & _ & _ & Hok & Hst).
    assert (Hv : isValid i = true) by (apply isValid_tag; intros E'; by apply Hst, Hok).
    unfold isValid in Hv. simpl in Hv.
    rewrite Hv. simpl. eapply on_l1_runs; [done|exact Hs1| |].
    + intros u Hu. destruct (unit_set j _ u _ t Hu Ht i d (cl_invalidate i)) as (c & Ec & Huc); [done|done|by right|].
      exists c. unfold no_result. rewrite Ec. split; [done|exact Huc].
    + intros s2 Hs2. apply HQ. eapply tile_ext; [exact Hs2| |done]. intros mc' t' _. simpl.
      unfold fdrop, fset, upd. repeat case_decide; naive_solver.
  - simpl. apply runs_ret. apply HQ. eapply tile_ext; [exact Hs1| |done]. intros mc' t' _.
    unfold fdrop. case_decide; naive_solver.
Qed.

Lemma invalidate_in_l1_runs loc t s F L r (Q : unit -> TileState -> Prop) :
  is_l1 loc \/ loc = MC_INVALID -> tag_ok t -> tile s F L r ->
  (forall s', tile s' (fdrop F loc t) L r -> Q tt s') ->
  runs (invalidateCacheLineInL1 loc (addr t)) s Q.
Proof using.
  intros Hloc Ht Hs HQ. unfold invalidateCacheLineInL1. apply runs_when; intros Hb.
  - apply bool_decide_eq_true in Hb. eapply l1_invalidate_runs; [tauto|done|exact Hs|done].
  - apply bool_decide_eq_false in Hb. apply HQ. eapply tile_ext; [exact Hs| |done].
    intros mc' t' [-> | ->]; unfold fdrop; case_decide as Hd; try done; destruct Hd as [<- _];
      exfalso; by apply Hb.
Qed.

Lemma l1_setstate_runs mc t c i d s F L r (Q : unit -> TileState -> Prop) :
  is_l1 mc -> tag_ok t -> c <> CS_INVALID -> F mc t = Some (i, d) -> tile s F L r ->
  (forall s', tile s' (fset F mc (upd (F mc) t (Some (cl_setCState c i, d)))) L r -> Q tt s') ->
  runs (l1_setCacheLineState mc (addr t) c) s Q.
Proof using.
  intros Hmc Ht Hc E Hs HQ. unfold l1_setCacheLineState. runs_step.
  eapply l1_info_runs; [done|done|exact Hs|]. intros s1 Hs1. cbn beta. rewrite E.
  destruct (line_facts _ _ _ _ _ _ _ (tile_l1 _ _ _ _ _ _ Hs Hmc) E) as (Htag & _ & _ & Hok & Hst).
  assert (Hni : t <> INVALID_TAG) by (intros ->; by apply Hst, Hok).
  runs_step. apply runs_assert; [by apply bool_decide_true|].
  eapply on_l1_runs; [done|exact Hs1| |exact HQ].
  intros u Hu. destruct (unit_set j _ u _ t Hu Ht i d (cl_setCState c i)) as (c' & Ec & Huc);
    [done| |by left|].
  - unfold info_ok, getTagOf, getCState in *. simpl in *. split; [by rewrite Htag|done].
  - exists c'. unfold no_result. rewrite Ec. split; [done|].
    unfold getTagOf in *. simpl in *. by rewrite decide_False in Huc by congruence.
Qed.

Lemma l2_read_runs t i d s F L r (Q : Buf -> TileState -> Prop) :
  tag_ok t -> L t = Some (i, d) -> tile s F L r ->
  (forall s', tile s' F L r -> Q (Some d) s') -> runs (l2_readCacheLine env (addr t)) s Q.
Proof using Hls.
  intros Ht E Hs HQ. pose proof (unit_j _ _ _ _ (tl_l _ _ _ _ _ Hs)) as Hj.
  assert (Hp : 0 < 2 ^ j) by (apply Z.pow_pos_nonneg; lia).
  destruct (line_facts _ _ _ _ _ _ _ (tl_l _ _ _ _ _ Hs) E) as (_ & _ & Hd & _).
  eapply on_l2_runs; [exact Hs| |exact HQ]. intros u Hu.
  destruct (unit_load j _ u _ t Hu Ht 0 (2 ^ j) (Some (stack_buf env)) i d) as (c & Ec & Huc); [done| |lia|].
  - unfold access_ok, stack_buf. rewrite Hls, length_replicate. repeat split; lia.
  - exists c. rewrite Z.add_0_r in Ec. rewrite Hls, Ec. split; [|exact Huc].
    simpl. by rewrite slice_full by lia.
Qed.

Lemma l2_set_runs t i d i' s F L r (Q : unit -> TileState -> Prop) :
  tag_ok t -> L t = Some (i, d) -> getTagOf i' = t -> getCState i' <> CS_INVALID -> tile s F L r ->
  (forall s', tile s' F (upd L t (Some (i', d))) r -> Q tt s') ->
  runs (on_l2 (fun c => no_result (setCacheLineInfo c (addr t) i'))) s Q.
Proof using.
  intros Ht E Htag Hst Hs HQ.
  destruct (line_facts _ _ _ _ _ _ _ (tl_l _ _ _ _ _ Hs) E) as (Hi & _ & _ & Hok & Hst').
  assert (Hni : t <> INVALID_TAG) by (intros ->; by apply Hst', Hok).
  eapply on_l2_runs; [exact Hs| |exact HQ]. intros u Hu.
  destruct (unit_set j _ u _ t Hu Ht i d i') as (c & Ec & Huc); [done| |by left|].
  - split; [congruence|done].
  - exists c. unfold no_result. rewrite Ec. split; [done|]. by rewrite decide_False in Huc by congruence.
Qed.

Lemma l2_inval_runs t i d s F L r (Q : unit -> TileState -> Prop) :
  tag_ok t -> L t = Some (i, d) -> tile s F L r ->
  (forall s', tile s' F (upd L t None) r -> Q tt s') ->
  runs (l2_invalidateCacheLine (addr t) i) s Q.
Proof using.
  intros Ht E Hs HQ. eapply on_l2_runs; [exact Hs| |exact HQ]. intros u Hu.
  destruct (unit_set j _ u _ t Hu Ht i d (l2_invalidate i)) as (c & Ec & Huc); [done|done|by right|].
  exists c. unfold no_result. rewrite Ec. split; [done|exact Huc].
Qed.

(** ** The invariant of a line *)

(** [x]: the line of a pending miss.  For an upgrade its L1 copy has been given
    up while its record in the L2 cache may still name the L1 cache. *)
Definition line_inv (x : option Z) (t : Z) (f : MemComponent -> option (CacheLineInfo * list Z))
    (l : option (PrL2CacheLineInfo * list Z)) : Prop :=
  match l with
  | None => forall mc, is_l1 mc -> f mc = None
  | Some (i, d) =>
      (getCState i = CS_SHARED \/ getCState i = CS_MODIFIED) /\
      ((l2_cached_loc i = MC_INVALID /\ forall mc, is_l1 mc -> f mc = None) \/
       (l2_cached_loc i = home_l1 t /\ (forall mc, is_l1 mc -> mc <> home_l1 t -> f mc = None) /\
        ((x <> Some t /\ exists i1, f (home_l1 t) = Some (i1, d) /\ cl_cstate i1 = getCState i) \/
         (x = Some t /\ f (home_l1 t) = None /\ getCState i = CS_SHARED))))
  end.

Abbreviation View := (Z -> option (CacheState * list Z)).
Definition view (l : option (PrL2CacheLineInfo * list Z)) : option (CacheState * list Z) :=
  (fun '(i, d) => (getCState i, d)) <$> l.

(** The tile [s] satisfies the invariant, holds the lines [V] and has the rest
    [r]. *)
Definition good_tile (x : option Z) (s : TileState) (V : View) (r : Rest) : Prop :=
  exists F L, tile s F L r /\ (forall t, line_inv x t (fun mc => F mc t) (L t)) /\
    forall t, view (L t) = V t.

Lemma line_loc x t f i d :
  line_inv x t f (Some (i, d)) -> is_l1 (l2_cached_loc i) \/ l2_cached_loc i = MC_INVALID.
Proof using Hl1. intros (_ & [[-> _]|[-> _]]); [by right|left; by apply Hl1]. Qed.

(** Dropping a line from the L1 cache that its record names. *)
Lemma line_drop x t f i d mc :
  line_inv x t f (Some (i, d)) -> is_l1 mc ->
  (if decide (mc = l2_cached_loc i) then None else f mc) = None.
Proof using.
  intros (_ & [[-> Hn]|(-> & Hn & _)]) Hmc; case_decide; auto.
Qed.

Lemma line_inv_ext x t f f' l : 
  (forall mc, is_l1 mc -> f mc = f' mc) -> line_inv x t f l -> line_inv x t f' l.
Proof using Hl1.
  intros Hf. destruct l as [[i d]|]; simpl.
  - intros [Hst [[Hloc Hn]|(Hloc & Hn & Hh)]]; split; try done; [left|right].
    + split; [done|]. intros mc Hmc. rewrite <- Hf by done. by apply Hn.
    + rewrite <- Hf by done. split; [done|]. split; [|done]. intros mc Hmc Hne. rewrite <- Hf by done. by apply Hn.
  - intros Hn mc Hmc. rewrite <- Hf by done. by apply Hn.
Qed.

(** ** Requests of the directory *)

Lemma view_upd (L : L2Lines) (V : View) t o v :
  (forall t, view (L t) = V t) -> view o = v -> forall t', view (upd L t o t') = upd V t v t'.
Proof using.
  intros HV Ho t'. destruct (decide (t' = t)) as [->|Hne]; [by rewrite !upd_eq|by rewrite !upd_ne].
Qed.

Lemma view_some L (V : View) t c d :
  (forall t, view (L t) = V t) -> V t = Some (c, d) -> exists i, L t = Some (i, d) /\ getCState i = c.
Proof using.
  intros HV E. specialize (HV t). rewrite E in HV. destruct (L t) as [[i d']|]; simpl in HV; simplify_eq. eauto.
Qed.
Lemma view_none L (V : View) t : (forall t, view (L t) = V t) -> V t = None -> L t = None.
Proof using. intros HV E. specialize (HV t). rewrite E in HV. by destruct (L t) as [[]|]. Qed.

(** The removal of a line from the hierarchy. *)
Lemma good_remove x s F L V r t i d :
  tile s (fdrop F (l2_cached_loc i) t) (upd L t None) r -> L t = Some (i, d) ->
  (forall t, line_inv x t (fun mc => F mc t) (L t)) -> (forall t, view (L t) = V t) ->
  good_tile x s (upd V t None) r.
Proof using Hl1.
  intros Hs E Hinv HV. exists (fdrop F (l2_cached_loc i) t), (upd L t None). split; [done|]. split.
  - intros t'. destruct (decide (t' = t)) as [->|Hne].
    + rewrite upd_eq. intros mc Hmc. specialize (Hinv t). rewrite E in Hinv.
      pose proof (line_drop _ _ _ _ _ mc Hinv Hmc) as Hd. unfold fdrop.
      destruct (decide (mc = l2_cached_loc i)) as [->|Hc]; [by rewrite decide_True|].
      rewrite decide_False; [exact Hd|by intros [? _]].
    + rewrite upd_ne by done. eapply line_inv_ext; [|exact (Hinv t')]. intros mc _. simpl.
      unfold fdrop. rewrite decide_False; [done|]. naive_solver.
  - by apply view_upd.
Qed.

(** The clock work around the access to the L1 cache. *)
Lemma reach_l1_runs {A} acc loc s F L r (k : TM A) (Q : A -> TileState -> Prop) :
  is_l1 loc \/ loc = MC_INVALID -> acc = ACCESS_TAGS \/ acc = ACCESS_DATA_AND_TAGS -> tile s F L r ->
  (forall p s', tile s' F L (with_perf p r) -> runs k s' Q) ->
  runs (_ ← mm_incrCurrTime MC_L2_CACHE acc;
        _ ← mm_incrCurrTime loc ACCESS_TAGS;
        _ ← l1_addSynchronizationCost env loc L2_CACHE; k) s Q.
Proof using.
  intros Hloc Hacc Hs HQ. runs_step. eapply mm_incr_runs; [tauto|done|exact Hs|]. intros p1 s1 Hs1.
  runs_step. eapply mm_incr_runs; [tauto|by left|exact Hs1|]. intros p2 s2 Hs2.
  runs_step. eapply l1_cost_runs; [done|exact Hs2|]. intros p3 s3 Hs3. by eapply HQ.
Qed.

Lemma no_line_runs s x V r :
  good_tile x s V r -> 
  runs (mm_incrCurrTime MC_L2_CACHE ACCESS_TAGS) s (fun _ s' => exists p, good_tile x s' V (with_perf p r)).
Proof using.
  intros (F & L & Hs & Hinv & HV). eapply mm_incr_runs; [tauto|by left|exact Hs|].
  intros p s' Hs'. exists p, F, L. done.
Qed.

Definition inv_rep (m : ShmemMsg) : ShmemMsg :=
  l2_msg INV_REP (m_requester m) (m_address m) (m_modeled m).
Definition data_rep (ty : MsgType) (m : ShmemMsg) (d : list Z) : ShmemMsg :=
  l2_data_msg env ty (m_requester m) (m_address m) (Some d) (m_modeled m).

Lemma data_msg_ok ty q a d md : Z.of_nat (length d) = 2 ^ j -> 0 < j -> msg_ok (l2_data_msg env ty q a (Some d) md).
Proof using Hls.
  intros Hd Hj. assert (0 < 2 ^ j) by (apply Z.pow_pos_nonneg; lia).
  unfold msg_ok. simpl. rewrite Hls. lia.
Qed.

Lemma inv_req_runs x s V r t sender m :
  good_tile x s V r -> tag_ok t -> m_address m = addr t ->
  (V t = None \/ exists d, V t = Some (CS_SHARED, d)) ->
  runs (processInvReqFromDramDirectory env sender m) s (fun _ s' => exists p,
    match V t with
    | None => good_tile x s' V (with_perf p r)
    | Some _ => good_tile x s' (upd V t None)
        (with_sent (r_sent r ++ [packet p sender (inv_rep m)]) (with_perf p r))
    end).
Proof using Hl1.
  intros Hg Ht Ha Hc. pose proof Hg as (F & L & Hs & Hinv & HV). unfold processInvReqFromDramDirectory.
  rewrite Ha. runs_step. eapply l2_info_runs; [done|exact Hs|]. intros s1 Hs1. cbn beta.
  destruct Hc as [E|[d E]]; rewrite E.
  - rewrite (view_none L V t HV E). simpl.
    apply no_line_runs. by exists F, L.
  - destruct (view_some L V t _ _ HV E) as (i & El & Hst). rewrite El, Hst.
    rewrite decide_True by done. runs_step. apply runs_assert; [done|].
    pose proof (Hinv t) as Hi. rewrite El in Hi. pose proof (line_loc _ _ _ _ _ Hi) as Hloc.
    eapply reach_l1_runs; [done|by left|exact Hs1|]. intros p s2 Hs2.
    runs_step. eapply invalidate_in_l1_runs; [done|done|exact Hs2|]. intros s3 Hs3.
    runs_step. eapply l2_cost_runs; [done|exact Hs3|]. intros p4 s4 Hs4.
    runs_step. eapply l2_inval_runs; [done|exact El|exact Hs4|]. intros s5 Hs5.
    eapply send_runs; [done|by right|exact Hs5|]. intros s6 Hs6. exists p4. unfold inv_rep. rewrite Ha.
    by eapply good_remove.
Qed.

Lemma flush_req_runs x s V r t sender m :
  good_tile x s V r -> tag_ok t -> m_address m = addr t ->
  (V t = None \/ exists d, V t = Some (CS_MODIFIED, d)) ->
  runs (processFlushReqFromDramDirectory env sender m) s (fun _ s' => exists p,
    match V t with
    | None => good_tile x s' V (with_perf p r)
    | Some (_, d) => good_tile x s' (upd V t None)
        (with_sent (r_sent r ++ [packet p sender (data_rep FLUSH_REP m d)]) (with_perf p r))
    end).
Proof using Hl1 Hls.
  intros Hg Ht Ha Hc. pose proof Hg as (F & L & Hs & Hinv & HV). unfold processFlushReqFromDramDirectory.
  rewrite Ha. runs_step. eapply l2_info_runs; [done|exact Hs|]. intros s1 Hs1. cbn beta.
  destruct Hc as [E|[d E]]; rewrite E.
  - rewrite (view_none L V t HV E). simpl.
    apply no_line_runs. by exists F, L.
  - destruct (view_some L V t _ _ HV E) as (i & El & Hst). rewrite El, Hst.
    destruct (line_facts _ _ _ _ _ _ _ (tl_l _ _ _ _ _ Hs) El) as (_ & _ & Hd & _).
    rewrite decide_True by done. runs_step. apply runs_assert; [done|].
    pose proof (Hinv t) as Hi. rewrite El in Hi. pose proof (line_loc _ _ _ _ _ Hi) as Hloc.
    eapply reach_l1_runs; [done|by right|exact Hs1|]. intros p s2 Hs2.
    runs_step. eapply invalidate_in_l1_runs; [done|done|exact Hs2|]. intros s3 Hs3.
    runs_step. eapply l2_cost_runs; [done|exact Hs3|]. intros p4 s4 Hs4.
    runs_step. eapply l2_read_runs; [done|exact El|exact Hs4|]. intros s5 Hs5.
    runs_step. eapply l2_inval_runs; [done|exact El|exact Hs5|]. intros s6 Hs6.
    eapply send_runs; [|by right|exact Hs6|].
    + apply data_msg_ok; [done|apply (unit_j _ _ _ _ (tl_l _ _ _ _ _ Hs))].
    + intros s7 Hs7. exists p4. unfold data_rep. rewrite Ha. by eapply good_remove.
Qed.

Lemma wb_req_runs x s V r t sender m :
  good_tile x s V r -> tag_ok t -> m_address m = addr t ->
  (V t = None \/ exists d, V t = Some (CS_MODIFIED, d)) ->
  runs (processWbReqFromDramDirectory env sender m) s (fun _ s' => exists p,
    match V t with
    | None => good_tile x s' V (with_perf p r)
    | Some (_, d) => good_tile x s' (upd V t (Some (CS_SHARED, d)))
        (with_sent (r_sent r ++ [packet p sender (data_rep WB_REP m d)]) (with_perf p r))
    end).
Proof using Hl1 Hls.
  intros Hg Ht Ha Hc. pose proof Hg as (F & L & Hs & Hinv & HV). unfold processWbReqFromDramDirectory.
  rewrite Ha. runs_step. eapply l2_info_runs; [done|exact Hs|]. intros s1 Hs1. cbn beta.
  destruct Hc as [E|[d E]]; rewrite E.
  { rewrite (view_none L V t HV E). simpl.
    apply no_line_runs. by exists F, L. }
  destruct (view_some L V t _ _ HV E) as (i & El & Hst). rewrite El, Hst.
  destruct (line_facts _ _ _ _ _ _ _ (tl_l _ _ _ _ _ Hs) El) as (Htag & _ & Hd & _).
  rewrite decide_True by done. runs_step. apply runs_assert; [done|].
  pose proof (Hinv t) as Hi. rewrite El in Hi. pose proof (line_loc _ _ _ _ _ Hi) as Hloc.
  eapply reach_l1_runs; [done|by right|exact Hs1|]. intros p s2 Hs2.
  (* the L1 copy, if there is one, becomes SHARED *)
  assert (Hset : forall Q : unit -> TileState -> Prop,
    (forall F' s', tile s' F' L (with_perf p r) ->
       (forall mc t', t' <> t -> F' mc t' = F mc t') ->
       line_inv x t (fun mc => F' mc t) (Some (li_setCState CS_SHARED i, d)) -> Q tt s') ->
    runs (setCacheLineStateInL1 (l2_cached_loc i) (addr t) CS_SHARED) s2 Q).
  { intros Q HQ. unfold setCacheLineStateInL1. destruct Hi as (_ & [[Hl Hn]|(Hl & Hn & Hh)]); rewrite Hl.
    - apply runs_when; [done|]. intros _. apply (HQ F); [done|done|]. split; [by left|]. by left.
    - apply runs_when; [intros _|intros Hb; apply bool_decide_eq_false in Hb; exfalso; apply Hb; by destruct (Hl1 t) as [-> | ->]].
      destruct Hh as [(Hx & i1 & Ei1 & Hst1)|(_ & _ & Hsh)]; [|congruence].
      eapply l1_setstate_runs; [apply Hl1|done|done|exact Ei1|exact Hs2|]. intros s3 Hs3.
      eapply HQ; [exact Hs3| |].
      + intros mc t' Hne. unfold fset. case_decide; [subst; by rewrite upd_ne|done].
      + split; [by left|]. right. split; [done|]. split.
        * intros mc Hmc Hne. rewrite fset_ne by done. by apply Hn.
        * left. split; [done|]. exists (cl_setCState CS_SHARED i1). by rewrite fset_eq, upd_eq. }
  runs_step. eapply Hset. intros F' s3 Hs3 HF' Hi'.
  runs_step. eapply l2_cost_runs; [done|exact Hs3|]. intros p4 s4 Hs4.
  runs_step. eapply l2_read_runs; [done|exact El|exact Hs4|]. intros s5 Hs5.
  runs_step. eapply l2_set_runs; [done|exact El|done|done|exact Hs5|]. intros s6 Hs6.
  eapply send_runs; [|by right|exact Hs6|].
  { apply data_msg_ok; [done|apply (unit_j _ _ _ _ (tl_l _ _ _ _ _ Hs))]. }
  intros s7 Hs7. exists p4. unfold data_rep. rewrite Ha. eexists _, _. split; [exact Hs7|]. split.
  - intros t'. destruct (decide (t' = t)) as [->|Hne]; [by rewrite upd_eq|].
    rewrite upd_ne by done. eapply line_inv_ext; [|exact (Hinv t')]. intros mc _. simpl. by rewrite HF'.
  - by apply view_upd.
Qed.

(** ** Insertions *)

Lemma line_inv_change x x' t f l :
  line_inv x t f l -> (x = Some t <-> x' = Some t) -> line_inv x' t f l.
Proof using.
  destruct l as [[i d]|]; [|done]. intros [Hst Hor] Hx. split; [done|].
  destruct Hor as [?|(Hl & Hn & [[Hne ?]|(He & ?)])]; [by left| |]; right; (split; [done|]); (split; [done|]).
  - left. split; [|done]. by rewrite <- Hx.
  - right. split; [|done]. by rewrite <- Hx.
Qed.

(** A line held by an L1 cache. *)
Lemma line_in_l1 x t f l mc i1 d1 :
  line_inv x t f l -> is_l1 mc -> f mc = Some (i1, d1) ->
  mc = home_l1 t /\ exists i, l = Some (i, d1) /\ l2_cached_loc i = mc /\ cl_cstate i1 = getCState i.
Proof using.
  intros Hi Hmc Hf. destruct l as [[i d]|]; simpl in Hi; [|rewrite Hi in Hf by done; done].
  destruct Hi as [_ [[_ Hn]|(Hl & Hn & Hh)]]; [by rewrite Hn in Hf|].
  destruct (decide (mc = home_l1 t)) as [->|Hne]; [|by rewrite Hn in Hf].
  split; [done|]. destruct Hh as [(_ & i2 & Hf2 & Hst)|(_ & Hf2 & _)]; [|congruence].
  rewrite Hf in Hf2. simplify_eq. by exists i.
Qed.

(** The line goes into the L1 cache; the line it replaces there keeps its
    place in the L2 cache. *)
Lemma insert_l1_runs x mc t c d s F L r (Q : unit -> TileState -> Prop) :
  is_l1 mc -> tag_ok t -> c <> CS_INVALID -> Z.of_nat (length d) = 2 ^ j -> F mc t = None ->
  (forall t', t' <> t -> line_inv x t' (fun mc => F mc t') (L t')) -> tile s F L r ->
  (forall F' L' i1 s', tile s' F' L' r -> F' mc t = Some (i1, d) -> cl_cstate i1 = c -> L' t = L t ->
     (forall mc', mc' <> mc -> F' mc' t = F mc' t) ->
     (forall t', t' <> t -> line_inv x t' (fun mc => F' mc t') (L' t')) ->
     (forall t', view (L' t') = view (L t')) -> Q tt s') ->
  runs (insertCacheLineInL1 mc (addr t) c (Some d)) s Q.
Proof using Hl1.
  intros Hmc Ht Hc Hd HF Hinv Hs HQ. unfold insertCacheLineInL1.
  runs_step. apply runs_assert; [by destruct Hmc as [-> | ->]|].
  unfold l1_insertCacheLine. runs_step. apply getL1_runs; [done|].
  pose proof (tile_l1 _ _ _ _ _ _ Hs Hmc) as Hu. cbn beta. rewrite (unit_tag j _ _ _ t Hu Ht).
  set (i1 := cl_setCState c (cl_setTag t CacheLineInfo_new)).
  destruct (unit_insert j _ _ _ t Hu Ht i1 d CacheLineInfo_new None) as (c1 & ev & ea & E & Hev); try done.
  runs_step. unfold on_l1. runs_step. apply getL1_runs; [done|]. runs_step.
  eapply runs_lift; [rewrite E; reflexivity|]. runs_step.
  destruct Hev as [[Hev Hu1]|(w & wi & wd & Hwt & Hw & HFw & Hev & Hea & Hu1)].
  - eapply put_l1_runs; [done|exact Hs|exact Hu1|]. intros s1 Hs1. runs_step. runs_step.
    cbn beta iota. rewrite Hev. apply runs_ret. eapply (HQ _ _ i1); [exact Hs1| | | | | |]; try done.
    + by rewrite fset_eq, upd_eq.
    + intros mc' Hne. by rewrite fset_ne.
    + intros t' Hne. eapply line_inv_ext; [|exact (Hinv t' Hne)]. intros mc' _. simpl.
      unfold fset. case_decide; [subst; by rewrite upd_ne|done].
  - eapply put_l1_runs; [done|exact Hs|exact Hu1|]. intros s1 Hs1. runs_step. runs_step.
    cbn beta iota. subst ev ea. cbn [ev_eviction]. 
    destruct (line_in_l1 _ _ _ _ mc wi wd (Hinv w Hwt) Hmc HFw) as (Hmw & iw & ELw & Hlw & Hstw).
    destruct (line_facts _ _ _ _ _ _ _ (tl_l _ _ _ _ _ Hs) ELw) as (Htagw & _ & _ & Hokw & Hsw).
    apply runs_when; [intros _|done]. runs_step. eapply l2_info_runs; [done|exact Hs1|].
    intros s2 Hs2. cbn beta. rewrite ELw, Hlw. runs_step. rewrite decide_False by (by intros Hx; apply Hx).
    eapply runs_lift.
    { unfold l2_clearCachedLoc. rewrite Hlw, !bool_decide_true by (done || by destruct Hmc as [-> | ->]).
      reflexivity. }
    eapply (l2_set_runs w iw wd (mkPrL2 (l2_base iw) MC_INVALID)); [done|exact ELw|done|done|exact Hs2|].
    intros s3 Hs3. eapply (HQ _ _ i1); [exact Hs3| | | | | |]; try done.
    + by rewrite fset_eq, upd_eq.
    + by rewrite upd_ne.
    + intros mc' Hne. by rewrite fset_ne.
    + intros t' Hne. destruct (decide (t' = w)) as [->|Hnw].
      * rewrite upd_eq. pose proof (Hinv w Hwt) as Hi. rewrite ELw in Hi. destruct Hi as [Hst Hor].
        split; [done|]. left. split; [done|]. intros mc' Hmc'. unfold fset.
        case_decide; [by rewrite upd_ne, upd_eq|]. destruct Hor as [[? _]|(_ & Hn & _)].
        -- rewrite Hlw in *. by destruct Hmc as [-> | ->].
        -- apply Hn; [done|congruence].
      * rewrite upd_ne by done. eapply line_inv_ext; [|exact (Hinv t' Hne)]. intros mc' _. simpl.
        unfold fset. case_decide; [subst; by rewrite !upd_ne|done].
    + intros t'. unfold upd. destruct (decide (t' = w)) as [->|]; [by rewrite ELw|done].
Qed.

(** What the L2 cache sends when it evicts a line. *)
Definition evict_msg (v : Z) (c : CacheState) (d : list Z) : ShmemMsg :=
  if decide (c = CS_MODIFIED)
  then l2_data_msg env FLUSH_REP (te_tile env) (addr v) (Some d) (te_application env)
  else l2_msg INV_REP (te_tile env) (addr v) (te_application env).

Lemma insert_l2_runs x mc t c d s F L r (Q : unit -> TileState -> Prop) :
  is_l1 mc -> tag_ok t -> c <> CS_INVALID -> Z.of_nat (length d) = 2 ^ j -> L t = None ->
  (forall t', line_inv x t' (fun mc => F mc t') (L t')) -> tile s F L r ->
  (forall F' L' r' i s', tile s' F' L' r' -> L' t = Some (i, d) -> getCState i = c -> l2_cached_loc i = mc ->
     (forall mc', is_l1 mc' -> F' mc' t = None) ->
     (forall t', t' <> t -> line_inv x t' (fun mc => F' mc t') (L' t')) ->
     ((r' = r /\ forall t', t' <> t -> view (L' t') = view (L t')) \/
      (exists v cv dv h, v <> t /\ tag_ok v /\ view (L v) = Some (cv, dv) /\
         getHome (te_home env) (addr v) = Ok h /\
         r' = with_sent (r_sent r ++ [packet (r_perf r) h (evict_msg v cv dv)]) r /\
         forall t', t' <> t -> view (L' t') = if decide (t' = v) then None else view (L t'))) ->
     Q tt s') ->
  runs (l2_insertCacheLine env (addr t) c (Some d) mc) s Q.
Proof using Hl1 Hls Hhome.
  intros Hmc Ht Hc Hd HL Hinv Hs HQ. unfold l2_insertCacheLine. runs_step. cbn beta.
  pose proof (tl_l _ _ _ _ _ Hs) as Hu. rewrite (unit_tag j _ _ _ t Hu Ht).
  set (i := mkPrL2 (cl_setCState c (cl_setTag t CacheLineInfo_new)) mc).
  runs_step. apply (runs_lift _ i).
  { unfold l2_setCachedLoc. simpl. by rewrite !bool_decide_true by (done || by destruct Hmc as [-> | ->]). }
  destruct (unit_insert j _ _ _ t Hu Ht i d PrL2_new (Some (stack_buf env))) as (c1 & ev & ea & E & Hev); try done.
  { simpl. unfold stack_buf. rewrite length_replicate, Hls. pose proof (unit_j _ _ _ _ Hu).
    assert (0 < 2 ^ j) by (apply Z.pow_pos_nonneg; lia). lia. }
  assert (Hnone : forall mc', is_l1 mc' -> F mc' t = None) by (specialize (Hinv t); by rewrite HL in Hinv).
  runs_step. unfold on_l2. runs_step. runs_step. eapply runs_lift; [rewrite E; reflexivity|].
  runs_step. runs_step. cbn beta iota. 
  destruct Hev as [[Hev Hu1]|(v & vi & vd & Hvt & Hv & HLv & Hev & Hea & Hu1)].
  - rewrite Hev. apply runs_ret. eapply (HQ F (upd L t (Some (i, d))) r i); try done.
    + destruct Hs. by split.
    + by rewrite upd_eq.
    + intros t' Hne. by rewrite upd_ne.
    + left. split; [done|]. intros t' Hne. by rewrite upd_ne.
  - subst ev ea. cbn [ev_eviction ev_info ev_writeback fmap option_fmap option_map]. apply runs_when; [intros _|done].
    pose proof (Hinv v) as Hi. rewrite HLv in Hi. pose proof (line_loc _ _ _ _ _ Hi) as Hloc.
    destruct (line_facts _ _ _ _ _ _ _ Hu HLv) as (_ & _ & Hvd & _).
    assert (Hs1 : tile (ts_set_l2 (u_set_cache c1 (ts_l2 s)) s) F (upd (upd L v None) t (Some (i, d))) r)
      by (destruct Hs; by split).
    runs_step. eapply invalidate_in_l1_runs; [done|done|exact Hs1|]. intros s2 Hs2.
    destruct (Hhome v Hv) as [h Eh]. runs_step. eapply runs_lift; [exact Eh|].
    assert (Hsend : runs (mm_sendMsg env h (evict_msg v (getCState vi) vd)) s2 Q).
    { eapply send_runs; [| |exact Hs2|].
      - unfold evict_msg. case_decide; [|done]. apply data_msg_ok; [done|apply (unit_j _ _ _ _ Hu)].
      - right. unfold evict_msg. by case_decide.
      - intros s3 Hs3. eapply (HQ _ _ _ i); [exact Hs3| | | | | |]; try done.
        + by rewrite upd_eq.
        + intros mc' Hmc'. unfold fdrop. rewrite decide_False; [by apply Hnone|]. intros [_ ?]. congruence.
        + intros t' Hne. rewrite upd_ne by done. destruct (decide (t' = v)) as [->|Hnv].
          * rewrite upd_eq. intros mc' Hmc'. pose proof (line_drop _ _ _ _ _ mc' Hi Hmc') as Hdr.
            unfold fdrop. destruct (decide (mc' = l2_cached_loc vi)) as [->|Hne']; [by rewrite decide_True|].
            rewrite decide_False; [exact Hdr|by intros [? _]].
          * rewrite upd_ne by done. eapply line_inv_ext; [|exact (Hinv t')]. intros mc' _. simpl.
            unfold fdrop. rewrite decide_False; [done|]. by intros [_ ?].
        + right. exists v, (getCState vi), vd, h. split_and!; try done; [by rewrite HLv|].
          intros t' Hne. rewrite upd_ne by done. unfold upd. by destruct (decide (t' = v)). }
    destruct Hi as [Hst _]. unfold evict_msg in Hsend.
    destruct (decide (getCState vi = CS_MODIFIED)) as [Hm|Hm]; [exact Hsend|].
    runs_step. apply runs_log_assert; [apply bool_decide_true; by destruct Hst|exact Hsend].
Qed.

(** A reply puts the line into both caches; at most one line leaves the tile. *)
Definition filled (p : ShmemPerfModel) (s : TileState) (V : View) (r : Rest) (t : Z) (c : CacheState)
    (d : list Z) : Prop :=
  good_tile None s (upd V t (Some (c, d))) r \/
  exists v cv dv h, v <> t /\ tag_ok v /\ V v = Some (cv, dv) /\ getHome (te_home env) (addr v) = Ok h /\
    good_tile None s (upd (upd V v None) t (Some (c, d)))
      (with_sent (r_sent r ++ [packet p h (evict_msg v cv dv)]) r).

Lemma hierarchy_runs x t c d s V r :
  tag_ok t -> c = CS_SHARED \/ c = CS_MODIFIED -> Z.of_nat (length d) = 2 ^ j -> V t = None ->
  x = None \/ x = Some t -> r_address r = addr t -> r_component r = home_l1 t -> good_tile x s V r ->
  runs (insertCacheLineInHierarchy env (addr t) c (Some d)) s (fun _ s' => filled (r_perf r) s' V r t c d).
Proof using Hl1 Hls Hhome.
  intros Ht Hc Hd HV Hx Hra Hrc (F & L & Hs & Hinv & HVL). unfold insertCacheLineInHierarchy.
  assert (Hout : ts_out_address s = addr t /\ ts_out_component s = home_l1 t).
  { pose proof (tl_rest _ _ _ _ _ Hs) as Hr. rewrite <- Hr in Hra, Hrc. done. }
  destruct Hout as [Ho1 Ho2]. runs_step. cbn beta. runs_step. apply runs_assert; [by rewrite Ho1, Z.eqb_refl|].
  runs_step. cbn beta. rewrite Ho2. runs_step.
  eapply (insert_l2_runs x); [apply Hl1|done|by destruct Hc; subst|done|by eapply view_none|done|exact Hs|].
  intros F1 L1 r1 i s1 Hs1 HL1 Hci Hli HF1 Hinv1 Hres.
  eapply (insert_l1_runs x); [apply Hl1|done|by destruct Hc; subst|done|by apply HF1, Hl1|exact Hinv1|exact Hs1|].
  intros F2 L2 i1 s2 Hs2 HF2 Hci1 HL2 HF2' Hinv2 HV2.
  assert (Hgood : forall V', (forall t', t' <> t -> view (L1 t') = V' t') ->
    good_tile None s2 (upd V' t (Some (c, d))) r1).
  { intros V' HV'. exists F2, L2. split; [done|]. split.
    - intros t'. destruct (decide (t' = t)) as [->|Hne].
      + rewrite HL2, HL1. split; [rewrite Hci; naive_solver|]. right. split; [done|]. split.
        * intros mc Hmc Hne. rewrite HF2' by done. by apply HF1.
        * left. split; [done|]. exists i1. split; [done|congruence].
      + eapply line_inv_change; [by apply Hinv2|]. destruct Hx as [-> | ->]; split; congruence.
    - intros t'. rewrite HV2. destruct (decide (t' = t)) as [->|Hne].
      + rewrite upd_eq, HL1. simpl. by rewrite Hci.
      + rewrite upd_ne by done. by apply HV'. }
  destruct Hres as [[-> Hv]|(v & cv & dv & h & Hvt & Hv & Evv & Eh & -> & Hv')].
  - left. apply Hgood. intros t' Hne. by rewrite Hv, HVL.
  - right. exists v, cv, dv, h. do 2 (split; [done|]). split; [by rewrite <- HVL|]. split; [done|].
    apply Hgood. intros t' Hne. rewrite Hv' by done. unfold upd. case_decide; [done|apply HVL].
Qed.

(** ** Messages of the L1 caches *)

Definition request (ty : MsgType) (m : ShmemMsg) : ShmemMsg :=
  l2_msg ty (te_tile env) (m_address m) (m_modeled m).

(** What a miss of the core sends to the home of the line. *)
Lemma handle_l1_runs x s V r t m :
  good_tile x s V r -> tag_ok t -> m_address m = addr t -> x = Some t ->
  r_address r = INVALID_ADDRESS -> m_data_buf m = None -> m_data_length m = 0 ->
  match m_type m with
  | EX_REQ => V t = None \/ exists d, V t = Some (CS_SHARED, d)
  | SH_REQ => V t = None
  | _ => False
  end ->
  runs (handleMsgFromL1Cache env m) s (fun _ s' => exists h,
    getHome (te_home env) (addr t) = Ok h /\
    good_tile x s' (upd V t None)
      (with_sent (r_sent r ++ (match V t with Some _ => [packet (r_perf r) h (request INV_REP m)] | None => [] end) ++
                  [packet (r_perf r) h (request (m_type m) m)])
         (with_out (addr t) (m_sender m) (pm_curr_time (r_perf r)) r))).
Proof using Hl1 Hhome.
  intros Hg Ht Ha Hx Hout Hb Hlen Hty. destruct (Hhome t Ht) as [h Eh]. destruct Hg as (F & L & Hs & Hinv & HV).
  unfold handleMsgFromL1Cache. rewrite Hb, Hlen. runs_step. apply runs_assert; [done|].
  runs_step. apply runs_assert; [done|]. runs_step. cbn beta.
  pose proof (tl_rest _ _ _ _ _ Hs) as Hr. rewrite <- Hr in Hout. simpl in Hout.
  runs_step. apply runs_assert; [by rewrite Hout|]. runs_step.
  set (s1 := ts_set_out _ _ _ s). set (r1 := with_out (addr t) (m_sender m) (pm_curr_time (r_perf r)) r).
  assert (Hs1 : tile s1 F L r1).
  { unfold s1, r1. rewrite Ha, <- (f_equal r_perf Hr). by apply tile_out. }
  clearbody s1. clear Hs Hout.
  (* the request proper *)
  assert (Hreq : forall ty s2 L' r2, tile s2 F L' r2 -> (forall t', line_inv x t' (fun mc => F mc t') (L' t')) ->
    (forall t', view (L' t') = upd V t None t') ->
    runs (home ← lift (getHome (te_home env) (addr t));
          mm_sendMsg env home (l2_msg ty (te_tile env) (addr t) (m_modeled m))) s2
      (fun _ s' => exists h, getHome (te_home env) (addr t) = Ok h /\
         good_tile x s' (upd V t None) (with_sent (r_sent r2 ++ [packet (r_perf r2) h (request ty m)]) r2))).
  { intros ty s2 L' r2 Hs2 Hinv2 HV2. runs_step. eapply runs_lift; [exact Eh|].
    eapply send_runs; [done|by right|exact Hs2|]. intros s3 Hs3. exists h. split; [done|].
    unfold request. rewrite Ha. by exists F, L'. }
  destruct (m_type m) eqn:Em; try done.
  - unfold processExReqFromL1Cache. rewrite Ha. runs_step. eapply l2_info_runs; [done|exact Hs1|].
    intros s2 Hs2. cbn beta. destruct Hty as [E|[d E]]; rewrite E.
    + rewrite (view_none L V t HV E). simpl. runs_step. apply (runs_lift _ tt); [done|]. runs_step.
      apply Hreq with (r2 := r1) (L' := L); [done|done|]. intros t'. rewrite HV. unfold upd. by case_decide; subst.
    + destruct (view_some L V t _ _ HV E) as (i & El & Hst). rewrite El, Hst. runs_step.
      apply runs_assert; [done|]. rewrite bool_decide_true by done. cbn [when]. runs_step.
      eapply l2_inval_runs; [done|exact El|exact Hs2|]. intros s3 Hs3. runs_step.
      eapply runs_lift; [exact Eh|]. eapply send_runs; [done|by right|exact Hs3|]. intros s4 Hs4.
      eapply runs_mono; [eapply Hreq; [exact Hs4| |by apply view_upd]|].
      * intros t'. destruct (decide (t' = t)) as [->|Hne]; [|by rewrite upd_ne].
        rewrite upd_eq. intros mc Hmc. pose proof (Hinv t) as Hi. rewrite El in Hi.
        destruct Hi as [_ [[_ Hn]|(_ & Hn & [[? _]|(_ & Hf & _)])]]; [by apply Hn|done|].
        destruct (decide (mc = home_l1 t)) as [->|]; [done|by apply Hn].
      * intros _ s5 (h' & Eh' & Hg). exists h'. split; [done|]. rewrite Eh in Eh'. injection Eh' as <-.
        unfold request in Hg |- *. rewrite Ha in Hg |- *. simpl in Hg. by rewrite <- app_assoc in Hg.
  - unfold processShReqFromL1Cache. rewrite Ha, Hty. 
    apply Hreq with (r2 := r1) (L' := L); [done|done|]. intros t'. rewrite HV. unfold upd. by case_decide; subst.
Qed.

(** ** Messages of the directory *)

Definition dir_module (sender : Z) : module_t := if sender =? te_tile env then DIRECTORY else NETWORK_MEMORY.

Lemma tile_finish_runs m s V r t c d pp :
  r_time r <= pm_curr_time (r_perf r) ->
  filled pp s V r t c d -> 
  runs (finish_reply m) s (fun _ s' => exists p,
    filled pp s' V (with_out INVALID_ADDRESS (r_component r) (r_time r) (with_perf p r)) t c d).
Proof using.
  intros Htime Hf.
  assert (Hgen : forall V' r', r_time r' <= pm_curr_time (r_perf r') -> good_tile None s V' r' ->
    runs (finish_reply m) s (fun _ s' => exists p,
      good_tile None s' V' (with_out INVALID_ADDRESS (r_component r') (r_time r') (with_perf p r')))).
  { intros V' r' Htime' (F & L & Hs & Hinv & HV). unfold finish_reply. runs_step. cbn beta.
    pose proof (tl_rest _ _ _ _ _ Hs) as Hr. runs_step. apply runs_log_assert.
    { apply Z.leb_le. rewrite <- Hr in Htime'. exact Htime'. }
    eapply runs_seq with (P := fun _ s' => exists p, tile s' F L (with_perf p r')).
    { apply runs_when; intros _.
      - runs_step. eexists. destruct Hs. split; try done. unfold rest_of in *. subst r'. done.
      - exists (r_perf r'). by destruct r'. }
    intros [] s1 [p1 Hs1]. runs_step. eapply mm_incr_runs; [tauto|by right|exact Hs1|]. intros p s2 Hs2.
    runs_step. exists p, F, L. split; [|done]. pose proof (tl_rest _ _ _ _ _ Hs2) as E2.
    pose proof (f_equal r_component E2) as Ec. pose proof (f_equal r_time E2) as Et.
    simpl in Ec, Et. rewrite Ec, Et. by apply tile_out. }
  destruct Hf as [Hg|(v & cv & dv & h & Hvt & Hv & Ev & Eh & Hg)].
  - eapply runs_mono; [eapply Hgen; [|exact Hg]; exact Htime|]. intros _ s' [p Hp]. exists p. by left.
  - eapply runs_mono; [eapply Hgen; [|exact Hg]; exact Htime|]. intros _ s' [p Hp]. exists p. right. by exists v, cv, dv, h.
Qed.

Definition reply_state (ty : MsgType) : CacheState := if decide (ty = EX_REP) then CS_MODIFIED else CS_SHARED.

Lemma reply_runs x s V r t sender m d :
  good_tile x s V r -> tag_ok t -> m_address m = addr t -> m_type m = EX_REP \/ m_type m = SH_REP ->
  m_data_buf m = Some d -> Z.of_nat (length d) = 2 ^ j -> V t = None -> x = None \/ x = Some t ->
  r_address r = addr t -> r_component r = home_l1 t ->
  r_time r <= pm_curr_time (sync_l2_perf env (dir_module sender) s) ->
  runs (handleMsgFromDramDirectory env sender m) s (fun _ s' => exists pp p,
    filled pp s' V (with_out INVALID_ADDRESS (r_component r) (r_time r) (with_perf p r)) t
      (reply_state (m_type m)) d).
Proof using Hl1 Hls Hhome.
  intros (F & L & Hs & Hinv & HV) Ht Ha Hty Hb Hd HVt Hx Hra Hrc Htime.
  unfold handleMsgFromDramDirectory. runs_step. fold (dir_module sender).
  eapply l2_sync_runs; [exact Hs|]. intros s1 Hs1. set (p1 := sync_l2_perf _ _ _) in *.
  assert (Hgo : forall c, c = CS_SHARED \/ c = CS_MODIFIED ->
    runs (_ ← insertCacheLineInHierarchy env (addr t) c (Some d); finish_reply m) s1 (fun _ s' => exists pp p,
      filled pp s' V (with_out INVALID_ADDRESS (r_component r) (r_time r) (with_perf p r)) t c d)).
  { intros c Hc. eapply runs_seq.
    - eapply (hierarchy_runs x) with (V := V) (r := with_perf p1 r); try done. by exists F, L.
    - intros [] s2 Hf. eapply runs_mono; [eapply tile_finish_runs; [|exact Hf]; exact Htime|].
      intros _ s3 [p Hp]. by exists p1, p. }
  unfold reply_state. destruct Hty as [E|E]; rewrite E.
  - unfold processExRepFromDramDirectory. rewrite Ha, Hb. apply Hgo. by right.
  - unfold processShRepFromDramDirectory. rewrite Ha, Hb. apply Hgo. by left.
Qed.

(** The requests of the directory, through the common entry point. *)
Definition req_response (m : ShmemMsg) (c : CacheState) (d : list Z) : option (CacheState * list Z) * ShmemMsg :=
  match m_type m with
  | INV_REQ => (None, inv_rep m)
  | FLUSH_REQ => (None, data_rep FLUSH_REP m d)
  | _ => (Some (CS_SHARED, d), data_rep WB_REP m d)
  end.

Definition req_allowed (ty : MsgType) (v : option (CacheState * list Z)) : Prop :=
  match ty, v with
  | (INV_REQ | FLUSH_REQ | WB_REQ), None => True
  | INV_REQ, Some (c, _) => c = CS_SHARED
  | (FLUSH_REQ | WB_REQ), Some (c, _) => c = CS_MODIFIED
  | _, _ => False
  end.

Lemma dir_request_runs x s V r t sender m :
  good_tile x s V r -> tag_ok t -> m_address m = addr t -> req_allowed (m_type m) (V t) ->
  runs (handleMsgFromDramDirectory env sender m) s (fun _ s' => exists p,
    match V t with
    | None => good_tile x s' V (with_perf p r)
    | Some (c, d) => good_tile x s' (upd V t (req_response m c d).1)
        (with_sent (r_sent r ++ [packet p sender (req_response m c d).2]) (with_perf p r))
    end).
Proof using Hl1 Hls.
  intros (F & L & Hs & Hinv & HV) Ht Ha Hal. unfold handleMsgFromDramDirectory. runs_step.
  eapply l2_sync_runs; [exact Hs|]. intros s1 Hs1. set (p1 := sync_l2_perf _ _ _) in *.
  assert (Hg1 : good_tile x s1 V (with_perf p1 r)) by (by exists F, L). clearbody p1. clear Hs Hs1 Hinv HV F L.
  unfold req_response. destruct (m_type m) eqn:Em; try done; cbn [fst snd].
  - eapply runs_mono; [eapply inv_req_runs; [exact Hg1|done|done|]|].
    + simpl in Hal. destruct (V t) as [[c d]|]; [right; subst; by eexists|by left].
    + intros _ s' [p Hp]. exists p. by destruct (V t) as [[]|].
  - eapply runs_mono; [eapply flush_req_runs; [exact Hg1|done|done|]|].
    + simpl in Hal. destruct (V t) as [[c d]|]; [right; subst; by eexists|by left].
    + intros _ s' [p Hp]. exists p. by destruct (V t) as [[]|].
  - eapply runs_mono; [eapply wb_req_runs; [exact Hg1|done|done|]|].
    + simpl in Hal. destruct (V t) as [[c d]|]; [right; subst; by eexists|by left].
    + intros _ s' [p Hp]. exists p. by destruct (V t) as [[]|].
Qed.

(** ** Accesses of the core *)

Definition permits (op : mem_op_t) (v : option (CacheState * list Z)) : bool :=
  match v with Some (c, _) => op_permits op c | None => false end.

(** The buffer of the core and the line after an access. *)
Definition access_result (op : mem_op_t) (off len : Z) (buf : Buf) (d : list Z) : Buf :=
  match op with
  | WRITE => buf
  | _ => (fun _ => slice (Z.to_nat off) (Z.to_nat len) d) <$> buf
  end.
Definition access_data (op : mem_op_t) (off : Z) (buf : Buf) (d : list Z) : list Z :=
  match op with WRITE => splice (Z.to_nat off) (default [] buf) d | _ => d end.

(** A core access stays inside a line and goes to the L1 cache of the line. *)
Record access_fits (t : Z) (mc : MemComponent) (op : mem_op_t) (off len : Z) (buf : Buf) : Prop := {
  af_tag : tag_ok t;
  af_l1 : mc = home_l1 t;
  af_op : op = WRITE -> mc = MC_L1_DCACHE;
  af_buf : access_ok (2 ^ j) off len buf;
  af_len : 0 < len }.

Lemma access_runs s F L r t mc op off len buf i1 i2 d (Q : Buf -> TileState -> Prop) :
  access_fits t mc op off len buf -> tile s F L r ->
  F mc t = Some (i1, d) -> L t = Some (i2, d) ->
  (forall F' L' s', tile s' F' L' r -> F' mc t = Some (i1, access_data op off buf d) ->
     L' t = Some (i2, access_data op off buf d) ->
     (forall mc' t', mc' <> mc \/ t' <> t -> F' mc' t' = F mc' t') ->
     (forall t', t' <> t -> L' t' = L t') -> Q (access_result op off len buf d) s') ->
  runs (accessCache mc op (addr t) off buf len) s Q.
Proof using Hl1.
  intros [] Hs HF HL HQ. assert (Hmc : is_l1 mc) by (subst; apply Hl1).
  assert (Hoff : 0 <= off < 2 ^ j) by (destruct af_buf0; lia).
  destruct (addr_facts _ _ _ _ t off (tl_l _ _ _ _ _ Hs) af_tag0 Hoff) as (Hw & _).
  unfold accessCache, l2_writeCacheLine. rewrite Hw.
  assert (Hload : op <> WRITE -> runs (on_l1 mc (fun c => accessCacheLine c (addr t + off) LOAD buf len)) s Q).
  { intros Hop. eapply (on_l1_runs j mc _ s F L r (F mc)); [done|done| |].
    - intros u Hu. by apply (unit_load j _ u _ t Hu af_tag0 off len buf i1 d HF af_buf0), Hoff.
    - intros s' Hs'%fset_self. unfold access_result, access_data in HQ. destruct op; [| |done]; by eapply HQ. }
  destruct op; [by apply Hload..|]. unfold access_result, access_data in HQ.
  runs_step. eapply on_l1_runs; [done|exact Hs| |].
  { intros u Hu. by apply (unit_store j _ u _ t Hu af_tag0 off len buf i1 d HF af_buf0), Hoff. }
  intros s1 Hs1. runs_step. eapply on_l2_runs; [exact Hs1| |].
  { intros u Hu. by apply (unit_store j _ u _ t Hu af_tag0 off len buf i2 d HL af_buf0), Hoff. }
  intros s2 Hs2. runs_step. runs_step. eapply HQ; [exact Hs2|by rewrite fset_eq, upd_eq|by rewrite upd_eq| |].
  - intros mc' t' Hne. unfold fset. case_decide; [subst|done]. rewrite upd_ne; [done|naive_solver].
  - intros t' Hne. by rewrite upd_ne.
Qed.

(** The L1 cache holds the line. *)
Definition in_l1 (mc : MemComponent) (t : Z) (s : TileState) : Prop :=
  is_Some (cache_line (u_cache (l1_of mc s)) t).

Lemma in_l1_tile mc t s F L r : is_l1 mc -> tile s F L r -> in_l1 mc t s <-> is_Some (F mc t).
Proof using.
  intros Hmc Hs. destruct (tile_l1 _ _ _ _ _ _ Hs Hmc) as (_ & _ & E). unfold in_l1. by rewrite E.
Qed.

(** The access is done when the line is in both caches. *)
Lemma access_good s F L V r t mc op off len buf i1 i2 c d :
  access_fits t mc op off len buf -> tile s F L r ->
  F mc t = Some (i1, d) -> L t = Some (i2, d) -> cl_cstate i1 = c -> getCState i2 = c ->
  l2_cached_loc i2 = mc -> c = CS_SHARED \/ c = CS_MODIFIED ->
  (forall mc', is_l1 mc' -> mc' <> mc -> F mc' t = None) ->
  (forall t', t' <> t -> line_inv None t' (fun mc => F mc t') (L t')) ->
  (forall t', t' <> t -> view (L t') = V t') ->
  runs (accessCache mc op (addr t) off buf len) s (fun out s' =>
    out = access_result op off len buf d /\ in_l1 mc t s' /\
    good_tile None s' (upd V t (Some (c, access_data op off buf d))) r).
Proof using Hl1.
  intros Hfit Hs HF HL Hc1 Hc2 Hloc Hc Hothers Hinv HV. pose proof (af_l1 _ _ _ _ _ _ Hfit) as Hmc.
  eapply access_runs; [exact Hfit|exact Hs|exact HF|exact HL|].
  intros F' L' s' Hs' HF' HL' HFo HLo. split; [done|].
  split; [by eapply in_l1_tile; [rewrite Hmc; apply Hl1|exact Hs'|rewrite HF']|].
  exists F', L'. split; [done|]. split.
  - intros t'. destruct (decide (t' = t)) as [->|Hne].
    + rewrite HL'. split; [by rewrite Hc2|]. right. rewrite <- Hmc. split; [done|]. split.
      * intros mc' Hl Hne. rewrite HFo by (by left). by apply Hothers.
      * left. split; [done|]. exists i1. split; [done|congruence].
    + rewrite HLo by done. eapply line_inv_ext; [|by apply Hinv]. intros mc' _. simpl. rewrite HFo; [done|by right].
  - intros t'. destruct (decide (t' = t)) as [->|Hne].
    + rewrite upd_eq, HL'. simpl. by rewrite Hc2.
    + rewrite upd_ne, HLo by done. by apply HV.
Qed.

Lemma core_hit_runs s V r n hit t mc lock op off len buf c d :
  good_tile None s V r -> access_fits t mc op off len buf -> n = 1 \/ n = 2 ->
  V t = Some (c, d) -> op_permits op c = true -> 
  (lock = UNLOCK -> in_l1 mc t s) ->
  runs (mem_op_iteration env n hit mc lock op (addr t) off buf len) s (fun res s' =>
    exists h p, res = Some (h, access_result op off len buf d) /\ in_l1 mc t s' /\
      good_tile None s' (upd V t (Some (c, access_data op off buf d))) (with_perf p r)).
Proof using Hl1 Hls.
  intros (F & L & Hs & Hinv & HV) Hfit Hn Ec Hop Hlock.
  pose proof Hfit as [Ht Hmc Hwr Hacc Hlen]. assert (His : is_l1 mc) by (subst; apply Hl1).
  destruct (view_some L V t _ _ HV Ec) as (i2 & EL & Hst).
  pose proof (Hinv t) as Hi. rewrite EL in Hi. destruct Hi as [Hsm Hor]. rewrite Hst in Hsm.
  unfold mem_op_iteration. runs_step. apply runs_log_assert; [by destruct Hn as [-> | ->]|].
  runs_step. eapply l1_permits_runs; [done|done|done|exact Hs|]. intros s1 Hs1.
  destruct Hor as [[Hloc Hnone]|(Hloc & Hothers & [(_ & i1 & HF & Hst1)|(? & _)])]; [| |done].
  - (* a hit in the L2 cache only *)
    rewrite Hnone by done. replace (op_permits op CS_INVALID) with false by (by destruct op). cbn iota.
    runs_step. eapply mm_incr_runs; [by left|by left|exact Hs1|]. intros p2 s2 Hs2.
    runs_step. apply runs_log_assert.
    { apply bool_decide_true. intros ->. pose proof (proj1 (in_l1_tile _ _ _ _ _ _ His Hs) (Hlock eq_refl)) as Hin.
      rewrite Hnone in Hin by done. by destruct Hin. }
    runs_step. eapply l1_invalidate_runs; [done|done|exact Hs2|]. intros s3 Hs3.
    assert (Hs3' : tile s3 F L (with_perf p2 r)).
    { eapply tile_ext; [exact Hs3| |done]. intros mc' t' Hmc'. unfold fdrop. case_decide as Hd; [|done].
      destruct Hd as [-> ->]. symmetry. by apply Hnone. }
    clear Hs3. unfold processShmemRequestFromL1Cache. runs_step.
    eapply l2_cost_runs; [by left|exact Hs3'|]. intros p4 s4 Hs4.
    runs_step. eapply l2_info_runs; [done|exact Hs4|]. intros s5 Hs5. cbn beta. rewrite EL, Hst.
    runs_step. eapply l2_permits_runs; [done|exact Hs5|]. intros mt s6 Hs6. rewrite Hop. cbn [negb fst when].
    runs_step. eapply l2_read_runs; [done|exact EL|exact Hs6|]. intros s7 Hs7.
    runs_step. eapply (insert_l1_runs None _ _ _ _ _ F L); [done|done|by destruct Hsm as [-> | ->]| |by apply Hnone|by intros; apply Hinv|exact Hs7|].
    { by apply (line_facts _ _ _ _ _ _ _ (tl_l _ _ _ _ _ Hs7) EL). }
    intros F' L' i1 s8 Hs8 HF' Hci1 HL' HFo Hinv8 HV8. rewrite EL in HL'.
    runs_step. rewrite decide_False by (intros Hx; by apply Hx, Hloc).
    eapply runs_lift.
    { unfold l2_setCachedLoc. rewrite Hloc, !bool_decide_true by (done || by destruct His as [-> | ->]). reflexivity. }
    destruct (line_facts _ _ _ _ _ _ _ (tl_l _ _ _ _ _ Hs7) EL) as (Htag & _ & _ & _ & Hne).
    eapply (l2_set_runs t i2 d (mkPrL2 (l2_base i2) mc)); [done|exact HL'|done|done|exact Hs8|].
    intros s9 Hs9. repeat runs_step. cbn [negb]. runs_step.
    eapply l1_sync_runs; [done|exact Hs9|]. intros p10 s10 Hs10.
    runs_step. eapply mm_incr_runs; [tauto|by right|exact Hs10|]. intros p11 s11 Hs11.
    runs_step. eapply mm_incr_runs; [by left|by right|exact Hs11|]. intros p12 s12 Hs12.
    eapply runs_seq; [eapply (access_good s12 F' _ V) with (c := c); [exact Hfit|exact Hs12|exact HF'|by rewrite upd_eq|..]|]; try done.
    + intros mc' Hmc' Hne'. rewrite HFo by done. by apply Hnone.
    + intros t' Hne'. rewrite upd_ne by done. by apply Hinv8.
    + intros t' Hne'. rewrite upd_ne, HV8 by done. apply HV.
    + intros out s13 (-> & Hin & Hg). runs_step. by exists false, p12.
  - (* a hit in the L1 cache *)
    rewrite <- Hmc in HF. rewrite HF, Hst1, Hst, Hop.
    runs_step. eapply mm_incr_runs; [by left|by right|exact Hs1|]. intros p2 s2 Hs2.
    eapply runs_seq; [eapply (access_good s2 F L V) with (c := c); [exact Hfit|exact Hs2|exact HF|exact EL|..]|]; try done.
    + by rewrite Hst1.
    + by rewrite Hloc.
    + intros mc' Hmc' Hne'. apply Hothers; [done|]. by rewrite <- Hmc.
    + intros out s3 (-> & Hin & Hg). runs_step. by exists hit, p2.
Qed.

(** A miss gives up the copy in the L1 cache and asks the L2 controller. *)
Definition core_request (mc : MemComponent) (op : mem_op_t) (t : Z) : ShmemMsg :=
  ShmemMsg_new (getShmemMsgType op) mc MC_L2_CACHE (te_tile env) (addr t) (te_application env).

Lemma core_miss_runs s V r n hit t mc lock op off len buf :
  good_tile None s V r -> access_fits t mc op off len buf -> n = 1 \/ n = 2 ->
  permits op (V t) = false -> lock <> UNLOCK ->
  runs (mem_op_iteration env n hit mc lock op (addr t) off buf len) s (fun res s' =>
    exists p, res = None /\
      good_tile (Some t) s' V
        (with_sent (r_sent r ++ [packet p (te_tile env) (core_request mc op t)]) (with_perf p r))).
Proof using Hl1.
  intros (F & L & Hs & Hinv & HV) Hfit Hn Hno Hlock.
  pose proof Hfit as [Ht Hmc Hwr Hacc Hlen]. assert (His : is_l1 mc) by (subst; apply Hl1).
  assert (HL2 : op_permits op (getCState (match L t with Some (i, _) => i | None => PrL2_new end)) = false).
  { specialize (HV t). destruct (L t) as [[i d]|]; simpl in *; [by rewrite <- HV in Hno|by destruct op]. }
  assert (HL1 : op_permits op (match F mc t with Some (i, _) => cl_cstate i | None => CS_INVALID end) = false).
  { destruct (F mc t) as [[i1 d1]|] eqn:E; [|by destruct op].
    destruct (line_in_l1 _ _ _ _ mc i1 d1 (Hinv t) His E) as (_ & i & El & _ & ->). by rewrite El in HL2. }
  unfold mem_op_iteration. runs_step. apply runs_log_assert; [by destruct Hn as [-> | ->]|].
  runs_step. eapply l1_permits_runs; [done|done|done|exact Hs|]. intros s1 Hs1. rewrite HL1. cbn iota.
  runs_step. eapply mm_incr_runs; [by left|by left|exact Hs1|]. intros p2 s2 Hs2.
  runs_step. apply runs_log_assert; [by apply bool_decide_true|].
  runs_step. eapply l1_invalidate_runs; [done|done|exact Hs2|]. intros s3 Hs3.
  unfold processShmemRequestFromL1Cache. runs_step. eapply l2_cost_runs; [by left|exact Hs3|].
  intros p4 s4 Hs4. runs_step. eapply l2_info_runs; [done|exact Hs4|]. intros s5 Hs5. cbn beta.
  runs_step. eapply l2_permits_runs; [done|exact Hs5|]. intros mt s6 Hs6. rewrite HL2. cbn [negb fst when].
  repeat runs_step. cbn [negb]. runs_step.
  eapply mm_incr_runs; [tauto|by left|exact Hs6|]. intros p7 s7 Hs7.
  runs_step. eapply send_runs; [done|by left|exact Hs7|]. intros s8 Hs8. runs_step.
  exists p7. split; [done|]. exists (fdrop F mc t), L. split; [exact Hs8|]. split; [|done].
  intros t'. destruct (decide (t' = t)) as [->|Hne].
  - pose proof (Hinv t) as Hi. specialize (HV t).
    assert (Hdrop : forall mc', is_l1 mc' -> (mc' <> mc -> F mc' t = None) -> fdrop F mc t mc' t = None).
    { intros mc' _ Hn'. unfold fdrop. destruct (decide (mc' = mc)) as [->|Hne]; [by rewrite decide_True|].
      rewrite decide_False; [by apply Hn'|by intros [? _]]. }
    destruct (L t) as [[i d]|].
    + destruct Hi as [Hst Hor]. split; [done|]. destruct Hor as [[Hl Hn']|(Hl & Hn' & _)]; [left|right].
      * split; [done|]. intros mc' Hmc'. apply Hdrop; auto.
      * split; [done|]. rewrite <- Hmc. split; [intros mc' Hmc' Hne; apply Hdrop; [done|]; intros; apply Hn'; [done|congruence]|].
        right. split; [done|]. split; [by apply Hdrop|]. destruct Hst as [Hst|Hst]; [done|].
        exfalso. simpl in HL2. rewrite Hst in HL2. by destruct op.
    + intros mc' Hmc'. apply Hdrop; auto.
  - eapply line_inv_ext; [|eapply line_inv_change; [exact (Hinv t')|split; congruence]].
    intros mc' _. simpl. unfold fdrop. rewrite decide_False; [done|by intros [_ ?]].
Qed.
End safe.
