(* ===== verification/System.v ===== *)
(** * A system of tiles: memory_subsystem/memory_manager.cc and the threads
    that call it

    Every tile has its private caches ([Tile.v]) and may be the home of lines
    ([DirCntlr.v]).  The application thread of a tile starts memory accesses;
    its simulation thread hands the packets that arrive to the memory manager.
    Both run under the lock of the memory manager ([__coreInitiateMemoryAccess]
    and [__handleMsgFromNetwork]): an access that misses releases the lock while
    it waits and continues, before any other packet, as soon as the reply has
    been handled; an access with [LOCK] keeps the lock until the access with
    [UNLOCK] that follows it.

    The network delivers the packets between two tiles in the order they were
    sent, at times of its choice; packets between different pairs of tiles
    overtake each other freely. *)

From S2P Require Import Prelude Utils CacheLine CacheSet Cache CachePerf Shmem DirEntry DirCache DirCntlr Tile.

(** ** Accesses of a core, split where they wait *)

Record CoreOp : Type := mkCoreOp {
  co_mc : MemComponent;
  co_lock : lock_signal_t;
  co_op : mem_op_t;
  co_address : Z;
  co_offset : Z;
  co_buf : Buf;
  co_len : Z }.

Definition core_iteration (env : TileEnv) (n : Z) (hit : bool) (c : CoreOp) : TM (option (bool * Buf)) :=
  mem_op_iteration env n hit (co_mc c) (co_lock c) (co_op c) (co_address c) (co_offset c) (co_buf c) (co_len c).

Definition core_start (env : TileEnv) (curr_time : Z) (c : CoreOp) : TM (option (bool * Buf)) :=
  _ ← modify (fun s => ts_set_perf (setCurrTime curr_time (ts_perf s)) s);
  _ ← l1_sync env (co_mc c) CORE;
  core_iteration env 1 true c.

Definition core_resume (env : TileEnv) (c : CoreOp) : TM (option (bool * Buf)) :=
  _ ← l1_sync env (co_mc c) L2_CACHE;
  core_iteration env 2 false c.

(** A core access is its two parts joined by the wait.  The access of the
    memory manager, with its loop over [processMemOpFromCore], is one iteration
    after the core's clock crossing; on a miss the wait for the simulation
    thread and a second iteration after the crossing from the L2 cache; a second
    miss stops the simulator. *)
Lemma core_access_parts env wait c time s :
  mm_coreInitiateMemoryAccess env wait (co_mc c) (co_lock c) (co_op c) (co_address c) (co_offset c)
    (co_buf c) (co_len c) time s =
  (r ← core_start env time c;
   '(hit, out) ← match r with
     | Some out => mret out
     | None =>
         _ ← wait;
         r ← core_resume env c;
         match r with
         | Some out => mret out
         | None => _ ← wait; _ ← l1_sync env (co_mc c) L2_CACHE; stop LogError
         end
     end;
   t ← gets (fun s => pm_curr_time (ts_perf s));
   mret (hit, out, t)) s.
Proof.
  unfold mm_coreInitiateMemoryAccess, processMemOpFromCore, core_start, core_resume, core_iteration.
  simpl mem_op_loop. unfold mbind, ST_bind, modify, gets.
  destruct (l1_sync _ _ _ _) as [[[] s1]|]; [|done].
  destruct (mem_op_iteration _ _ _ _ _ _ _ _ _ _ s1) as [[[[]|] s2]|]; [done| |done].
  destruct (wait s2) as [[[] s3]|]; [|done]. destruct (l1_sync _ _ _ s3) as [[[] s4]|]; [|done].
  destruct (mem_op_iteration _ _ _ _ _ _ _ _ _ _ s4) as [[[[]|] s5]|]; [done| |done].
  destruct (wait s5) as [[[] s6]|]; [|done]. by destruct (l1_sync _ _ _ s6) as [[[] s7]|].
Qed.

(** ** States *)

(** The access of a core has ended with this buffer. *)
Inductive CoreEvent : Type := Done (q : Z) (c : CoreOp) (out : Buf).

Record Sys : Type := mkSys {
  sy_tile : Z -> TileState;
  sy_dir : Z -> DirState;
  sy_up : Z -> Z -> list Packet;          (* from a tile to a home *)
  sy_down : Z -> Z -> list Packet;        (* from a home to a tile *)
  sy_self : Z -> list Packet;             (* from an L1 controller to its L2 controller *)
  sy_core : Z -> option CoreOp;           (* the access that waits for the simulation thread *)
  sy_lock : Z -> option Z }.              (* the line an access with LOCK has left locked *)

(** ** Actions *)

Inductive Action : Type :=
  | ACore (q : Z) (c : CoreOp) (time : Z)       (* the core of a tile starts an access *)
  | ASelf (q time : Z)                          (* a request of the L1 controller arrives *)
  | ADown (h q time : Z)                        (* a packet of the directory of [h] arrives at [q] *)
  | AUp (q h time : Z).                         (* a packet of tile [q] arrives at [h] *)

Definition at_time (time : Z) (pk : Packet) : Packet :=
  mkPacket time (pk_sender pk) (pk_receiver pk) (pk_data pk).

(** The packets of a routine, for the directory of [h] and for the tile itself. *)
Definition for_home (h : Z) (pk : Packet) : Prop :=
  pk_receiver pk = ToTile h /\ m_receiver (pk_data pk).1 = MC_DRAM_DIRECTORY.
Definition for_cache (q : Z) (pk : Packet) : Prop :=
  pk_receiver pk = ToTile q /\ m_receiver (pk_data pk).1 = MC_L2_CACHE.

#[export] Instance Receiver_eq_dec : EqDecision Receiver.
Proof. solve_decision. Defined.
#[export] Instance for_home_dec h pk : Decision (for_home h pk).
Proof. unfold for_home. apply _. Defined.
#[export] Instance for_cache_dec q pk : Decision (for_cache q pk).
Proof. unfold for_cache. apply _. Defined.

(** A tile a packet of a directory reaches. *)
Definition goes_to (N q : Z) (pk : Packet) : Prop :=
  match pk_receiver pk with ToTile t => t = q | Broadcast => 0 <= q < N end.
#[export] Instance goes_to_dec N q pk : Decision (goes_to N q pk).
Proof. unfold goes_to. destruct (pk_receiver pk); apply _. Defined.

(** The network has taken the packets of a routine. *)
Definition ts_taken (s : TileState) : TileState :=
  mkTile (ts_icache s) (ts_dcache s) (ts_l2 s) (ts_out_address s) (ts_out_component s)
    (ts_out_time s) (ts_perf s) [].
Definition ds_emptied (s : DirState) : DirState :=
  mkDir (ds_cache s) (ds_queue s) (ds_dram s) (ds_perf s) [].

Section System.
Context (N : Z) (tenv : Z -> TileEnv) (denv : Z -> DirEnv).

(** A routine of tile [q] has ended in [s]. *)
Definition after_tile (q : Z) (s : TileState) (S : Sys) : Sys :=
  mkSys (upd (sy_tile S) q (ts_taken s)) (sy_dir S)
    (upd (sy_up S) q (fun h => sy_up S q h ++ filter (for_home h) (ts_sent s)))
    (sy_down S) (upd (sy_self S) q (sy_self S q ++ filter (for_cache q) (ts_sent s)))
    (sy_core S) (sy_lock S).

(** A routine of the directory of [h] has ended in [s]. *)
Definition after_dir (h : Z) (s : DirState) (S : Sys) : Sys :=
  mkSys (sy_tile S) (upd (sy_dir S) h (ds_emptied s)) (sy_up S)
    (upd (sy_down S) h (fun q => sy_down S h q ++ filter (goes_to N q) (ds_sent s)))
    (sy_self S) (sy_core S) (sy_lock S).

Definition with_core (q : Z) (o : option CoreOp) (S : Sys) : Sys :=
  mkSys (sy_tile S) (sy_dir S) (sy_up S) (sy_down S) (sy_self S) (upd (sy_core S) q o) (sy_lock S).
Definition with_lock (q : Z) (o : option Z) (S : Sys) : Sys :=
  mkSys (sy_tile S) (sy_dir S) (sy_up S) (sy_down S) (sy_self S) (sy_core S) (upd (sy_lock S) q o).
Definition with_up (q h : Z) (l : list Packet) (S : Sys) : Sys :=
  mkSys (sy_tile S) (sy_dir S) (upd (sy_up S) q (upd (sy_up S q) h l)) (sy_down S) (sy_self S) (sy_core S) (sy_lock S).
Definition with_down (h q : Z) (l : list Packet) (S : Sys) : Sys :=
  mkSys (sy_tile S) (sy_dir S) (sy_up S) (upd (sy_down S) h (upd (sy_down S h) q l)) (sy_self S) (sy_core S) (sy_lock S).
Definition with_self (q : Z) (l : list Packet) (S : Sys) : Sys :=
  mkSys (sy_tile S) (sy_dir S) (sy_up S) (sy_down S) (upd (sy_self S) q l) (sy_core S) (sy_lock S).

(** An access of the core of [q] has run in the tile up to [s], to its end or
    to the point where it waits. *)
Definition core_result (q : Z) (c : CoreOp) (r : option (bool * Buf)) (s : TileState) (S : Sys)
    : Sys * option CoreEvent :=
  let S := after_tile q s S in
  match r with
  | Some (_, out) =>
      (with_core q None
         (with_lock q (match co_lock c with LOCK => Some (co_address c) | _ => None end) S),
       Some (Done q c out))
  | None => (with_core q (Some c) S, None)
  end.

(** [MemoryManager::__handleMsgFromNetwork] for the packets to the directory;
    the fuel is what the queue of the line needs. *)
Definition dir_fuel_of (s : DirState) (m : ShmemMsg) : nat :=
  2 * length (default [] (ds_queue s !! m_address m)) + 4.

Definition mm_handleMsgToDirectory (env : DirEnv) (pk : Packet) : DM unit :=
  _ ← modify (fun s => ds_set_perf (setCurrTime (pk_time pk) (ds_perf s)) s);
  m ← lift (getShmemMsg (pk_data pk));
  fuel ← gets (fun s => dir_fuel_of s m);
  match m_receiver m, m_sender m with
  | MC_DRAM_DIRECTORY, MC_L2_CACHE => handleMsgFromL2Cache env fuel (pk_sender pk) m
  | _, _ => stop LogError
  end.

(** A reply ends the wait of the core. *)
Definition is_reply (pk : Packet) : bool :=
  match m_type (pk_data pk).1 with EX_REP | SH_REP => true | _ => false end.

Definition sys_do (S : Sys) (act : Action) : result (Sys * option CoreEvent) :=
  match act with
  | ACore q c time =>
      '(r, s) ← core_start (tenv q) time c (sy_tile S q);
      Ok (core_result q c r s S)
  | ASelf q time =>
      match sy_self S q with
      | [] => Ok (S, None)
      | pk :: rest =>
          '(_, s) ← mm_handleMsgFromNetwork (tenv q) (at_time time pk) (sy_tile S q);
          Ok (after_tile q s (with_self q rest S), None)
      end
  | ADown h q time =>
      match sy_down S h q with
      | [] => Ok (S, None)
      | pk :: rest =>
          '(_, s) ← mm_handleMsgFromNetwork (tenv q) (at_time time pk) (sy_tile S q);
          let S := with_down h q rest S in
          match is_reply pk, sy_core S q with
          | true, Some c =>
              '(r, s) ← core_resume (tenv q) c s;
              Ok (core_result q c r s S)
          | _, _ => Ok (after_tile q s S, None)
          end
      end
  | AUp q h time =>
      match sy_up S q h with
      | [] => Ok (S, None)
      | pk :: rest =>
          '(_, s) ← mm_handleMsgToDirectory (denv h) (at_time time pk) (sy_dir S h);
          Ok (after_dir h s (with_up q h rest S), None)
      end
  end.
End System.
