(* ===== verification/Link.v ===== *)
(** * One line between one tile and its home

    The directory of a line and the caches of a tile agree on the tile's
    permission up to the messages in flight between them.  [link] states this
    agreement for one tile and one line: what the directory believes, the
    returns and the request on their way up, the requests and the grant on
    their way down, and what the tile holds.  The lemmas follow the agreement
    through every event of the protocol. *)

From S2P Require Import Prelude CacheLine Shmem.

(** A message as far as the protocol is concerned: its type and payload. *)
Abbreviation Sig := (MsgType * list Z)%type.
Abbreviation Copy := (option (CacheState * list Z)).

(** Requests of a directory. *)
Definition is_req (ty : MsgType) : Prop := ty = INV_REQ \/ ty = FLUSH_REQ \/ ty = WB_REQ.

(** The requests [D] can be answered by a tile that holds the line in [c]. *)
Definition compat (c : CacheState) (ask : option MsgType) (D : list Sig) : Prop :=
  Forall (fun m => is_req m.1) D /\
  match c with
  | CS_SHARED => Forall (fun m => m.1 = INV_REQ) D
  | CS_MODIFIED => D.*1 = option_list ask /\ ask <> Some INV_REQ
  | _ => True
  end.

Definition copy_state (v : Copy) : CacheState :=
  match v with Some (c, _) => c | None => CS_INVALID end.

(** From what the directory believes, through the returns in flight, to what
    the tile holds; every copy has the contents [cur]. *)
Inductive chain (cur : list Z) (ask : option MsgType) : CacheState -> list Sig -> Copy -> Prop :=
  | chain_I : chain cur ask CS_INVALID [] None
  | chain_S : chain cur ask CS_SHARED [] (Some (CS_SHARED, cur))
  | chain_M : chain cur ask CS_MODIFIED [] (Some (CS_MODIFIED, cur))
  | chain_SI x : chain cur ask CS_SHARED [(INV_REP, x)] None
  | chain_MI : chain cur ask CS_MODIFIED [(FLUSH_REP, cur)] None
  | chain_MS : ask = Some WB_REQ -> chain cur ask CS_MODIFIED [(WB_REP, cur)] (Some (CS_SHARED, cur))
  | chain_MSI x : ask = Some WB_REQ ->
      chain cur ask CS_MODIFIED [(WB_REP, cur); (INV_REP, x)] None.

(** Where the request of a waiting core is: [Some (true, _)] before the L2
    controller has seen it. *)
Abbreviation Pending := (option (bool * MsgType)).

Definition core_req (ty : MsgType) : Prop := ty = EX_REQ \/ ty = SH_REQ.

Definition token (p : Pending) (wt : option MsgType) (rets reqs : list Sig) (v : Copy) : Prop :=
  match p with
  | None => reqs = [] /\ wt = None
  | Some (true, ty) =>
      reqs = [] /\ wt = None /\
      ((ty = EX_REQ /\ copy_state v <> CS_MODIFIED) \/ (ty = SH_REQ /\ v = None))
  | Some (false, ty) =>
      core_req ty /\ v = None /\
      ((reqs = [(ty, [])] /\ wt = None) \/ (reqs = [] /\ wt = Some ty /\ rets = []))
  end.

(** The reply to a request, and the state it grants. *)
Definition grant_of (ty : MsgType) : MsgType := if decide (ty = EX_REQ) then EX_REP else SH_REP.
Definition grant_state (ty : MsgType) : CacheState :=
  if decide (ty = EX_REQ) then CS_MODIFIED else CS_SHARED.

Inductive link (cur : list Z) (c : CacheState) (ask wt : option MsgType) (U D : list Sig) (v : Copy)
    (p : Pending) : Prop :=
  | link_quiet rets reqs :
      U = rets ++ reqs -> chain cur ask c rets v -> compat (copy_state v) ask D ->
      token p wt rets reqs v -> link cur c ask wt U D v p
  | link_granted pre post ty :
      D = pre ++ (grant_of ty, cur) :: post -> Forall (fun m => is_req m.1) pre ->
      c = grant_state ty -> compat c ask post -> core_req ty -> p = Some (false, ty) ->
      U = [] -> v = None -> wt = None -> link cur c ask wt U D v p.

Lemma grant_not_req ty : ~ is_req (grant_of ty).
Proof. unfold grant_of, is_req. case_decide; naive_solver. Qed.

Lemma compat_weaken c ask D : compat c ask D -> compat CS_INVALID ask D.
Proof. by intros [? _]. Qed.

Lemma compat_snoc_inv c ask D x : c <> CS_MODIFIED -> compat c ask D -> compat c ask (D ++ [(INV_REQ, x)]).
Proof.
  intros Hc [HF HD]. split.
  - apply Forall_app. split; [done|]. constructor; [by left|constructor].
  - destruct c; try done. apply Forall_app. split; [done|]. by repeat constructor.
Qed.

Lemma compat_snoc_ask D ty x : ty = FLUSH_REQ \/ ty = WB_REQ -> compat CS_MODIFIED None D ->
  compat CS_MODIFIED (Some ty) (D ++ [(ty, x)]).
Proof.
  intros Hty [HF HD]. split.
  - apply Forall_app. split; [done|]. constructor; [by right|constructor].
  - simpl in *. destruct HD as [HD _]. rewrite fmap_app, HD. split; [done|]. naive_solver.
Qed.

(** ** Requests of the tile *)

Section link.
Context (cur : list Z) (c : CacheState) (ask wt : option MsgType) (U D : list Sig) (v : Copy).

Lemma link_rest : link cur CS_INVALID None None [] [] None None.
Proof using. eapply (link_quiet _ _ _ _ _ _ _ _ [] []); by constructor. Qed.

(** The contents of every copy are the current ones. *)
Lemma link_copy p cv d : link cur c ask wt U D v p -> v = Some (cv, d) ->
  d = cur /\ (cv = CS_SHARED \/ cv = CS_MODIFIED) /\ (cv = CS_MODIFIED -> c = CS_MODIFIED) /\
  c <> CS_INVALID.
Proof using.
  intros [rets reqs _ Hc _ _|pre post ty _ _ _ _ _ _ _ -> _] E; [|done].
  inversion Hc; subst; simplify_eq; naive_solver.
Qed.

(** A core may start a miss. *)
Lemma link_miss ty : link cur c ask wt U D v None ->
  (ty = EX_REQ /\ copy_state v <> CS_MODIFIED) \/ (ty = SH_REQ /\ v = None) ->
  link cur c ask wt U D v (Some (true, ty)).
Proof using.
  intros [rets reqs HU Hc HD [-> ->]|] Hty; [|done]. by eapply link_quiet with (rets := rets) (reqs := []).
Qed.

(** The L2 controller gives up a shared copy and sends the request. *)
Lemma link_send ty : link cur c ask wt U D v (Some (true, ty)) ->
  ((ty = EX_REQ /\ copy_state v <> CS_MODIFIED) \/ (ty = SH_REQ /\ v = None)) /\
  link cur c ask wt
    (U ++ (match v with Some _ => [(INV_REP, [])] | None => [] end) ++ [(ty, [])]) D None (Some (false, ty)).
Proof using.
  intros [rets reqs HU Hc HD (-> & -> & Hty)|]; [|done]. split; [done|]. subst U.
  rewrite app_nil_r, app_assoc.
  eapply link_quiet; [done| | |].
  - destruct v as [[cv d]|]; [|by rewrite app_nil_r].
    destruct Hty as [[-> Hv]|[_ ?]]; [|done]. inversion Hc; subst; simpl in *; try done; by constructor.
  - by eapply compat_weaken.
  - simpl. split; [unfold core_req; naive_solver|]. split; [done|]. by left.
Qed.

(** The line leaves the tile by eviction. *)
Definition evict_sig (cv : CacheState) (d : list Z) : Sig :=
  if decide (cv = CS_MODIFIED) then (FLUSH_REP, d) else (INV_REP, []).

Lemma link_evict cv d : link cur c ask wt U D v None -> v = Some (cv, d) ->
  link cur c ask wt (U ++ [evict_sig cv d]) D None None.
Proof using.
  intros [rets reqs HU Hc HD [-> ->]|] Hv; [|done]. subst U. rewrite app_nil_r.
  eapply (link_quiet _ _ _ _ _ _ _ _ (rets ++ [evict_sig cv d]) []); [by rewrite app_nil_r| | |done].
  - unfold evict_sig. inversion Hc; subst; simplify_eq; simpl; by constructor.
  - by eapply compat_weaken.
Qed.

(** A store of the writer. *)
Lemma link_write d : link cur c ask wt U D v None -> v = Some (CS_MODIFIED, d) -> forall cur',
  link cur' c ask wt U D (Some (CS_MODIFIED, cur')) None.
Proof using.
  intros [rets reqs HU Hc HD [-> ->]|] Hv cur'; [|done]. subst v.
  eapply (link_quiet _ _ _ _ _ _ _ _ rets []); [done| |exact HD|done].
  inversion Hc; subst; by constructor.
Qed.

Lemma link_cur cur' p : c = CS_INVALID -> link cur c ask wt U D v p -> link cur' c ask wt U D v p.
Proof using.
  intros -> [rets reqs HU Hc HD Ht|pre post ty HD Hpre Hc]; [|exfalso; unfold grant_state in Hc; by case_decide].
  inversion Hc; subst. by eapply link_quiet; [|constructor| |].
Qed.
Lemma link_ask ask' p : c <> CS_MODIFIED -> link cur c ask wt U D v p -> link cur c ask' wt U D v p.
Proof using.
  intros Hne [rets reqs HU Hc HD Ht|pre post ty HD Hpre Hc Hpost Hty Hp HU Hv Hwt].
  - eapply link_quiet; [done| | |done]; inversion Hc; subst; try done; by constructor.
  - eapply link_granted; try done. by destruct c.
Qed.
End link.

(** ** A message reaches the tile *)

(** What the tile answers to a request of the directory, and keeps. *)
Definition answer (ty : MsgType) (v : Copy) : Copy * list Sig :=
  match v with
  | None => (None, [])
  | Some (_, d) =>
      match ty with
      | INV_REQ => (None, [(INV_REP, [])])
      | FLUSH_REQ => (None, [(FLUSH_REP, d)])
      | _ => (Some (CS_SHARED, d), [(WB_REP, d)])
      end
  end.

Section deliver.
Context (cur : list Z) (c : CacheState) (ask wt : option MsgType) (U D : list Sig) (v : Copy) (p : Pending).
Context (m : Sig).
Context (Hl : link cur c ask wt U (m :: D) v p).

Lemma link_head : is_req m.1 \/ exists ty, p = Some (false, ty) /\ core_req ty /\ m = (grant_of ty, cur).
Proof using Hl.
  destruct Hl as [rets reqs _ _ [HF _] _|pre post ty HD Hpre _ _ Hty Hp _ _ _].
  - left. by inversion HF.
  - destruct pre as [|m' pre]; simplify_list_eq; [right; by exists ty|left]. by inversion Hpre.
Qed.

(** The tile answers a request of the directory. *)
Lemma link_answer : is_req m.1 ->
  (match v with
   | None => True
   | Some (cv, d) => d = cur /\ cv = if decide (m.1 = INV_REQ) then CS_SHARED else CS_MODIFIED
   end) /\
  link cur c ask wt (U ++ (answer m.1 v).2) D (answer m.1 v).1 p.
Proof using Hl.
  intros Hm. destruct Hl as [rets reqs HU Hc HD Ht|pre post ty HD Hpre Hc Hpost Hty Hp HU Hv Hwt].
  - assert (Hn : v = None -> link cur c ask wt U D v p).
    { intros ->. destruct HD as [HF _]. eapply link_quiet; [done|done| |done]. split; [by inversion HF|done]. }
    assert (HDt : Forall (fun m => is_req m.1) D) by (destruct HD as [HF _]; by inversion HF).
    assert (Hreqs : v <> None -> reqs = []).
    { intros Hv. destruct p as [[[] ty]|]; simpl in Ht; naive_solver. }
    assert (Hstep : forall rets' v', chain cur ask c rets' v' -> rets' = rets ++ (answer m.1 v).2 ->
      v' = (answer m.1 v).1 -> v <> None -> compat (copy_state v') ask D ->
      link cur c ask wt (U ++ (answer m.1 v).2) D (answer m.1 v).1 p).
    { intros rets' v' Hc' Er Ev Hv HD'. rewrite HU, (Hreqs Hv) in *. subst rets' v'.
      eapply (link_quiet _ _ _ _ _ _ _ _ _ []); [by rewrite !app_nil_r|exact Hc'|exact HD'|].
      destruct p as [[[] ty]|]; simpl in Ht |- *; [| |naive_solver].
      - destruct Ht as (_ & Hwt & Ht). do 2 (split; [done|]). destruct Ht as [[-> Hcv]|[_ ?]]; [left|done].
        split; [done|]. destruct v as [[cv d]|]; [|done]. simpl in *.
        destruct Hm as [-> | [-> | ->]]; done.
      - by destruct Ht as (_ & -> & _). }
    inversion Hc; subst; simpl in *; rewrite ?app_nil_r; try (split; [done|]; by apply Hn).
    all: destruct HD as [_ HD]; simpl in HD.
    + inversion HD as [|? ? E HD']; subst. rewrite E in *. split; [done|].
      eapply Hstep; [by apply chain_SI|done|done|done|done].
    + destruct HD as [HD Hask]. destruct ask as [ty|] eqn:Ea; simpl in HD; [|done]. injection HD as E1 E2.
      apply fmap_nil_inv in E2. subst D. destruct m as [ty' x]. simpl in *. subst ty'.
      rewrite decide_False by congruence. split; [done|].
      destruct Hm as [-> | [-> | ->]]; [done| |].
      * eapply Hstep; [by apply chain_MI|done|done|done|done].
      * eapply Hstep; [by apply chain_MS|done|done|done|split; constructor].
    + inversion HD as [|? ? E HD']; subst. rewrite E in *. split; [done|].
      eapply Hstep; [by apply chain_MSI|done|done|done|done].
  - destruct pre as [|m' pre]; simplify_list_eq.
    { exfalso. by eapply grant_not_req. }
    split; [done|]. eapply link_granted; try done. by inversion Hpre.
Qed.

(** The reply completes the miss. *)
Lemma link_reply ty : p = Some (false, ty) -> ~ is_req m.1 ->
  m = (grant_of ty, cur) /\ core_req ty /\ v = None /\
  link cur c ask wt U D (Some (grant_state ty, cur)) None.
Proof using Hl.
  intros Hp Hm. destruct Hl as [rets reqs HU Hc [HF _] Ht|pre post ty' HD Hpre Hc Hpost Hty Hp' HU Hv Hwt].
  { by inversion HF. }
  destruct pre as [|m' pre]; simplify_list_eq; [|by inversion Hpre]. do 3 (split; [done|]).
  eapply (link_quiet _ _ _ _ _ _ _ _ [] []); [done| |done|done].
  unfold grant_state. case_decide; by constructor.
Qed.
End deliver.

(** ** Events of the directory *)

(** What the directory believes after a return. *)
Definition returned_state (ty : MsgType) : CacheState :=
  match ty with WB_REP => CS_SHARED | _ => CS_INVALID end.

Definition is_return (ty : MsgType) : Prop := ty = INV_REP \/ ty = FLUSH_REP \/ ty = WB_REP.

Section directory.
Context (cur : list Z) (c : CacheState) (ask wt : option MsgType) (U D : list Sig) (v : Copy) (p : Pending).

Lemma link_up_head m : link cur c ask wt (m :: U) D v p ->
  (is_return m.1 /\ (m.1 = INV_REP -> c = CS_SHARED) /\
   (m.1 <> INV_REP -> c = CS_MODIFIED /\ m.2 = cur) /\ (m.1 = WB_REP -> ask = Some WB_REQ)) \/
  (core_req m.1 /\ U = [] /\ c = CS_INVALID /\ wt = None).
Proof using.
  intros [rets reqs HU Hc _ Ht|pre post ty _ _ _ _ _ _ HU _ _]; [|done].
  assert (Hret : rets = [] -> core_req m.1 /\ U = [] /\ c = CS_INVALID /\ wt = None).
  { intros ->. simpl in HU. subst reqs. destruct p as [[[] ty]|]; simpl in Ht; [naive_solver| |naive_solver].
    destruct Ht as (Hty & -> & [[E ->]|[? _]]); [|done]. injection E as -> ->. inversion Hc; subst.
    by repeat split. }
  inversion Hc; subst; simplify_list_eq; try (right; by apply Hret); left; unfold is_return; naive_solver.
Qed.

(** A return reaches the directory. *)
Lemma link_return m ask' : link cur c ask wt (m :: U) D v p -> is_return m.1 ->
  link cur (returned_state m.1) ask' wt U D v p.
Proof using.
  intros Hl Hm. destruct Hl as [rets reqs HU Hc HD Ht|pre post ty _ _ _ _ _ _ HU _ _]; [|done].
  destruct rets as [|m' rets].
  { exfalso. simpl in HU. subst reqs. destruct p as [[[] ty]|]; simpl in Ht; [naive_solver| |naive_solver].
    destruct Ht as (Hty & _ & [[E _]|[? _]]); [|done]. injection E as -> ->.
    unfold core_req, is_return in *. naive_solver. }
  simplify_list_eq. assert (Ht' : token p wt rets reqs v).
  { destruct p as [[[] ty]|]; simpl in *; [done| |done]. destruct Ht as (? & ? & [?|(? & ? & ?)]); [|done]. naive_solver. }
  assert (Hask : v = None \/ copy_state v = CS_SHARED) by (inversion Hc; subst; naive_solver).
  eapply link_quiet; [done| | |exact Ht'].
  - inversion Hc; subst; by constructor.
  - destruct Hask as [-> | Hs]; [done|]. rewrite Hs in *. done.
Qed.

(** A request reaches the directory. *)
Lemma link_request m : link cur c ask wt [m] D v p -> core_req m.1 ->
  link cur c ask (Some m.1) [] D v p.
Proof using.
  intros [rets reqs HU Hc HD Ht|pre post ty _ _ _ _ _ _ HU _ _] Hm; [|done].
  assert (Hr : rets = []).
  { unfold core_req in Hm. inversion Hc; subst; simplify_list_eq; naive_solver. }
  subst rets. simpl in HU. subst reqs. eapply (link_quiet _ _ _ _ _ _ _ _ [] []); [done|done|done|].
  destruct p as [[[] ty]|]; simpl in *; [naive_solver| |naive_solver].
  destruct Ht as (Hty & -> & [[E ->]|[? _]]); [|done]. injection E as ->. simpl. split; [done|].
  split; [done|]. by right.
Qed.

(** The directory grants a copy. *)
Lemma link_grant ty ask' : link cur c ask (Some ty) U D v p ->
  (ty = EX_REQ -> ask' = None) -> c = CS_INVALID /\
  link cur (grant_state ty) ask' None U (D ++ [(grant_of ty, cur)]) v p.
Proof using.
  intros [rets reqs HU Hc HD Ht|] Hask; [|done].
  destruct p as [[[] ty']|]; simpl in Ht; [naive_solver| |naive_solver].
  destruct Ht as (Hty & -> & [[_ ?]|(-> & [= ->] & ->)]); [done|]. simpl in HU. subst U.
  inversion Hc; subst. split; [done|]. destruct HD as [HD _].
  eapply (link_granted _ _ _ _ _ _ _ _ D [] ty'); try done.
  unfold grant_state. case_decide; subst; (split; [constructor|]); [|constructor].
  by rewrite Hask.
Qed.

(** The directory asks for an invalidation, of this tile or of all. *)
Lemma link_invalidate x : link cur c ask wt U D v p -> c <> CS_MODIFIED ->
  link cur c ask wt U (D ++ [(INV_REQ, x)]) v p.
Proof using.
  intros [rets reqs HU Hc HD Ht|pre post ty HD Hpre Hc Hpost Hty Hp HU Hv Hwt] Hne.
  - eapply link_quiet; [done|done| |done]. apply compat_snoc_inv; [|done].
    inversion Hc; subst; done.
  - subst D. rewrite <- app_assoc. simpl. eapply link_granted; try done. by apply compat_snoc_inv.
Qed.

(** The directory asks the writer to give the line back. *)
Lemma link_recall ty x : link cur CS_MODIFIED None wt U D v p -> ty = FLUSH_REQ \/ ty = WB_REQ ->
  link cur CS_MODIFIED (Some ty) wt U (D ++ [(ty, x)]) v p.
Proof using.
  intros [rets reqs HU Hc HD Ht|pre post ty' HD Hpre Hc Hpost Hty Hp HU Hv Hwt] Hr.
  - assert (Hreq : compat CS_INVALID (Some ty) (D ++ [(ty, x)])).
    { split; [|done]. apply Forall_app. split; [apply HD|]. constructor; [by right|constructor]. }
    inversion Hc; subst; simpl in *; try done.
    + eapply (link_quiet _ _ _ _ _ _ _ _ [] reqs); [done|constructor| |done]. by apply compat_snoc_ask.
    + eapply (link_quiet _ _ _ _ _ _ _ _ [(FLUSH_REP, cur)] reqs); [done|constructor|done|done].
  - subst D. rewrite <- app_assoc. simpl. eapply link_granted; try done.
    by apply compat_snoc_ask.
Qed.
End directory.
