(* ===== verification/Net.v ===== *)
(** * The lines of a system of tiles and directories

    The histories of the directories, the packets in flight between every tile
    and every home, what the tiles hold and wait for, and the current contents
    of every line.  [net_ok] says that every line is linked ([Link.link])
    between its home and every tile; the lemmas show that every event of a
    directory and every action of a tile keeps it so. *)

From S2P Require Import Prelude CacheLine Shmem DirEntry DirCntlr DirThm Tile TileThm System Link.

(** What the directory believes of a tile. *)
Definition cls (w : Perm) (q : Z) : CacheState :=
  if decide (w.2 = Some q) then CS_MODIFIED else if decide (q ∈ w.1) then CS_SHARED else CS_INVALID.

Lemma cls_modified w q : cls w q = CS_MODIFIED <-> w.2 = Some q.
Proof. unfold cls. repeat case_decide; naive_solver. Qed.
Lemma cls_shared w q : cls w q = CS_SHARED <-> w.2 <> Some q /\ q ∈ w.1.
Proof. unfold cls. repeat case_decide; naive_solver. Qed.
Lemma cls_invalid w q : cls w q = CS_INVALID <-> w.2 <> Some q /\ q ∉ w.1.
Proof. unfold cls. repeat case_decide; naive_solver. Qed.

Definition pk_msg (pk : Packet) : ShmemMsg := (pk_data pk).1.
Definition pk_sig (pk : Packet) : Sig := (m_type (pk_msg pk), (pk_data pk).2).

(** A line the directory has not heard of has no holders. *)
Lemma untouched ls h l a :
  history_ok ls h l -> (forall s m, Recv s m ∈ l -> m_address m <> a) ->
  perm l a = (∅, None) /\ waits l a = ∅.
Proof.
  induction l as [|ev l IH] using rev_ind; [done|]. intros Hh Hr.
  assert (Hj : justified ls h l ev) by (by apply (Hh l ev [])).
  destruct IH as [Hp Hw].
  { intros l1 x l2 ->. apply (Hh l1 x (l2 ++ [ev])). by rewrite <- app_assoc. }
  { intros s m Hin. apply (Hr s m). apply elem_of_app. by left. }
  rewrite perm_snoc, waits_snoc, Hp, Hw. destruct ev as [s m|pk]; simpl.
  - assert (m_address m <> a) by (apply (Hr s m), elem_of_app; right; by left).
    unfold return_perm. by rewrite !decide_False.
  - unfold reply_perm. destruct Hj as [_ Hj].
    destruct (pk_receiver pk) as [t|] eqn:Er; [|done].
    destruct (decide (m_address (pk_data pk).1 = a)) as [E|E]; [|done]. rewrite E, Hp, Hw in Hj.
    destruct (m_type (pk_data pk).1); naive_solver.
Qed.

Record Net : Type := mkNet {
  n_hist : Z -> list Event;                         (* home *)
  n_up : Z -> Z -> list Packet;                     (* tile, home *)
  n_down : Z -> Z -> list Packet;                   (* home, tile *)
  n_view : Z -> Z -> Copy;                          (* tile, line *)
  n_pend : Z -> option (bool * MsgType * Z);        (* tile: stage, request, line *)
  n_mem : Z -> list Z }.                            (* line *)

Section net.
Context (j N : Z) (hm : Z -> Z).
Context (Hj : 0 < j).
Abbreviation addr := (addr j).
Abbreviation tag_ok := (tag_ok j).
Abbreviation ls := (2 ^ j).

Lemma addr_inj t t' : addr t = addr t' -> t = t'.
Proof using Hj. unfold TileThm.addr. assert (0 < 2 ^ j) by (apply Z.pow_pos_nonneg; lia). nia. Qed.

Definition at_home (h a : Z) : Prop := exists t, tag_ok t /\ a = addr t /\ hm t = h.

(** The messages of an L2 cache. *)
Definition up_format (q : Z) (pk : Packet) : Prop :=
  let m := pk_msg pk in
  pk_sender pk = q /\ m_sender m = MC_L2_CACHE /\ m_receiver m = MC_DRAM_DIRECTORY /\
  match m_type m with
  | EX_REQ | SH_REQ => m_requester m = q /\ m_data_length m = 0 /\ m_data_buf m = None /\ (pk_data pk).2 = []
  | INV_REP => m_data_length m = 0 /\ m_data_buf m = None /\ (pk_data pk).2 = []
  | FLUSH_REP | WB_REP => m_data_length m = ls /\ Z.of_nat (length (pk_data pk).2) = ls
  | _ => False
  end.

(** The messages about a line, in order. *)
Definition on (t : Z) (l : list Packet) : list Sig :=
  pk_sig <$> filter (fun pk => m_address (pk_msg pk) = addr t) l.

Definition pend_on (t : Z) (o : option (bool * MsgType * Z)) : Pending :=
  match o with Some (b, ty, t') => if decide (t' = t) then Some (b, ty) else None | None => None end.

Lemma on_app t l l' : on t (l ++ l') = on t l ++ on t l'.
Proof using. unfold on. by rewrite filter_app, fmap_app. Qed.
Lemma on_cons_eq t pk l : m_address (pk_msg pk) = addr t -> on t (pk :: l) = pk_sig pk :: on t l.
Proof using. intros E. unfold on. by rewrite filter_cons_True. Qed.
Lemma on_cons_ne t pk l : m_address (pk_msg pk) <> addr t -> on t (pk :: l) = on t l.
Proof using. intros E. unfold on. by rewrite filter_cons_False. Qed.

Record net_ok (n : Net) : Prop := {
  nk_link q t : tag_ok t ->
    let l := n_hist n (hm t) in
    link (n_mem n t) (cls (perm l (addr t)) q) (ask l (addr t)) (waits l (addr t) !! q)
      (on t (n_up n q (hm t))) (on t (n_down n (hm t) q)) (n_view n q t) (pend_on t (n_pend n q));
  nk_excl t o : tag_ok t -> let w := perm (n_hist n (hm t)) (addr t) in w.2 = Some o -> w.1 = {[o]};
  nk_value t : tag_ok t -> let l := n_hist n (hm t) in
    (perm l (addr t)).2 = None -> value ls l (addr t) = n_mem n t;
  nk_up q h pk : pk ∈ n_up n q h -> up_format q pk /\ at_home h (m_address (pk_msg pk));
  nk_down h q pk : pk ∈ n_down n h q -> dir_format ls h pk /\ at_home h (m_address (pk_msg pk));
  nk_recv h s m : Recv s m ∈ n_hist n h -> at_home h (m_address m);
  nk_hist h : history_ok ls h (n_hist n h) }.

(** ** Actions of a tile *)

(** A tile [q] acts on a line [t]: it may take a packet from the home of the
    line, send packets about the line, change its copy and its request. *)
Lemma net_change n n' q t l :
  net_ok n -> tag_ok t ->
  (forall h, n_hist n' h = n_hist n h) ->
  n_up n' q (hm t) = n_up n q (hm t) ++ l ->
  (forall q' h, q' <> q \/ h <> hm t -> n_up n' q' h = n_up n q' h) ->
  (forall pk, pk ∈ l -> up_format q pk /\ m_address (pk_msg pk) = addr t) ->
  (forall t', tag_ok t' -> t' <> t -> on t' (n_down n' (hm t') q) = on t' (n_down n (hm t') q)) ->
  (forall h q' pk, pk ∈ n_down n' h q' -> pk ∈ n_down n h q') ->
  (forall h q', q' <> q -> n_down n' h q' = n_down n h q') ->
  (forall q' t', q' <> q \/ t' <> t -> n_view n' q' t' = n_view n q' t') ->
  (forall q', q' <> q -> n_pend n' q' = n_pend n q') ->
  (forall t', t' <> t -> pend_on t' (n_pend n' q) = pend_on t' (n_pend n q)) ->
  (forall t', t' <> t -> n_mem n' t' = n_mem n t') ->
  (n_mem n' t = n_mem n t \/ (perm (n_hist n (hm t)) (addr t)).2 = Some q) ->
  (let h := n_hist n (hm t) in
   link (n_mem n' t) (cls (perm h (addr t)) q) (ask h (addr t)) (waits h (addr t) !! q)
     (on t (n_up n q (hm t)) ++ (pk_sig <$> l)) (on t (n_down n' (hm t) q)) (n_view n' q t)
     (pend_on t (n_pend n' q))) ->
  net_ok n'.
Proof using Hj.
  intros Hn Ht Hh Hup Hup' Hl Hd Hd' Hd'' Hv Hp Hp' Hm Hcur Hlink.
  assert (Hon : forall t', on t' l = if decide (t' = t) then pk_sig <$> l else []).
  { intros t'. unfold on. case_decide as E.
    - subst t'. rewrite filter_all; [done|]. apply Forall_forall. intros pk Hpk. by apply Hl.
    - rewrite filter_none; [done|]. apply Forall_forall. intros pk Hpk E'. apply E. apply addr_inj. rewrite <- E'. by apply Hl. }
  split.
  - intros q' t' Ht'. rewrite Hh. destruct (decide (q' = q)) as [->|Hq].
    + destruct (decide (t' = t)) as [->|Hne].
      * rewrite Hup, on_app, Hon, decide_True by done. exact Hlink.
      * rewrite Hd, Hm, Hv, Hp' by auto. assert (E : on t' (n_up n' q (hm t')) = on t' (n_up n q (hm t'))).
        { destruct (decide (hm t' = hm t)) as [E|E].
          - rewrite E, Hup, on_app, Hon, decide_False, app_nil_r by done. done.
          - by rewrite Hup' by auto. }
        rewrite E. by apply nk_link.
    + rewrite Hup', Hd'', Hv, Hp by auto. pose proof (nk_link n Hn q' t' Ht') as Hl'.
      destruct (decide (t' = t)) as [->|Hne]; [|by rewrite Hm].
      destruct Hcur as [->|Hw]; [done|]. eapply link_cur; [|exact Hl']. apply cls_invalid.
      rewrite (nk_excl n Hn t q Ht Hw). set_solver.
  - intros t' o Ht'. rewrite Hh. by apply nk_excl.
  - intros t' Ht'. rewrite Hh. cbv zeta. intros Hw. rewrite (nk_value n Hn t' Ht' Hw).
    destruct (decide (t' = t)) as [->|Hne]; [|by rewrite Hm].
    destruct Hcur as [->|Hw']; [done|]. congruence.
  - intros q' h pk Hpk. destruct (decide (q' = q /\ h = hm t)) as [[-> ->]|Hne].
    + rewrite Hup, elem_of_app in Hpk. destruct Hpk as [Hpk|Hpk]; [by apply (nk_up n Hn)|].
      destruct (Hl pk Hpk) as [Hf ->]. split; [done|]. by exists t.
    + rewrite Hup' in Hpk; [by apply (nk_up n Hn)|]. destruct (decide (q' = q)); naive_solver.
  - intros h q' pk Hpk. apply (nk_down n Hn h q'). by apply Hd'.
  - intros h s m. rewrite Hh. by apply nk_recv.
  - intros h. rewrite Hh. by apply nk_hist.
Qed.

Lemma net_ext n n' :
  (forall h, n_hist n' h = n_hist n h) -> (forall q h, n_up n' q h = n_up n q h) ->
  (forall h q, n_down n' h q = n_down n h q) -> (forall q t, n_view n' q t = n_view n q t) ->
  (forall q, n_pend n' q = n_pend n q) -> (forall t, n_mem n' t = n_mem n t) -> net_ok n -> net_ok n'.
Proof using.
  intros Hh Hu Hd Hv Hp Hm [H1 H2 H3 H4 H5 H6 H7]. split.
  - intros q t Ht. rewrite Hh, Hu, Hd, Hv, Hp, Hm. by apply H1.
  - intros t o Ht. rewrite Hh. by apply H2.
  - intros t Ht. rewrite Hh, Hm. by apply H3.
  - intros q h pk. rewrite Hu. by apply H4.
  - intros h q pk. rewrite Hd. by apply H5.
  - intros h s m. rewrite Hh. by apply H6.
  - intros h. rewrite Hh. by apply H7.
Qed.

(** The action as a new state: [D] is left of the packets of the home, [l] is
    sent, [v] and [p] are the copy and the request of the tile, [cur] the
    contents of the line. *)
Definition n_act (q t : Z) (l D : list Packet) (v : Copy) (p : option (bool * MsgType * Z))
    (cur : list Z) (n : Net) : Net :=
  mkNet (n_hist n) (upd (n_up n) q (upd (n_up n q) (hm t) (n_up n q (hm t) ++ l)))
    (upd (n_down n) (hm t) (upd (n_down n (hm t)) q D)) (upd (n_view n) q (upd (n_view n q) t v))
    (upd (n_pend n) q p) (upd (n_mem n) t cur).

Lemma net_act n q t l D v p cur pre :
  net_ok n -> tag_ok t ->
  (forall pk, pk ∈ l -> up_format q pk /\ m_address (pk_msg pk) = addr t) ->
  n_down n (hm t) q = pre ++ D -> (forall pk, pk ∈ pre -> m_address (pk_msg pk) = addr t) ->
  (forall t', t' <> t -> pend_on t' p = pend_on t' (n_pend n q)) ->
  (cur = n_mem n t \/ (perm (n_hist n (hm t)) (addr t)).2 = Some q) ->
  (let h := n_hist n (hm t) in
   link cur (cls (perm h (addr t)) q) (ask h (addr t)) (waits h (addr t) !! q)
     (on t (n_up n q (hm t)) ++ (pk_sig <$> l)) (on t D) v (pend_on t p)) ->
  net_ok (n_act q t l D v p cur n).
Proof using Hj.
  intros Hn Ht Hl HD Hpre Hp Hcur Hlink.
  apply (net_change n _ q t l); simpl; rewrite ?upd_eq; try done.
  - intros q' h Hne. unfold upd. destruct (decide (q' = q)) as [->|]; [|done].
    destruct (decide (h = hm t)); naive_solver.
  - intros t' Ht' Hne. unfold upd. destruct (decide (hm t' = hm t)) as [E|]; [|done].
    rewrite E, HD, on_app, decide_True by done. unfold on at 2. rewrite filter_none; [done|].
    apply Forall_forall. intros pk Hpk E'. apply Hne, addr_inj. rewrite <- E'. by apply Hpre.
  - intros h q' pk. unfold upd. destruct (decide (h = hm t)) as [->|]; [|done].
    destruct (decide (q' = q)) as [->|]; [|done]. rewrite HD. intros Hin. apply elem_of_app. by right.
  - intros h q' Hne. unfold upd. destruct (decide (h = hm t)) as [->|]; [|done]. by rewrite decide_False.
  - intros q' t' Hne. unfold upd. destruct (decide (q' = q)) as [->|]; [|done].
    rewrite decide_False; naive_solver.
  - intros q' Hne. by rewrite upd_ne.
  - intros t' Hne. by rewrite upd_ne.
Qed.

(** ** Events of a directory *)

Section event.
Context (h : Z) (l : list Event) (t : Z) (cur : list Z).
Abbreviation a := (addr t).
Context (Hex : forall o, (perm l a).2 = Some o -> (perm l a).1 = {[o]}).

(** A packet of the directory about the line. *)
Lemma sent_line pk q U D v p :
  justified ls h l (Sent pk) -> m_address (pk_msg pk) = a ->
  ((perm l a).2 = None -> value ls l a = cur) ->
  link cur (cls (perm l a) q) (ask l a) (waits l a !! q) U D v p ->
  let l' := l ++ [Sent pk] in
  link cur (cls (perm l' a) q) (ask l' a) (waits l' a !! q) U
    (D ++ if decide (goes_to N q pk) then [pk_sig pk] else []) v p.
Proof using Hex Hj hm.
  intros [_ Hjust] Ha Hval Hl l'. subst l'. unfold pk_msg in Ha.
  rewrite perm_snoc, ask_snoc, waits_snoc. simpl. unfold reply_perm.
  set (X := if decide (goes_to N q pk) then _ else _).
  assert (HX : (goes_to N q pk /\ X = [pk_sig pk]) \/ (~ goes_to N q pk /\ X = [])).
  { unfold X. destruct (decide (goes_to N q pk)); auto. }
  clearbody X. unfold goes_to, pk_sig, pk_msg in HX.
  rewrite Ha in *. rewrite !(decide_True _ _ eq_refl).
  destruct (pk_receiver pk) as [t0|]; rewrite ?(decide_True _ _ eq_refl).
  2:{ destruct Hjust as (E & _ & Hw). rewrite E in *.
      destruct HX as [[_ ->]|[_ ->]]; [|by rewrite app_nil_r].
      apply link_invalidate; [done|]. rewrite cls_modified. congruence. }
  destruct (m_type (pk_data pk).1) eqn:Ety; try done; destruct HX as [[Hq ->]|[Hq ->]].
  - apply link_invalidate; [done|]. rewrite cls_modified. destruct Hjust. congruence.
  - by rewrite app_nil_r.
  - subst q. destruct Hjust as [Hw Hask]. rewrite Hask, (proj2 (cls_modified _ _) Hw) in *.
    apply link_recall; [done|by left].
  - rewrite app_nil_r. eapply link_ask; [|exact Hl]. rewrite cls_modified. destruct Hjust. congruence.
  - subst q. destruct Hjust as [Hw Hask]. rewrite Hask, (proj2 (cls_modified _ _) Hw) in *.
    apply link_recall; [done|by right].
  - rewrite app_nil_r. eapply link_ask; [|exact Hl]. rewrite cls_modified. destruct Hjust. congruence.
  - subst q. destruct Hjust as (Hw & Hpl & Hwt). rewrite Hval in Hpl by (by rewrite Hw). rewrite Hwt in Hl.
    destruct (link_grant _ _ _ _ _ _ _ _ None Hl) as [_ Hl']; [done|].
    rewrite lookup_delete_eq, Hpl. by rewrite (proj2 (cls_modified _ t0)).
  - destruct Hjust as (Hw & _). rewrite Hw in *. rewrite lookup_delete_ne, app_nil_r by done.
    rewrite (proj2 (cls_invalid (∅, None) q)) in Hl by set_solver.
    rewrite (proj2 (cls_invalid _ q)) by set_solver. by eapply link_ask.
  - subst q. destruct Hjust as (Hw & Hnin & Hpl & Hwt). rewrite Hval in Hpl by done. rewrite Hwt in Hl.
    destruct (link_grant _ _ _ _ _ _ _ _ (ask l a) Hl) as [_ Hl']; [done|].
    rewrite lookup_delete_eq, Hpl. rewrite (proj2 (cls_shared _ t0)); [done|]. simpl. rewrite Hw. set_solver.
  - rewrite lookup_delete_ne, app_nil_r by done.
    replace (cls ({[t0]} ∪ (perm l a).1, (perm l a).2) q) with (cls (perm l a) q); [done|].
    unfold cls. simpl. destruct (decide ((perm l a).2 = Some q)); [done|]. apply decide_ext. set_solver.
Qed.

Lemma sent_excl pk : justified ls h l (Sent pk) ->
  forall o, (perm (l ++ [Sent pk]) a).2 = Some o -> (perm (l ++ [Sent pk]) a).1 = {[o]}.
Proof using Hex Hj hm.
  intros [_ Hjust] o. rewrite perm_snoc. simpl. unfold reply_perm.
  destruct (pk_receiver pk) as [t0|]; [|apply Hex]. case_decide as E; [|apply Hex]. rewrite E in Hjust.
  destruct (m_type (pk_data pk).1); try done; try apply Hex; simpl.
  - destruct Hjust as (-> & _). simpl. set_solver.
  - destruct Hjust as (-> & _). done.
Qed.

Lemma sent_nowriter pk : justified ls h l (Sent pk) ->
  (perm (l ++ [Sent pk]) a).2 = None -> (perm l a).2 = None.
Proof using.
  intros [_ Hjust]. rewrite perm_snoc. simpl. unfold reply_perm.
  destruct (pk_receiver pk) as [t0|]; [|done]. case_decide as E; [|done]. 
  destruct (m_type (pk_data pk).1); done.
Qed.
End event.

Lemma event_elsewhere l ev t :
  m_address (match ev with Recv _ m => m | Sent pk => pk_msg pk end) <> addr t ->
  perm (l ++ [ev]) (addr t) = perm l (addr t) /\ ask (l ++ [ev]) (addr t) = ask l (addr t) /\
  waits (l ++ [ev]) (addr t) = waits l (addr t) /\
  value ls (l ++ [ev]) (addr t) = value ls l (addr t).
Proof using.
  intros Ha. rewrite perm_snoc, ask_snoc, waits_snoc, value_snoc.
  unfold pk_msg in Ha. destruct ev as [s m|pk]; simpl; unfold return_perm, reply_perm.
  - by rewrite !decide_False.
  - destruct (pk_receiver pk); by rewrite ?decide_False.
Qed.

#[local] Instance at_home_dec h a : Decision (at_home h a).
Proof using Hj.
  destruct (decide (tag_ok (a / ls) /\ a = addr (a / ls) /\ hm (a / ls) = h)) as [Hd|Hd].
  - left. by exists (a / ls).
  - right. intros (t & Ht & -> & Hh). apply Hd. unfold TileThm.addr.
    assert (2 ^ j <> 0) by (apply Z.pow_nonzero; lia). rewrite Z.div_mul by done. done.
Defined.

(** A directory speaks only about its own lines. *)
Lemma sent_at_home n h pk : net_ok n -> justified ls h (n_hist n h) (Sent pk) -> at_home h (m_address (pk_msg pk)).
Proof using Hj.
  intros Hn [_ Hjust]. destruct (decide (at_home h (m_address (pk_msg pk)))) as [?|Hnot]; [done|exfalso].
  destruct (untouched ls h (n_hist n h) (m_address (pk_msg pk))) as [Hp Hw].
  { by apply nk_hist. }
  { intros s m Hin E. apply Hnot. rewrite <- E. by eapply nk_recv. }
  unfold pk_msg in *. rewrite Hp, Hw in Hjust. simpl in Hjust.
  destruct (pk_receiver pk); [|by destruct Hjust as (_ & ? & _)].
  rewrite lookup_empty in Hjust. destruct (m_type (pk_data pk).1); try done.
  - by destruct Hjust as [?%not_elem_of_empty _].
  - by destruct Hjust.
  - by destruct Hjust.
  - by destruct Hjust as (_ & _ & ?).
  - by destruct Hjust as (_ & _ & _ & ?).
Qed.

Definition n_sent (h : Z) (pk : Packet) (n : Net) : Net :=
  mkNet (upd (n_hist n) h (n_hist n h ++ [Sent pk])) (n_up n)
    (upd (n_down n) h (fun q => n_down n h q ++ if decide (goes_to N q pk) then [pk] else []))
    (n_view n) (n_pend n) (n_mem n).

Lemma net_sent n h pk : net_ok n -> justified ls h (n_hist n h) (Sent pk) -> net_ok (n_sent h pk n).
Proof using Hj.
  intros Hn Hjust. destruct (sent_at_home n h pk Hn Hjust) as (t0 & Ht0 & Ha0 & Hh0). split; simpl.
  - intros q t Ht. unfold upd. destruct (decide (hm t = h)) as [E|E]; [|by apply nk_link].
    pose proof (nk_link n Hn q t Ht) as Hl. rewrite E in Hl. rewrite on_app, E.
    destruct (decide (t = t0)) as [->|Hne].
    + replace (on t0 (if decide (goes_to N q pk) then [pk] else []))
        with (if decide (goes_to N q pk) then [pk_sig pk] else [])
        by (case_decide; [by rewrite on_cons_eq|done]).
      apply (sent_line h (n_hist n h)).
      * intros o. rewrite <- Hh0. by apply nk_excl.
      * done.
      * done.
      * rewrite <- Hh0. by apply nk_value.
      * done.
    + assert (Hda : m_address (pk_msg pk) <> addr t) by (rewrite Ha0; by intros ?%addr_inj).
      destruct (event_elsewhere (n_hist n h) (Sent pk) t Hda) as (-> & -> & -> & _).
      replace (on t (if decide (goes_to N q pk) then [pk] else [])) with (@nil Sig)
        by (case_decide; [by rewrite on_cons_ne|done]).
      by rewrite app_nil_r.
  - intros t o Ht. unfold upd. destruct (decide (hm t = h)) as [E|E]; [|by apply nk_excl].
    apply (sent_excl h (n_hist n h)); [|done]. rewrite <- E. intros o'. by apply nk_excl.
  - intros t Ht. unfold upd. destruct (decide (hm t = h)) as [E|E]; [|by apply nk_value].
    cbv zeta. intros Hw%(sent_nowriter h); [|done]. rewrite value_snoc. simpl. rewrite <- E.
    apply nk_value; [done|done|]. by rewrite E.
  - intros q h'. by apply nk_up.
  - intros h' q pk'. unfold upd. destruct (decide (h' = h)) as [->|E]; [|by apply nk_down].
    rewrite elem_of_app. intros [Hin|Hin]; [by apply (nk_down n Hn h q)|].
    case_decide; [|by apply elem_of_nil in Hin]. apply list_elem_of_singleton in Hin as ->.
    split; [apply Hjust|by exists t0].
  - intros h' s m. unfold upd. destruct (decide (h' = h)) as [->|E]; [|by apply nk_recv].
    rewrite elem_of_app. intros [Hin|Hin%list_elem_of_singleton]; [by eapply nk_recv|done].
  - intros h'. unfold upd. destruct (decide (h' = h)) as [->|E]; [|by apply nk_hist].
    apply history_ok_snoc; [by apply nk_hist|done].
Qed.

Fixpoint n_sent_all (h : Z) (l : list Packet) (n : Net) : Net :=
  match l with [] => n | pk :: l => n_sent_all h l (n_sent h pk n) end.

(** All the packets of a handler. *)
Lemma net_sent_all h l : forall n,
  net_ok n -> history_ok ls h (n_hist n h ++ (Sent <$> l)) -> net_ok (n_sent_all h l n).
Proof using Hj.
  induction l as [|pk l IH]; intros n Hn Hh; simpl; [done|]. apply IH.
  - apply net_sent; [done|]. by apply (Hh _ (Sent pk) (Sent <$> l)).
  - simpl. rewrite upd_eq, <- app_assoc. done.
Qed.

Lemma sent_all_spec h l : forall n,
  (forall h', n_hist (n_sent_all h l n) h' = if decide (h' = h) then n_hist n h ++ (Sent <$> l) else n_hist n h') /\
  (forall h' q, n_down (n_sent_all h l n) h' q =
     if decide (h' = h) then n_down n h q ++ filter (goes_to N q) l else n_down n h' q) /\
  n_up (n_sent_all h l n) = n_up n /\ n_view (n_sent_all h l n) = n_view n /\
  n_pend (n_sent_all h l n) = n_pend n /\ n_mem (n_sent_all h l n) = n_mem n.
Proof using.
  clear Hj. induction l as [|pk l IH]; intros n; simpl.
  - split_and!; try done; intros h'; [|intros q]; case_decide; subst; by rewrite ?app_nil_r.
  - destruct (IH (n_sent h pk n)) as (Hh & Hd & Hrest). split; [|split; [|exact Hrest]].
    + intros h'. rewrite Hh. simpl. case_decide; [by rewrite upd_eq, <- app_assoc|by rewrite upd_ne].
    + intros h' q. rewrite Hd. simpl. case_decide; [|by rewrite upd_ne]. rewrite upd_eq, <- app_assoc. f_equal.
      destruct (decide (goes_to N q pk)); [by rewrite filter_cons_True|by rewrite filter_cons_False].
Qed.

(** A message reaches its home. *)
Definition n_recv (q h : Z) (m : ShmemMsg) (rest : list Packet) (n : Net) : Net :=
  mkNet (upd (n_hist n) h (n_hist n h ++ [Recv q m])) (upd (n_up n) q (upd (n_up n q) h rest))
    (n_down n) (n_view n) (n_pend n) (n_mem n).

Section recv.
Context (n : Net) (q h : Z) (pk : Packet) (rest : list Packet) (m : ShmemMsg) (t : Z).
Abbreviation a := (addr t).
Abbreviation l := (n_hist n h).
Context (Hn : net_ok n) (Hup : n_up n q h = pk :: rest).
Context (Ht : tag_ok t) (Hh : hm t = h).
Context (Hty : m_type m = m_type (pk_msg pk)) (Ha : m_address m = a) (Hap : m_address (pk_msg pk) = a).
Context (Hbuf : m_type m = FLUSH_REP \/ m_type m = WB_REP -> m_data_buf m = Some (pk_data pk).2).

(** What the directory may rely on. *)
Lemma recv_facts :
  (core_req (m_type m) /\ on t rest = [] /\ (q ∉ (perm l a).1) /\ waits l a !! q = None) \/
  (m_type m = INV_REP /\ q ∈ (perm l a).1 /\ (perm l a).2 = None) \/
  ((m_type m = FLUSH_REP \/ (m_type m = WB_REP /\ ask l a = Some WB_REQ)) /\
   (perm l a).2 = Some q /\ (pk_data pk).2 = n_mem n t).
Proof using All.
  pose proof (nk_link n Hn q t Ht) as Hl. rewrite Hh, Hup, on_cons_eq in Hl by done.
  destruct (link_up_head _ _ _ _ _ _ _ _ _ Hl) as [(Hret & Hi & Hf & Hwb)|(Hreq & Hr & Hc & Hw)];
    simpl in *; rewrite <- Hty in *.
  - right. destruct (decide (m_type m = INV_REP)) as [E|E]; [left|right].
    + specialize (Hi E). apply cls_shared in Hi as [Hne Hin]. split; [done|]. split; [done|].
      destruct (perm l a).2 as [o|] eqn:Ew; [|done]. exfalso.
      pose proof (nk_excl n Hn t o Ht) as Hx. cbv zeta in Hx. rewrite Hh, Ew in Hx. specialize (Hx eq_refl). rewrite Hx in Hin.
      apply elem_of_singleton in Hin as ->. done.
    + destruct (Hf E) as [Hc Hd]. apply cls_modified in Hc. split; [|done].
      unfold is_return in Hret. destruct Hret as [?|[?|?]]; [done|by left|right; auto].
  - left. split; [done|]. split; [done|]. split; [|done]. apply cls_invalid in Hc as [_ Hc]. exact Hc.
Qed.

(** Another tile is not affected. *)
Lemma recv_other q' : q' <> q ->
  cls (perm (l ++ [Recv q m]) a) q' = cls (perm l a) q' /\
  waits (l ++ [Recv q m]) a !! q' = waits l a !! q' /\
  (ask (l ++ [Recv q m]) a = ask l a \/ cls (perm l a) q' = CS_INVALID).
Proof using All.
  intros Hq. rewrite perm_snoc, waits_snoc, ask_snoc. simpl. unfold return_perm.
  rewrite !(decide_True _ _ Ha). 
  assert (Hex : (perm l a).2 = Some q -> cls (perm l a) q' = CS_INVALID).
  { intros Hw. apply cls_invalid. pose proof (nk_excl n Hn t q Ht) as Hx. cbv zeta in Hx. rewrite Hh in Hx.
    rewrite (Hx Hw), Hw. set_solver. }
  destruct recv_facts as [([E|E] & _ & _ & _)|[(E & Hin & Hw)|([E|[E _]] & Hw & _)]]; rewrite E.
  - rewrite lookup_insert_ne by done. auto.
  - rewrite lookup_insert_ne by done. auto.
  - split; [|auto]. unfold cls. simpl. destruct (decide ((perm l a).2 = Some q')); [done|].
    apply decide_ext. set_solver.
  - rewrite (Hex Hw). split; [|auto]. apply cls_invalid. simpl.
    apply cls_invalid in Hex as [_ Hex]; [set_solver|done].
  - rewrite (Hex Hw). split; [|auto]. apply cls_invalid. simpl.
    apply cls_invalid in Hex as [_ Hex]; [set_solver|done].
Qed.

Lemma recv_self :
  link (n_mem n t) (cls (perm (l ++ [Recv q m]) a) q) (ask (l ++ [Recv q m]) a)
    (waits (l ++ [Recv q m]) a !! q) (on t rest) (on t (n_down n h q)) (n_view n q t) (pend_on t (n_pend n q)).
Proof using All.
  pose proof (nk_link n Hn q t Ht) as Hl. rewrite Hh, Hup, on_cons_eq in Hl by done. cbv zeta in Hl.
  rewrite perm_snoc, waits_snoc, ask_snoc. simpl. unfold return_perm. rewrite !(decide_True _ _ Ha).
  destruct recv_facts as [(Hreq & Hr & Hp & Hw)|Hret].
  - rewrite Hr in *. pose proof (link_request _ _ _ _ _ _ _ _ Hl) as Hl'. simpl in Hl'. rewrite <- Hty in Hl'.
    specialize (Hl' Hreq). destruct Hreq as [E|E]; rewrite E in *; by rewrite lookup_insert_eq.
  - assert (Hrt : is_return (m_type (pk_msg pk))) by (rewrite <- Hty; unfold is_return; naive_solver).
    pose proof (fun ask' => link_return _ _ _ _ _ _ _ _ _ ask' Hl Hrt) as Hl'. simpl in Hl'. rewrite <- Hty in Hl'.
    destruct Hret as [(E & Hin & Hw)|([E|[E _]] & Hw & _)]; rewrite E in *; simpl in Hl'.
    + rewrite (proj2 (cls_invalid _ q)); [done|]. simpl. rewrite Hw. set_solver.
    + pose proof (nk_excl n Hn t q Ht) as Hx. cbv zeta in Hx. rewrite Hh in Hx.
      rewrite (proj2 (cls_invalid _ q)); [done|]. simpl. set_solver.
    + pose proof (nk_excl n Hn t q Ht) as Hx. cbv zeta in Hx. rewrite Hh in Hx.
      rewrite (proj2 (cls_shared _ q)); [done|]. simpl. rewrite Hx by done. set_solver.
Qed.

Lemma net_recv : net_ok (n_recv q h m rest n).
Proof using All.
  assert (Hap' : forall t', t' <> t -> m_address m <> addr t') by (intros t' Hne; rewrite Ha; by intros ?%addr_inj).
  split; simpl.
  - intros q' t' Ht'. unfold upd. destruct (decide (hm t' = h)) as [E|E].
    2:{ pose proof (nk_link n Hn q' t' Ht') as Hl. destruct (decide (q' = q)) as [->|]; [rewrite decide_False by done|]; done. }
    pose proof (nk_link n Hn q' t' Ht') as Hl. rewrite E in Hl. cbv zeta in Hl. rewrite E.
    destruct (decide (t' = t)) as [->|Hne].
    + destruct (decide (q' = q)) as [->|Hq]; [rewrite decide_True by done; apply recv_self|].
      destruct (recv_other q' Hq) as (-> & -> & Hask). 
      destruct Hask as [->|Hc]; [done|]. rewrite Hc in *. by eapply link_ask.
    + destruct (event_elsewhere l (Recv q m) t') as (-> & -> & -> & _); [by apply Hap'|].
      destruct (decide (q' = q)) as [->|Hq]; [|done]. rewrite decide_True by done.
      rewrite Hup, on_cons_ne in Hl; [done|]. rewrite Hap, <- Ha. by apply Hap'.
  - intros t' o Ht'. unfold upd. destruct (decide (hm t' = h)) as [E|E]; [|by apply nk_excl].
    cbv zeta. destruct (decide (t' = t)) as [->|Hne].
    2:{ destruct (event_elsewhere l (Recv q m) t') as (-> & _); [by apply Hap'|]. rewrite <- E. by apply nk_excl. }
    pose proof (nk_excl n Hn t o Ht) as Hx. cbv zeta in Hx. rewrite E in Hx.
    rewrite perm_snoc. simpl. unfold return_perm. rewrite !(decide_True _ _ Ha).
    destruct recv_facts as [([E'|E'] & _ & _ & _)|[(E' & Hin & Hw)|([E'|[E' _]] & Hw & _)]]; rewrite E'; try done.
    simpl. by rewrite Hw.
  - intros t' Ht'. unfold upd. destruct (decide (hm t' = h)) as [E|E]; [|by apply nk_value].
    cbv zeta. destruct (decide (t' = t)) as [->|Hne].
    2:{ destruct (event_elsewhere l (Recv q m) t') as (-> & _ & _ & ->); [by apply Hap'|]. rewrite <- E. by apply nk_value. }
    pose proof (nk_value n Hn t Ht) as Hx. cbv zeta in Hx. rewrite E in Hx.
    rewrite perm_snoc, value_snoc. simpl. unfold return_perm. rewrite !(decide_True _ _ Ha).
    destruct recv_facts as [([E'|E'] & _ & _ & _)|[(E' & Hin & Hw)|([E'|[E' _]] & Hw & Hd)]]; rewrite E'; try done.
    + rewrite Hbuf by auto. by intros _.
    + rewrite Hbuf by auto. by intros _.
  - intros q' h' pk'. unfold upd. intros Hin. apply (nk_up n Hn q' h').
    destruct (decide (q' = q)) as [->|]; [|done]. destruct (decide (h' = h)) as [->|]; [|done].
    rewrite Hup. by right.
  - intros h' q'. by apply nk_down.
  - intros h' s m'. unfold upd. destruct (decide (h' = h)) as [->|E]; [|by apply nk_recv].
    rewrite elem_of_app. intros [Hin|Hin%list_elem_of_singleton]; [by eapply nk_recv|].
    injection Hin as -> ->. by exists t.
  - intros h'. unfold upd. destruct (decide (h' = h)) as [->|E]; [|by apply nk_hist].
    apply history_ok_snoc; [by apply nk_hist|done].
Qed.
End recv.
End net.
