(* ===== verification/SystemInv.v ===== *)
(** * Runs of the system and their invariant

    Which actions may happen, the runs they form with the trace of completed
    accesses, the memory the trace defines, and the invariant of the runs:
    every tile and every directory satisfies its own invariant, and every line
    is linked between its home and every tile. *)

From S2P Require Import Prelude Utils HashMapList CacheLine Replacement CacheSet Cache CacheThm CachePerf Shmem DirEntry DirCache DirCntlr DirThm DirSafe DirProtocol Tile TileThm TileSafe System Link Net.

(** ** The memory defined by a trace *)

Definition ev_memory (a : Z) (d : list Z) (e : CoreEvent) : list Z :=
  match e with
  | Done _ c _ =>
      if decide (co_address c = a) then access_data (co_op c) (co_offset c) (co_buf c) d else d
  end.
Definition memory (line_size : Z) (tr : list CoreEvent) (a : Z) : list Z :=
  fold_left (ev_memory a) tr (replicate (Z.to_nat line_size) 0).

Lemma memory_snoc ls tr e a : memory ls (tr ++ [e]) a = ev_memory a (memory ls tr a) e.
Proof. unfold memory. by rewrite fold_left_app. Qed.

(** What the completed access returns to the core. *)
Definition event_ok (line_size : Z) (tr : list CoreEvent) (e : CoreEvent) : Prop :=
  match e with
  | Done _ c out =>
      out = access_result (co_op c) (co_offset c) (co_len c) (co_buf c) (memory line_size tr (co_address c))
  end.

Section sys.
Context (N j : Z) (tenv : Z -> TileEnv) (denv : Z -> DirEnv) (hm : Z -> Z) (home_l1 : Z -> MemComponent).
Abbreviation addr := (addr j).
Abbreviation tag_ok := (tag_ok j).
Abbreviation ls := (2 ^ j).

(** The tiles agree on the line size and on the homes of the lines, and every
    line is accessed through one of the L1 caches. *)
Record config_ok : Prop := {
  cf_tile q : te_tile (tenv q) = q;
  cf_line q : te_line_size (tenv q) = 2 ^ j;
  cf_home q t : tag_ok t -> getHome (te_home (tenv q)) (addr t) = Ok (hm t);
  cf_dir h : env_tile (denv h) = h;
  cf_dline h : env_line_size (denv h) = 2 ^ j;
  cf_rand h n : 0 < n -> 0 <= env_rand (denv h) n < n;
  cf_l1 t : is_l1 (home_l1 t);
  cf_j : 0 < j }.

Definition tag_of (a : Z) : Z := a / 2 ^ j.

(** An access to one line, through its L1 cache. *)
Definition fits (c : CoreOp) : Prop :=
  co_address c = addr (tag_of (co_address c)) /\
  access_fits j home_l1 (tag_of (co_address c)) (co_mc c) (co_op c) (co_offset c) (co_len c) (co_buf c).

(** ** Enabled actions *)

(** A locked access is a [READ_EX] with [LOCK] and an access to the same line
    with [UNLOCK]; nothing else happens on the tile in between. *)
Definition lock_fits (S : Sys) (q : Z) (c : CoreOp) : Prop :=
  match co_lock c with
  | NONE => sy_lock S q = None
  | LOCK => sy_lock S q = None /\ co_op c = READ_EX
  | UNLOCK => sy_lock S q = Some (co_address c)
  end.

(** A reply does not arrive before the time of the request. *)
Definition in_time (env : TileEnv) (sender time : Z) (s : TileState) : Prop :=
  ts_out_time s <= pm_curr_time (sync_l2_perf env (dir_module env sender)
                                   (ts_set_perf (setCurrTime time (ts_perf s)) s)).

Definition enabled (S : Sys) (act : Action) : Prop :=
  match act with
  | ACore q c _ => 0 <= q < N /\ sy_core S q = None /\ fits c /\ lock_fits S q c
  | ASelf q _ => 0 <= q < N /\ sy_lock S q = None
  | ADown h q time =>
      0 <= q < N /\ sy_lock S q = None /\
      forall pk rest, sy_down S h q = pk :: rest -> is_reply pk = true -> in_time (tenv q) h time (sy_tile S q)
  | AUp q h _ =>
      0 <= q < N /\ sy_lock S h = None /\
      forall pk rest, sy_up S q h = pk :: rest -> has_room (sy_dir S h) (pk_msg pk)
  end.

Inductive sys_run (S0 : Sys) : list CoreEvent -> Sys -> Prop :=
  | sys_start : sys_run S0 [] S0
  | sys_step tr S act S' e :
      sys_run S0 tr S -> enabled S act -> sys_do N tenv denv S act = Ok (S', e) ->
      sys_run S0 (tr ++ option_list e) S'.

(** ** The invariant *)

Definition stage (S : Sys) (q : Z) : option (bool * MsgType * Z) :=
  (fun c => (negb (bool_decide (sy_self S q = [])), getShmemMsgType (co_op c), tag_of (co_address c)))
    <$> sy_core S q.

Definition self_packet (q : Z) (c : CoreOp) (pk : Packet) : Prop :=
  exists p, pk = packet (tenv q) p q (core_request (tenv q) j (co_mc c) (co_op c) (tag_of (co_address c))).

(** The request of a waiting access: still with the L1 controller, or
    outstanding at the L2 controller. *)
Definition waits_ok (S : Sys) (q : Z) (r : Rest) : Prop :=
  match sy_core S q with
  | None => sy_self S q = [] /\ r_address r = INVALID_ADDRESS
  | Some c =>
      fits c /\ co_lock c <> UNLOCK /\ (co_lock c = LOCK -> co_op c = READ_EX) /\ sy_lock S q = None /\
      ((exists pk, sy_self S q = [pk] /\ self_packet q c pk /\ r_address r = INVALID_ADDRESS) \/
       (sy_self S q = [] /\ r_address r = co_address c /\ r_component r = co_mc c))
  end.

Definition lock_ok (S : Sys) (q : Z) (V : Z -> Copy) : Prop :=
  match sy_lock S q with
  | None => True
  | Some a =>
      sy_core S q = None /\ copy_state (V (tag_of a)) = CS_MODIFIED /\
      in_l1 (home_l1 (tag_of a)) (tag_of a) (sy_tile S q) /\ a = addr (tag_of a) /\ tag_ok (tag_of a)
  end.

Definition tile_ok (S : Sys) (q : Z) (V : Z -> Copy) : Prop :=
  exists r, good_tile j home_l1 (tag_of ∘ co_address <$> sy_core S q) (sy_tile S q) V r /\ r_sent r = [] /\
    waits_ok S q r /\ lock_ok S q V.

Definition dir_ok (S : Sys) (h : Z) (l : list Event) : Prop :=
  good (denv h) N None l (sy_dir S h) /\ ds_sent (sy_dir S h) = [].

Definition net_of (S : Sys) (hist : Z -> list Event) (V : Z -> Z -> Copy) (tr : list CoreEvent) : Net :=
  mkNet hist (sy_up S) (sy_down S) V (stage S) (fun t => memory ls tr (addr t)).

Record sys_ok (tr : list CoreEvent) (S : Sys) (hist : Z -> list Event) (V : Z -> Z -> Copy) : Prop := {
  so_net : net_ok j hm (net_of S hist V tr);
  so_tile q : 0 <= q < N -> tile_ok S q (V q);
  so_dir t : tag_ok t -> dir_ok S (hm t) (hist (hm t)) }.

(** A completed access: what it returns, and that a write is the owner's. *)
Definition ev_ok (hist : Z -> list Event) (tr : list CoreEvent) (e : CoreEvent) : Prop :=
  event_ok ls tr e /\
  match e with
  | Done q c _ =>
      co_op c <> READ -> (perm (hist (hm (tag_of (co_address c)))) (co_address c)).2 = Some q
  end.

(** ** Facts on lines and addresses *)

Section facts.
Context (Hcfg : config_ok).
Abbreviation Hj := (cf_j Hcfg).

Lemma tag_addr t : tag_of (addr t) = t.
Proof using Hcfg.
  unfold tag_of, TileThm.addr. apply Z.div_mul. apply Z.pow_nonzero; pose proof (cf_j Hcfg); lia.
Qed.

Lemma addr_valid t : addr t <> INVALID_ADDRESS.
Proof using Hcfg.
  pose proof (cf_j Hcfg). unfold TileThm.addr, INVALID_ADDRESS. intros E.
  replace (2 ^ j) with (2 * 2 ^ (j - 1)) in E by (rewrite <- Z.pow_succ_r by lia; f_equal; lia).
  assert (Z.odd (t * (2 * 2 ^ (j - 1))) = false); [|by rewrite E in *].
  replace (t * (2 * 2 ^ (j - 1))) with (2 * (t * 2 ^ (j - 1))) by lia.
  by rewrite Z.odd_mul.
Qed.

Lemma home_is_ok q t : tag_ok t -> is_ok (getHome (te_home (tenv q)) (addr t)).
Proof using Hcfg. intros Ht. exists (hm t). by apply cf_home. Qed.

(** ** Packets of the tiles *)

Lemma home_filter t q l h : Forall (for_home (hm t)) l ->
  filter (for_home h) l = (if decide (h = hm t) then l else []) /\ filter (for_cache q) l = [].
Proof using.
  intros Hl. split; [case_decide as E|].
  - subst h. by apply filter_all.
  - apply filter_none. eapply Forall_impl; [exact Hl|]. intros pk [E1 _] [E2 _]. congruence.
  - apply filter_none. eapply Forall_impl; [exact Hl|]. intros pk [_ E1] [_ E2]. congruence.
Qed.

(** ** Messages of packets *)

Lemma line_pos : 0 < 2 ^ j.
Proof using Hcfg. apply Z.pow_pos_nonneg; pose proof (cf_j Hcfg); lia. Qed.

(** What a packet of a directory says. *)
Lemma dir_message h pk :
  dir_format ls h pk ->
  exists m, getShmemMsg (pk_data pk) = Ok m /\ m_type m = m_type (pk_msg pk) /\
    m_address m = m_address (pk_msg pk) /\ m_receiver m = MC_L2_CACHE /\ m_sender m = MC_DRAM_DIRECTORY /\
    (is_reply pk = true -> m_data_buf m = Some (pk_data pk).2 /\ Z.of_nat (length (pk_data pk).2) = ls).
Proof using Hcfg.
  intros (_ & Hs & Hr & Hlen). unfold is_reply, pk_msg. pose proof line_pos as Hp.
  destruct (pk_data pk) as [m pl]. cbn [fst snd] in *. destruct (getShmemMsg_cases m pl) as [H0 H1].
  destruct (m_type m) eqn:E; try (destruct Hlen as [Hl Hb]; exists (header_of m); rewrite H0 by done; simpl; rewrite E; split_and!; done).
  - destruct Hlen as [Hl Hb]. eexists. rewrite H1 by lia. split; [done|]. done.
  - destruct Hlen as [Hl Hb]. eexists. rewrite H1 by lia. split; [done|]. done.
Qed.

(** What a packet of a tile says. *)
Lemma up_message q pk :
  up_format j q pk ->
  exists m, getShmemMsg (pk_data pk) = Ok m /\ m_type m = m_type (pk_msg pk) /\
    m_address m = m_address (pk_msg pk) /\ m_receiver m = MC_DRAM_DIRECTORY /\ m_sender m = MC_L2_CACHE /\
    (core_req (m_type m) -> m_requester m = q /\ m_data_buf m = None) /\
    (m_type m = FLUSH_REP \/ m_type m = WB_REP ->
     m_data_buf m = Some (pk_data pk).2 /\ Z.of_nat (length (pk_data pk).2) = ls).
Proof using Hcfg.
  intros (_ & Hs & Hr & Hlen). unfold pk_msg in *. pose proof line_pos as Hp.
  destruct (pk_data pk) as [m pl]. cbn [fst snd] in *. destruct (getShmemMsg_cases m pl) as [H0 H1].
  unfold core_req. destruct (m_type m) eqn:E; try done.
  1,2: destruct Hlen as (Hq & Hl & Hb & _); exists (header_of m); rewrite H0 by done; simpl; rewrite E; repeat (split; [done|]);
    by intros [?|?].
  1: destruct Hlen as (Hl & Hb & _); exists (header_of m); rewrite H0 by done; simpl; rewrite E; repeat (split; [done|]);
    split; by intros [?|?].
  all: destruct Hlen as [Hl Hb]; eexists; rewrite H1 by lia; repeat (split; [done|]); split; [by intros [?|?]|done].
Qed.
End facts.
End sys.
