(* ===== verification/SystemDir.v ===== *)
(** * A packet reaches a directory

    The directory handles it to the end and the invariant of the system is
    kept. *)

From S2P Require Import Prelude Utils HashMapList CacheLine Replacement CacheSet Cache CacheThm CachePerf Shmem DirEntry DirCache DirCntlr DirThm DirSafe DirProtocol Tile TileThm TileSafe System Link Net SystemInv.

Section dir.
Context (N j : Z) (tenv : Z -> TileEnv) (denv : Z -> DirEnv) (hm : Z -> Z) (home_l1 : Z -> MemComponent).
Context (Hcfg : config_ok j tenv denv hm home_l1).
Abbreviation addr := (addr j).
Abbreviation tag_ok := (tag_ok j).
Abbreviation ls := (2 ^ j).
Abbreviation sys_ok := (sys_ok N j tenv denv hm home_l1).
Abbreviation enabled := (enabled N j tenv home_l1).

(** The messages of the tiles are the ones the directory expects. *)
Lemma up_legit tr S hist V q t pk rest m :
  sys_ok tr S hist V -> 0 <= q < N -> tag_ok t -> sy_up S q (hm t) = pk :: rest ->
  m_address (pk_msg pk) = addr t -> has_room (sy_dir S (hm t)) (pk_msg pk) ->
  up_format j q pk -> m_type m = m_type (pk_msg pk) -> m_address m = m_address (pk_msg pk) ->
  (core_req (m_type m) -> m_requester m = q /\ m_data_buf m = None) ->
  (m_type m = FLUSH_REP \/ m_type m = WB_REP ->
     m_data_buf m = Some (pk_data pk).2 /\ Z.of_nat (length (pk_data pk).2) = ls) ->
  legit (denv (hm t)) N (hist (hm t)) q m /\ has_room (sy_dir S (hm t)) m.
Proof using Hcfg.
  intros Hok Hq Ht Hup Ha Hroom Hfmt Hty Hma Hreq Hdata. pose proof (so_net _ _ _ _ _ _ _ _ _ _ Hok) as Hn.
  destruct (so_dir _ _ _ _ _ _ _ _ _ _ Hok t Ht) as [[Hwf Hi] Hsent].
  assert (Hlog : log (hist (hm t)) (sy_dir S (hm t)) = hist (hm t)) by (unfold log; rewrite Hsent; apply app_nil_r).
  rewrite Hlog in Hi. split; [|unfold has_room in *; by rewrite <- Hty, <- Hma in Hroom].
  assert (Hbuf : m_type m = FLUSH_REP \/ m_type m = WB_REP -> exists data, m_data_buf m = Some data /\
    Z.of_nat (length data) = env_line_size (denv (hm t))).
  { intros Hd. destruct (Hdata Hd) as [Hb Hl]. exists (pk_data pk).2. by rewrite (cf_dline _ _ _ _ _ Hcfg). }
  unfold legit. rewrite Hma, Ha in *. split; [by eapply addr_valid|]. split; [done|].
  destruct (recv_facts j N hm (cf_j _ _ _ _ _ Hcfg) _ q (hm t) pk rest m t Hn Hup Ht eq_refl Hty Hma Ha
    (fun Hd => proj1 (Hdata Hd)))
    as [(Hcr & _ & Hnin & Hw)|[(E & Hin & Hw)|([E|[E Hask]] & Hw & _)]]; simpl in *.
  - destruct (Hreq Hcr) as [Hrq Hb].
    assert (Hasks : asks (hist (hm t)) q m) by (unfold asks; rewrite Hma; by split_and!).
    destruct Hcr as [E|E]; rewrite E in *; done.
  - rewrite E in *. done.
  - rewrite E in *. split; [done|]. apply Hbuf. by left.
  - rewrite E in *. split; [done|]. split; [apply Hbuf; by right|done].
Qed.

Lemma dir_delivers s h pk m l q :
  good (denv h) N None l s -> ds_sent s = [] -> legit (denv h) N l q m -> has_room s m -> pk_sender pk = q ->
  getShmemMsg (pk_data pk) = Ok m -> m_receiver m = MC_DRAM_DIRECTORY -> m_sender m = MC_L2_CACHE ->
  runs (mm_handleMsgToDirectory (denv h) pk) s (fun _ => good (denv h) N None (l ++ [Recv q m])).
Proof using Hcfg.
  intros Hg Hs Hl Hroom Hq Hm Hr Hsm. unfold mm_handleMsgToDirectory. runs_step. runs_step.
  eapply runs_lift; [exact Hm|]. cbn beta. runs_step. rewrite Hr, Hsm, Hq. apply handle_runs; try done.
  - intros n. apply (cf_rand _ _ _ _ _ Hcfg).
  - unfold dir_fuel, dir_fuel_of, msgs, queue_of. simpl. by rewrite length_fmap.
Qed.

Lemma up_step tr S hist V q h time :
  sys_ok tr S hist V -> enabled S (AUp q h time) ->
  exists S' hist', sys_do N tenv denv S (AUp q h time) = Ok (S', None) /\ sys_ok tr S' hist' V.
Proof using Hcfg.
  intros Hok (Hq & Hlock & Hroom). unfold sys_do. destruct (sy_up S q h) as [|pk rest] eqn:Hup.
  { by exists S, hist. }
  pose proof (so_net _ _ _ _ _ _ _ _ _ _ Hok) as Hn.
  destruct (nk_up _ _ _ Hn q h pk) as (Hfmt & t & Ht & Ha & Hh); [simpl; rewrite Hup; by left|]. subst h.
  destruct (up_message j tenv denv hm home_l1 Hcfg q pk Hfmt) as (m & Hm & Hty & Hma & Hr & Hs & Hreq & Hdata).
  destruct (so_dir _ _ _ _ _ _ _ _ _ _ Hok t Ht) as [Hg Hsent].
  pose proof (up_legit _ _ _ _ _ _ _ _ m Hok Hq Ht Hup Ha (Hroom _ _ eq_refl) Hfmt Hty Hma Hreq Hdata) as [Hleg Hrm].
  destruct (dir_delivers (sy_dir S (hm t)) (hm t) (at_time time pk) m _ q Hg Hsent Hleg Hrm) as ([] & s' & E & Hg');
    [apply Hfmt|done|done|done|].
  set (hist' := upd hist (hm t) (hist (hm t) ++ Recv q m :: (Sent <$> ds_sent s'))).
  exists (after_dir N (hm t) s' (with_up q (hm t) rest S)), hist'.
  split; [by rewrite E|].
  assert (Hlog : log (hist (hm t) ++ [Recv q m]) s' = hist (hm t) ++ Recv q m :: (Sent <$> ds_sent s'))
    by (unfold log; by rewrite <- app_assoc).
  destruct Hg' as [Hwf' Hi']. rewrite Hlog in Hi'.
  split.
  - pose proof (net_recv j N hm (cf_j _ _ _ _ _ Hcfg) _ q (hm t) pk rest m t Hn Hup Ht eq_refl Hty
      (eq_trans Hma Ha) Ha (fun Hd => proj1 (Hdata Hd))) as Hn1.
    pose proof (net_sent_all j N hm (cf_j _ _ _ _ _ Hcfg) (hm t) (ds_sent s') _ Hn1) as Hn2.
    destruct (sent_all_spec N (hm t) (ds_sent s') (n_recv q (hm t) m rest (net_of j S hist V tr)))
      as (E1 & E2 & E3 & E4 & E5 & E6).
    eapply net_ext; [..|apply Hn2].
    + intros h. rewrite E1. simpl. rewrite upd_eq. unfold hist', upd.
      destruct (decide (h = hm t)); [|done]. by rewrite <- app_assoc.
    + intros q' h. by rewrite E3.
    + intros h q'. rewrite E2. simpl. unfold upd. by destruct (decide (h = hm t)).
    + intros q' t'. by rewrite E4.
    + intros q'. by rewrite E5.
    + intros t'. by rewrite E6.
    + simpl. rewrite upd_eq, <- app_assoc. pose proof (iv_hist _ _ _ _ _ _ _ Hi') as Hh.
      by rewrite (cf_dline _ _ _ _ _ Hcfg), (cf_dir _ _ _ _ _ Hcfg) in Hh.
  - intros q' Hq'. by apply (so_tile _ _ _ _ _ _ _ _ _ _ Hok).
  - intros t' Ht'. unfold dir_ok, hist', upd. simpl. unfold upd.
    destruct (decide (hm t' = hm t)) as [Eh|Eh].
    + rewrite Eh. split; [|done]. split; [done|]. unfold log. simpl. by rewrite app_nil_r.
    + by apply (so_dir _ _ _ _ _ _ _ _ _ _ Hok).
Qed.
End dir.
