(* ===== verification/SystemTile.v ===== *)
(** * Actions of the tiles of a system

    Accesses of the cores and packets that reach a tile run to their end and
    keep the invariant of the system; a completed access returns the contents
    of the memory. *)

From S2P Require Import Prelude Utils HashMapList CacheLine Replacement CacheSet Cache CacheThm CachePerf Shmem DirEntry DirCache DirCntlr DirThm DirSafe DirProtocol Tile TileThm TileSafe System Link Net SystemInv.

(** ** Completed accesses at the level of the net *)

Lemma permits_cases op cs :
  op_permits op cs = true -> cs = CS_SHARED \/ cs = CS_MODIFIED ->
  cs = CS_MODIFIED \/ (cs = CS_SHARED /\ op = READ).
Proof. destruct op, cs; naive_solver. Qed.

Section access.
Context (j N : Z) (hm : Z -> Z) (Hj : 0 < j).
Abbreviation addr := (addr j).
Abbreviation tag_ok := (tag_ok j).

(** An access to a copy the tile holds. *)
Lemma net_access n q t cs d op off buf :
  net_ok j hm n -> tag_ok t -> n_view n q t = Some (cs, d) -> n_pend n q = None -> op_permits op cs = true ->
  d = n_mem n t /\
  net_ok j hm (n_act hm q t [] (n_down n (hm t) q) (Some (cs, access_data op off buf d)) None
    (access_data op off buf d) n).
Proof using Hj.
  intros Hn Ht Hv Hp Hop. pose proof (nk_link _ _ _ Hn q t Ht) as Hl. cbv zeta in Hl. rewrite Hp in Hl.
  destruct (link_copy _ _ _ _ _ _ _ _ _ _ Hl Hv) as (-> & Hcs & Hm & _). split; [done|].
  apply (net_act j hm Hj n q t _ _ _ _ _ []); try done.
  - by intros pk ?%elem_of_nil.
  - by intros pk ?%elem_of_nil.
  - intros t' _. by rewrite Hp.
  - destruct (permits_cases op cs Hop Hcs) as [->|[-> ->]]; [right|by left]. by apply cls_modified, Hm.
  - cbv zeta. simpl. rewrite app_nil_r. simpl in Hl. destruct (permits_cases op cs Hop Hcs) as [->|[-> ->]].
    + by eapply link_write.
    + by rewrite Hv in Hl.
Qed.
End access.

Section tile.
Context (N j : Z) (tenv : Z -> TileEnv) (denv : Z -> DirEnv) (hm : Z -> Z) (home_l1 : Z -> MemComponent).
Context (Hcfg : config_ok j tenv denv hm home_l1).
Abbreviation addr := (addr j).
Abbreviation tag_ok := (tag_ok j).
Abbreviation ls := (2 ^ j).
Abbreviation sys_ok := (sys_ok N j tenv denv hm home_l1).
Abbreviation enabled := (enabled N j tenv home_l1).
Abbreviation tile_ok := (tile_ok j tenv home_l1).
Abbreviation good_tile := (good_tile j home_l1).
Abbreviation Hl1 := (cf_l1 _ _ _ _ _ Hcfg).

(** ** The rest of the system *)

Definition same_at (q : Z) (S S' : Sys) : Prop :=
  sy_tile S' q = sy_tile S q /\ sy_self S' q = sy_self S q /\ sy_core S' q = sy_core S q /\
  sy_lock S' q = sy_lock S q.

Lemma tile_ok_same S S' q V : same_at q S S' -> tile_ok S q V -> tile_ok S' q V.
Proof using.
  intros (E1 & E2 & E3 & E4) (r & Hg & Hr & Hw & Hl). exists r.
  unfold waits_ok, lock_ok in *. rewrite E1, E2, E3, E4. done.
Qed.

Lemma stage_same S S' q : same_at q S S' -> stage j S' q = stage j S q.
Proof using. intros (_ & E2 & E3 & _). unfold stage. by rewrite E2, E3. Qed.

Lemma tile_perf s F L r p : tile j s F L r -> tile j (ts_set_perf p s) F L (with_perf p r).
Proof using. intros []. split; try done. by subst r. Qed.

Lemma good_perf_set x s V r p : good_tile x s V r -> good_tile x (ts_set_perf p s) V (with_perf p r).
Proof using. intros (F & L & Hs & Hrest). exists F, L. split; [by apply tile_perf|done]. Qed.

Lemma good_taken x s V r : good_tile x s V r -> ts_sent s = r_sent r /\ good_tile x (ts_taken s) V (with_sent [] r).
Proof using.
  intros (F & L & Hs & Hrest). split; [by destruct Hs as [_ _ _ <-]|]. exists F, L. split; [|done].
  destruct Hs. split; try done. by subst r.
Qed.

Lemma in_l1_taken mc t s : in_l1 mc t s -> in_l1 mc t (ts_taken s).
Proof using. done. Qed.

Lemma good_ext x s V V' r : (forall t, V t = V' t) -> good_tile x s V r -> good_tile x s V' r.
Proof using. intros HV (F & L & Hs & Hi & Hv). exists F, L. split; [done|]. split; [done|]. intros t. by rewrite Hv. Qed.

(** The system after an action of tile [q]. *)
Lemma sys_tile_step tr S hist V q tr' S' Vq :
  sys_ok tr S hist V -> (forall q', q' <> q -> same_at q' S S') ->
  (forall h, sy_dir S' h = sy_dir S h) ->
  net_ok j hm (net_of j S' hist (upd V q Vq) tr') -> (0 <= q < N -> tile_ok S' q Vq) ->
  sys_ok tr' S' hist (upd V q Vq).
Proof using.
  intros Hok Hs Hd Hn Hq. split; [done| |].
  - intros q' Hq'. destruct (decide (q' = q)) as [->|Hne]; [rewrite upd_eq; auto|].
    rewrite upd_ne by done. eapply tile_ok_same; [by apply Hs|]. by apply (so_tile _ _ _ _ _ _ _ _ _ _ Hok).
  - intros t Ht. unfold dir_ok. rewrite Hd. by apply (so_dir _ _ _ _ _ _ _ _ _ _ Hok).
Qed.

(** The net after an action of tile [q] on line [t] that sends [l]. *)
Lemma net_after S hist V tr q t l D v p cur S' V' tr' :
  net_ok j hm (n_act hm q t l D v p cur (net_of j S hist V tr)) ->
  Forall (for_home (hm t)) l ->
  (forall q' h, sy_up S' q' h = upd (sy_up S) q (fun h => sy_up S q h ++ filter (for_home h) l) q' h) ->
  (forall h q', sy_down S' h q' = upd (sy_down S) (hm t) (upd (sy_down S (hm t)) q D) h q') ->
  (forall q' t', V' q' t' = upd V q (upd (V q) t v) q' t') ->
  (forall q', stage j S' q' = upd (stage j S) q p q') ->
  (forall t', memory ls tr' (addr t') = upd (fun t' => memory ls tr (addr t')) t cur t') ->
  net_ok j hm (net_of j S' hist V' tr').
Proof using.
  intros Hn Hl Hu Hd Hv Hp Hm. eapply net_ext; [..|exact Hn]; try done. simpl.
  intros q' h. rewrite Hu. unfold upd. destruct (decide (q' = q)) as [->|]; [|done].
  destruct (home_filter hm t q l h Hl) as [-> _]. destruct (decide (h = hm t)) as [->|]; [done|].
  by rewrite app_nil_r.
Qed.

Lemma same_down S h q h' q' : upd (sy_down S) h (upd (sy_down S h) q (sy_down S h q)) h' q' = sy_down S h' q'.
Proof using. unfold upd. by repeat (case_decide; subst). Qed.
Lemma same_memory tr t t' :
  upd (fun t' => memory ls tr (addr t')) t (memory ls tr (addr t)) t' = memory ls tr (addr t').
Proof using. unfold upd. by case_decide; subst. Qed.

Lemma stage_upd S S' q p : (forall q', q' <> q -> same_at q' S S') -> stage j S' q = p ->
  forall q', stage j S' q' = upd (stage j S) q p q'.
Proof using.
  intros Hs Hp q'. unfold upd. case_decide; [by subst|]. by apply stage_same, Hs.
Qed.


(** ** A packet reaches the caches of a tile *)

Lemma packet_fields q p h m : let pk := packet (tenv q) p h m in
  pk_sender pk = q /\ pk_msg pk = header_of m /\ pk_sig pk = (m_type m, default [] (m_data_buf m)) /\
  pk_receiver pk = ToTile h.
Proof using Hcfg. simpl. by rewrite (cf_tile _ _ _ _ _ Hcfg). Qed.

Lemma packet_for_home q p h m : m_receiver m = MC_DRAM_DIRECTORY -> for_home h (packet (tenv q) p h m).
Proof using. done. Qed.

Lemma plain_up_format q p h ty req a md : ty = INV_REP \/ (core_req ty /\ req = q) ->
  up_format j q (packet (tenv q) p h (l2_msg ty req a md)).
Proof using Hcfg.
  intros Hty. unfold up_format, pk_msg, packet. simpl. rewrite (cf_tile _ _ _ _ _ Hcfg).
  do 3 (split; [done|]). destruct Hty as [->|[[-> | ->] ->]]; done.
Qed.

Lemma data_up_format q p h ty req a d md : ty = FLUSH_REP \/ ty = WB_REP -> Z.of_nat (length d) = ls ->
  up_format j q (packet (tenv q) p h (l2_data_msg (tenv q) ty req a (Some d) md)).
Proof using Hcfg.
  intros Hty Hd. unfold up_format, pk_msg, packet. simpl.
  rewrite (cf_tile _ _ _ _ _ Hcfg), (cf_line _ _ _ _ _ Hcfg).
  do 3 (split; [done|]). by destruct Hty as [-> | ->].
Qed.

(** The request of an L1 controller. *)
Lemma self_runs q s V r c t p time :
  good_tile (Some t) s V r -> tag_ok t -> is_l1 (co_mc c) -> r_address r = INVALID_ADDRESS ->
  match getShmemMsgType (co_op c) with
  | EX_REQ => V t = None \/ exists d, V t = Some (CS_SHARED, d)
  | _ => V t = None
  end ->
  let m := core_request (tenv q) j (co_mc c) (co_op c) t in
  runs (mm_handleMsgFromNetwork (tenv q) (at_time time (packet (tenv q) p q m))) s (fun _ s' =>
    exists p', good_tile (Some t) s' (upd V t None)
      (with_sent (r_sent r ++
         (match V t with Some _ => [packet (tenv q) p' (hm t) (request (tenv q) INV_REP m)] | None => [] end) ++
         [packet (tenv q) p' (hm t) (request (tenv q) (m_type m) m)])
       (with_out (addr t) (co_mc c) time (with_perf p' r)))).
Proof using Hcfg.
  intros Hg Ht Hmc Hra Hv m. unfold mm_handleMsgFromNetwork. runs_step. runs_step.
  apply (runs_lift _ m); [done|]. set (p' := setCurrTime _ (ts_perf s)).
  assert (Hgo : runs (_ ← lift (assert_c (pk_sender (packet (tenv q) p q m) =? te_tile (tenv q)));
      handleMsgFromL1Cache (tenv q) m) (ts_set_perf p' s) (fun _ s' =>
    exists p', good_tile (Some t) s' (upd V t None)
      (with_sent (r_sent r ++
         (match V t with Some _ => [packet (tenv q) p' (hm t) (request (tenv q) INV_REP m)] | None => [] end) ++
         [packet (tenv q) p' (hm t) (request (tenv q) (m_type m) m)])
       (with_out (addr t) (co_mc c) time (with_perf p' r))))).
  { runs_step. apply runs_assert; [by apply Z.eqb_eq|].
    eapply runs_mono; [eapply (handle_l1_runs (tenv q) j home_l1 Hl1) with (t := t) (V := V) (r := with_perf p' r); try done|].
    - intros t' Ht'. by eapply home_is_ok.
    - by apply good_perf_set.
    - simpl. by destruct (co_op c).
    - intros _ s' (h & Eh & Hg'). rewrite (cf_home _ _ _ _ _ Hcfg) in Eh by done. injection Eh as <-.
      by exists p'. }
  change (m_receiver m) with MC_L2_CACHE. change (m_sender m) with (co_mc c). cbn iota beta.
  destruct Hmc as [E|E]; rewrite E in Hgo |- *; exact Hgo.
Qed.

Lemma self_step tr S hist V q time :
  sys_ok tr S hist V -> enabled S (ASelf q time) ->
  exists S' V', sys_do N tenv denv S (ASelf q time) = Ok (S', None) /\ sys_ok tr S' hist V'.
Proof using Hcfg.
  intros Hok (Hq & Hlock). unfold sys_do. destruct (sy_self S q) as [|pk rest] eqn:Hself; [by exists S, V|].
  pose proof (so_net _ _ _ _ _ _ _ _ _ _ Hok) as Hn.
  destruct (so_tile _ _ _ _ _ _ _ _ _ _ Hok q Hq) as (r & Hg & Hr & Hw & _). unfold waits_ok in Hw.
  destruct (sy_core S q) as [c|] eqn:Hc; [|destruct Hw; congruence].
  destruct Hw as ((Ha & Hfit) & Hun & Hlk & _ & [(pk' & E & (p & ->) & Hra)|[E _]]); [|congruence].
  rewrite Hself in E. injection E as -> ->. simpl in Hg. set (t := tag_of j (co_address c)) in *.
  pose proof (af_tag _ _ _ _ _ _ _ _ Hfit) as Ht.
  assert (Hmc : is_l1 (co_mc c)) by (rewrite (af_l1 _ _ _ _ _ _ _ _ Hfit); apply Hl1).
  pose proof (nk_link _ _ _ Hn q t Ht) as Hl. cbv zeta in Hl. simpl in Hl. unfold stage in Hl.
  rewrite Hc, Hself in Hl. simpl in Hl. fold t in Hl. rewrite decide_True in Hl by done.
  destruct (link_send _ _ _ _ _ _ _ _ Hl) as [Hty Hl'].
  assert (Hv : match getShmemMsgType (co_op c) with
    | EX_REQ => V q t = None \/ exists d, V q t = Some (CS_SHARED, d) | _ => V q t = None end).
  { destruct Hty as [[-> Hcs]|[-> Hv]]; [|done]. destruct (V q t) as [[cv d]|] eqn:Ev; [right|by left].
    destruct (link_copy _ _ _ _ _ _ _ _ _ _ Hl eq_refl) as (_ & [-> | ->] & _); [by exists d|done]. }
  destruct (self_runs q _ _ _ c t p time Hg Ht Hmc Hra Hv) as ([] & s' & E & p' & Hg').
  rewrite E. simpl. exists (after_tile q s' (with_self q [] S)), (upd V q (upd (V q) t None)). split; [done|].
  destruct (good_taken _ _ _ _ Hg') as [Hsent Hg'']. simpl in Hsent. rewrite Hr in Hsent.
  set (l := (match V q t with Some _ => _ | None => _ end) ++ _) in Hsent.
  assert (Hl0 : Forall (fun pk => for_home (hm t) pk /\ up_format j q pk /\ m_address (pk_msg pk) = addr t) l).
  { assert (Hpk : forall ty, ty = INV_REP \/ core_req ty ->
      let pk := packet (tenv q) p' (hm t) (request (tenv q) ty (core_request (tenv q) j (co_mc c) (co_op c) t)) in
      for_home (hm t) pk /\ up_format j q pk /\ m_address (pk_msg pk) = addr t).
    { intros ty Hx. split; [done|]. split; [|done]. apply plain_up_format.
      destruct Hx; [by left|right]. by rewrite (cf_tile _ _ _ _ _ Hcfg). }
    assert (Hcr : core_req (getShmemMsgType (co_op c))) by (destruct (co_op c); unfold core_req; auto).
    unfold l. apply Forall_app. split; [destruct (V q t); [|constructor]|]; (constructor; [|constructor]).
    - apply Hpk. by left.
    - apply Hpk. by right. }
  assert (Hsig : pk_sig <$> l = (match V q t with Some _ => [(INV_REP, [])] | None => [] end) ++
    [(getShmemMsgType (co_op c), [])]) by (unfold l; by destruct (V q t)).
  destruct (home_filter hm t q l (hm t)) as [_ Hfc]; [eapply Forall_impl; [exact Hl0|naive_solver]|].
  set (S' := after_tile q s' (with_self q [] S)).
  assert (Hsame : forall q', q' <> q -> same_at q' S S').
  { intros q' Hne. unfold same_at, S'. simpl. by rewrite !upd_ne. }
  assert (Hself' : sy_self S' q = []).
  { simpl. rewrite !upd_eq, Hsent. apply Hfc. }
  assert (Hcore' : sy_core S' q = Some c) by done.
  eapply (sys_tile_step tr S); [done|done|done| |].
  - eapply (net_after S hist V tr q t l (sy_down S (hm t) q) None (Some (false, getShmemMsgType (co_op c), t))
      (memory ls tr (addr t))).
    + eapply (net_act j hm (cf_j _ _ _ _ _ Hcfg) _ q t _ _ _ _ _ []); try done; simpl.
      * intros pk Hpk. eapply Forall_forall in Hl0; [|exact Hpk]. tauto.
      * by intros pk ?%elem_of_nil.
      * intros t' Hne. unfold stage. rewrite Hc. simpl. fold t. by rewrite !decide_False.
      * by left.
      * rewrite decide_True by done. by rewrite Hsig.
    + eapply Forall_impl; [exact Hl0|]. tauto.
    + intros q' h. simpl. unfold upd. destruct (decide (q' = q)); [|done]. by rewrite Hsent.
    + intros h q'. by rewrite same_down.
    + done.
    + apply stage_upd; [done|]. unfold stage. by rewrite Hself', Hcore'.
    + intros t'. by rewrite same_memory.
  - intros _. exists (with_sent [] (with_sent l (with_out (addr t) (co_mc c) time (with_perf p' r)))).
    unfold waits_ok, lock_ok. rewrite Hself', Hcore'. simpl. rewrite upd_eq, Hlock.
    split; [exact Hg''|]. split; [done|]. split; [|done].
    repeat (split; [done|]). right. by rewrite Ha.
Qed.

(** A packet of a directory, decoded. *)
Lemma from_dir_runs q s h pk time (Q : unit -> TileState -> Prop) :
  dir_format ls h pk ->
  (forall m, m_type m = m_type (pk_msg pk) -> m_address m = m_address (pk_msg pk) ->
     (is_reply pk = true -> m_data_buf m = Some (pk_data pk).2 /\ Z.of_nat (length (pk_data pk).2) = ls) ->
     runs (handleMsgFromDramDirectory (tenv q) h m) (ts_set_perf (setCurrTime time (ts_perf s)) s) Q) ->
  runs (mm_handleMsgFromNetwork (tenv q) (at_time time pk)) s Q.
Proof using Hcfg.
  intros Hf HQ. destruct (dir_message j tenv denv hm home_l1 Hcfg h pk Hf) as (m & Hm & Hty & Ha & Hr & Hs & Hd).
  unfold mm_handleMsgFromNetwork. runs_step. runs_step. eapply runs_lift; [exact Hm|]. cbn beta.
  rewrite Hr, Hs. replace (pk_sender (at_time time pk)) with h by (symmetry; apply Hf). by apply HQ.
Qed.

(** The answer to a request of the directory. *)
Lemma answer_runs q x s V r t m :
  good_tile x s V r -> tag_ok t -> m_address m = addr t -> is_req (m_type m) ->
  (match V t with
   | None => True
   | Some (cv, d) => cv = if decide (m_type m = INV_REQ) then CS_SHARED else CS_MODIFIED
   end) ->
  runs (handleMsgFromDramDirectory (tenv q) (hm t) m) s (fun _ s' => exists p l,
    good_tile x s' (upd V t (answer (m_type m) (V t)).1) (with_sent (r_sent r ++ l) (with_perf p r)) /\
    Forall (fun pk => for_home (hm t) pk /\ up_format j q pk /\ m_address (pk_msg pk) = addr t) l /\
    pk_sig <$> l = (answer (m_type m) (V t)).2).
Proof using Hcfg.
  intros Hg Ht Ha Hreq Hv.
  assert (Hd : forall cv d, V t = Some (cv, d) -> Z.of_nat (length d) = ls).
  { intros cv d E. destruct Hg as (F & L & Hs & _ & HV). destruct (view_some L V t _ _ HV E) as (i & El & _).
    by destruct (line_facts _ _ _ _ _ _ _ (tl_l _ _ _ _ _ Hs) El) as (_ & _ & ? & _). }
  eapply runs_mono; [eapply (dir_request_runs (tenv q) j home_l1 (cf_line _ _ _ _ _ Hcfg q) Hl1);
    [exact Hg|exact Ht|exact Ha|]|].
  - unfold req_allowed. destruct (V t) as [[cv d]|]; [|by destruct Hreq as [-> | [-> | ->]]].
    destruct Hreq as [E|[E|E]]; rewrite E in *; done.
  - intros _ s' (p & Hp). exists p. destruct (V t) as [[cv d]|] eqn:Ev.
    2:{ exists []. rewrite app_nil_r. split; [|done]. eapply good_ext; [|destruct r; exact Hp].
        intros t'. unfold upd. case_decide; [by subst|done]. }
    specialize (Hd cv d eq_refl).
    destruct Hreq as [E|[E|E]]; unfold req_response in Hp; rewrite E in *; simpl in *; eexists [_];
      (split; [exact Hp|]); (split; [|done]); (constructor; [|constructor]);
      (split; [done|]); (split; [|exact Ha]).
    + apply plain_up_format. by left.
    + apply data_up_format; [by left|done].
    + apply data_up_format; [by right|done].
Qed.

Lemma ask_step tr S hist V h q time pk rest :
  sys_ok tr S hist V -> 0 <= q < N -> sy_lock S q = None -> sy_down S h q = pk :: rest ->
  is_req (m_type (pk_msg pk)) ->
  exists S' V', sys_do N tenv denv S (ADown h q time) = Ok (S', None) /\ sys_ok tr S' hist V'.
Proof using Hcfg.
  intros Hok Hq Hlock Hdown Hreq. unfold sys_do. rewrite Hdown.
  pose proof (so_net _ _ _ _ _ _ _ _ _ _ Hok) as Hn.
  destruct (nk_down _ _ _ Hn h q pk) as (Hfmt & t & Ht & Ha & Hh); [simpl; rewrite Hdown; by left|]. subst h.
  destruct (so_tile _ _ _ _ _ _ _ _ _ _ Hok q Hq) as (r & Hg & Hr & Hw & _).
  pose proof (nk_link _ _ _ Hn q t Ht) as Hl. cbv zeta in Hl. simpl in Hl. rewrite Hdown, on_cons_eq in Hl by done.
  destruct (link_answer _ _ _ _ _ _ _ _ _ Hl Hreq) as [Hv Hl']. cbn [pk_sig fst] in *.
  assert (Hrun : runs (mm_handleMsgFromNetwork (tenv q) (at_time time pk)) (sy_tile S q) (fun _ s' => exists p l,
    good_tile (tag_of j ∘ co_address <$> sy_core S q) s' (upd (V q) t (answer (m_type (pk_msg pk)) (V q t)).1)
      (with_sent l (with_perf p r)) /\
    Forall (fun pk => for_home (hm t) pk /\ up_format j q pk /\ m_address (pk_msg pk) = addr t) l /\
    pk_sig <$> l = (answer (m_type (pk_msg pk)) (V q t)).2)).
  { eapply from_dir_runs; [exact Hfmt|]. intros m Hty Hma _.
    eapply runs_mono; [eapply answer_runs with (t := t); [by apply good_perf_set|done|congruence|by rewrite Hty|]|].
    - rewrite Hty. destruct (V q t) as [[cv d]|]; [|done]. by destruct Hv.
    - intros _ s' (p & l & Hg' & Hl0 & Hsig). exists p, l. rewrite Hty in *. simpl in Hg'. by rewrite Hr in Hg'. }
  destruct Hrun as ([] & s' & E & p & l & Hg' & Hl0 & Hsig). rewrite E. cbn [mbind result_bind].
  assert (Hnr : is_reply pk = false).
  { unfold is_reply, pk_msg in *. by destruct Hreq as [-> | [-> | ->]]. }
  rewrite Hnr. set (S' := after_tile q s' (with_down (hm t) q rest S)).
  exists S', (upd V q (upd (V q) t (answer (m_type (pk_msg pk)) (V q t)).1)). split; [done|].
  destruct (good_taken _ _ _ _ Hg') as [Hsent Hg'']. simpl in Hsent.
  assert (Hfh : Forall (for_home (hm t)) l) by (eapply Forall_impl; [exact Hl0|tauto]).
  destruct (home_filter hm t q l (hm t) Hfh) as [_ Hfc].
  assert (Hsame : forall q', q' <> q -> same_at q' S S').
  { intros q' Hne. unfold same_at, S'. simpl. by rewrite !upd_ne. }
  assert (Hself' : sy_self S' q = sy_self S q).
  { simpl. rewrite !upd_eq, Hsent, Hfc. apply app_nil_r. }
  eapply (sys_tile_step tr S); [done|done|done| |].
  - eapply (net_after S hist V tr q t l rest _ (stage j S q) (memory ls tr (addr t))).
    + eapply (net_act j hm (cf_j _ _ _ _ _ Hcfg) _ q t _ _ _ _ _ [pk]); try done; simpl.
      * intros pk' Hpk. eapply Forall_forall in Hl0; [|exact Hpk]. tauto.
      * by intros pk' ->%list_elem_of_singleton.
      * by left.
      * by rewrite Hsig.
    + done.
    + intros q' h. simpl. unfold upd. destruct (decide (q' = q)); [|done]. by rewrite Hsent.
    + done.
    + done.
    + apply stage_upd; [done|]. unfold stage. by rewrite Hself'.
    + intros t'. by rewrite same_memory.
  - intros _. exists (with_sent [] (with_sent l (with_perf p r))).
    unfold waits_ok, lock_ok in *. rewrite Hself'. simpl. rewrite upd_eq.
    split; [exact Hg''|]. split; [done|]. split; [exact Hw|]. by rewrite Hlock.
Qed.

(** ** Accesses of the cores *)

Lemma access_memory tr q c out t' :
  fits j home_l1 c -> let t := tag_of j (co_address c) in
  memory ls (tr ++ [Done q c out]) (addr t') =
  upd (fun t' => memory ls tr (addr t')) t
    (access_data (co_op c) (co_offset c) (co_buf c) (memory ls tr (addr t))) t'.
Proof using Hcfg.
  intros [Ha _] t. rewrite memory_snoc. simpl. unfold upd. fold t in Ha.
  destruct (decide (t' = t)) as [->|Hne]; [by rewrite decide_True|].
  rewrite decide_False; [done|]. rewrite Ha. intros E. apply Hne. symmetry. by eapply addr_inj; [apply (cf_j _ _ _ _ _ Hcfg)|].
Qed.

(** The part of a tile's invariant that an access leaves behind. *)
Lemma tile_done S q c t s' V r cs d h out :
  fits j home_l1 c -> t = tag_of j (co_address c) -> sy_self S q = [] ->
  (co_lock c = LOCK -> co_op c = READ_EX) -> op_permits (co_op c) cs = true ->
  cs = CS_SHARED \/ cs = CS_MODIFIED -> in_l1 (co_mc c) t s' -> V t = Some (cs, d) ->
  good_tile None s' V r -> r_address r = INVALID_ADDRESS -> Forall (fun pk => ~ for_cache q pk) (r_sent r) ->
  tile_ok (core_result q c (Some (h, out)) s' S).1 q V.
Proof using.
  intros [Ha Hfit] -> Hself Hlk Hop Hcs Hin HV Hg Hra Hfc.
  destruct (good_taken _ _ _ _ Hg) as [Hsent Hg'].
  exists (with_sent [] r). unfold waits_ok, lock_ok. simpl. rewrite !upd_eq. split; [exact Hg'|]. split; [done|]. split.
  - split; [|done]. rewrite Hself, Hsent. by apply filter_none.
  - destruct (co_lock c); try done. split; [done|]. rewrite HV. simpl.
    rewrite <- (af_l1 _ _ _ _ _ _ _ _ Hfit). pose proof (af_tag _ _ _ _ _ _ _ _ Hfit) as Ht.
    split; [|done]. rewrite Hlk in Hop by done. by destruct Hcs as [-> | ->].
Qed.

Lemma done_same q q' c h out s' S : q' <> q -> same_at q' S (core_result q c (Some (h, out)) s' S).1.
Proof using. intros Hne. unfold same_at. simpl. by rewrite !upd_ne. Qed.

Lemma start_runs q x s V r c time (Q : option (bool * Buf) -> TileState -> Prop) :
  good_tile x s V r -> is_l1 (co_mc c) ->
  (forall p s', good_tile x s' V (with_perf p r) ->
     (in_l1 (co_mc c) (tag_of j (co_address c)) s -> in_l1 (co_mc c) (tag_of j (co_address c)) s') ->
     runs (core_iteration (tenv q) 1 true c) s' Q) ->
  runs (core_start (tenv q) time c) s Q.
Proof using.
  intros (F & L & Hs & Hrest) Hmc HQ. unfold core_start. runs_step. runs_step.
  eapply l1_sync_runs; [done|by apply tile_perf|]. intros p s' Hs'. apply (HQ p); [by exists F, L|].
  rewrite !in_l1_tile; [done|done|exact Hs'|done|exact Hs].
Qed.

Lemma hit_step tr S hist V q c time cs d :
  sys_ok tr S hist V -> enabled S (ACore q c time) -> let t := tag_of j (co_address c) in
  V q t = Some (cs, d) -> op_permits (co_op c) cs = true ->
  exists S' V' e, sys_do N tenv denv S (ACore q c time) = Ok (S', Some e) /\
    ev_ok j hm hist tr e /\ sys_ok (tr ++ [e]) S' hist V'.
Proof using Hcfg.
  intros Hok (Hq & Hc & Hfits & Hlock) t Hv Hop. pose proof Hfits as [Ha Hfit]. fold t in Ha, Hfit.
  pose proof (so_net _ _ _ _ _ _ _ _ _ _ Hok) as Hn. pose proof (af_tag _ _ _ _ _ _ _ _ Hfit) as Ht.
  destruct (so_tile _ _ _ _ _ _ _ _ _ _ Hok q Hq) as (r & Hg & Hr & Hw & Hlk). unfold waits_ok in Hw.
  rewrite Hc in Hw, Hg. destruct Hw as [Hself Hra]. simpl in Hg.
  assert (Hmc : is_l1 (co_mc c)) by (rewrite (af_l1 _ _ _ _ _ _ _ _ Hfit); apply Hl1).
  assert (Hpend : stage j S q = None) by (unfold stage; by rewrite Hc).
  destruct (net_access j hm (cf_j _ _ _ _ _ Hcfg) _ q t cs d (co_op c) (co_offset c) (co_buf c) Hn Ht Hv Hpend Hop)
    as [Hd Hn']. simpl in Hd.
  assert (Hcs : (cs = CS_SHARED \/ cs = CS_MODIFIED) /\
    (cs = CS_MODIFIED -> (perm (hist (hm t)) (addr t)).2 = Some q)).
  { pose proof (nk_link _ _ _ Hn q t Ht) as Hl. destruct (link_copy _ _ _ _ _ _ _ _ _ _ Hl Hv) as (_ & ? & Hm & _).
    split; [done|]. intros E. by apply cls_modified, Hm. }
  destruct Hcs as [Hcs Hown].
  assert (Hin : co_lock c = UNLOCK -> in_l1 (co_mc c) t (sy_tile S q)).
  { intros E. unfold lock_fits, lock_ok in *. rewrite E in Hlock. rewrite Hlock in Hlk. fold t in Hlk.
    rewrite (af_l1 _ _ _ _ _ _ _ _ Hfit). tauto. }
  assert (Hrun : runs (core_start (tenv q) time c) (sy_tile S q) (fun res s' =>
    exists h p, res = Some (h, access_result (co_op c) (co_offset c) (co_len c) (co_buf c) d) /\
      in_l1 (co_mc c) t s' /\
      good_tile None s' (upd (V q) t (Some (cs, access_data (co_op c) (co_offset c) (co_buf c) d))) (with_perf p r))).
  { eapply start_runs; [exact Hg|done|]. intros p s' Hg' Hin'. unfold core_iteration. rewrite Ha.
    eapply runs_mono; [eapply (core_hit_runs (tenv q) j home_l1 (cf_line _ _ _ _ _ Hcfg q) Hl1) with (c := cs) (d := d) (V := V q);
      [exact Hg'|exact Hfit|by left|exact Hv|exact Hop|by intros; apply Hin', Hin]|].
    intros res s2 (h & p2 & E & Hi & Hg2). by exists h, p2. }
  destruct Hrun as (res & s' & E & h & p & -> & Hi & Hg').
  set (out := access_result _ _ _ _ d) in *. set (S' := (core_result q c (Some (h, out)) s' S).1).
  exists S', (upd V q (upd (V q) t (Some (cs, access_data (co_op c) (co_offset c) (co_buf c) d)))), (Done q c out).
  unfold sys_do. rewrite E. split; [done|]. split.
  { split; [unfold out; simpl; by rewrite Ha, Hd|]. intros Hnr. fold t. rewrite Ha. apply Hown.
    by destruct (permits_cases _ _ Hop Hcs) as [?|[_ ?]]. }
  destruct (good_taken _ _ _ _ Hg') as [Hsent _]. simpl in Hsent. rewrite Hr in Hsent.
  eapply (sys_tile_step tr S); [done|by intros; apply done_same|done| |].
  - eapply (net_after S hist V tr q t []); [exact Hn'|constructor|..]; try done; simpl.
    + intros q' h'. rewrite Hsent. done.
    + intros h' q'. by rewrite same_down.
    + apply stage_upd; [by intros; apply done_same|]. unfold stage. simpl. by rewrite !upd_eq.
    + intros t'. rewrite access_memory by done. fold t. by rewrite Hd.
  - intros _. eapply tile_done; [done|done|done| |exact Hop|done|done|by rewrite upd_eq|exact Hg'|done|simpl; rewrite Hr; constructor].
    intros El. unfold lock_fits in Hlock. rewrite El in Hlock. tauto.
Qed.

Lemma miss_step tr S hist V q c time :
  sys_ok tr S hist V -> enabled S (ACore q c time) -> let t := tag_of j (co_address c) in
  permits (co_op c) (V q t) = false ->
  exists S', sys_do N tenv denv S (ACore q c time) = Ok (S', None) /\ sys_ok tr S' hist (upd V q (upd (V q) t (V q t))).
Proof using Hcfg.
  intros Hok (Hq & Hc & Hfits & Hlock) t Hno. pose proof Hfits as [Ha Hfit]. fold t in Ha, Hfit.
  pose proof (so_net _ _ _ _ _ _ _ _ _ _ Hok) as Hn. pose proof (af_tag _ _ _ _ _ _ _ _ Hfit) as Ht.
  destruct (so_tile _ _ _ _ _ _ _ _ _ _ Hok q Hq) as (r & Hg & Hr & Hw & Hlk). unfold waits_ok in Hw.
  rewrite Hc in Hw, Hg. destruct Hw as [Hself Hra]. simpl in Hg.
  assert (Hmc : is_l1 (co_mc c)) by (rewrite (af_l1 _ _ _ _ _ _ _ _ Hfit); apply Hl1).
  pose proof (nk_link _ _ _ Hn q t Ht) as Hl. cbv zeta in Hl. simpl in Hl. unfold stage in Hl. rewrite Hc in Hl. simpl in Hl.
  assert (Hun : co_lock c <> UNLOCK /\ sy_lock S q = None /\ (co_lock c = LOCK -> co_op c = READ_EX)).
  { unfold lock_fits, lock_ok in *. destruct (co_lock c); [naive_solver|naive_solver|]. exfalso.
    rewrite Hlock in Hlk. fold t in Hlk. destruct Hlk as (_ & Hm & _ & _). destruct (V q t) as [[cv d]|]; [|done].
    simpl in *. subst cv. by destruct (co_op c). }
  destruct Hun as (Hun & Hnl & Hlx).
  assert (Hrun : runs (core_start (tenv q) time c) (sy_tile S q) (fun res s' =>
    exists p, res = None /\ good_tile (Some t) s' (V q)
      (with_sent [packet (tenv q) p q (core_request (tenv q) j (co_mc c) (co_op c) t)] (with_perf p r)))).
  { eapply start_runs; [exact Hg|done|]. intros p s' Hg' _. unfold core_iteration. rewrite Ha.
    eapply runs_mono; [eapply (core_miss_runs (tenv q) j home_l1 Hl1) with (V := V q);
      [exact Hg'|exact Hfit|by left|exact Hno|done]|].
    intros res s2 (p2 & E & Hg2). exists p2. split; [done|]. simpl in Hg2. rewrite Hr in Hg2.
    by rewrite (cf_tile _ _ _ _ _ Hcfg) in Hg2. }
  destruct Hrun as (res & s' & E & p & -> & Hg').
  set (S' := (core_result q c None s' S).1). exists S'. unfold sys_do. rewrite E. split; [done|].
  destruct (good_taken _ _ _ _ Hg') as [Hsent Hg'']. simpl in Hsent.
  set (pk := packet (tenv q) p q _) in *.
  assert (Hsame : forall q', q' <> q -> same_at q' S S').
  { intros q' Hne. unfold same_at, S'. simpl. by rewrite !upd_ne. }
  assert (Hself' : sy_self S' q = [pk]).
  { simpl. rewrite upd_eq, Hself, Hsent. rewrite filter_cons_True by done. by rewrite filter_nil. }
  assert (Hcore' : sy_core S' q = Some c) by (simpl; by rewrite upd_eq).
  eapply (sys_tile_step tr S); [done|done|done| |].
  - eapply (net_after S hist V tr q t [] (sy_down S (hm t) q) (V q t) (Some (true, getShmemMsgType (co_op c), t))
      (memory ls tr (addr t))).
    + eapply (net_act j hm (cf_j _ _ _ _ _ Hcfg) _ q t _ _ _ _ _ []); try done; simpl.
      * by intros pk' ?%elem_of_nil.
      * by intros pk' ?%elem_of_nil.
      * intros t' Hne. unfold stage. rewrite Hc. simpl. by rewrite decide_False.
      * by left.
      * rewrite decide_True, app_nil_r by done. apply link_miss; [done|].
        destruct (V q t) as [[cv d]|] eqn:Ev; simpl in *.
        -- destruct (link_copy _ _ _ _ _ _ _ _ _ _ Hl eq_refl) as (_ & Hcs & _).
           destruct (co_op c), Hcs as [-> | ->]; try done; by left.
        -- destruct (co_op c); [by right|by left..].
    + constructor.
    + intros q' h. simpl. unfold upd. destruct (decide (q' = q)); [|done]. rewrite Hsent.
      rewrite filter_cons_False by (by intros [_ ?]). done.
    + intros h q'. by rewrite same_down.
    + done.
    + apply stage_upd; [done|]. unfold stage. by rewrite Hself', Hcore'.
    + intros t'. by rewrite same_memory.
  - intros _. exists (with_sent [] (with_sent [pk] (with_perf p r))).
    unfold waits_ok, lock_ok. rewrite Hself', Hcore'. simpl. rewrite upd_eq, Hnl.
    split; [|split; [done|split; [|done]]].
    + eapply good_ext; [|exact Hg'']. intros t'. unfold upd. case_decide; [by subst|done].
    + repeat (split; [done|]). left. exists pk. split; [done|]. split; [by exists p|done].
Qed.

(** ** Replies *)

(** The line that leaves the tile for the new one, if any. *)
Abbreviation Victim := (option (Z * CacheState * list Z)).
Definition without (V : Z -> Copy) (o : Victim) : Z -> Copy :=
  match o with Some (v, _, _) => upd V v None | None => V end.
Definition victim_ok (V : Z -> Copy) (t : Z) (o : Victim) : Prop :=
  match o with Some (v, cv, dv) => v <> t /\ tag_ok v /\ V v = Some (cv, dv) | None => True end.
Definition victim_sent (q : Z) (p : ShmemPerfModel) (o : Victim) : list Packet :=
  match o with
  | Some (v, cv, dv) => [packet (tenv q) p (hm v) (evict_msg (tenv q) j v cv dv)]
  | None => []
  end.

Lemma filled_victim q pp s V r t cs d :
  filled (tenv q) j home_l1 pp s V r t cs d -> r_sent r = [] ->
  exists o, victim_ok V t o /\
    good_tile None s (upd (without V o) t (Some (cs, d))) (with_sent (victim_sent q pp o) r).
Proof using Hcfg.
  intros [Hg|(v & cv & dv & h & Hvt & Hv & Ev & Eh & Hg)] Hr.
  - exists None. split; [done|]. destruct r. simpl in *. by subst.
  - exists (Some (v, cv, dv)). split; [done|]. rewrite Hr in Hg. simpl in *.
    rewrite (cf_home _ _ _ _ _ Hcfg) in Eh by done. by injection Eh as <-.
Qed.

(** The reply fills the caches and the waiting access completes. *)
Lemma reply_access_runs q s V r c t m d h :
  good_tile (Some t) s V r -> fits j home_l1 c -> t = tag_of j (co_address c) -> V t = None ->
  m_address m = addr t -> m_type m = grant_of (getShmemMsgType (co_op c)) ->
  m_data_buf m = Some d -> Z.of_nat (length d) = ls -> r_address r = co_address c -> r_component r = co_mc c ->
  r_sent r = [] -> co_lock c <> UNLOCK ->
  ts_out_time s <= pm_curr_time (sync_l2_perf (tenv q) (dir_module (tenv q) h) s) ->
  let cs := grant_state (getShmemMsgType (co_op c)) in
  runs (_ ← handleMsgFromDramDirectory (tenv q) h m; core_resume (tenv q) c) s (fun res s' =>
    exists b p pp o, res = Some (b, access_result (co_op c) (co_offset c) (co_len c) (co_buf c) d) /\
      in_l1 (co_mc c) t s' /\ victim_ok V t o /\
      good_tile None s' (upd (without V o) t (Some (cs, access_data (co_op c) (co_offset c) (co_buf c) d)))
        (with_sent (victim_sent q pp o) (with_out INVALID_ADDRESS (r_component r) (r_time r) (with_perf p r)))).
Proof using Hcfg.
  intros Hg [Ha Hfit] -> Hv Hma Hty Hb Hd Hra Hrc Hr Hun Htime cs. set (t := tag_of j (co_address c)) in *.
  pose proof (af_tag _ _ _ _ _ _ _ _ Hfit) as Ht. pose proof (af_l1 _ _ _ _ _ _ _ _ Hfit) as Hmc.
  assert (Hcs : reply_state (m_type m) = cs) by (rewrite Hty; unfold cs; by destruct (co_op c)).
  assert (Hrt : r_time r = ts_out_time s) by (destruct Hg as (F & L & [_ _ _ <-] & _); done).
  eapply runs_seq.
  { eapply (reply_runs (tenv q) j home_l1 (cf_line _ _ _ _ _ Hcfg q) Hl1) with (t := t); [|exact Hg|exact Ht|exact Hma| |exact Hb|exact Hd|exact Hv|by right| | |by rewrite Hrt].
    - intros t' Ht'. by eapply home_is_ok.
    - rewrite Hty. unfold grant_of. case_decide; auto.
    - by rewrite Hra.
    - by rewrite Hrc. }
  intros [] s1 (pp & p & Hf). rewrite Hcs in Hf.
  destruct (filled_victim _ _ _ _ _ _ _ _ Hf) as (o & Ho & (F & L & Hs & Hrest)); [done|].
  unfold core_resume. runs_step. eapply l1_sync_runs; [rewrite Hmc; apply Hl1|exact Hs|].
  intros p2 s2 Hs2. unfold core_iteration. rewrite Ha.
  eapply runs_mono; [eapply (core_hit_runs (tenv q) j home_l1 (cf_line _ _ _ _ _ Hcfg q) Hl1) with (c := cs) (d := d)
    (V := upd (without V o) t (Some (cs, d)));
    [by exists F, L|exact Hfit|by right|by rewrite upd_eq|unfold cs; by destruct (co_op c)|done]|].
  intros res s3 (b & p3 & -> & Hin & Hg3). exists b, p3, pp, o. split; [done|]. split; [done|]. split; [done|].
  eapply good_ext; [|exact Hg3]. intros t'. unfold upd. by case_decide.
Qed.

(** The net around a reply: the line arrives, the victim leaves. *)
Lemma net_fill S hist V tr q t pk rest ty pp o :
  net_ok j hm (net_of j S hist V tr) -> tag_ok t -> sy_down S (hm t) q = pk :: rest ->
  m_address (pk_msg pk) = addr t -> ~ is_req (m_type (pk_msg pk)) -> stage j S q = Some (false, ty, t) ->
  victim_ok (V q) t o -> (forall v cv dv, o = Some (v, cv, dv) -> Z.of_nat (length dv) = ls) ->
  exists n, net_ok j hm n /\
    (forall h, n_hist n h = hist h) /\
    (forall q' h, n_up n q' h = upd (sy_up S) q (fun h => sy_up S q h ++ filter (for_home h) (victim_sent q pp o)) q' h) /\
    (forall h q', n_down n h q' = sy_down (with_down (hm t) q rest S) h q') /\
    (forall q' t', n_view n q' t' =
       upd V q (upd (without (V q) o) t (Some (grant_state ty, memory ls tr (addr t)))) q' t') /\
    (forall q', n_pend n q' = upd (stage j S) q None q') /\
    (forall t', n_mem n t' = memory ls tr (addr t')).
Proof using Hcfg.
  intros Hn Ht Hdown Ha Hreq Hst Ho Hdv.
  pose proof (nk_link _ _ _ Hn q t Ht) as Hl. cbv zeta in Hl. simpl in Hl.
  rewrite Hdown, on_cons_eq, Hst in Hl by done. simpl in Hl. rewrite decide_True in Hl by done.
  destruct (link_reply _ _ _ _ _ _ _ _ _ Hl ty eq_refl Hreq) as (_ & _ & Hv & Hl').
  set (n1 := n_act hm q t [] rest (Some (grant_state ty, memory ls tr (addr t))) None (memory ls tr (addr t))
    (net_of j S hist V tr)).
  assert (Hn1 : net_ok j hm n1).
  { eapply (net_act j hm (cf_j _ _ _ _ _ Hcfg) _ q t _ _ _ _ _ [pk]); try done; simpl.
    - by intros pk' ?%elem_of_nil.
    - by intros pk' ->%list_elem_of_singleton.
    - intros t' Hne. rewrite Hst. simpl. by rewrite decide_False.
    - by left.
    - by rewrite app_nil_r. }
  destruct o as [[[v cv] dv]|].
  2:{ exists n1. split; [done|]. simpl. split_and!; try done.
      - intros q' h. unfold upd. destruct (decide (q' = q)); [|done]. rewrite filter_nil, !app_nil_r.
        by destruct (decide (h = hm t)); subst.
      - intros t'. apply same_memory. }
  destruct Ho as (Hvt & Htv & Ev). specialize (Hdv v cv dv eq_refl).
  set (pkv := packet (tenv q) pp (hm v) (evict_msg (tenv q) j v cv dv)).
  set (n2 := n_act hm q v [pkv] (n_down n1 (hm v) q) None None (n_mem n1 v) n1).
  assert (Hpv : up_format j q pkv /\ m_address (pk_msg pkv) = addr v /\ pk_sig pkv = evict_sig cv dv /\
    for_home (hm v) pkv).
  { unfold pkv, evict_msg, evict_sig. case_decide.
    - split; [apply data_up_format; [by left|done]|done].
    - split; [apply plain_up_format; by left|done]. }
  destruct Hpv as (Hpf & Hpa & Hps & Hph). exists n2. split; [|].
  - eapply (net_act j hm (cf_j _ _ _ _ _ Hcfg) _ q v _ _ _ _ _ []); try done.
    + by intros pk' ->%list_elem_of_singleton.
    + by intros pk' ?%elem_of_nil.
    + intros t' _. simpl. by rewrite upd_eq.
    + by left.
    + cbn [fmap list_fmap]. rewrite Hps.
      pose proof (nk_link _ _ _ Hn1 q v Htv) as Hlv. cbv zeta in Hlv.
      replace (pend_on v (n_pend n1 q)) with (@None (bool * MsgType)) in Hlv by (simpl; by rewrite upd_eq).
      eapply link_evict; [exact Hlv|]. simpl. by rewrite upd_eq, upd_ne.
  - simpl. split_and!; try done.
    + intros q' h. destruct (decide (q' = q)) as [->|Hq]; [|by rewrite !upd_ne]. rewrite !upd_eq, !app_nil_r.
      destruct (decide (h = hm v)) as [->|Hne].
      * rewrite filter_cons_True, filter_nil, upd_eq by done. f_equal. unfold upd. by case_decide as E; [rewrite E|].
      * rewrite filter_cons_False, filter_nil, app_nil_r, upd_ne by (done || (intros [[=] _]; congruence)).
        unfold upd. by case_decide; subst.
    + intros h q'. unfold upd. repeat (case_decide; subst; try done).
    + intros q' t'. unfold upd. repeat (case_decide; subst; try done).
    + intros q'. unfold upd. repeat (case_decide; subst; try done).
    + intros t'. unfold upd. repeat (case_decide; subst; try done).
Qed.

Lemma stage_pending S q t ty :
  pend_on t (stage j S q) = Some (false, ty) ->
  exists c, sy_core S q = Some c /\ tag_of j (co_address c) = t /\ getShmemMsgType (co_op c) = ty /\
    sy_self S q = [] /\ stage j S q = Some (false, ty, t).
Proof using.
  unfold stage. destruct (sy_core S q) as [c|]; simpl; [|done]. case_decide as E; [|done].
  intros [= Hs Hty]. exists c. split; [done|]. split; [done|]. split; [done|]. rewrite Hs, Hty, E.
  split; [|done]. case_bool_decide; done.
Qed.

Lemma reply_step tr S hist V h q time pk rest :
  sys_ok tr S hist V -> 0 <= q < N -> in_time (tenv q) h time (sy_tile S q) -> sy_down S h q = pk :: rest ->
  ~ is_req (m_type (pk_msg pk)) ->
  exists S' V' e, sys_do N tenv denv S (ADown h q time) = Ok (S', Some e) /\
    ev_ok j hm hist tr e /\ sys_ok (tr ++ [e]) S' hist V'.
Proof using Hcfg.
  intros Hok Hq Htime Hdown Hreq. unfold sys_do. rewrite Hdown.
  pose proof (so_net _ _ _ _ _ _ _ _ _ _ Hok) as Hn.
  destruct (nk_down _ _ _ Hn h q pk) as (Hfmt & t & Ht & Ha & Hh); [simpl; rewrite Hdown; by left|]. subst h.
  pose proof (nk_link _ _ _ Hn q t Ht) as Hl. cbv zeta in Hl. simpl in Hl. rewrite Hdown, on_cons_eq in Hl by done.
  destruct (link_head _ _ _ _ _ _ _ _ _ Hl) as [?|(ty & Hp & Hcr & Hsig)]; [done|].
  destruct (stage_pending S q t ty Hp) as (c & Hc & Htag & Hop & Hself & Hst).
  destruct (link_reply _ _ _ _ _ _ _ _ _ Hl ty Hp Hreq) as (_ & _ & Hv & Hlg).
  injection Hsig as Hty Hpl.
  destruct (so_tile _ _ _ _ _ _ _ _ _ _ Hok q Hq) as (r & Hg & Hr & Hw & _). unfold waits_ok in Hw. rewrite Hc in Hw, Hg.
  destruct Hw as (Hfits & Hun & Hlk & Hnl & [(pk' & E & _)|(_ & Hra & Hrc)]); [congruence|].
  simpl in Hg. rewrite Htag in Hg.
  assert (Hrep : is_reply pk = true).
  { unfold is_reply. unfold pk_msg in Hty. rewrite Hty. unfold grant_of. by case_decide. }
  set (cs := grant_state ty). set (d := memory ls tr (addr t)) in *.
  assert (Hrun : runs (_ ← mm_handleMsgFromNetwork (tenv q) (at_time time pk); core_resume (tenv q) c) (sy_tile S q)
    (fun res s' => exists b p pp o, res = Some (b, access_result (co_op c) (co_offset c) (co_len c) (co_buf c) d) /\
      in_l1 (co_mc c) t s' /\ victim_ok (V q) t o /\
      good_tile None s' (upd (without (V q) o) t (Some (cs, access_data (co_op c) (co_offset c) (co_buf c) d)))
        (with_sent (victim_sent q pp o) (with_out INVALID_ADDRESS (r_component r) (r_time r) (with_perf p r))))).
  { apply runs_bind. eapply from_dir_runs; [exact Hfmt|]. intros m Hmt Hma Hmd. destruct (Hmd Hrep) as [Hb Hd].
    pose proof (reply_access_runs q _ (V q) _ c t m (pk_data pk).2 (hm t)
      (good_perf_set _ _ _ _ (setCurrTime time (ts_perf (sy_tile S q))) Hg) Hfits (eq_sym Htag) Hv) as Hrr.
    rewrite Hop, Hpl in Hrr. unfold mbind at 1 in Hrr.
    destruct Hrr as (res & s' & Er & Hres); try done.
    - by rewrite Hma.
    - by rewrite Hmt.
    - by rewrite <- Hpl.
    - by rewrite <- Hpl.
    - unfold ST_bind in Er. destruct (handleMsgFromDramDirectory _ _ _ _) as [[[] s1]|] eqn:Eh; [|done].
      eexists tt, s1. split; [exact Eh|]. exists res, s'. split; [done|]. exact Hres. }
  destruct Hrun as (res & s' & E & b & p & pp & o & -> & Hin & Ho & Hg').
  unfold mbind, ST_bind in E.
  destruct (mm_handleMsgFromNetwork (tenv q) (at_time time pk) (sy_tile S q)) as [[[] s1]|] eqn:E1; [|done].
  cbn [mbind result_bind]. rewrite Hrep. cbn [sy_core with_down]. rewrite Hc, E. cbn [mbind result_bind].
  set (out := access_result _ _ _ _ d) in *. set (S1 := with_down (hm t) q rest S).
  set (V' := upd (without (V q) o) t (Some (cs, access_data (co_op c) (co_offset c) (co_buf c) d))) in *.
  exists (core_result q c (Some (b, out)) s' S1).1, (upd V q V'), (Done q c out). split; [done|].
  pose proof Hfits as [Hca Hfit]. rewrite Htag in Hca, Hfit.
  split.
  { split; [unfold out; simpl; by rewrite Hca|]. intros Hnr. rewrite Htag, Hca.
    destruct (link_copy _ _ _ _ _ _ _ _ _ _ Hlg eq_refl) as (_ & _ & Hm & _).
    apply cls_modified, Hm. rewrite <- Hop. by destruct (co_op c). }
  destruct (good_taken _ _ _ _ Hg') as [Hsent _]. simpl in Hsent.
  assert (Hdv : forall v cv dv, o = Some (v, cv, dv) -> Z.of_nat (length dv) = ls).
  { intros v cv dv ->. destruct Ho as (_ & _ & Ev). destruct Hg as (F & L & Hs & _ & HV).
    destruct (view_some L (V q) v _ _ HV Ev) as (i & El & _).
    by destruct (line_facts _ _ _ _ _ _ _ (tl_l _ _ _ _ _ Hs) El) as (_ & _ & ? & _). }
  destruct (net_fill S hist V tr q t pk rest ty pp o Hn Ht Hdown Ha Hreq Hst Ho Hdv)
    as (n & Hn1 & E2 & E3 & E4 & E5 & E6 & E7).
  assert (Hperm : op_permits (co_op c) cs = true) by (unfold cs; rewrite <- Hop; by destruct (co_op c)).
  destruct (net_access j hm (cf_j _ _ _ _ _ Hcfg) n q t cs d (co_op c) (co_offset c) (co_buf c) Hn1 Ht) as [_ Hn2].
  { rewrite E5, !upd_eq. done. }
  { by rewrite E6, upd_eq. }
  { done. }
  assert (Hsame : forall q', q' <> q -> same_at q' S (core_result q c (Some (b, out)) s' S1).1).
  { intros q' Hne. exact (done_same q q' c b out s' S1 Hne). }
  eapply (sys_tile_step tr S); [done|done|done| |].
  - eapply net_ext; [..|exact Hn2]; simpl.
    + intros h. by rewrite E2.
    + intros q' h. rewrite Hsent. unfold upd. destruct (decide (q' = q)) as [->|]; [|by rewrite E3, upd_ne].
      rewrite app_nil_r. destruct (decide (h = hm t)) as [->|]; by rewrite E3, upd_eq.
    + intros h q'. unfold upd. destruct (decide (h = hm t)) as [->|Hh].
      * destruct (decide (q' = q)) as [->|Hq']; rewrite E4; simpl; rewrite upd_eq; by rewrite ?upd_eq, ?upd_ne.
      * rewrite E4. simpl. by rewrite upd_ne.
    + intros q' t'. unfold upd. destruct (decide (q' = q)) as [->|]; [|by rewrite E5, upd_ne].
      unfold V', upd. destruct (decide (t' = t)); [done|]. rewrite E5, upd_eq. by rewrite upd_ne.
    + intros q'. unfold upd. destruct (decide (q' = q)) as [->|Hne].
      * unfold stage. simpl. by rewrite !upd_eq.
      * rewrite E6, upd_ne by done. by apply stage_same, Hsame.
    + intros t'. rewrite access_memory, Htag by done. unfold upd. destruct (decide (t' = t)) as [->|]; [done|]. by rewrite E7.
  - intros _. eapply (tile_done S1 q c t s' V' _ cs); try done.
    + unfold cs, grant_state. case_decide; auto.
    + unfold V'. by rewrite upd_eq.
    + simpl. unfold victim_sent. destruct o as [[[v cv] dv]|]; [|constructor]. constructor; [|constructor].
      unfold for_cache, packet, evict_msg. simpl. case_decide; simpl; by intros [_ ?].
Qed.

(** ** Every action *)

Lemma core_step tr S hist V q c time :
  sys_ok tr S hist V -> enabled S (ACore q c time) ->
  exists S' V' e, sys_do N tenv denv S (ACore q c time) = Ok (S', e) /\
    (forall x, e = Some x -> ev_ok j hm hist tr x) /\ sys_ok (tr ++ option_list e) S' hist V'.
Proof using Hcfg.
  intros Hok Hen. destruct (permits (co_op c) (V q (tag_of j (co_address c)))) eqn:E.
  - destruct (V q _) as [[cs d]|] eqn:Ev; [|done].
    destruct (hit_step tr S hist V q c time cs d Hok Hen Ev E) as (S' & V' & e & E1 & E2 & E3).
    exists S', V', (Some e). split; [done|]. split; [by intros x [= <-]|done].
  - destruct (miss_step tr S hist V q c time Hok Hen E) as (S' & E1 & E2).
    exists S', (upd V q (upd (V q) (tag_of j (co_address c)) (V q (tag_of j (co_address c))))), None.
    split; [done|]. split; [done|]. simpl. by rewrite app_nil_r.
Qed.

Lemma down_step tr S hist V h q time :
  sys_ok tr S hist V -> enabled S (ADown h q time) ->
  exists S' V' e, sys_do N tenv denv S (ADown h q time) = Ok (S', e) /\
    (forall x, e = Some x -> ev_ok j hm hist tr x) /\ sys_ok (tr ++ option_list e) S' hist V'.
Proof using Hcfg.
  intros Hok (Hq & Hlock & Htime). destruct (sy_down S h q) as [|pk rest] eqn:Hdown.
  { exists S, V, None. unfold sys_do. rewrite Hdown. split; [done|]. split; [done|]. simpl. by rewrite app_nil_r. }
  assert (Hdec : is_req (m_type (pk_msg pk)) \/ ~ is_req (m_type (pk_msg pk))).
  { unfold is_req. destruct (m_type (pk_msg pk)); auto; right; by intros [?|[?|?]]. }
  destruct Hdec as [Hreq|Hreq].
  - destruct (ask_step tr S hist V h q time pk rest Hok Hq Hlock Hdown Hreq) as (S' & V' & E1 & E2).
    exists S', V', None. split; [done|]. split; [done|]. simpl. by rewrite app_nil_r.
  - assert (Hrep : is_reply pk = true).
    { pose proof (so_net _ _ _ _ _ _ _ _ _ _ Hok) as Hn.
      destruct (nk_down _ _ _ Hn h q pk) as (_ & t & Ht & Ha & <-); [simpl; rewrite Hdown; by left|].
      pose proof (nk_link _ _ _ Hn q t Ht) as Hl. cbv zeta in Hl. simpl in Hl. rewrite Hdown, on_cons_eq in Hl by done.
      destruct (link_head _ _ _ _ _ _ _ _ _ Hl) as [?|(ty & _ & _ & Hsig)]; [done|]. injection Hsig as Hty _.
      unfold is_reply. unfold pk_msg in Hty. rewrite Hty. unfold grant_of. by case_decide. }
    destruct (reply_step tr S hist V h q time pk rest Hok Hq (Htime _ _ eq_refl Hrep) Hdown Hreq) as (S' & V' & e & E1 & E2 & E3).
    exists S', V', (Some e). split; [done|]. split; [by intros x [= <-]|done].
Qed.
End tile.
