(* ===== verification/SystemThm.v ===== *)
(** * The memory system is coherent

    Tiles with private caches, directories and a network between them, from
    their construction on: one writer or many readers, every copy up to date,
    every read returns the latest writes, locked accesses are atomic, requests
    are neither lost nor doubled, and nothing stops. *)

From S2P Require Import Prelude Utils HashMapList CacheLine Replacement CacheSet Cache CacheThm CachePerf Shmem DirEntry DirCache DirCntlr DirThm DirSafe DirProtocol Tile TileThm TileSafe System Link Net SystemInv SystemDir SystemTile.

(** ** New tiles *)

(** The size, associativity and line size of a cache fit together. *)
Definition params_ok (j : Z) (p : CacheParams) : Prop :=
  exists k, 0 <= k < 32 /\ 0 < cpar_associativity p <= 256 /\ 0 <= cpar_size p /\
    k_KILO * cpar_size p = 2 ^ k * (cpar_associativity p * 2 ^ j) /\ k_KILO * cpar_size p < 2 ^ 32.

Lemma CacheUnit_new_ok {I} `{LineInfoLaws I} (instr : bool) cat wp module j latency sync track p u :
  0 < j < 32 -> params_ok j p -> instr = bool_decide (cat = INSTRUCTION_CACHE) ->
  CacheUnit_new cat wp module (2 ^ j) latency sync track p = Ok u ->
  unit_ok (I := I) j instr u (fun _ => None).
Proof.
  intros Hj (k & Hk & Ha & Hs & Hsz & Hlt) Hc E. unfold CacheUnit_new in E.
  apply bind_ok in E as (pol & Ep & E). apply bind_ok in E as (perf & _ & [= <-]).
  assert (Hpj : 0 < 2 ^ j) by (apply Z.pow_pos_nonneg; lia).
  assert (Hn : policy_num_sets (cpar_size p) (cpar_associativity p) (2 ^ j) = 2 ^ k).
  { unfold policy_num_sets.
    assert (0 < 2 ^ k) by (apply Z.pow_pos_nonneg; lia).
    rewrite !wrap_id by (unfold is_word; nia).
    rewrite ?(Z.mul_comm (cpar_size p)), ?(Z.mul_comm (2 ^ j)), Hsz. apply Z.div_mul. nia. }
  pose proof (Policy_create_wf _ _ _ _ _ Ep Ha) as Hpol. rewrite Hn in Hpol.
  destruct (Cache_new_wf (I := I) cat wp (cpar_size p) (cpar_associativity p) j k pol track) as [Hwf Hno];
    [lia|lia|lia|lia|done|done|apply Hpol; apply Z.pow_nonneg; lia|].
  split; [by exists k, (cpar_associativity p)|]. split; done.
Qed.

Lemma TileState_new_good j home_l1 latency sync i d l s :
  0 < j < 32 -> params_ok j i -> params_ok j d -> params_ok j l ->
  TileState_new (2 ^ j) latency sync i d l = Ok s ->
  good_tile j home_l1 None s (fun _ => None) (mkRest INVALID_ADDRESS MC_INVALID 0 (mkPerf 0 false) []).
Proof.
  intros Hj Hi Hd Hl E. unfold TileState_new in E.
  apply bind_ok in E as (ui & Ei & E). apply bind_ok in E as (ud & Ed & E). apply bind_ok in E as (ul & El & [= <-]).
  exists (fun _ _ => None), (fun _ => None). split; [|split; [intros t mc _; done|done]].
  split; [| | |done].
  - refine (CacheUnit_new_ok _ _ _ _ _ _ _ _ _ _ Hj Hi eq_refl Ei).
  - refine (CacheUnit_new_ok _ _ _ _ _ _ _ _ _ _ Hj Hd eq_refl Ed).
  - refine (CacheUnit_new_ok _ _ _ _ _ _ _ _ _ _ Hj Hl eq_refl El).
Qed.

Section system.
Context (N j : Z) (tenv : Z -> TileEnv) (denv : Z -> DirEnv) (hm : Z -> Z) (home_l1 : Z -> MemComponent).
Abbreviation addr := (addr j).
Abbreviation tag_ok := (tag_ok j).
Abbreviation ls := (2 ^ j).
Abbreviation config_ok := (config_ok j tenv denv hm home_l1).
Abbreviation enabled := (enabled N j tenv home_l1).
Abbreviation sys_run := (sys_run N j tenv denv home_l1).
Abbreviation sys_ok := (sys_ok N j tenv denv hm home_l1).
Abbreviation sys_do := (sys_do N tenv denv).

(** A system just built: empty caches, empty directories, nothing in flight. *)
Record fresh_sys (S : Sys) : Prop := {
  fs_tile q : 0 <= q < N -> exists latency sync i d l,
    0 < j < 32 /\ params_ok j i /\ params_ok j d /\ params_ok j l /\
    TileState_new (2 ^ j) latency sync i d l = Ok (sy_tile S q);
  fs_dir t : tag_ok t -> fresh_dir (denv (hm t)) N (sy_dir S (hm t));
  fs_quiet q h : sy_up S q h = [] /\ sy_down S h q = [];
  fs_idle q : sy_self S q = [] /\ sy_core S q = None /\ sy_lock S q = None }.

Lemma fresh_sys_ok S : config_ok -> fresh_sys S -> sys_ok [] S (fun _ => []) (fun _ _ => None).
Proof using.
  intros Hcfg []. split.
  - split; simpl.
    + intros q t _. destruct (fs_quiet0 q (hm t)) as [-> ->]. destruct (fs_idle0 q) as (_ & Hc & _).
      unfold stage. rewrite Hc. unfold perm, waits, ask. simpl. rewrite lookup_empty.
      rewrite (proj2 (cls_invalid _ q)) by (split; [done|apply not_elem_of_empty]). apply link_rest.
    + done.
    + done.
    + intros q h pk. destruct (fs_quiet0 q h) as [-> _]. by intros ?%elem_of_nil.
    + intros h q pk. destruct (fs_quiet0 q h) as [_ ->]. by intros ?%elem_of_nil.
    + by intros h s m ?%elem_of_nil.
    + intros h l1 ev l2 E. by destruct l1.
  - intros q Hq. destruct (fs_tile0 q Hq) as (lat & sync & i & d & l & Hj & Hi & Hd & Hl & E).
    destruct (fs_idle0 q) as (Hs & Hc & Hlk).
    exists (mkRest INVALID_ADDRESS MC_INVALID 0 (mkPerf 0 false) []). unfold waits_ok, lock_ok. rewrite Hs, Hc, Hlk.
    split; [|done]. eapply TileState_new_good; [exact Hj|exact Hi|exact Hd|exact Hl|exact E].
  - intros t Ht. specialize (fs_dir0 t Ht). split; [|apply fs_dir0].
    by apply fresh_dir_good.
Qed.

(** Every enabled action ends, and keeps the invariant. *)
Lemma act_ok tr S hist V act :
  config_ok -> sys_ok tr S hist V -> enabled S act ->
  exists S' hist' V' e, sys_do S act = Ok (S', e) /\
    (forall x, e = Some x -> ev_ok j hm hist tr x) /\ sys_ok (tr ++ option_list e) S' hist' V'.
Proof using.
  intros Hcfg Hok Hen. destruct act as [q c time|q time|h q time|q h time].
  - destruct (core_step _ _ _ _ _ _ Hcfg tr S hist V q c time Hok Hen) as (S' & V' & e & H1 & H2 & H3).
    by exists S', hist, V', e.
  - destruct (self_step _ _ _ _ _ _ Hcfg tr S hist V q time Hok Hen) as (S' & V' & H1 & H2).
    exists S', hist, V', None. simpl. by rewrite app_nil_r.
  - destruct (down_step _ _ _ _ _ _ Hcfg tr S hist V h q time Hok Hen) as (S' & V' & e & H1 & H2 & H3).
    by exists S', hist, V', e.
  - destruct (up_step _ _ _ _ _ _ Hcfg tr S hist V q h time Hok Hen) as (S' & hist' & H1 & H2).
    exists S', hist', V, None. simpl. by rewrite app_nil_r.
Qed.

Lemma run_ok S0 tr S :
  config_ok -> fresh_sys S0 -> sys_run S0 tr S ->
  (exists hist V, sys_ok tr S hist V) /\ forall tr1 e tr2, tr = tr1 ++ e :: tr2 -> event_ok ls tr1 e.
Proof using.
  intros Hcfg Hf Hr. induction Hr as [|tr S act S' e Hr [(hist & V & Hok) IH] Hen E].
  - split; [exists (fun _ => []), (fun _ _ => None); by apply fresh_sys_ok|]. intros tr1 e tr2 E. by destruct tr1.
  - destruct (act_ok tr S hist V act Hcfg Hok Hen) as (S2 & hist' & V' & e' & E' & He & Hok').
    rewrite E in E'. injection E' as <- <-. split; [by exists hist', V'|].
    destruct e as [x|]; simpl in *; [|rewrite app_nil_r in *; done].
    intros tr1 y tr2 Ey. destruct tr2 as [|z tr2 _] using rev_ind.
    + apply app_inj_tail in Ey as [-> ->]. by apply He.
    + rewrite app_comm_cons, app_assoc in Ey. apply app_inj_tail in Ey as [-> _]. by eapply IH.
Qed.

Lemma tile_lines S q V t :
  tile_ok j tenv home_l1 S q V ->
  (forall i d, cache_line (u_cache (ts_l2 (sy_tile S q))) t = Some (i, d) -> V t = Some (getCState i, d)) /\
  (forall mc i d, is_l1 mc -> cache_line (u_cache (l1_of mc (sy_tile S q))) t = Some (i, d) ->
     V t = Some (cl_cstate i, d)).
Proof using.
  intros (r & (F & L & Hs & Hinv & HV) & _). split.
  - intros i d E. destruct (tl_l _ _ _ _ _ Hs) as (_ & _ & El). rewrite El in E. rewrite <- HV, E. done.
  - intros mc i d Hmc E. destruct (tile_l1 _ _ _ _ _ _ Hs Hmc) as (_ & _ & El). rewrite El in E.
    destruct (line_in_l1 home_l1 _ _ _ _ mc i d (Hinv t) Hmc E) as (_ & i2 & E2 & _ & Hst).
    by rewrite <- HV, E2, Hst.
Qed.

(** C2: one writer or many readers.  In every reachable state of the system, when
    the L2 cache of a tile holds a line MODIFIED, no cache of any other tile
    holds it, neither L1 nor L2. *)
Theorem System_single_writer S0 tr S t q1 q2 i d :
  config_ok -> fresh_sys S0 -> sys_run S0 tr S -> tag_ok t -> 0 <= q1 < N -> 0 <= q2 < N -> q1 <> q2 ->
  cache_line (u_cache (ts_l2 (sy_tile S q1))) t = Some (i, d) -> getCState i = CS_MODIFIED ->
  cache_line (u_cache (ts_l2 (sy_tile S q2))) t = None /\
  cache_line (u_cache (ts_icache (sy_tile S q2))) t = None /\
  cache_line (u_cache (ts_dcache (sy_tile S q2))) t = None.
Proof using.
  intros Hcfg Hf Hr Ht Hq1 Hq2 Hne E1 Hm.
  destruct (run_ok _ _ _ Hcfg Hf Hr) as [(hist & V & Hok) _]. pose proof (so_net _ _ _ _ _ _ _ _ _ _ Hok) as Hn.
  destruct (tile_lines S q1 (V q1) t (so_tile _ _ _ _ _ _ _ _ _ _ Hok q1 Hq1)) as [H1 _]. apply H1 in E1.
  destruct (link_copy _ _ _ _ _ _ _ _ _ _ (nk_link _ _ _ Hn q1 t Ht) E1) as (_ & _ & Hx & _).
  apply Hx, cls_modified in Hm.
  assert (Hnone : V q2 t = None).
  { destruct (V q2 t) as [[c2 d2]|] eqn:E2; [exfalso|done].
    destruct (link_copy _ _ _ _ _ _ _ _ _ _ (nk_link _ _ _ Hn q2 t Ht) E2) as (_ & _ & _ & Hc). apply Hc.
    apply cls_invalid. rewrite (nk_excl _ _ _ Hn t q1 Ht Hm), Hm. split; [congruence|].
    rewrite elem_of_singleton. congruence. }
  destruct (tile_lines S q2 (V q2) t (so_tile _ _ _ _ _ _ _ _ _ _ Hok q2 Hq2)) as [H2 H3].
  split; [|split].
  - destruct (cache_line (u_cache (ts_l2 (sy_tile S q2))) t) as [[i2 d2]|]; [|done]. by rewrite (H2 i2 d2) in Hnone.
  - specialize (H3 MC_L1_ICACHE). simpl in H3. unfold l1_of in H3. rewrite decide_True in H3 by done.
    destruct (cache_line (u_cache (ts_icache (sy_tile S q2))) t) as [[i2 d2]|]; [|done].
    rewrite (H3 i2 d2) in Hnone; [done|by left|done].
  - specialize (H3 MC_L1_DCACHE). simpl in H3. unfold l1_of in H3. rewrite decide_False in H3 by done.
    destruct (cache_line (u_cache (ts_dcache (sy_tile S q2))) t) as [[i2 d2]|]; [|done].
    rewrite (H3 i2 d2) in Hnone; [done|by right|done].
Qed.

(** C1: reads return the latest writes.  In every run, the accesses complete in
    an order in which each read of a core returns the bytes that the writes
    completed before it have left in memory (zeroes at first), whichever tiles
    wrote them; and in every reachable state every copy in every cache of every
    tile holds exactly these bytes. *)
Theorem System_reads_latest S0 tr S :
  config_ok -> fresh_sys S0 -> sys_run S0 tr S ->
  (forall tr1 q c out tr2, tr = tr1 ++ Done q c out :: tr2 ->
     out = access_result (co_op c) (co_offset c) (co_len c) (co_buf c) (memory ls tr1 (co_address c))) /\
  (forall q t, 0 <= q < N -> tag_ok t ->
     (forall i d, cache_line (u_cache (ts_l2 (sy_tile S q))) t = Some (i, d) -> d = memory ls tr (addr t)) /\
     (forall mc i d, is_l1 mc -> cache_line (u_cache (l1_of mc (sy_tile S q))) t = Some (i, d) ->
        d = memory ls tr (addr t))).
Proof using.
  intros Hcfg Hf Hr. destruct (run_ok _ _ _ Hcfg Hf Hr) as [(hist & V & Hok) Hev]. split.
  - intros tr1 q c out tr2 E. exact (Hev tr1 (Done q c out) tr2 E).
  - intros q t Hq Ht. pose proof (so_net _ _ _ _ _ _ _ _ _ _ Hok) as Hn.
    destruct (tile_lines S q (V q) t (so_tile _ _ _ _ _ _ _ _ _ _ Hok q Hq)) as [H2 H3].
    assert (Hcur : forall cv d, V q t = Some (cv, d) -> d = memory ls tr (addr t)).
    { intros cv d E. by destruct (link_copy _ _ _ _ _ _ _ _ _ _ (nk_link _ _ _ Hn q t Ht) E) as (-> & _). }
    split; [intros i d E|intros mc i d Hmc E]; eapply Hcur; eauto.
Qed.

(** C3: the system never stops.  In every reachable state, every enabled action
    runs to its end: an access of a core hits or sends its request, a packet
    that reaches a tile or a directory is handled and no assertion of the
    controllers fails; an action is enabled unless the tile is locked, the
    directory has no way to give to the line, or a reply arrives before the
    time of its request. *)
Theorem System_never_stops S0 tr S act :
  config_ok -> fresh_sys S0 -> sys_run S0 tr S -> enabled S act ->
  exists S' e, sys_do S act = Ok (S', e) /\ sys_run S0 (tr ++ option_list e) S'.
Proof using.
  intros Hcfg Hf Hr Hen. destruct (run_ok _ _ _ Hcfg Hf Hr) as [(hist & V & Hok) _].
  destruct (act_ok tr S hist V act Hcfg Hok Hen) as (S' & hist' & V' & e & E & _).
  exists S', e. split; [done|]. by econstructor.
Qed.

(** ** Locked accesses *)

Lemma event_tile S act S' q c out :
  sys_do S act = Ok (S', Some (Done q c out)) ->
  exists time, act = ACore q c time \/ exists h, act = ADown h q time.
Proof using.
  unfold System.sys_do. destruct act as [q' c' time|q' time|h q' time|q' h time]; intros E.
  - apply bind_ok in E as ([r s] & _ & [= E]). unfold core_result in E. exists time. left.
    destruct r as [[]|]; simplify_eq. done.
  - destruct (sy_self S q'); simplify_eq. by apply bind_ok in E as ([r s] & _ & [=]).
  - exists time. right. exists h. destruct (sy_down S h q') as [|pk rest]; simplify_eq.
    apply bind_ok in E as ([r s] & _ & E). destruct (is_reply pk); [|done].
    destruct (sy_core _ _) as [c'|]; [|done]. apply bind_ok in E as ([r' s'] & _ & [= E]).
    unfold core_result in E. destruct r' as [[]|]; by simplify_eq.
  - destruct (sy_up S q' h); simplify_eq. by apply bind_ok in E as ([r s] & _ & [=]).
Qed.

Lemma lock_kept S act S' e q :
  sys_do S act = Ok (S', e) -> (forall c time, act <> ACore q c time) -> (forall h time, act <> ADown h q time) ->
  sy_lock S' q = sy_lock S q.
Proof using.
  unfold System.sys_do. destruct act as [q' c' time|q' time|h q' time|q' h time]; intros E Hc Hd.
  - apply bind_ok in E as ([r s] & _ & [= E]). assert (q <> q') by (intros ->; by destruct (Hc c' time)).
    unfold core_result in E. destruct r as [[]|]; simplify_eq; simpl; by rewrite ?upd_ne.
  - destruct (sy_self S q'); simplify_eq; [done|]. by apply bind_ok in E as ([r s] & _ & [= <- _]).
  - assert (q <> q') by (intros ->; by destruct (Hd h time)).
    destruct (sy_down S h q') as [|pk rest]; simplify_eq; [done|]. apply bind_ok in E as ([r s] & _ & E).
    destruct (is_reply pk); [|by simplify_eq]. destruct (sy_core _ _) as [c'|]; [|by simplify_eq].
    apply bind_ok in E as ([r' s'] & _ & [= E]). unfold core_result in E.
    destruct r' as [[]|]; simplify_eq; simpl; by rewrite ?upd_ne.
  - destruct (sy_up S q' h); simplify_eq; [done|]. by apply bind_ok in E as ([r s] & _ & [= <- _]).
Qed.

(** C5: an access with LOCK and the access with UNLOCK that follows it are one
    atomic operation.  From the locked read on, and until the core of the tile
    itself acts again, no action of the system releases the lock or changes
    the contents of the locked line. *)
Theorem System_lock_is_atomic S0 tr S q a act S' e :
  config_ok -> fresh_sys S0 -> sys_run S0 tr S -> 0 <= q < N -> sy_lock S q = Some a ->
  enabled S act -> sys_do S act = Ok (S', e) -> (forall c time, act <> ACore q c time) ->
  sy_lock S' q = Some a /\ memory ls (tr ++ option_list e) a = memory ls tr a.
Proof using.
  intros Hcfg Hf Hr Hq Hlock Hen E Hact. destruct (run_ok _ _ _ Hcfg Hf Hr) as [(hist & V & Hok) _].
  assert (Hd : forall h time, act <> ADown h q time) by (intros h time ->; destruct Hen as (_ & ? & _); congruence).
  split; [by rewrite (lock_kept _ _ _ _ _ E Hact Hd)|].
  destruct (act_ok tr S hist V act Hcfg Hok Hen) as (S2 & hist' & V' & e' & E' & He & _).
  rewrite E in E'. injection E' as <- <-. destruct e as [[q' c out]|]; simpl; [|by rewrite app_nil_r].
  rewrite memory_snoc. simpl. case_decide as Ea; [|done]. destruct (He _ eq_refl) as [_ Hown].
  destruct (so_tile _ _ _ _ _ _ _ _ _ _ Hok q Hq) as (r & _ & _ & _ & Hlk). unfold lock_ok in Hlk.
  rewrite Hlock in Hlk. destruct Hlk as (_ & Hm & _ & Haddr & Ht).
  destruct (co_op c) eqn:Eop; [done|done|exfalso].
  assert (Hq' : q' = q).
  { destruct (V q (tag_of j a)) as [[cv d]|] eqn:Ev; [|done]. simpl in Hm. subst cv.
    pose proof (so_net _ _ _ _ _ _ _ _ _ _ Hok) as Hn.
    destruct (link_copy _ _ _ _ _ _ _ _ _ _ (nk_link _ _ _ Hn q _ Ht) Ev) as (_ & _ & Hx & _).
    specialize (Hx eq_refl). apply cls_modified in Hx. cbn [n_hist net_of] in Hx. rewrite <- Haddr in Hx.
    rewrite Ea in Hown. rewrite Hown in Hx by done. by injection Hx. }
  subst q'. destruct (event_tile _ _ _ _ _ _ E) as (time & [->|[h ->]]); [by eapply Hact|by eapply Hd].
Qed.

(** ** Requests in flight *)

Definition is_request (ty : MsgType) : bool := match ty with EX_REQ | SH_REQ => true | _ => false end.

(** The packets about a line whose type satisfies [f]. *)
Definition about (f : MsgType -> bool) (t : Z) (l : list Packet) : list Packet :=
  filter (fun pk => m_address (pk_msg pk) = addr t /\ f (m_type (pk_msg pk)) = true) l.

(** Where the request of tile [q] for line [t] may be: on its way to the L2
    controller, on its way to the home, in the queue of the directory, or
    answered by a reply on its way back. *)
Definition in_flight (S : Sys) (q t : Z) : nat :=
  length (about is_request t (sy_self S q)) +
  length (about is_request t (sy_up S q (hm t))) +
  length (filter (fun m => m_requester m = q /\ m_type m <> NULLIFY_REQ) (msgs (sy_dir S (hm t)) (addr t))) +
  length (filter (fun pk => m_address (pk_msg pk) = addr t /\ is_reply pk = true) (sy_down S (hm t) q)).

Definition is_grant (ty : MsgType) : bool := match ty with EX_REP | SH_REP => true | _ => false end.

Lemma about_on f t l : length (about f t l) = length (filter (fun s => f s.1 = true) (on j t l)).
Proof using.
  unfold about, on. induction l as [|pk l IH]; [done|].
  destruct (decide (m_address (pk_msg pk) = addr t)) as [E|E].
  - rewrite (filter_cons_True (fun pk => m_address (pk_msg pk) = addr t)) by done. cbn [fmap list_fmap].
    destruct (f (m_type (pk_msg pk))) eqn:Ef.
    + rewrite !filter_cons_True by done. simpl. by f_equal.
    + rewrite !filter_cons_False; [done|simpl; congruence|intros [_ ?]; congruence].
  - rewrite (filter_cons_False (fun pk => m_address (pk_msg pk) = addr t)) by done.
    by rewrite filter_cons_False by (by intros [? _]).
Qed.

Lemma no_grant D : Forall (fun m : Sig => is_req m.1) D -> filter (fun s : Sig => is_grant s.1 = true) D = [].
Proof using.
  intros HD. apply filter_none. eapply Forall_impl; [exact HD|]. intros [ty x] [E|[E|E]]; simpl in *; subst; done.
Qed.

Lemma link_count cur c ask wt U D v p :
  link cur c ask wt U D v p -> 
  (match p with Some (true, _) => 1 | _ => 0 end +
   length (filter (fun s : Sig => is_request s.1 = true) U) + length (option_list wt) +
   length (filter (fun s : Sig => is_grant s.1 = true) D) = length (option_list p))%nat.
Proof using.
  intros [rets reqs -> Hc [HD _] Ht|pre post ty -> Hpre -> [Hpost _] Hty -> -> _ ->].
  - rewrite (no_grant D HD), filter_app, length_app.
    assert (Hr : filter (fun s : Sig => is_request s.1 = true) rets = []).
    { apply filter_none. inversion Hc; subst; repeat constructor; done. }
    rewrite Hr. simpl. destruct p as [[[] ty]|]; simpl in Ht |- *.
    + destruct Ht as (-> & -> & _). done.
    + destruct Ht as (Hty & _ & [[-> ->]|(-> & -> & _)]); [|done].
      rewrite filter_cons_True; [done|]. by destruct Hty as [-> | ->].
    + by destruct Ht as [-> ->].
  - rewrite filter_app, length_app, (no_grant pre Hpre). simpl.
    rewrite filter_cons_True by (simpl; unfold grant_of; by case_decide).
    by rewrite (no_grant post Hpost).
Qed.

Lemma one_member {A} (P : A -> Prop) `{!forall x, Decision (P x)} (f : A -> Z) (q : Z) l :
  NoDup (f <$> l) -> (forall x, P x <-> f x = q) -> (length (filter P l) <= 1)%nat.
Proof using.
  intros Hnd HP. induction l as [|x l IH]; [simpl; lia|]. cbn [fmap list_fmap] in Hnd.
  apply NoDup_cons in Hnd as [Hx Hnd]. destruct (decide (P x)) as [Hp|Hp].
  - rewrite filter_cons_True by done. rewrite filter_none; [done|]. apply Forall_forall. intros y Hy Hpy.
    apply Hx. apply HP in Hp, Hpy. rewrite Hp, <- Hpy. by apply list_elem_of_fmap_2.
  - rewrite filter_cons_False by done. by apply IH.
Qed.

(** The queue holds a request of [q] exactly when [q] waits. *)
Lemma queue_count env s l q a :
  good env N None l s -> ds_sent s = [] ->
  length (filter (fun m => m_requester m = q /\ m_type m <> NULLIFY_REQ) (msgs s a)) =
  length (option_list (waits l a !! q)).
Proof using.
  intros [_ Hi] Hs. assert (Hlog : log l s = l) by (unfold log; rewrite Hs; apply app_nil_r). rewrite Hlog in Hi.
  set (P := fun m => m_requester m = q /\ m_type m <> NULLIFY_REQ).
  assert (Hle : (length (filter P (msgs s a)) <= 1)%nat).
  { assert (Hw : forall w S, waiting N a S w -> (length (filter P w) <= 1)%nat).
    { intros w S (HF & Hnd & _). transitivity (length (filter (fun m => m_requester m = q) w)).
      - clear Hnd. induction w as [|m w IH]; [done|]. inversion HF; subst.
        destruct (decide (m_requester m = q)); [rewrite (filter_cons_True (fun m => m_requester m = q)) by done|
          rewrite (filter_cons_False (fun m => m_requester m = q)) by done].
        + destruct (decide (P m)); [rewrite filter_cons_True by done|rewrite filter_cons_False by done];
            simpl; specialize (IH ltac:(done)); lia.
        + rewrite filter_cons_False by (by intros [? _]). by apply IH.
      - by eapply one_member. }
    destruct (iv_reqs _ _ _ _ _ _ _ Hi a) as [Hx|(m & w & -> & (_ & _ & Hm) & Hx)]; [by eapply Hw|].
    rewrite filter_cons_False by (by intros [_ ?]). by eapply Hw. }
  pose proof (iv_wait _ _ _ _ _ _ _ Hi a q) as Hwt.
  destruct (waits l a !! q) as [ty|] eqn:E; simpl.
  - destruct (proj1 (Hwt ty) eq_refl) as (m & Hm & Hq & Hty & Hn).
    assert (Hin : m ∈ filter P (msgs s a)) by (apply list_elem_of_filter; split; [split; congruence|done]).
    destruct (filter P (msgs s a)) as [|x l']; [by apply elem_of_nil in Hin|]. simpl in *. lia.
  - destruct (filter P (msgs s a)) as [|x l'] eqn:Ef; [done|exfalso].
    assert (Hin : x ∈ filter P (msgs s a)) by (rewrite Ef; by left).
    apply list_elem_of_filter in Hin as [[Hq Hn] Hin].
    discriminate (proj2 (Hwt (m_type x))). by exists x.
Qed.

(** C4: requests are neither lost nor doubled.  In every reachable state, the
    request of a core that waits for a line is in exactly one place: with the
    L2 controller of its tile, on its way to the home of the line, in the queue
    of the directory, or answered by a reply on its way back; there is no
    request or reply for a line the core does not wait for. *)
Theorem System_requests_conserved S0 tr S q t :
  config_ok -> fresh_sys S0 -> sys_run S0 tr S -> 0 <= q < N -> tag_ok t ->
  in_flight S q t =
  match sy_core S q with Some c => if decide (co_address c = addr t) then 1%nat else 0%nat | None => 0%nat end.
Proof using.
  intros Hcfg Hf Hr Hq Ht. destruct (run_ok _ _ _ Hcfg Hf Hr) as [(hist & V & Hok) _].
  pose proof (so_net _ _ _ _ _ _ _ _ _ _ Hok) as Hn.
  destruct (so_dir _ _ _ _ _ _ _ _ _ _ Hok t Ht) as [Hg Hs].
  pose proof (link_count _ _ _ _ _ _ _ _ (nk_link _ _ _ Hn q t Ht)) as Hc. simpl in Hc.
  unfold in_flight. rewrite (queue_count _ _ _ _ _ Hg Hs), !about_on.
  assert (Hd : length (filter (fun pk => m_address (pk_msg pk) = addr t /\ is_reply pk = true) (sy_down S (hm t) q)) =
    length (filter (fun s : Sig => is_grant s.1 = true) (on j t (sy_down S (hm t) q)))) by apply (about_on is_grant).
  rewrite Hd. destruct (so_tile _ _ _ _ _ _ _ _ _ _ Hok q Hq) as (r & _ & _ & Hw & _).
  unfold waits_ok, stage in *. destruct (sy_core S q) as [c|]; simpl in Hc.
  - destruct Hw as ([Ha Hfit] & _ & _ & _ & [(pk & Hself & (p & Hpk) & _)|(Hself & _)]);
      rewrite Hself in *; simpl in Hc; destruct (decide (tag_of j (co_address c) = t)) as [E|E].
    + rewrite decide_True by congruence. simpl in Hc. rewrite on_cons_eq by (rewrite Hpk; simpl; congruence).
      rewrite filter_cons_True; [|rewrite Hpk; by destruct (co_op c)]. simpl. lia.
    + rewrite decide_False. 2:{ intros Ex. apply E. rewrite Ex. by eapply tag_addr. }
      rewrite on_cons_ne; [simpl in *; lia|]. rewrite Hpk. simpl. intros Ex. apply E.
      eapply addr_inj; [apply (cf_j _ _ _ _ _ Hcfg)|exact Ex].
    + rewrite decide_True by congruence. simpl in *. lia.
    + rewrite decide_False. 2:{ intros Ex. apply E. rewrite Ex. by eapply tag_addr. }
      simpl in *. lia.
  - destruct Hw as [Hself _]. rewrite Hself. simpl in *. lia.
Qed.
End system.
