(* ===== verification/SystemEx.v ===== *)
(** * A concrete run of the system

    Four tiles with caches of 1 KB: tile 0 writes a line, tile 2 reads it, and
    tile 3 locks it.  The run shows that the hypotheses of the theorems on the
    system hold together. *)

From S2P Require Import Prelude Utils HashMapList CacheLine Replacement CacheSet Cache CacheThm CachePerf Shmem DirEntry DirCache DirCntlr DirThm DirSafe DirProtocol Tile TileThm TileSafe System Link Net SystemInv SystemDir SystemTile SystemThm.

(** ** Deciding that an action is enabled *)

Section decide.
Context (N j : Z) (tenv : Z -> TileEnv) (denv : Z -> DirEnv) (home_l1 : Z -> MemComponent).

Definition fits_b (c : CoreOp) : bool :=
  let t := tag_of j (co_address c) in
  (co_address c =? addr j t) && (0 <=? t) && (t <? 2 ^ (64 - j)) && bool_decide (co_mc c = home_l1 t) &&
  (negb (bool_decide (co_op c = WRITE)) || bool_decide (co_mc c = MC_L1_DCACHE)) &&
  (0 <=? co_offset c) && (0 <? co_len c) && (co_offset c + co_len c <=? 2 ^ j) &&
  match co_buf c with Some l => Z.of_nat (length l) =? co_len c | None => false end.

Lemma fits_b_ok c : fits_b c = true -> fits j home_l1 c.
Proof using.
  unfold fits_b. intros H. bool_facts.
  repeat match goal with H : bool_decide _ = true |- _ => apply bool_decide_eq_true in H end.
  split; [done|]. split; [done|done| | |lia].
  - intros E. match goal with X : _ || _ = true |- _ => rename X into Hor end.
    apply orb_prop in Hor as [Hor|Hor]; [|by apply bool_decide_eq_true in Hor].
    by rewrite bool_decide_true in Hor.
  - destruct (co_buf c); [|done]. bool_facts. repeat split; lia.
Qed.

Definition lock_fits_b (S : Sys) (q : Z) (c : CoreOp) : bool :=
  match co_lock c with
  | NONE => bool_decide (sy_lock S q = None)
  | LOCK => bool_decide (sy_lock S q = None) && bool_decide (co_op c = READ_EX)
  | UNLOCK => bool_decide (sy_lock S q = Some (co_address c))
  end.

Definition has_room_b (s : DirState) (pk : Packet) : bool :=
  let a := m_address (pk_msg pk) in
  match m_type (pk_msg pk), msgs s a with
  | (EX_REQ | SH_REQ), _ :: _ => true
  | (EX_REQ | SH_REQ), [] => room_b s a
  | _, m :: _ :: _ => negb (bool_decide (m_type m = NULLIFY_REQ)) || room_b s a
  | _, _ => true
  end.

Lemma has_room_b_ok s pk : has_room_b s pk = true -> has_room s (pk_msg pk).
Proof using.
  unfold has_room_b, has_room, can_retrack. destruct (msgs s (m_address (pk_msg pk))) as [|m [|m' rest]];
    destruct (m_type (pk_msg pk)); try done; intros Hb; try (by intros ? ? [= -> <-]); try (by intros _ _; apply room_b_spec).
  all: intros x y [= <- <-] _ Hx; rewrite bool_decide_true in Hb by done; by apply room_b_spec.
Qed.

Definition enabled_b (S : Sys) (act : Action) : bool :=
  match act with
  | ACore q c _ =>
      (0 <=? q) && (q <? N) && match sy_core S q with None => true | Some _ => false end && fits_b c && lock_fits_b S q c
  | ASelf q _ => (0 <=? q) && (q <? N) && bool_decide (sy_lock S q = None)
  | ADown h q time =>
      (0 <=? q) && (q <? N) && bool_decide (sy_lock S q = None) &&
      (ts_out_time (sy_tile S q) <=?
       pm_curr_time (sync_l2_perf (tenv q) (dir_module (tenv q) h)
         (ts_set_perf (setCurrTime time (ts_perf (sy_tile S q))) (sy_tile S q))))
  | AUp q h _ =>
      (0 <=? q) && (q <? N) && bool_decide (sy_lock S h = None) &&
      match sy_up S q h with [] => true | pk :: _ => has_room_b (sy_dir S h) pk end
  end.

Lemma enabled_b_ok S act : enabled_b S act = true -> enabled N j tenv home_l1 S act.
Proof using.
  destruct act as [q c time|q time|h q time|q h time]; simpl; intros H; bool_facts;
    repeat match goal with H : bool_decide _ = true |- _ => apply bool_decide_eq_true in H end.
  - split; [lia|]. split; [by destruct (sy_core S q)|]. split; [by apply fits_b_ok|].
    unfold lock_fits_b, lock_fits in *. destruct (co_lock c); bool_facts;
      repeat match goal with H : bool_decide _ = true |- _ => apply bool_decide_eq_true in H end; done.
  - split; [lia|done].
  - split; [lia|]. split; [done|]. intros pk rest _ _. unfold in_time. lia.
  - split; [lia|]. split; [done|]. intros pk rest E. rewrite E in *. by apply has_room_b_ok.
Qed.

(** Performing a list of actions. *)
Fixpoint perform (l : list Action) (tr : list CoreEvent) (S : Sys) : option (list CoreEvent * Sys) :=
  match l with
  | [] => Some (tr, S)
  | act :: l =>
      if enabled_b S act then
        match sys_do N tenv denv S act with
        | Ok (S', e) => perform l (tr ++ option_list e) S'
        | Err _ => None
        end
      else None
  end.

Lemma perform_run S0 l : forall tr S tr' S',
  sys_run N j tenv denv home_l1 S0 tr S -> perform l tr S = Some (tr', S') ->
  sys_run N j tenv denv home_l1 S0 tr' S'.
Proof using.
  induction l as [|act l IH]; intros tr S tr' S' Hr; simpl; [by intros [= <- <-]|].
  destruct (enabled_b S act) eqn:Ee; [|done]. destruct (sys_do _ _ _ _ _) as [[S1 e]|] eqn:E; [|done].
  apply IH. eapply sys_step; [exact Hr|by apply enabled_b_ok|exact E].
Qed.
End decide.

(** ** The system *)

Definition sx_params : CacheParams := mkParams 1 2 "lru" 1 1 "parallel" false.
Definition sx_tile : TileState :=
  match TileState_new 64 (fun _ cycles => cycles * 1000) 0 sx_params sx_params sx_params with
  | Ok s => s
  | Err _ => mkTile (mkUnit example_cache (CachePerfModel_new PARALLEL 1 1 id 0) CORE ∅)
               (mkUnit example_cache (CachePerfModel_new PARALLEL 1 1 id 0) CORE ∅)
               (mkUnit (Cache_new UNIFIED_CACHE WRITE_BACK 1 2 64 (P_LRU (LRU_new 1 2 64)) (CacheHashFn_new 1 2 64) true)
                  (CachePerfModel_new PARALLEL 1 1 id 0) CORE ∅) 0 MC_INVALID 0 (mkPerf 0 false) []
  end.
Definition sx_tenv (q : Z) : TileEnv := mkTileEnv q 64 (mkAHL 6 [0; 1; 2; 3] 4 64) (fun _ => 0) true.
Definition sx_denv (h : Z) : DirEnv :=
  mkDirEnv h 64 (fun cycles => cycles * 1000) 0 0 (fun _ => 100) (fun n => n - 1).
Definition sx_home (t : Z) : Z := t mod 4.
Definition sx_l1 (t : Z) : MemComponent := if t <? 0x1000 then MC_L1_ICACHE else MC_L1_DCACHE.
Definition sx_start : Sys :=
  mkSys (fun _ => sx_tile) (fun _ => ex_dir) (fun _ _ => []) (fun _ _ => []) (fun _ => []) (fun _ => None) (fun _ => None).

Lemma sx_config : config_ok 6 sx_tenv sx_denv sx_home sx_l1.
Proof.
  split; try done.
  - intros q t [Ht Ht']. unfold sx_tenv, sx_home, addr. cbn [te_home].
    rewrite getHome_eq by (simpl; lia). cbn [ahl_tile_list ahl_param ahl_total_modules].
    rewrite Z.div_mul by lia. assert (Hm : 0 <= t mod 4 < 4) by (apply Z.mod_pos_bound; lia).
    destruct (decide (t mod 4 = 0)) as [->|]; [done|]. destruct (decide (t mod 4 = 1)) as [->|]; [done|].
    destruct (decide (t mod 4 = 2)) as [->|]; [done|]. destruct (decide (t mod 4 = 3)) as [->|]; [done|]. lia.
  - intros h n Hn. simpl. lia.
  - intros t. unfold sx_l1. destruct (t <? 0x1000); [by left|by right].
Qed.

Lemma sx_params_ok : params_ok 6 sx_params.
Proof. exists 3. repeat split; by vm_compute. Qed.

Lemma sx_fresh : fresh_sys 4 6 sx_denv sx_home sx_start.
Proof.
  split.
  - intros q _. exists (fun _ cycles => cycles * 1000), 0, sx_params, sx_params, sx_params.
    split; [lia|]. do 3 (split; [apply sx_params_ok|]). by vm_compute.
  - intros t _. destruct ex_fresh. by split.
  - done.
  - done.
Qed.

Definition sx_line : Z := 0x40040.
Definition sx_write : CoreOp := mkCoreOp MC_L1_DCACHE NONE WRITE sx_line 4 (Some [7; 8]) 2.
Definition sx_read : CoreOp := mkCoreOp MC_L1_DCACHE NONE READ sx_line 2 (Some [0; 0; 0; 0]) 4.
Definition sx_locked : CoreOp := mkCoreOp MC_L1_DCACHE LOCK READ_EX sx_line 4 (Some [0]) 1.

Definition sx_acts1 : list Action := [ACore 0 sx_write 100; ASelf 0 200; AUp 0 1 300; ADown 1 0 400].
Definition sx_acts2 : list Action := [ACore 2 sx_read 150; ASelf 2 250; AUp 2 1 500].
Definition sx_acts3 : list Action := [ADown 1 0 600; AUp 0 1 700; ADown 1 2 800].
Definition sx_acts4 : list Action :=
  [ACore 3 sx_locked 900; ASelf 3 1000; AUp 3 1 1100; ADown 1 0 1200; ADown 1 2 1200; AUp 0 1 1300;
   AUp 2 1 1300; ADown 1 3 1400].

Definition sx_after (l : list Action) : list CoreEvent * Sys :=
  match perform 4 6 sx_tenv sx_denv sx_l1 l [] sx_start with Some r => r | None => ([], sx_start) end.

Lemma sx_run l : sys_run 4 6 sx_tenv sx_denv sx_l1 sx_start (sx_after l).1 (sx_after l).2.
Proof.
  unfold sx_after. destruct (perform 4 6 sx_tenv sx_denv sx_l1 l [] sx_start) as [[tr S]|] eqn:E; simpl.
  - eapply perform_run; [apply sys_start|exact E].
  - apply sys_start.
Qed.

(** ** The theorems on this run *)

Definition sx_written : list CoreEvent * Sys := sx_after sx_acts1.
Definition sx_asked : list CoreEvent * Sys := sx_after (sx_acts1 ++ sx_acts2).
Definition sx_both : list CoreEvent * Sys := sx_after (sx_acts1 ++ sx_acts2 ++ sx_acts3).
Definition sx_holding : list CoreEvent * Sys := sx_after (sx_acts1 ++ sx_acts2 ++ sx_acts3 ++ sx_acts4).

Lemma sx_tag : tag_ok 6 0x1001.
Proof. split; by vm_compute. Qed.

(** Tile 0 holds the line MODIFIED, tile 2 has no copy. *)
Lemma System_single_writer_witness :
  (exists i d, cache_line (u_cache (ts_l2 (sy_tile sx_written.2 0))) 0x1001 = Some (i, d) /\
     getCState i = CS_MODIFIED) /\
  cache_line (u_cache (ts_l2 (sy_tile sx_written.2 2))) 0x1001 = None.
Proof.
  destruct (cache_line (u_cache (ts_l2 (sy_tile sx_written.2 0))) 0x1001) as [[i d]|] eqn:E;
    [|by vm_compute in E].
  assert (Hm : getCState i = CS_MODIFIED) by (vm_compute in E; by injection E as <- _).
  split; [exists i, d; split; [reflexivity|exact Hm]|].
  apply (System_single_writer 4 6 sx_tenv sx_denv sx_home sx_l1 sx_start sx_written.1 sx_written.2 0x1001 0 2 i d
    sx_config sx_fresh (sx_run sx_acts1) sx_tag); [lia|lia|lia|exact E|exact Hm].
Defined.

(** Tile 2 reads what tile 0 has written. *)
Lemma System_reads_latest_witness :
  exists tr1, sx_both.1 = tr1 ++ [Done 2 sx_read (Some [0; 0; 7; 8])] /\
    Some [0; 0; 7; 8] = access_result READ 2 4 (Some [0; 0; 0; 0]) (memory 64 tr1 sx_line).
Proof.
  exists [Done 0 sx_write (Some [7; 8])]. assert (E : sx_both.1 = [Done 0 sx_write (Some [7; 8])] ++
    Done 2 sx_read (Some [0; 0; 7; 8]) :: []) by (by vm_compute).
  split; [exact E|].
  exact (proj1 (System_reads_latest 4 6 sx_tenv sx_denv sx_home sx_l1 sx_start sx_both.1 sx_both.2
    sx_config sx_fresh (sx_run _)) _ _ _ _ _ E).
Defined.

(** The reply that ends the miss of tile 0 is handled. *)
Lemma System_never_stops_witness :
  exists S' e, sys_do 4 sx_tenv sx_denv (sx_after (take 3 sx_acts1)).2 (ADown 1 0 400) = Ok (S', e).
Proof.
  destruct (System_never_stops 4 6 sx_tenv sx_denv sx_home sx_l1 sx_start (sx_after (take 3 sx_acts1)).1
    (sx_after (take 3 sx_acts1)).2 (ADown 1 0 400) sx_config sx_fresh (sx_run _)) as (S' & e & E & _).
  - apply (enabled_b_ok 4 6 sx_tenv sx_l1). by vm_compute.
  - exists S', e. exact E.
Defined.

(** While tile 3 holds its lock, tile 0 asks for the line: nothing changes. *)
Lemma System_lock_witness :
  exists S' e, sys_do 4 sx_tenv sx_denv sx_holding.2 (ACore 0 sx_write 1500) = Ok (S', e) /\
    sy_lock S' 3 = Some sx_line /\
    memory 64 (sx_holding.1 ++ option_list e) sx_line = memory 64 sx_holding.1 sx_line.
Proof.
  destruct (sys_do 4 sx_tenv sx_denv sx_holding.2 (ACore 0 sx_write 1500)) as [[S' e]|] eqn:E;
    [|exfalso; by vm_compute in E].
  exists S', e. split; [reflexivity|].
  apply (System_lock_is_atomic 4 6 sx_tenv sx_denv sx_home sx_l1 sx_start sx_holding.1 sx_holding.2 3 sx_line
    (ACore 0 sx_write 1500) S' e sx_config sx_fresh (sx_run _)); [lia|by vm_compute| |exact E|by intros c time].
  apply (enabled_b_ok 4 6 sx_tenv sx_l1). by vm_compute.
Defined.

(** The request of tile 2 waits in the queue of the directory. *)
Lemma System_requests_witness :
  in_flight 6 sx_home sx_asked.2 2 0x1001 = 1%nat /\
  length (msgs (sy_dir sx_asked.2 1) sx_line) = 1%nat.
Proof.
  split; [|by vm_compute].
  rewrite (System_requests_conserved 4 6 sx_tenv sx_denv sx_home sx_l1 sx_start sx_asked.1 sx_asked.2 2 0x1001
    sx_config sx_fresh (sx_run _) ltac:(lia) sx_tag). by vm_compute.
Defined.

(** ** A line in both L1 caches

    The L2 cache records one L1 cache per line.  When a line is read through
    both, the record is forced to the data cache, and an invalidation by the
    directory leaves the copy in the instruction cache behind. *)

Fixpoint sys_dos (l : list Action) (tr : list CoreEvent) (S : Sys) : result (list CoreEvent * Sys) :=
  match l with
  | [] => Ok (tr, S)
  | act :: l => '(s, e) ← sys_do 4 sx_tenv sx_denv S act; sys_dos l (tr ++ option_list e) s
  end.

Definition sx_fetch : CoreOp := mkCoreOp MC_L1_ICACHE NONE READ sx_line 2 (Some [0; 0; 0; 0]) 4.

(** Tile 2 fetches the line as instructions and reads it as data; tile 0 writes
    it; tile 2 fetches it again. *)
Definition sx_stale : list Action :=
  [ACore 2 sx_fetch 100; ASelf 2 200; AUp 2 1 300; ADown 1 2 400; ACore 2 sx_read 500;
   ACore 0 sx_write 600; ASelf 0 700; AUp 0 1 800; ADown 1 2 900; AUp 2 1 1000; ADown 1 0 1100;
   ACore 2 sx_fetch 1200].

(** The three accesses end; the last one returns the bytes that were in the line
    before the write, which are not what memory holds. *)
Example stale_fetch_run :
  match sys_dos sx_stale [] sx_start with
  | Ok (tr, s) =>
      last tr = Some (Done 2 sx_fetch (Some [0; 0; 0; 0])) /\
      access_result READ 2 4 (Some [0; 0; 0; 0]) (memory 64 tr sx_line) = Some [0; 0; 7; 8] /\
      cache_line (u_cache (ts_l2 (sy_tile s 2))) 0x1001 = None
  | Err _ => False
  end.
Proof. vm_compute. by split_and!. Qed.

Section stale.
Context (env : TileEnv) (j : Z).
Abbreviation addr := (addr j).
Abbreviation tag_ok := (tag_ok j).
Abbreviation tile := (tile j).

(** An invalidation clears the L2 cache and the L1 cache it names. *)
Lemma inv_clears_runs s F L r t sender m i d :
  tile s F L r -> tag_ok t -> m_address m = addr t ->
  L t = Some (i, d) -> getCState i = CS_SHARED -> is_l1 (l2_cached_loc i) ->
  runs (processInvReqFromDramDirectory env sender m) s (fun _ s' => exists p,
    tile s' (fdrop F (l2_cached_loc i) t) (upd L t None)
      (with_sent (r_sent r ++ [packet env p sender (inv_rep m)]) (with_perf p r))).
Proof using.
  intros Hs Ht Ha El Hst Hloc. unfold processInvReqFromDramDirectory. rewrite Ha. runs_step.
  eapply l2_info_runs; [exact Ht|exact Hs|]. intros s1 Hs1. cbn beta. rewrite El, Hst.
  rewrite decide_True by done. runs_step. apply runs_assert; [done|].
  eapply reach_l1_runs; [by left|by left|exact Hs1|]. intros p s2 Hs2.
  runs_step. eapply invalidate_in_l1_runs; [by left|exact Ht|exact Hs2|]. intros s3 Hs3.
  runs_step. eapply l2_cost_runs; [by left|exact Hs3|]. intros p4 s4 Hs4.
  runs_step. eapply l2_inval_runs; [exact Ht|exact El|exact Hs4|]. intros s5 Hs5.
  eapply send_runs; [done|by right|exact Hs5|]. intros s6 Hs6. exists p4. unfold inv_rep. rewrite Ha. exact Hs6.
Qed.

(** A read of a line in an L1 cache returns its bytes, whatever the L2 cache holds. *)
Lemma l1_read_runs s F L r t mc i d time off buf len :
  tile s F L r -> tag_ok t -> is_l1 mc -> F mc t = Some (i, d) -> cl_cstate i = CS_SHARED ->
  access_ok (2 ^ j) off len (Some buf) -> 0 < len ->
  runs (core_start env time (mkCoreOp mc NONE READ (addr t) off (Some buf) len)) s (fun res _ =>
    res = Some (true, Some (slice (Z.to_nat off) (Z.to_nat len) d))).
Proof using.
  intros Hs Ht Hmc HF Hst Hacc Hlen. unfold core_start. cbn [co_mc]. runs_step. runs_step.
  eapply l1_sync_runs; [exact Hmc|by apply tile_perf|]. intros p s1 Hs1.
  unfold core_iteration, mem_op_iteration. cbn [co_mc co_lock co_op co_address co_offset co_buf co_len].
  runs_step. apply runs_log_assert; [done|]. runs_step.
  eapply l1_permits_runs; [exact Hmc|exact Ht|done|exact Hs1|]. intros s2 Hs2. rewrite HF, Hst. cbn [op_permits readable].
  runs_step. eapply mm_incr_runs; [by left|by right|exact Hs2|]. intros p3 s3 Hs3.
  assert (Hoff : 0 <= off < 2 ^ j) by (destruct Hacc; lia).
  destruct (addr_facts _ _ _ _ t off (tl_l _ _ _ _ _ Hs3) Ht Hoff) as (Hw & _).
  runs_step. unfold accessCache. rewrite Hw. eapply (on_l1_runs j mc _ s3 F L _ (F mc)); [exact Hmc|exact Hs3| |].
  - intros u Hu. by apply (unit_load j _ u _ t Hu Ht off len (Some buf) i d HF Hacc), Hoff.
  - intros s4 _. by runs_step.
Qed.

(** C27: a line that is used as instructions and as data is not kept coherent.
    The record of a line in the L2 cache names one L1 cache.  In any state of a
    tile in which the record names the data cache and the instruction cache
    holds the line too, an invalidation of the directory is answered, clears
    the L2 cache and the data cache, and leaves the copy in the instruction
    cache: the next instruction fetch is a hit and returns the old bytes,
    whatever the new writer has written. *)
Theorem Stale_instruction_fetch s F L r t sender m i2 i1 d time off buf len :
  tile s F L r -> tag_ok t -> m_address m = addr t ->
  L t = Some (i2, d) -> getCState i2 = CS_SHARED -> l2_cached_loc i2 = MC_L1_DCACHE ->
  F MC_L1_ICACHE t = Some (i1, d) -> cl_cstate i1 = CS_SHARED ->
  access_ok (2 ^ j) off len (Some buf) -> 0 < len ->
  exists s' F' p s'', processInvReqFromDramDirectory env sender m s = Ok (tt, s') /\
    tile s' F' (upd L t None) (with_sent (r_sent r ++ [packet env p sender (inv_rep m)]) (with_perf p r)) /\
    F' MC_L1_DCACHE t = None /\ F' MC_L1_ICACHE t = Some (i1, d) /\
    core_start env time (mkCoreOp MC_L1_ICACHE NONE READ (addr t) off (Some buf) len) s' =
      Ok (Some (true, Some (slice (Z.to_nat off) (Z.to_nat len) d)), s'').
Proof using.
  intros Hs Ht Ha El Hst Hloc HF Hst1 Hacc Hlen.
  destruct (inv_clears_runs s F L r t sender m i2 d Hs Ht Ha El Hst ltac:(rewrite Hloc; by right))
    as ([] & s' & E & p & Hs'). rewrite Hloc in Hs'.
  assert (HF' : fdrop F MC_L1_DCACHE t MC_L1_ICACHE t = Some (i1, d)).
  { unfold fdrop. by rewrite decide_False by by intros [? _]. }
  destruct (l1_read_runs s' _ _ _ t MC_L1_ICACHE i1 d time off buf len Hs' Ht ltac:(by left) HF' Hst1 Hacc Hlen)
    as (res & s'' & E' & ->).
  exists s', (fdrop F MC_L1_DCACHE t), p, s''. split; [done|]. split; [done|].
  split; [unfold fdrop; by rewrite decide_True|]. by split.
Qed.
End stale.

(** A tile whose L2 cache holds a line of zeroes, named as in the data cache,
    and whose instruction cache holds it too. *)
Definition sx_fill : TM unit :=
  _ ← l2_insertCacheLine (sx_tenv 2) sx_line CS_SHARED (Some (replicate 64 0)) MC_L1_DCACHE;
  insertCacheLineInL1 MC_L1_ICACHE sx_line CS_SHARED (Some (replicate 64 0)).

Lemma sx_fill_runs : runs sx_fill sx_tile (fun _ s => exists F L r i2 i1,
  tile 6 s F L r /\ L 0x1001 = Some (i2, replicate 64 0) /\ getCState i2 = CS_SHARED /\
  l2_cached_loc i2 = MC_L1_DCACHE /\ F MC_L1_ICACHE 0x1001 = Some (i1, replicate 64 0) /\ cl_cstate i1 = CS_SHARED).
Proof.
  pose proof (cf_l1 _ _ _ _ _ sx_config) as Hl1.
  destruct (fs_tile _ _ _ _ _ sx_fresh 2 ltac:(lia)) as (lat & sync & i & d & l & Hj & Hi & Hd & Hl & E).
  destruct (TileState_new_good 6 sx_l1 lat sync i d l sx_tile Hj Hi Hd Hl E) as (F & L & Hs & Hinv & HV).
  assert (HL : forall t, L t = None) by (intros t; exact (view_none L (fun _ => None) t HV eq_refl)).
  unfold sx_fill. runs_step. change sx_line with (addr 6 0x1001).
  eapply (insert_l2_runs (sx_tenv 2) 6 sx_l1 eq_refl Hl1); [|by right|exact sx_tag|done|by vm_compute|apply HL|exact Hinv|exact Hs|].
  { intros t Ht. eexists. apply (cf_home _ _ _ _ _ sx_config 2 t Ht). }
  intros F1 L1 r1 i2 s1 Hs1 EL Hc Hloc HF1 Hinv1 _.
  eapply (insert_l1_runs 6 sx_l1 Hl1); [by left|exact sx_tag|done|by vm_compute|apply HF1; by left|exact Hinv1|exact Hs1|].
  intros F2 L2 i1 s2 Hs2 HF2 Hc1 HL2 _ _ _. exists F2, L2, r1, i2, i1. by rewrite HL2.
Qed.

Definition sx_filled : TileState := match sx_fill sx_tile with Ok (_, s) => s | Err _ => sx_tile end.
Definition sx_inv : ShmemMsg := dir_msg INV_REQ 0 sx_line true.

Lemma Stale_instruction_fetch_witness :
  exists s' s'', processInvReqFromDramDirectory (sx_tenv 2) 1 sx_inv sx_filled = Ok (tt, s') /\
    core_start (sx_tenv 2) 500 sx_fetch s' = Ok (Some (true, Some [0; 0; 0; 0]), s'').
Proof.
  destruct sx_fill_runs as ([] & s & E & F & L & r & i2 & i1 & Hs & HL & Hst & Hloc & HF & Hst1).
  assert (Es : sx_filled = s) by (unfold sx_filled; by rewrite E). rewrite Es.
  destruct (Stale_instruction_fetch (sx_tenv 2) 6 s F L r 0x1001 1 sx_inv i2 i1 (replicate 64 0) 500 2
    [0; 0; 0; 0] 4 Hs sx_tag eq_refl HL Hst Hloc HF Hst1) as (s' & F' & p & s'' & E1 & _ & _ & _ & E2).
  - split; [lia|]. split; [lia|]. split; [lia|]. split; [lia|reflexivity].
  - lia.
  - exists s', s''. split; [exact E1|exact E2].
Defined.
