(* ===== verification/Threads.v ===== *)
(** * The thread table of the master process and the barrier of simulated time:
    common/system/thread_manager.{h,cc} (queries),
    common/system/clock_skew_management_schemes/lax_barrier_sync_{server,client}.cc

    The master process keeps the state of every thread slot of every tile.
    The clock-skew server reads this table: it holds the cores that have
    reached the next barrier of simulated time until every running core has
    reached it.  Messages to cores are returned as a list of tiles. *)

From S2P Require Import Prelude.

(** ** Cores and thread states *)

Definition INVALID_THREAD_ID : Z := -1.
Definition MAIN_CORE_TYPE : Z := 0.

Record core_id_t : Type := mkCore { tile_id : Z; core_type : Z }.

#[export] Instance core_id_eq_dec : EqDecision core_id_t.
Proof. solve_decision. Defined.

Definition INVALID_CORE_ID : core_id_t := mkCore (-1) 0.
Definition getMainCoreId (t : Z) : core_id_t := mkCore t MAIN_CORE_TYPE.
Definition isMainCore (c : core_id_t) : bool := core_type c =? MAIN_CORE_TYPE.

Inductive CoreState : Type := RUNNING | INITIALIZING | STALLED | SLEEPING | WAKING_UP | IDLE.

#[export] Instance CoreState_eq_dec : EqDecision CoreState.
Proof. solve_decision. Defined.

(** [os_tid] is not set by the constructor. *)
Record ThreadState : Type := mkThread {
  status : CoreState;
  waiter_core : core_id_t;
  waiter_tid : Z;
  thread_id : Z;
  os_tid : option Z;
  completion_time : Z }.

Definition ThreadState_new : ThreadState :=
  mkThread IDLE INVALID_CORE_ID INVALID_THREAD_ID INVALID_THREAD_ID None 0.

Definition set_status (s : CoreState) (t : ThreadState) : ThreadState :=
  mkThread s (waiter_core t) (waiter_tid t) (thread_id t) (os_tid t) (completion_time t).
Definition set_waiter (c : core_id_t) (w : Z) (t : ThreadState) : ThreadState :=
  mkThread (status t) c w (thread_id t) (os_tid t) (completion_time t).
Definition set_thread_id (i : Z) (t : ThreadState) : ThreadState :=
  mkThread (status t) (waiter_core t) (waiter_tid t) i (os_tid t) (completion_time t).
Definition set_os_tid (i : Z) (t : ThreadState) : ThreadState :=
  mkThread (status t) (waiter_core t) (waiter_tid t) (thread_id t) (Some i) (completion_time t).
Definition set_completion (i : Z) (t : ThreadState) : ThreadState :=
  mkThread (status t) (waiter_core t) (waiter_tid t) (thread_id t) (os_tid t) i.

(** [m_thread_state]: a vector of slots per tile. *)
Abbreviation ThreadTable := (list (list ThreadState)).

Definition thread_at (tt : ThreadTable) (tile idx : Z) : result ThreadState :=
  row ← vec_get tt tile; vec_get row idx.

Definition update_thread (tile idx : Z) (f : ThreadState -> ThreadState) (tt : ThreadTable) :
    result ThreadTable :=
  row ← vec_get tt tile;
  t ← vec_get row idx;
  row' ← vec_set row idx (f t);
  vec_set tt tile row'.

(** ** Queries *)

Definition has_status (s : CoreState) (t : ThreadState) : bool := bool_decide (status t = s).

Definition isThreadRunning (tt : ThreadTable) (tile idx : Z) : result bool :=
  t ← thread_at tt tile idx; Ok (has_status RUNNING t).
Definition isThreadInitializing (tt : ThreadTable) (tile idx : Z) : result bool :=
  t ← thread_at tt tile idx; Ok (has_status INITIALIZING t).
Definition isThreadStalled (tt : ThreadTable) (tile idx : Z) : result bool :=
  t ← thread_at tt tile idx; Ok (has_status STALLED t).

(** [isCoreRunning]: the index of the running thread; two running threads
    stop the simulator. *)
Fixpoint running_loop (row : list ThreadState) (j thread_index : Z) : result Z :=
  match row with
  | [] => Ok thread_index
  | t :: row' =>
    if has_status RUNNING t then
      if thread_index =? INVALID_THREAD_ID then running_loop row' (j + 1) j
      else Err LogError
    else running_loop row' (j + 1) thread_index
  end.

Definition isCoreRunning (tt : ThreadTable) (tile : Z) : result Z :=
  row ← vec_get tt tile; running_loop row 0 INVALID_THREAD_ID.

Definition isCoreInitializing (tt : ThreadTable) (tile : Z) : result bool :=
  row ← vec_get tt tile; Ok (existsb (has_status INITIALIZING) row).
Definition isCoreStalled (tt : ThreadTable) (tile : Z) : result bool :=
  row ← vec_get tt tile; Ok (existsb (has_status STALLED) row).

(** The overloads that take a core accept main cores only. *)
Definition main_core {A} (c : core_id_t) (f : Z -> result A) : result A :=
  if isMainCore c then f (tile_id c) else Err LogError.

(** [areAllCoresRunning] *)
Fixpoint all_running_loop (tt : ThreadTable) (tiles : list Z) : result bool :=
  match tiles with
  | [] => Ok true
  | i :: tiles' =>
    thread_index ← isCoreRunning tt i;
    if thread_index =? INVALID_THREAD_ID then Ok false else all_running_loop tt tiles'
  end.
Definition areAllCoresRunning (tt : ThreadTable) : result bool :=
  all_running_loop tt (seqZ 0 (Z.of_nat (length tt))).

(** [getIdleThread] and [getNumScheduledThreads] look at the first
    [threads_per_core] slots of a tile. *)
Fixpoint idle_loop (tt : ThreadTable) (tile : Z) (slots : list Z) : result Z :=
  match slots with
  | [] => Ok INVALID_THREAD_ID
  | j :: slots' =>
    t ← thread_at tt tile j;
    if has_status IDLE t then Ok j else idle_loop tt tile slots'
  end.
Definition getIdleThread (threads_per_core : Z) (tt : ThreadTable) (c : core_id_t) : result Z :=
  main_core c (fun tile => idle_loop tt tile (seqZ 0 threads_per_core)).

Fixpoint num_idle_loop (tt : ThreadTable) (tile : Z) (slots : list Z) : result Z :=
  match slots with
  | [] => Ok 0
  | j :: slots' =>
    t ← thread_at tt tile j;
    n ← num_idle_loop tt tile slots';
    Ok ((if has_status IDLE t then 1 else 0) + n)
  end.
Definition getNumScheduledThreads (threads_per_core : Z) (tt : ThreadTable) (c : core_id_t) :
    result Z :=
  main_core c (fun tile =>
    num_idle ← num_idle_loop tt tile (seqZ 0 threads_per_core);
    Ok (wrap32 (threads_per_core - num_idle))).

(** ** The clock-skew server *)

Record LaxBarrier : Type := mkLB {
  barrier_interval : Z;
  next_barrier_time : Z;
  local_clock_list : list Z;
  barrier_acquire_list : list bool;
  num_application_tiles : Z }.

Definition LaxBarrier_new (quantum application_tiles : Z) : LaxBarrier :=
  mkLB quantum quantum (replicate (Z.to_nat application_tiles) 0)
    (replicate (Z.to_nat application_tiles) false) application_tiles.

Definition set_next (n : Z) (lb : LaxBarrier) : LaxBarrier :=
  mkLB (barrier_interval lb) n (local_clock_list lb) (barrier_acquire_list lb)
    (num_application_tiles lb).
Definition set_clocks (l : list Z) (lb : LaxBarrier) : LaxBarrier :=
  mkLB (barrier_interval lb) (next_barrier_time lb) l (barrier_acquire_list lb)
    (num_application_tiles lb).
Definition set_acquire (l : list bool) (lb : LaxBarrier) : LaxBarrier :=
  mkLB (barrier_interval lb) (next_barrier_time lb) (local_clock_list lb) l
    (num_application_tiles lb).

(** The condition of the server's assertions: a [bool] is compared with
    [INVALID_THREAD_ID], which is -1. *)
Definition running_or_initializing (tt : ThreadTable) (tile : Z) : result bool :=
  thread_index ← isCoreRunning tt tile;
  if negb (thread_index =? INVALID_THREAD_ID) then Ok true
  else
    initializing ← isCoreInitializing tt tile;
    Ok (negb (Z.b2z initializing =? INVALID_THREAD_ID)).

Definition application_tiles (lb : LaxBarrier) : list Z := seqZ 0 (num_application_tiles lb).

(** [isBarrierReached] *)
Fixpoint reached_loop (tt : ThreadTable) (lb : LaxBarrier) (tiles : list Z) (single : bool) : result bool :=
  match tiles with
  | [] => Ok single
  | tile :: tiles' =>
    clock ← vec_get (local_clock_list lb) tile;
    if clock <? next_barrier_time lb then
      thread_index ← isCoreRunning tt tile;
      if negb (thread_index =? INVALID_THREAD_ID) then Ok false
      else reached_loop tt lb tiles' single
    else
      b ← running_or_initializing tt tile;
      _ ← log_assert b;
      reached_loop tt lb tiles' true
  end.
Definition isBarrierReached (tt : ThreadTable) (lb : LaxBarrier) : result bool :=
  reached_loop tt lb (application_tiles lb) false.

(** One pass of the loop of [barrierRelease] over the tiles: the cores whose
    clocks are behind the new barrier time are released. *)
Fixpoint release_tiles (tt : ThreadTable) (lb : LaxBarrier) (tiles : list Z) (sent : list Z) :
    result (LaxBarrier * list Z) :=
  match tiles with
  | [] => Ok (lb, sent)
  | tile :: tiles' =>
    clock ← vec_get (local_clock_list lb) tile;
    if clock <? next_barrier_time lb then
      acquired ← vec_get (barrier_acquire_list lb) tile;
      if (acquired : bool) then
        b ← running_or_initializing tt tile;
        _ ← log_assert b;
        l ← vec_set (barrier_acquire_list lb) tile false;
        release_tiles tt (set_acquire l lb) tiles' (sent ++ [tile])
      else release_tiles tt lb tiles' sent
    else release_tiles tt lb tiles' sent
  end.

(** The loop of [barrierRelease] runs until a core has been released. *)
Fixpoint release_loop (fuel : nat) (tt : ThreadTable) (lb : LaxBarrier) : result (LaxBarrier * list Z) :=
  match fuel with
  | O => Err OutOfFuel
  | S fuel' =>
    let lb1 := set_next (wrap64 (next_barrier_time lb + barrier_interval lb)) lb in
    '(lb2, sent) ← release_tiles tt lb1 (application_tiles lb1) [];
    match sent with
    | [] => release_loop fuel' tt lb2
    | _ => Ok (lb2, sent)
    end
  end.

(** The number of rounds: one more than the intervals up to the largest clock. *)
Definition release_fuel (lb : LaxBarrier) : nat :=
  S (Z.to_nat ((foldr Z.max 0 (local_clock_list lb) - next_barrier_time lb) / barrier_interval lb)).

(** [barrierRelease]; at its end it also tells the statistics thread, which is
    not modelled, the new barrier time. *)
Definition barrierRelease (tt : ThreadTable) (lb : LaxBarrier) : result (LaxBarrier * list Z) :=
  release_loop (release_fuel lb) tt lb.

Definition lb_signal (tt : ThreadTable) (lb : LaxBarrier) : result (LaxBarrier * list Z) :=
  b ← isBarrierReached tt lb;
  if (b : bool) then barrierRelease tt lb else Ok (lb, []).

(** [barrierWait]: a core that is behind the barrier is released at once. *)
Definition lb_barrierWait (tt : ThreadTable) (c : core_id_t) (time_ns : Z) (lb : LaxBarrier) :
    result (LaxBarrier * list Z) :=
  b ← main_core c (running_or_initializing tt);
  _ ← log_assert b;
  if time_ns <? next_barrier_time lb then Ok (lb, [tile_id c])
  else
    clocks ← vec_set (local_clock_list lb) (tile_id c) time_ns;
    acquire ← vec_set (barrier_acquire_list lb) (tile_id c) true;
    lb_signal tt (set_acquire acquire (set_clocks clocks lb)).

(** [LaxBarrierSyncClient::synchronize]: whether the client asks the server,
    and its next synchronization time after the release. *)
Definition client_must_sync (next_sync_time curr_time_ns : Z) : bool :=
  next_sync_time <=? curr_time_ns.
Definition client_next_sync (interval curr_time_ns : Z) : Z :=
  wrap64 (wrap64 (curr_time_ns / interval * interval) + interval).
