(* ===== verification/ThreadsThm.v ===== *)
(** * The barrier of simulated time lets no running core behind

    The invariant of the clock-skew server and what a release does: it
    happens exactly when every running core has reached the barrier, it
    terminates, it releases at least one core, and no waiting core is more
    than one interval behind the new barrier time. *)

From S2P Require Import Prelude Threads.

Implicit Types (tt : ThreadTable) (lb : LaxBarrier).

(** The clock last reported by a tile, and whether its core waits. *)
Definition clock_of lb (i : Z) : Z := default 0 (local_clock_list lb !! Z.to_nat i).
Definition waits lb (i : Z) : bool := default false (barrier_acquire_list lb !! Z.to_nat i).
Definition app_tile lb (i : Z) : Prop := 0 <= i < num_application_tiles lb.

(** The two lists have an element per application tile. *)
Record lb_shape lb : Prop := {
  lb_len_clock : Z.of_nat (length (local_clock_list lb)) = num_application_tiles lb;
  lb_len_acquire : Z.of_nat (length (barrier_acquire_list lb)) = num_application_tiles lb }.

(** A core waits exactly when its clock has reached the barrier. *)
Record lb_ok lb : Prop := {
  lb_shaped : lb_shape lb;
  lb_interval : 0 < barrier_interval lb;
  lb_next : 0 <= next_barrier_time lb;
  lb_whole : (barrier_interval lb | next_barrier_time lb);
  lb_clock : forall i, app_tile lb i -> 0 <= clock_of lb i < 2 ^ 64 - barrier_interval lb;
  lb_waits : forall i, app_tile lb i -> waits lb i = true <-> next_barrier_time lb <= clock_of lb i }.

(** A table in which every tile below [n] has at most one running thread. *)
Definition table_ok (n : Z) tt : Prop :=
  forall i, 0 <= i < n -> is_ok (isCoreRunning tt i).
Definition core_running tt (i : Z) : Prop :=
  exists j, isCoreRunning tt i = Ok j /\ j <> INVALID_THREAD_ID.

Lemma get_clock lb i : lb_shape lb -> app_tile lb i -> vec_get (local_clock_list lb) i = Ok (clock_of lb i).
Proof.
  intros Hok Hi. apply vec_get_ok. unfold app_tile in Hi. split; [lia|]. unfold clock_of.
  destruct (lookup_lt_is_Some_2 (local_clock_list lb) (Z.to_nat i)) as [x E].
  { pose proof (lb_len_clock _ Hok). lia. }
  by rewrite E.
Qed.

Lemma get_waits lb i : lb_shape lb -> app_tile lb i -> vec_get (barrier_acquire_list lb) i = Ok (waits lb i).
Proof.
  intros Hok Hi. apply vec_get_ok. unfold app_tile in Hi. split; [lia|]. unfold waits.
  destruct (lookup_lt_is_Some_2 (barrier_acquire_list lb) (Z.to_nat i)) as [x E].
  { pose proof (lb_len_acquire _ Hok). lia. }
  by rewrite E.
Qed.

(** The assertions of the server always hold. *)
Lemma running_or_initializing_true tt i :
  is_ok (isCoreRunning tt i) -> running_or_initializing tt i = Ok true.
Proof.
  intros [j E]. unfold running_or_initializing. rewrite E. simpl.
  destruct (j =? INVALID_THREAD_ID); [|done]. simpl.
  unfold isCoreRunning in E. unfold isCoreInitializing.
  destruct (vec_get tt i) as [row|]; [|done]. simpl. by destruct (existsb _ row).
Qed.

(** ** When the barrier is reached *)

Definition reached tt lb : Prop :=
  (forall i, app_tile lb i -> core_running tt i -> next_barrier_time lb <= clock_of lb i) /\
  (exists i, app_tile lb i /\ next_barrier_time lb <= clock_of lb i).

Lemma reached_loop_spec tt lb tiles single :
  lb_ok lb -> table_ok (num_application_tiles lb) tt -> Forall (app_tile lb) tiles ->
  exists b, reached_loop tt lb tiles single = Ok b /\
    (b = true <->
     (forall i, i ∈ tiles -> core_running tt i -> next_barrier_time lb <= clock_of lb i) /\
     (single = true \/ exists i, i ∈ tiles /\ next_barrier_time lb <= clock_of lb i)).
Proof.
  intros Hok Htt. revert single.
  induction tiles as [|i tiles IH]; intros single Hf; simpl.
  { exists single. split; [done|]. set_solver. }
  apply Forall_cons in Hf as [Hi Hf].
  rewrite (get_clock _ _ (lb_shaped _ Hok) Hi). simpl.
  destruct (Htt i Hi) as [j Ej].
  destruct (Z.ltb_spec (clock_of lb i) (next_barrier_time lb)) as [Hlt|Hge].
  - rewrite Ej. simpl. destruct (Z.eqb_spec j INVALID_THREAD_ID) as [->|Hj]; simpl.
    + destruct (IH single Hf) as (b & E & Hb). exists b. split; [done|]. rewrite Hb.
      assert (Hn : ~ core_running tt i) by (intros (? & ? & ?); congruence).
      split; intros [H1 H2]; (split; [intros k; rewrite ?elem_of_cons|]).
      * intros [->|]; [done|auto].
      * destruct H2 as [|(k & ? & ?)]; [by left|right; exists k; set_solver].
      * intros. apply H1; set_solver.
      * destruct H2 as [|(k & Hk & ?)]; [by left|].
        apply elem_of_cons in Hk as [->|]; [lia|right; by exists k].
    + exists false. split; [done|]. split; [done|]. intros [H1 _].
      enough (next_barrier_time lb <= clock_of lb i) by lia. apply H1; [set_solver|by exists j].
  - rewrite running_or_initializing_true by by exists j. simpl.
    destruct (IH true Hf) as (b & E & Hb). exists b. split; [done|]. rewrite Hb.
    split; intros [H1 H2]; (split; [intros k; rewrite ?elem_of_cons|]).
    * intros [->|]; [done|auto].
    * right. exists i. set_solver.
    * intros. apply H1; set_solver.
    * by left.
Qed.

Lemma app_tiles_spec lb i : i ∈ application_tiles lb <-> app_tile lb i.
Proof. unfold application_tiles, app_tile. rewrite elem_of_seqZ. lia. Qed.

Lemma isBarrierReached_spec tt lb :
  lb_ok lb -> table_ok (num_application_tiles lb) tt ->
  exists b, isBarrierReached tt lb = Ok b /\ (b = true <-> reached tt lb).
Proof.
  intros Hok Htt.
  destruct (reached_loop_spec tt lb (application_tiles lb) false Hok Htt) as (b & E & Hb).
  { apply Forall_forall. intros. by apply app_tiles_spec. }
  exists b. split; [done|]. rewrite Hb. unfold reached.
  setoid_rewrite app_tiles_spec. naive_solver.
Qed.

(** ** What a release does *)

(** The cores one pass releases: they wait and are behind the barrier. *)
Definition behind lb (i : Z) : Prop := waits lb i = true /\ clock_of lb i < next_barrier_time lb.
#[export] Instance behind_dec lb i : Decision (behind lb i).
Proof. apply _. Defined.

Lemma waits_set lb l i j :
  lb_shape lb -> app_tile lb i -> app_tile lb j ->
  vec_set (barrier_acquire_list lb) i false = Ok l ->
  waits (set_acquire l lb) j = (if decide (j = i) then false else waits lb j).
Proof.
  intros Hs Hi Hj [Hr ->]%vec_set_ok. unfold waits, app_tile in *. simpl. case_decide.
  - subst j. by rewrite list_lookup_insert_eq by lia.
  - by rewrite list_lookup_insert_ne by lia.
Qed.

Lemma release_tiles_spec tt tiles lb sent :
  lb_shape lb -> table_ok (num_application_tiles lb) tt -> Forall (app_tile lb) tiles -> NoDup tiles ->
  exists l, release_tiles tt lb tiles sent = Ok (set_acquire l lb, sent ++ filter (behind lb) tiles) /\
    lb_shape (set_acquire l lb) /\
    forall j, app_tile lb j ->
      waits (set_acquire l lb) j = true <->
      waits lb j = true /\ ~ (j ∈ tiles /\ clock_of lb j < next_barrier_time lb).
Proof.
  intros Hs Htt Hf Hnd. revert lb sent Hs Htt Hf.
  induction Hnd as [|i tiles Hni Hnd IH]; intros lb sent Hs Htt Hf; simpl.
  { exists (barrier_acquire_list lb). rewrite filter_nil, app_nil_r. destruct lb.
    split; [done|]. split; [done|]. intros j _. set_solver. }
  apply Forall_cons in Hf as [Hi Hf].
  rewrite (get_clock _ _ Hs Hi). simpl.
  destruct (Z.ltb_spec (clock_of lb i) (next_barrier_time lb)) as [Hlt|Hge].
  2: { destruct (IH lb sent Hs Htt Hf) as (l & E & Hs' & Hw). exists l.
       rewrite filter_cons_False by (unfold behind; lia). split; [done|]. split; [done|].
       intros j Hj. rewrite (Hw j Hj), elem_of_cons. intuition (subst; lia). }
  rewrite (get_waits _ _ Hs Hi). simpl. destruct (waits lb i) eqn:Ew; simpl.
  - rewrite running_or_initializing_true by by apply Htt. simpl.
    destruct (vec_set (barrier_acquire_list lb) i false) as [l1|] eqn:E1; simpl.
    2: { exfalso. rewrite vec_set_eq in E1; [done|]. rewrite (lb_len_acquire _ Hs). done. }
    assert (Hs1 : lb_shape (set_acquire l1 lb)).
    { split; simpl; [apply Hs|]. rewrite (vec_set_length _ _ _ _ E1). apply Hs. }
    pose proof (fun j Hj => waits_set lb l1 i j Hs Hi Hj E1) as Hset.
    destruct (IH (set_acquire l1 lb) (sent ++ [i]) Hs1 Htt Hf) as (l & E & Hs' & Hw).
    exists l. rewrite filter_cons_True by done. split.
    { rewrite E, <- app_assoc. simpl. do 4 f_equal.
      apply filter_ext. intros k Hk. unfold behind.
      rewrite (Hset k) by by eapply Forall_forall.
      by rewrite decide_False by set_solver. }
    split; [done|]. intros j Hj. specialize (Hw j Hj).
    change (waits (set_acquire l lb) j) with (waits (set_acquire l (set_acquire l1 lb)) j).
    rewrite Hw, (Hset j Hj). unfold clock_of in *; simpl.
    rewrite elem_of_cons. destruct (decide (j = i)) as [->|Hji].
    + split; [by intros [? _]|]. intros [_ []]. by split; [left|].
    + split; intros [H1 H2]; (split; [done|]); intros [H3 H4]; apply H2; (split; [|done]); [by destruct H3|by right].
  - destruct (IH lb sent Hs Htt Hf) as (l & E & Hs' & Hw). exists l.
    rewrite filter_cons_False by (unfold behind; rewrite Ew; by intros [? _]). split; [done|].
    split; [done|]. intros j Hj. rewrite (Hw j Hj), elem_of_cons.
    split; intros [H1 H2]; (split; [done|]); intros [H3 H4]; apply H2; [|by split; [right|]].
    destruct H3 as [->|]; [congruence|done].
Qed.

(** A release: the barrier time advances by whole intervals until a waiting
    core is behind it, and exactly those cores are released. *)
Record released lb lb' (sent : list Z) : Prop := {
  rel_interval : barrier_interval lb' = barrier_interval lb;
  rel_tiles : num_application_tiles lb' = num_application_tiles lb;
  rel_clocks : local_clock_list lb' = local_clock_list lb;
  rel_next : exists k, 0 < k /\
    next_barrier_time lb' = next_barrier_time lb + k * barrier_interval lb;
  rel_sent : forall i, i ∈ sent <->
    app_tile lb i /\ waits lb i = true /\ clock_of lb i < next_barrier_time lb';
  rel_nodup : NoDup sent;
  rel_progress : sent <> [];
  rel_close : forall i, app_tile lb i -> waits lb i = true ->
    next_barrier_time lb' - barrier_interval lb <= clock_of lb i }.

(** One round of the loop. *)
Lemma release_round tt lb :
  lb_ok lb -> table_ok (num_application_tiles lb) tt ->
  (exists i, app_tile lb i /\ next_barrier_time lb <= clock_of lb i) ->
  let lb1 := set_next (wrap64 (next_barrier_time lb + barrier_interval lb)) lb in
  exists l, release_tiles tt lb1 (application_tiles lb1) [] =
      Ok (set_acquire l lb1, filter (behind lb1) (application_tiles lb)) /\
    next_barrier_time lb1 = next_barrier_time lb + barrier_interval lb /\
    lb_ok (set_acquire l lb1) /\
    forall i, app_tile lb i -> waits (set_acquire l lb1) i = true <->
      waits lb i = true /\ next_barrier_time lb1 <= clock_of lb i.
Proof.
  intros Hok Htt (i0 & Hi0 & Hc0) lb1.
  assert (Hnx : next_barrier_time lb1 = next_barrier_time lb + barrier_interval lb).
  { simpl. apply wrap_id. unfold is_word.
    pose proof (lb_clock _ Hok i0 Hi0). pose proof (lb_next _ Hok). pose proof (lb_interval _ Hok). lia. }
  destruct (release_tiles_spec tt (application_tiles lb1) lb1 []) as (l & E & Hs & Hw).
  - destruct (lb_shaped _ Hok). by split.
  - done.
  - apply Forall_forall. intros i Hi. by apply app_tiles_spec.
  - apply NoDup_seqZ.
  - assert (Hw' : forall i, app_tile lb i -> waits (set_acquire l lb1) i = true <->
      waits lb i = true /\ next_barrier_time lb1 <= clock_of lb i).
    { intros i Hi. rewrite (Hw i Hi).
      change (i ∈ application_tiles lb1) with (i ∈ application_tiles lb).
      change (clock_of lb1 i) with (clock_of lb i). change (waits lb1 i) with (waits lb i).
      rewrite app_tiles_spec. intuition lia. }
    exists l. split; [exact E|]. split; [exact Hnx|]. split; [|exact Hw'].
    pose proof (lb_interval _ Hok). pose proof (lb_next _ Hok).
    split; [exact Hs|done| | |apply (lb_clock _ Hok)|].
    { change (0 <= next_barrier_time lb1). lia. }
    { change (barrier_interval lb | next_barrier_time lb1). rewrite Hnx.
      apply Z.divide_add_r; [apply Hok|done]. }
    intros i Hi. rewrite (Hw' i Hi).
    change (next_barrier_time (set_acquire l lb1)) with (next_barrier_time lb1).
    change (clock_of (set_acquire l lb1) i) with (clock_of lb i).
    rewrite (lb_waits _ Hok i Hi). intuition lia.
Qed.

Lemma release_loop_spec tt fuel lb :
  lb_ok lb -> table_ok (num_application_tiles lb) tt ->
  (exists i, app_tile lb i /\ next_barrier_time lb <= clock_of lb i /\
    (clock_of lb i - next_barrier_time lb) / barrier_interval lb < Z.of_nat fuel) ->
  exists lb' sent, release_loop fuel tt lb = Ok (lb', sent) /\ lb_ok lb' /\ released lb lb' sent.
Proof.
  revert lb. induction fuel as [|fuel IH]; intros lb Hok Htt (i & Hi & Hc & Hfuel).
  { exfalso. pose proof (lb_interval _ Hok).
    pose proof (Z.div_pos (clock_of lb i - next_barrier_time lb) (barrier_interval lb)). lia. }
  cbn [release_loop].
  destruct (release_round tt lb Hok Htt) as (l & E & Hnx & Hok1 & Hw); [by exists i|].
  set (lb1 := set_next _ lb) in *. rewrite E. simpl.
  destruct (filter (behind lb1) (application_tiles lb)) as [|i1 sent'] eqn:Ef.
  - assert (Hnone : forall k, app_tile lb k -> waits lb k = true -> next_barrier_time lb1 <= clock_of lb k).
    { intros k Hk Hwk. destruct (decide (behind lb1 k)) as [Hb|Hb]; [|unfold behind in Hb].
      - assert (Hin : k ∈ filter (behind lb1) (application_tiles lb)).
        { apply list_elem_of_filter. split; [done|]. by apply app_tiles_spec. }
        rewrite Ef in Hin. by apply elem_of_nil in Hin.
      - change (waits lb1 k) with (waits lb k) in Hb. change (clock_of lb1 k) with (clock_of lb k) in Hb.
        apply Z.nlt_ge. intros ?. by apply Hb. }
    assert (Hwi : waits lb i = true) by by apply (lb_waits _ Hok).
    pose proof (lb_interval _ Hok) as Hpos.
    destruct (IH (set_acquire l lb1) Hok1 Htt) as (lb' & sent & E' & Hok' & Hrel).
    { exists i. split; [done|].
      change (clock_of (set_acquire l lb1) i) with (clock_of lb i).
      change (next_barrier_time (set_acquire l lb1)) with (next_barrier_time lb1).
      change (barrier_interval (set_acquire l lb1)) with (barrier_interval lb).
      split; [by apply Hnone|]. rewrite Hnx.
      replace (clock_of lb i - (next_barrier_time lb + barrier_interval lb))
        with (clock_of lb i - next_barrier_time lb + (-1) * barrier_interval lb) by lia.
      rewrite Z.div_add by lia. lia. }
    exists lb', sent. split; [exact E'|]. split; [done|].
    destruct Hrel as [R1 R2 R3 (k & Hk & R4) R5 Rn R6 R7].
    change (next_barrier_time (set_acquire l lb1)) with (next_barrier_time lb1) in R4.
    change (barrier_interval (set_acquire l lb1)) with (barrier_interval lb) in R4.
    split; [done|done|done| | |done|done|].
    + exists (k + 1). split; [lia|]. rewrite R4, Hnx. lia.
    + intros q. rewrite (R5 q). change (app_tile (set_acquire l lb1) q) with (app_tile lb q).
      change (clock_of (set_acquire l lb1) q) with (clock_of lb q).
      split; intros (Hq & Hwq & ?).
      { split; [done|]. split; [|done]. by apply (Hw q Hq) in Hwq as [? _]. }
      split; [done|]. split; [|done]. apply Hw; [done|]. split; [done|]. by apply Hnone.
    + intros q Hq Hwq. apply (R7 q Hq). apply Hw; [done|]. split; [done|]. by apply Hnone.
  - exists (set_acquire l lb1), (i1 :: sent'). split; [done|]. split; [exact Hok1|].
    split; [done|done|done| | | |done|].
    + exists 1. split; [done|].
      change (next_barrier_time (set_acquire l lb1)) with (next_barrier_time lb1). lia.
    + intros q. rewrite <- Ef, list_elem_of_filter, app_tiles_spec. unfold behind.
      change (waits lb1 q) with (waits lb q). change (clock_of lb1 q) with (clock_of lb q).
      change (next_barrier_time (set_acquire l lb1)) with (next_barrier_time lb1). tauto.
    + rewrite <- Ef. apply NoDup_filter, NoDup_seqZ.
    + intros q Hq Hwq. change (next_barrier_time (set_acquire l lb1)) with (next_barrier_time lb1).
      apply (lb_waits _ Hok q Hq) in Hwq. lia.
Qed.

Lemma max_clock_ge (l : list Z) x : x ∈ l -> x <= foldr Z.max 0 l.
Proof. induction l as [|y l IH]; [by intros ?%elem_of_nil|]. intros [->|?%IH]%elem_of_cons; simpl; lia. Qed.

Lemma barrierRelease_spec tt lb :
  lb_ok lb -> table_ok (num_application_tiles lb) tt ->
  (exists i, app_tile lb i /\ next_barrier_time lb <= clock_of lb i) ->
  exists lb' sent, barrierRelease tt lb = Ok (lb', sent) /\ lb_ok lb' /\ released lb lb' sent.
Proof.
  intros Hok Htt (i & Hi & Hc). apply release_loop_spec; [done|done|].
  exists i. split; [done|]. split; [done|]. unfold release_fuel.
  pose proof (lb_interval _ Hok).
  assert (clock_of lb i <= foldr Z.max 0 (local_clock_list lb)).
  { apply max_clock_ge. pose proof (get_clock _ _ (lb_shaped _ Hok) Hi) as [_ E]%vec_get_ok.
    by eapply list_elem_of_lookup_2. }
  set (M := foldr Z.max 0 (local_clock_list lb)) in *.
  pose proof (Z.div_le_mono (clock_of lb i - next_barrier_time lb) (M - next_barrier_time lb) (barrier_interval lb)).
  lia.
Qed.

(** Who waits after a release. *)
Lemma released_waits lb lb' sent i :
  lb_ok lb -> lb_ok lb' -> released lb lb' sent -> app_tile lb i ->
  waits lb' i = true <-> waits lb i = true /\ i ∉ sent.
Proof.
  intros Hok Hok' Hrel Hi. destruct (rel_next _ _ _ Hrel) as (k & Hk & Hn).
  pose proof (lb_interval _ Hok). rewrite (rel_sent _ _ _ Hrel).
  rewrite (lb_waits _ Hok' i) by (unfold app_tile; by rewrite (rel_tiles _ _ _ Hrel)).
  rewrite (lb_waits _ Hok i Hi).
  assert (Hc : clock_of lb' i = clock_of lb i) by (unfold clock_of; by rewrite (rel_clocks _ _ _ Hrel)).
  rewrite Hc. assert (next_barrier_time lb < next_barrier_time lb') by nia.
  split; [intros; split; [lia|lia]|]. intros [H1 H2]. apply Z.nlt_ge. intros H3. by apply H2.
Qed.

(** What [signal] does, in either case. *)
Lemma signal_spec tt lb :
  lb_ok lb -> table_ok (num_application_tiles lb) tt ->
  exists lb' sent, lb_signal tt lb = Ok (lb', sent) /\ lb_ok lb' /\
    ((~ reached tt lb /\ lb' = lb /\ sent = []) \/ (reached tt lb /\ released lb lb' sent)).
Proof.
  intros Hok Htt. destruct (isBarrierReached_spec tt lb Hok Htt) as (b & E & Hb).
  unfold lb_signal. rewrite E. simpl. destruct b.
  - assert (Hr : reached tt lb) by by apply Hb.
    destruct (barrierRelease_spec tt lb Hok Htt (proj2 Hr)) as (lb' & sent & E' & Hok' & Hrel).
    exists lb', sent. split; [done|]. split; [done|]. by right.
  - exists lb, []. split; [done|]. split; [done|]. left. split; [|done]. intros Hr. by apply Hb in Hr.
Qed.

(** The state in which the server evaluates the barrier for a core that waits. *)
Definition arrive lb (i time : Z) : LaxBarrier :=
  set_acquire (<[Z.to_nat i := true]> (barrier_acquire_list lb))
    (set_clocks (<[Z.to_nat i := time]> (local_clock_list lb)) lb).

Lemma arrive_ok lb i time :
  lb_ok lb -> app_tile lb i -> next_barrier_time lb <= time < 2 ^ 64 - barrier_interval lb ->
  lb_ok (arrive lb i time) /\
  (forall k, app_tile lb k -> clock_of (arrive lb i time) k = if decide (k = i) then time else clock_of lb k).
Proof.
  intros Hok Hi Ht. pose proof (lb_shaped _ Hok) as [H1 H2]. pose proof (lb_next _ Hok).
  assert (Hcl : forall k, app_tile lb k ->
    clock_of (arrive lb i time) k = if decide (k = i) then time else clock_of lb k).
  { intros k Hk. unfold clock_of, app_tile in *. simpl. case_decide.
    - subst k. by rewrite list_lookup_insert_eq by lia.
    - by rewrite list_lookup_insert_ne by lia. }
  assert (Hwt : forall k, app_tile lb k ->
    waits (arrive lb i time) k = if decide (k = i) then true else waits lb k).
  { intros k Hk. unfold waits, app_tile in *. simpl. case_decide.
    - subst k. by rewrite list_lookup_insert_eq by lia.
    - by rewrite list_lookup_insert_ne by lia. }
  split; [|done]. split.
  - split; simpl; by rewrite length_insert.
  - apply Hok.
  - done.
  - apply Hok.
  - intros k Hk. rewrite (Hcl k Hk). case_decide; [simpl; lia|by apply (lb_clock _ Hok)].
  - intros k Hk. rewrite (Hcl k Hk), (Hwt k Hk).
    change (next_barrier_time (arrive lb i time)) with (next_barrier_time lb).
    case_decide; [|by apply (lb_waits _ Hok)]. split; [lia|done].
Qed.

Lemma barrierWait_cases tt lb i time :
  lb_ok lb -> table_ok (num_application_tiles lb) tt -> app_tile lb i ->
  0 <= time < 2 ^ 64 - barrier_interval lb ->
  lb_barrierWait tt (getMainCoreId i) time lb =
    (if time <? next_barrier_time lb then Ok (lb, [i]) else lb_signal tt (arrive lb i time)).
Proof.
  intros Hok Htt Hi Ht. unfold lb_barrierWait, main_core. simpl.
  rewrite running_or_initializing_true by by apply Htt. simpl.
  destruct (Z.ltb_spec time (next_barrier_time lb)); [done|].
  pose proof (lb_shaped _ Hok) as [H1 H2]. unfold app_tile in Hi.
  rewrite !vec_set_eq by lia. done.
Qed.

Lemma LaxBarrier_new_ok q n : 0 < q -> q < 2 ^ 64 -> 0 <= n -> lb_ok (LaxBarrier_new q n).
Proof.
  intros Hq Hq' Hn. unfold LaxBarrier_new.
  assert (Hc : forall i, clock_of (LaxBarrier_new q n) i = 0).
  { intros i. unfold clock_of. simpl. destruct (replicate _ _ !! _) eqn:E; [|done].
    by apply lookup_replicate in E as [-> _]. }
  split; simpl; [split; simpl; rewrite length_replicate; lia|lia|lia|done| |].
  - intros i _. fold (LaxBarrier_new q n). rewrite Hc. simpl. lia.
  - intros i _. fold (LaxBarrier_new q n). rewrite Hc. split; [|simpl; lia].
    unfold waits. simpl. destruct (replicate _ _ !! _) eqn:E; [|done].
    by apply lookup_replicate in E as [-> _].
Qed.

(** ** Runs of the server

    The table of threads changes between two calls in any way that leaves at
    most one running thread per tile; cores call [barrierWait] and changes of
    the table call [signal]. *)
Inductive lb_reach (q n : Z) : LaxBarrier -> Prop :=
  | reach_new : lb_reach q n (LaxBarrier_new q n)
  | reach_wait tt lb i time lb' sent :
      lb_reach q n lb -> table_ok n tt -> 0 <= i < n -> 0 <= time < 2 ^ 64 - q ->
      lb_barrierWait tt (getMainCoreId i) time lb = Ok (lb', sent) -> lb_reach q n lb'
  | reach_signal tt lb lb' sent :
      lb_reach q n lb -> table_ok n tt -> lb_signal tt lb = Ok (lb', sent) -> lb_reach q n lb'.

Lemma released_params lb lb' sent : released lb lb' sent ->
  barrier_interval lb' = barrier_interval lb /\ num_application_tiles lb' = num_application_tiles lb.
Proof. intros []. done. Qed.

Lemma signal_params tt lb lb' sent :
  lb_ok lb -> table_ok (num_application_tiles lb) tt -> lb_signal tt lb = Ok (lb', sent) ->
  lb_ok lb' /\ barrier_interval lb' = barrier_interval lb /\
  num_application_tiles lb' = num_application_tiles lb.
Proof.
  intros Hok Htt E. destruct (signal_spec tt lb Hok Htt) as (lb1 & s1 & E1 & Hok1 & Hc).
  rewrite E in E1. injection E1 as -> ->. split; [done|].
  destruct Hc as [(_ & -> & _)|[_ Hr]]; [done|]. by eapply released_params.
Qed.

Lemma lb_reach_ok q n lb : 0 < q -> q < 2 ^ 64 -> 0 <= n -> lb_reach q n lb ->
  lb_ok lb /\ barrier_interval lb = q /\ num_application_tiles lb = n.
Proof.
  intros Hq Hq' Hn. induction 1 as [|tt lb i time lb' sent Hr (Hok & <- & <-) Htt Hi Ht E
    |tt lb lb' sent Hr (Hok & <- & <-) Htt E].
  - split; [by apply LaxBarrier_new_ok|done].
  - rewrite barrierWait_cases in E by done.
    destruct (Z.ltb_spec time (next_barrier_time lb)).
    + by injection E as <- <-.
    + destruct (arrive_ok lb i time) as [Hok1 _]; [done|done|lia|].
      by apply (signal_params tt (arrive lb i time) lb' sent).
  - by apply (signal_params tt lb lb' sent).
Qed.

Lemma client_sync_bound lb t :
  lb_ok lb -> 0 <= t < next_barrier_time lb -> t < 2 ^ 64 - barrier_interval lb ->
  client_next_sync (barrier_interval lb) t <= next_barrier_time lb.
Proof.
  intros Hok Ht Hb. destruct (lb_whole _ Hok) as [m Hm]. pose proof (lb_interval _ Hok) as Hq.
  set (q := barrier_interval lb) in *. unfold client_next_sync.
  pose proof (Z.mul_div_le t q). pose proof (Z.div_pos t q).
  rewrite (wrap_id 64 (t / q * q)) by (unfold is_word; lia).
  rewrite wrap_id by (unfold is_word; nia).
  assert (t / q < m) by (apply Z.div_lt_upper_bound; lia). nia.
Qed.

(** C9: whatever the history of the clock-skew server, a core that reports its
    time is handled to the end.  A core behind the barrier is released at once.
    Otherwise the server waits for the running cores: it releases only when
    every running core has reached the barrier; the barrier then advances by
    whole intervals, at least one core is released, exactly the waiting cores
    behind the new barrier are released, and none of them is more than one
    interval behind it.  A released core asks again before it passes the
    barrier of the server. *)
Theorem LaxBarrier_leaves_none_behind q n lb tt i time :
  0 < q < 2 ^ 64 -> 0 <= i < n -> 0 <= time < 2 ^ 64 - q ->
  lb_reach q n lb -> table_ok n tt ->
  exists lb' sent, lb_barrierWait tt (getMainCoreId i) time lb = Ok (lb', sent) /\
    (time < next_barrier_time lb -> lb' = lb /\ sent = [i]) /\
    (next_barrier_time lb <= time -> ~ reached tt (arrive lb i time) ->
       lb' = arrive lb i time /\ sent = []) /\
    (next_barrier_time lb <= time -> reached tt (arrive lb i time) ->
       released (arrive lb i time) lb' sent) /\
    (forall k, k ∈ sent ->
       client_next_sync q (if decide (k = i) then time else clock_of lb k) <= next_barrier_time lb').
Proof.
  intros [Hq Hq'] Hi Ht Hr Htt.
  destruct (lb_reach_ok q n lb Hq Hq' ltac:(lia) Hr) as (Hok & Eq & En). subst q n.
  rewrite barrierWait_cases by done.
  destruct (Z.ltb_spec time (next_barrier_time lb)) as [Hlt|Hge].
  - exists lb, [i]. split; [done|]. split; [done|]. split; [lia|]. split; [lia|].
    intros k ->%list_elem_of_singleton. rewrite decide_True by done. apply client_sync_bound; [done|lia|lia].
  - destruct (arrive_ok lb i time) as [Hok1 Hcl]; [done|done|lia|].
    destruct (signal_spec tt (arrive lb i time) Hok1 Htt) as (lb' & sent & E & Hok' & Hc).
    exists lb', sent. split; [done|]. split; [lia|].
    destruct Hc as [(Hn & -> & ->)|[Hre Hrel]].
    + split; [done|]. split; [done|]. by intros k ?%elem_of_nil.
    + split; [done|]. split; [done|]. intros k Hk. apply (rel_sent _ _ _ Hrel) in Hk as (Hk & _ & Hlt).
      rewrite <- (Hcl k Hk). pose proof (lb_clock _ Hok1 k Hk) as Hb.
      pose proof (rel_interval _ _ _ Hrel) as Ei. simpl in Ei, Hb. rewrite <- Ei in Hb |- *.
      apply client_sync_bound; [done|lia|lia].
Qed.

(** Two tiles run; the second waits for the first, which then arrives. *)
Definition two_running : ThreadTable :=
  [[set_status RUNNING ThreadState_new]; [set_status RUNNING ThreadState_new]].

Lemma two_running_ok : table_ok 2 two_running.
Proof.
  intros i Hi. assert (i = 0 \/ i = 1) as [-> | ->] by lia; by eexists.
Qed.

Lemma LaxBarrier_leaves_none_behind_witness :
  exists lb', lb_barrierWait two_running (getMainCoreId 1) 130
      (arrive (LaxBarrier_new 100 2) 0 250) = Ok (lb', [1]) /\ next_barrier_time lb' = 200.
Proof.
  destruct (LaxBarrier_leaves_none_behind 100 2 (arrive (LaxBarrier_new 100 2) 0 250) two_running 1 130)
    as (lb' & sent & E & _); [lia|lia|lia| |apply two_running_ok|].
  - eapply (reach_wait 100 2 two_running (LaxBarrier_new 100 2) 0 250 _ []);
      [constructor|apply two_running_ok|lia|lia|]. vm_compute. reflexivity.
  - exists lb'. vm_compute in E. injection E as <- <-. vm_compute. split; reflexivity.
Defined.
