(* ===== verification/Mcp.v ===== *)
(** * The master control program: common/system/{mcp,sync_server,sync_client,
    thread_manager,thread_scheduler,round_robin_thread_scheduler}.{h,cc},
    common/misc/config.cc

    One core of the simulated chip runs the MCP.  It serves, one packet after
    the other, the requests of the application threads: mutexes, condition
    variables and barriers, spawning, starting, exiting and joining threads,
    and the barrier of simulated time.  The packets it sends are appended to
    [mcp_sent].  Pointers and host times ([func], [arg],
    [m_last_start_time]) and the affinity masks, which only thread migration
    reads, are left out, as are the locks: the MCP thread is the only one that
    runs these routines.

    The thread scheduler is the base class: [ThreadScheduler::create] has the
    scheme "none" written into it, and [Config] one thread per core. *)

From S2P Require Import Prelude Threads.

(** ** Configuration *)

Inductive SimulationMode : Type := FULL | LITE.

#[export] Instance SimulationMode_eq_dec : EqDecision SimulationMode.
Proof. solve_decision. Defined.

Record SimConfig : Type := mkCfg {
  cfg_mode : SimulationMode;
  cfg_application_tiles : Z;
  cfg_processes : Z;
  cfg_threads_per_core : Z;                (* 1 in Config::Config *)
  cfg_process_of_tile : Z -> Z }.

(** One tile is added for the MCP and, in full mode, one for the thread
    spawner of each process. *)
Definition getTotalTiles (cfg : SimConfig) : Z :=
  cfg_application_tiles cfg + 1 + match cfg_mode cfg with FULL => cfg_processes cfg | LITE => 0 end.
Definition getMCPTileNum (cfg : SimConfig) : Z := getTotalTiles cfg - 1.
Definition getThreadSpawnerTileNum (cfg : SimConfig) (proc_num : Z) : Z :=
  match cfg_mode cfg with
  | FULL => getTotalTiles cfg - (1 + cfg_processes cfg - proc_num)
  | LITE => INVALID_TILE_ID
  end.
(** The MCP runs in process 0. *)
Definition getCurrentThreadSpawnerTileNum (cfg : SimConfig) : Z := getThreadSpawnerTileNum cfg 0.

(** ** Data *)

Record ThreadSpawnRequest : Type := mkSpawn {
  sp_requester : core_id_t;
  sp_requester_tidx : Z;
  sp_destination : core_id_t;
  sp_destination_tidx : Z;
  sp_destination_tid : Z;
  sp_time : Z }.

Record ThreadJoinRequest : Type := mkJoin {
  jn_sender : core_id_t;
  jn_sender_tidx : Z;
  jn_receiver_tid : Z }.

Record SimMutex : Type := mkMutex {
  mx_waiting : list core_id_t;
  mx_owner : core_id_t }.
Definition SimMutex_new : SimMutex := mkMutex [] INVALID_CORE_ID.

(** A waiter keeps a [StableIterator] to its mutex, an index into [m_mutexes]. *)
Record CondWaiter : Type := mkWaiter {
  cw_core_id : core_id_t;
  cw_mutex : Z;
  cw_arrival_time : Z }.
Record SimCond : Type := mkCond { cd_waiting : list CondWaiter }.
Definition SimCond_new : SimCond := mkCond [].

Record SimBarrier : Type := mkBarrier {
  br_waiting : list core_id_t;
  br_count : Z;
  br_max_time : Z }.
Definition SimBarrier_new (count : Z) : SimBarrier := mkBarrier [] count 0.

(** The packets to the cores, by packet type and contents. *)
Inductive McpReply : Type :=
  | ID_REPLY (id : Z)                              (* MCP_RESPONSE_TYPE, UInt32 *)
  | SYNC_REPLY (dummy time : Z)                    (* MCP_RESPONSE_TYPE, Reply *)
  | ACK_REPLY (dummy : Z)                          (* MCP_RESPONSE_TYPE, UInt32 *)
  | THREAD_SPAWN_REPLY (tile type tidx tid : Z)
  | THREAD_EXIT_REPLY (tile type next_tidx : Z)
  | THREAD_JOIN_REPLY (time : Z)
  | THREAD_QUERY_INDEX_REPLY (thread_id : Z) (core : core_id_t) (thread_idx next_tidx : Z)
  | BARRIER_RELEASE.                               (* MCP_SYSTEM_RESPONSE_TYPE *)

(** Messages to the local control programs of the processes. *)
Inductive LcpMessage : Type :=
  | LCP_THREAD_SPAWN_REQUEST (req : ThreadSpawnRequest)
  | LCP_QUIT_THREAD_SPAWNER_ACK.

Inductive Out : Type :=
  | NetSend (receiver : core_id_t) (r : McpReply)
  | GlobalSend (process : Z) (m : LcpMessage).

(** The codes of [SyncClient]. *)
Definition MUTEX_LOCK_RESPONSE : Z := 0xDEADBEEF.
Definition MUTEX_UNLOCK_RESPONSE : Z := 0xBABECAFE.
Definition COND_WAIT_RESPONSE : Z := MUTEX_LOCK_RESPONSE.
Definition COND_SIGNAL_RESPONSE : Z := 0xBEEFCAFE.
Definition COND_BROADCAST_RESPONSE : Z := 0xDEADCAFE.
Definition BARRIER_WAIT_RESPONSE : Z := 0xCACACAFE.

(** The objects the MCP works on: the thread manager ([tm_]), the queues of
    the thread scheduler, the synchronization server ([ss_]) and the
    clock-skew server. *)
Record Mcp : Type := mkMcp {
  tm_tid_counter : Z;
  tm_threads : ThreadTable;
  tm_last_stalled : list Z;
  tm_tid_map : list (core_id_t * Z);
  tm_spawn_list : list ThreadSpawnRequest;
  sched_queue : list (list ThreadSpawnRequest);
  ss_mutexes : list SimMutex;
  ss_conds : list SimCond;
  ss_barriers : list SimBarrier;
  mcp_skew : option LaxBarrier;
  mcp_finished : bool;
  mcp_sent : list Out }.

Definition put_tid_counter (v : Z) (s : Mcp) : Mcp :=
  mkMcp v (tm_threads s) (tm_last_stalled s) (tm_tid_map s) (tm_spawn_list s) (sched_queue s)
    (ss_mutexes s) (ss_conds s) (ss_barriers s) (mcp_skew s) (mcp_finished s) (mcp_sent s).
Definition put_threads (v : ThreadTable) (s : Mcp) : Mcp :=
  mkMcp (tm_tid_counter s) v (tm_last_stalled s) (tm_tid_map s) (tm_spawn_list s)
    (sched_queue s) (ss_mutexes s) (ss_conds s) (ss_barriers s) (mcp_skew s) (mcp_finished s)
    (mcp_sent s).
Definition put_last_stalled (v : list Z) (s : Mcp) : Mcp :=
  mkMcp (tm_tid_counter s) (tm_threads s) v (tm_tid_map s) (tm_spawn_list s) (sched_queue s)
    (ss_mutexes s) (ss_conds s) (ss_barriers s) (mcp_skew s) (mcp_finished s) (mcp_sent s).
Definition put_tid_map (v : list (core_id_t * Z)) (s : Mcp) : Mcp :=
  mkMcp (tm_tid_counter s) (tm_threads s) (tm_last_stalled s) v (tm_spawn_list s)
    (sched_queue s) (ss_mutexes s) (ss_conds s) (ss_barriers s) (mcp_skew s) (mcp_finished s)
    (mcp_sent s).
Definition put_spawn_list (v : list ThreadSpawnRequest) (s : Mcp) : Mcp :=
  mkMcp (tm_tid_counter s) (tm_threads s) (tm_last_stalled s) (tm_tid_map s) v (sched_queue s)
    (ss_mutexes s) (ss_conds s) (ss_barriers s) (mcp_skew s) (mcp_finished s) (mcp_sent s).
Definition put_queue (v : list (list ThreadSpawnRequest)) (s : Mcp) : Mcp :=
  mkMcp (tm_tid_counter s) (tm_threads s) (tm_last_stalled s) (tm_tid_map s) (tm_spawn_list s) v
    (ss_mutexes s) (ss_conds s) (ss_barriers s) (mcp_skew s) (mcp_finished s) (mcp_sent s).
Definition put_mutexes (v : list SimMutex) (s : Mcp) : Mcp :=
  mkMcp (tm_tid_counter s) (tm_threads s) (tm_last_stalled s) (tm_tid_map s) (tm_spawn_list s)
    (sched_queue s) v (ss_conds s) (ss_barriers s) (mcp_skew s) (mcp_finished s) (mcp_sent s).
Definition put_conds (v : list SimCond) (s : Mcp) : Mcp :=
  mkMcp (tm_tid_counter s) (tm_threads s) (tm_last_stalled s) (tm_tid_map s) (tm_spawn_list s)
    (sched_queue s) (ss_mutexes s) v (ss_barriers s) (mcp_skew s) (mcp_finished s) (mcp_sent s).
Definition put_barriers (v : list SimBarrier) (s : Mcp) : Mcp :=
  mkMcp (tm_tid_counter s) (tm_threads s) (tm_last_stalled s) (tm_tid_map s) (tm_spawn_list s)
    (sched_queue s) (ss_mutexes s) (ss_conds s) v (mcp_skew s) (mcp_finished s) (mcp_sent s).
Definition put_skew (v : option LaxBarrier) (s : Mcp) : Mcp :=
  mkMcp (tm_tid_counter s) (tm_threads s) (tm_last_stalled s) (tm_tid_map s) (tm_spawn_list s)
    (sched_queue s) (ss_mutexes s) (ss_conds s) (ss_barriers s) v (mcp_finished s) (mcp_sent s).
Definition put_finished (v : bool) (s : Mcp) : Mcp :=
  mkMcp (tm_tid_counter s) (tm_threads s) (tm_last_stalled s) (tm_tid_map s) (tm_spawn_list s)
    (sched_queue s) (ss_mutexes s) (ss_conds s) (ss_barriers s) (mcp_skew s) v (mcp_sent s).
Definition put_sent (v : list Out) (s : Mcp) : Mcp :=
  mkMcp (tm_tid_counter s) (tm_threads s) (tm_last_stalled s) (tm_tid_map s) (tm_spawn_list s)
    (sched_queue s) (ss_mutexes s) (ss_conds s) (ss_barriers s) (mcp_skew s) (mcp_finished s) v.

Abbreviation MM := (ST Mcp).

Section Mcp.
Context (cfg : SimConfig).

(** ** Sending *)

Definition netSend (c : core_id_t) (r : McpReply) : MM unit :=
  modify (fun s => put_sent (mcp_sent s ++ [NetSend c r]) s).
Definition globalSend (process : Z) (m : LcpMessage) : MM unit :=
  modify (fun s => put_sent (mcp_sent s ++ [GlobalSend process m]) s).

(** [getClockSkewManagementServer()->signal()], when there is a server. *)
Definition skew_signal : MM unit :=
  skew ← gets mcp_skew;
  match skew with
  | None => mret tt
  | Some lb =>
    tt ← gets tm_threads;
    '(lb', tiles) ← lift (lb_signal tt lb);
    _ ← modify (put_skew (Some lb'));
    for_each tiles (fun t => netSend (getMainCoreId t) BARRIER_RELEASE)
  end.

(** ** ThreadManager *)

Definition on_thread (tile idx : Z) (f : ThreadState -> ThreadState) : MM unit :=
  threads ← gets tm_threads;
  threads' ← lift (update_thread tile idx f threads);
  modify (put_threads threads').

(** The three overloads of [stallThread]: on a slot of a tile, on a slot of a
    core, and on the running thread of a core. *)
Definition stallThread_tile (tile thread_index : Z) : MM unit :=
  _ ← on_thread tile thread_index (set_status STALLED);
  last ← gets tm_last_stalled;
  last' ← lift (vec_set last tile thread_index);
  _ ← modify (put_last_stalled last');
  skew_signal.
Definition stallThread_index (c : core_id_t) (thread_index : Z) : MM unit :=
  if isMainCore c then stallThread_tile (tile_id c) thread_index else stop LogError.
Definition stallThread (c : core_id_t) : MM unit :=
  threads ← gets tm_threads;
  thread_index ← lift (main_core c (isCoreRunning threads));
  if thread_index =? INVALID_THREAD_ID then stop LogError
  else stallThread_index c thread_index.

Definition resumeThread_tile (tile thread_index : Z) : MM unit :=
  on_thread tile thread_index (set_status RUNNING).
Definition resumeThread_index (c : core_id_t) (thread_index : Z) : MM unit :=
  if isMainCore c then resumeThread_tile (tile_id c) thread_index else stop LogError.
Definition resumeThread (c : core_id_t) : MM unit :=
  if isMainCore c then
    last ← gets tm_last_stalled;
    thread_index ← lift (vec_get last (tile_id c));
    _ ← lift (assert_c (negb (thread_index =? INVALID_THREAD_ID)));
    resumeThread_tile (tile_id c) thread_index
  else stop LogError.

Definition masterOnThreadStart (tile thread_idx : Z) : MM unit :=
  threads ← gets tm_threads;
  t ← lift (thread_at threads tile thread_idx);
  _ ← lift (log_assert (has_status INITIALIZING t));
  on_thread tile thread_idx (set_status RUNNING).

(** [resize] fills the new elements with zeroes. *)
Definition tid_map_resize (n : Z) (m : list (core_id_t * Z)) : list (core_id_t * Z) :=
  resize (Z.to_nat n) (mkCore 0 0, 0) m.

Definition getNewThreadId (c : core_id_t) (thread_index : Z) : MM Z :=
  counter ← gets tm_tid_counter;
  let new_thread_id := swrap 32 (counter + 1) in
  _ ← modify (put_tid_counter new_thread_id);
  map ← gets tm_tid_map;
  let map := if Z.of_nat (length map) <=? wrap32 new_thread_id
             then tid_map_resize (wrap64 (swrap 32 (2 * new_thread_id))) map else map in
  map' ← lift (vec_set map new_thread_id (c, thread_index));
  _ ← modify (put_tid_map map');
  _ ← (if isMainCore c then on_thread (tile_id c) thread_index (set_thread_id new_thread_id)
       else stop LogError);
  mret new_thread_id.

Definition lookupThreadIndex (tid : Z) : MM (core_id_t * Z) :=
  counter ← gets tm_tid_counter;
  _ ← lift (log_assert (tid <=? counter));
  map ← gets tm_tid_map;
  lift (vec_get map tid).

Definition masterSetOSTid (tile thread_idx pid : Z) : MM unit :=
  on_thread tile thread_idx (set_os_tid pid).

Definition insertThreadSpawnRequest (req : ThreadSpawnRequest) : MM unit :=
  modify (fun s => put_spawn_list (tm_spawn_list s ++ [req]) s).

(** [wakeUpWaiter]: the join of a finished thread returns. *)
Definition wakeUpWaiter (c : core_id_t) (thread_index time : Z) : MM bool :=
  _ ← lift (log_assert (isMainCore c));
  threads ← gets tm_threads;
  t ← lift (thread_at threads (tile_id c) thread_index);
  if tile_id (waiter_core t) =? INVALID_TILE_ID then mret false
  else
    _ ← resumeThread_index (waiter_core t) (waiter_tid t);
    _ ← netSend (waiter_core t) (THREAD_JOIN_REPLY time);
    _ ← on_thread (tile_id c) thread_index (set_waiter INVALID_CORE_ID INVALID_THREAD_ID);
    mret true.

(** ** ThreadScheduler *)

Definition queue_of (tile : Z) : MM (list ThreadSpawnRequest) :=
  q ← gets sched_queue; lift (vec_get q tile).
Definition set_queue (tile : Z) (l : list ThreadSpawnRequest) : MM unit :=
  q ← gets sched_queue;
  q' ← lift (vec_set q tile l);
  modify (put_queue q').

Definition getNextThreadIdx (c : core_id_t) : MM Z :=
  q ← queue_of (tile_id c);
  mret match q with [] => INVALID_THREAD_ID | r :: _ => sp_destination_tidx r end.

Definition masterStartThread (c : core_id_t) : MM unit :=
  q ← queue_of (tile_id c);
  match q with
  | [] => stop LogError
  | req :: _ =>
    threads ← gets tm_threads;
    t ← lift (thread_at threads (tile_id (sp_destination req)) (sp_destination_tidx req));
    _ ← lift (log_assert (has_status INITIALIZING t || has_status STALLED t));
    match cfg_mode cfg with
    | FULL => globalSend (cfg_process_of_tile cfg (tile_id (sp_destination req)))
                (LCP_THREAD_SPAWN_REQUEST req)
    | LITE => insertThreadSpawnRequest req
    end
  end.

Definition sched_masterOnThreadExit (c : core_id_t) (thread_idx : Z) : MM unit :=
  threads ← gets tm_threads;
  running ← lift (main_core c (isCoreRunning threads));
  _ ← lift (assert_c (running =? INVALID_THREAD_ID));
  q ← queue_of (tile_id c);
  _ ← when (negb (tile_id c =? getCurrentThreadSpawnerTileNum cfg)
            && negb (tile_id c =? getMCPTileNum cfg))
        (set_queue (tile_id c) (tail q));
  next_tidx ← getNextThreadIdx c;
  _ ← when (negb (next_tidx =? INVALID_THREAD_ID))
        (threads ← gets tm_threads;
         t ← lift (thread_at threads (tile_id c) next_tidx);
         if isMainCore c && has_status INITIALIZING t then masterStartThread c
         else resumeThread_index c next_tidx);
  netSend c (THREAD_EXIT_REPLY (tile_id c) (core_type c) next_tidx).

Definition masterScheduleThread (req : ThreadSpawnRequest) : MM unit :=
  let dest := sp_destination req in
  threads ← gets tm_threads;
  _ ← when (negb (tile_id dest =? getCurrentThreadSpawnerTileNum cfg))
        (q ← queue_of (tile_id dest); set_queue (tile_id dest) (q ++ [req]));
  is_thread_startable ←
    (if tile_id (sp_requester req) =? tile_id dest then mret false
     else
       running ← lift (main_core dest (isCoreRunning threads));
       if running =? INVALID_THREAD_ID then
         initializing ← lift (main_core dest (isCoreInitializing threads));
         if (initializing : bool) then mret false
         else
           stalled ← lift (main_core dest (isCoreStalled threads));
           mret (negb stalled)
       else mret false);
  _ ← (if isMainCore dest then
         t ← lift (thread_at threads (tile_id dest) (sp_destination_tidx req));
         _ ← lift (log_assert (has_status IDLE t));
         on_thread (tile_id dest) (sp_destination_tidx req) (set_status INITIALIZING)
       else stop LogError);
  when is_thread_startable (masterStartThread dest).

(** The base class has no order to requeue threads in. *)
Definition requeueThread (c : core_id_t) : MM unit := stop LogError.

(** [masterYieldThread] up to the call of [requeueThread], which stops. *)
Definition masterYieldThread (c : core_id_t) (requester_tidx : Z) : MM unit :=
  q ← queue_of (tile_id c);
  front ← (match q with [] => stop OutOfRange | r :: _ => mret (sp_destination_tidx r) end);
  _ ← lift (assert_c (front =? requester_tidx));
  _ ← stallThread_index c requester_tidx;
  requeueThread c.

(** ** ThreadManager: requests of the application *)

(** The search of [masterSpawnThread] for a slot: for every slot number [j],
    the first tile after the requester's, round the application tiles and
    without tile 0, whose slot [j] is idle.  The [break] of the source leaves
    the inner loop only, so a later [j] replaces an earlier one. *)
Fixpoint spawn_tile_loop (threads : ThreadTable) (requester j : Z) (offsets : list Z) : result (option Z) :=
  match offsets with
  | [] => Ok None
  | i :: offsets' =>
    let target_tile := wrap32 (requester + i) mod cfg_application_tiles cfg in
    if target_tile =? 0 then spawn_tile_loop threads requester j offsets'
    else
      t ← thread_at threads target_tile j;
      if has_status IDLE t then Ok (Some target_tile)
      else spawn_tile_loop threads requester j offsets'
  end.

Fixpoint spawn_slot_loop (threads : ThreadTable) (requester : Z) (js : list Z)
    (dest : core_id_t * Z) : result (core_id_t * Z) :=
  match js with
  | [] => Ok dest
  | j :: js' =>
    found ← spawn_tile_loop threads requester j (seqZ 1 (cfg_application_tiles cfg));
    spawn_slot_loop threads requester js'
      (match found with Some tile => (getMainCoreId tile, j) | None => dest end)
  end.

Definition masterSpawnThreadReply (req : ThreadSpawnRequest) : MM unit :=
  _ ← resumeThread (sp_requester req);
  netSend (sp_requester req)
    (THREAD_SPAWN_REPLY (tile_id (sp_destination req)) (core_type (sp_destination req))
       (sp_destination_tidx req) (sp_destination_tid req)).

Definition masterSpawnThread (req : ThreadSpawnRequest) : MM unit :=
  _ ← stallThread_index (sp_requester req) (sp_requester_tidx req);
  threads ← gets tm_threads;
  '(dest, tidx) ←
    (if tile_id (sp_destination req) =? INVALID_TILE_ID
     then lift (spawn_slot_loop threads (tile_id (sp_requester req))
                  (seqZ 0 (cfg_threads_per_core cfg))
                  (sp_destination req, sp_destination_tidx req))
     else
       tidx ← lift (getIdleThread (cfg_threads_per_core cfg) threads (sp_destination req));
       mret (sp_destination req, tidx));
  _ ← lift (log_assert (negb (tile_id dest =? INVALID_TILE_ID)));
  _ ← lift (log_assert (negb (tidx =? INVALID_THREAD_ID)));
  tid ← getNewThreadId dest tidx;
  _ ← lift (log_assert (negb (tid =? INVALID_THREAD_ID)));
  let req := mkSpawn (sp_requester req) (sp_requester_tidx req) dest tidx tid (sp_time req) in
  _ ← masterScheduleThread req;
  masterSpawnThreadReply req.

(** [slaveTerminateThreadSpawnerAck] *)
Definition slaveTerminateThreadSpawnerAck (tile : Z) : MM unit :=
  for_each (seqZ 0 (cfg_processes cfg)) (fun i =>
    when (tile =? getThreadSpawnerTileNum cfg i) (globalSend 0 LCP_QUIT_THREAD_SPAWNER_ACK)).

Definition masterOnThreadExit (tile type thread_idx time : Z) : MM unit :=
  let c := mkCore tile type in
  threads ← gets tm_threads;
  _ ← lift (log_assert (wrap32 tile <? Z.of_nat (length threads)));
  t ← lift (thread_at threads tile thread_idx);
  _ ← lift (log_assert (has_status RUNNING t));
  _ ← on_thread tile thread_idx (fun t => set_completion time (set_status IDLE t));
  _ ← skew_signal;
  _ ← wakeUpWaiter c thread_idx time;
  _ ← sched_masterOnThreadExit c thread_idx;
  match cfg_mode cfg with
  | FULL => slaveTerminateThreadSpawnerAck tile
  | LITE => mret tt
  end.

Definition masterJoinThread (req : ThreadJoinRequest) : MM unit :=
  map ← gets tm_tid_map;
  _ ← lift (log_assert (jn_receiver_tid req <? Z.of_nat (length map)));
  '(join_core, join_idx) ← lift (vec_get map (jn_receiver_tid req));
  threads ← gets tm_threads;
  t ← lift (thread_at threads (tile_id join_core) join_idx);
  _ ← lift (log_assert (tile_id (waiter_core t) =? INVALID_TILE_ID));
  _ ← lift (log_assert (wrap32 (tile_id join_core) <? Z.of_nat (length threads)));
  _ ← on_thread (tile_id join_core) join_idx (set_waiter (jn_sender req) (jn_sender_tidx req));
  _ ← stallThread (jn_sender req);
  threads ← gets tm_threads;
  t ← lift (thread_at threads (tile_id join_core) join_idx);
  if has_status IDLE t then
    _ ← wakeUpWaiter join_core join_idx (completion_time t); mret tt
  else mret tt.

Definition masterQueryThreadIndex (requester : core_id_t) (tid : Z) : MM unit :=
  '(c, idx) ← lookupThreadIndex tid;
  next_tidx ← getNextThreadIdx c;
  netSend requester (THREAD_QUERY_INDEX_REPLY tid c idx next_tidx).

(** ** Mutexes *)

Definition get_mutex (mux : Z) : MM SimMutex :=
  l ← gets ss_mutexes; lift (vec_get l mux).
Definition set_mutex (mux : Z) (m : SimMutex) : MM unit :=
  l ← gets ss_mutexes; l' ← lift (vec_set l mux m); modify (put_mutexes l').

Definition SimMutex_lock (mux : Z) (c : core_id_t) : MM bool :=
  m ← get_mutex mux;
  if tile_id (mx_owner m) =? INVALID_TILE_ID then
    _ ← set_mutex mux (mkMutex (mx_waiting m) c); mret true
  else
    _ ← stallThread c;
    _ ← set_mutex mux (mkMutex (mx_waiting m ++ [c]) (mx_owner m)); mret false.

Definition SimMutex_unlock (mux : Z) (c : core_id_t) : MM core_id_t :=
  m ← get_mutex mux;
  _ ← lift (assert_c ((tile_id (mx_owner m) =? tile_id c) && (core_type (mx_owner m) =? core_type c)));
  match mx_waiting m with
  | [] => _ ← set_mutex mux (mkMutex [] INVALID_CORE_ID); mret INVALID_CORE_ID
  | w :: ws =>
    _ ← set_mutex mux (mkMutex ws w);
    _ ← resumeThread w; mret w
  end.

(** ** Condition variables *)

Definition get_cond (cond : Z) : MM SimCond :=
  l ← gets ss_conds; lift (vec_get l cond).
Definition set_cond (cond : Z) (v : SimCond) : MM unit :=
  l ← gets ss_conds; l' ← lift (vec_set l cond v); modify (put_conds l').

Definition SimCond_wait (cond : Z) (c : core_id_t) (time mux : Z) : MM core_id_t :=
  _ ← stallThread c;
  v ← get_cond cond;
  _ ← set_cond cond (mkCond (cd_waiting v ++ [mkWaiter c mux time]));
  SimMutex_unlock mux c.

Definition SimCond_signal (cond : Z) : MM core_id_t :=
  v ← get_cond cond;
  match cd_waiting v with
  | [] => mret INVALID_CORE_ID
  | woken :: ws =>
    _ ← set_cond cond (mkCond ws);
    _ ← resumeThread (cw_core_id woken);
    b ← SimMutex_lock (cw_mutex woken) (cw_core_id woken);
    mret (if (b : bool) then cw_core_id woken else INVALID_CORE_ID)
  end.

Fixpoint broadcast_loop (ws : list CondWaiter) (woken_list : list core_id_t) : MM (list core_id_t) :=
  match ws with
  | [] => mret woken_list
  | woken :: ws' =>
    _ ← resumeThread (cw_core_id woken);
    b ← SimMutex_lock (cw_mutex woken) (cw_core_id woken);
    broadcast_loop ws' (if (b : bool) then woken_list ++ [cw_core_id woken] else woken_list)
  end.

Definition SimCond_broadcast (cond : Z) : MM (list core_id_t) :=
  v ← get_cond cond;
  woken_list ← broadcast_loop (cd_waiting v) [];
  _ ← set_cond cond (mkCond []);
  mret woken_list.

(** ** Barriers *)

Definition get_barrier (b : Z) : MM SimBarrier :=
  l ← gets ss_barriers; lift (vec_get l b).
Definition set_barrier (b : Z) (v : SimBarrier) : MM unit :=
  l ← gets ss_barriers; l' ← lift (vec_set l b v); modify (put_barriers l').

(** The loop that resumes the first thread of every tile: [resumed_tiles] has
    one element per woken thread and is indexed by the tile. *)
Fixpoint resume_loop (woken : list core_id_t) (resumed_tiles : list bool) : MM unit :=
  match woken with
  | [] => mret tt
  | c :: woken' =>
    r ← lift (vec_get resumed_tiles (tile_id c));
    if (r : bool) then resume_loop woken' resumed_tiles
    else
      resumed' ← lift (vec_set resumed_tiles (tile_id c) true);
      _ ← resumeThread c;
      resume_loop woken' resumed'
  end.

Definition SimBarrier_wait (b : Z) (c : core_id_t) (time : Z) : MM (list core_id_t) :=
  v ← get_barrier b;
  let waiting := br_waiting v ++ [c] in
  _ ← set_barrier b (mkBarrier waiting (br_count v) (br_max_time v));
  _ ← stallThread c;
  let size := Z.of_nat (length waiting) in
  _ ← lift (assert_c (size <=? br_count v));
  let max_time := if size =? 1 then time else if br_max_time v <? time then time else br_max_time v in
  if size =? br_count v then
    _ ← resume_loop waiting (replicate (length waiting) false);
    _ ← set_barrier b (mkBarrier [] (br_count v) max_time);
    mret waiting
  else
    _ ← set_barrier b (mkBarrier waiting (br_count v) max_time);
    mret [].

(** ** SyncServer *)

Definition mutexInit (c : core_id_t) : MM unit :=
  _ ← modify (fun s => put_mutexes (ss_mutexes s ++ [SimMutex_new]) s);
  l ← gets ss_mutexes;
  netSend c (ID_REPLY (wrap32 (wrap32 (Z.of_nat (length l)) - 1))).

(** [(size_t) id < size] on a signed identifier. *)
Definition valid_id {A} (id : Z) (l : list A) : bool := wrap64 id <? Z.of_nat (length l).

Definition mutexLock (c : core_id_t) (mux time : Z) : MM unit :=
  l ← gets ss_mutexes;
  _ ← lift (log_assert (valid_id mux l));
  b ← SimMutex_lock mux c;
  when b (netSend c (SYNC_REPLY MUTEX_LOCK_RESPONSE time)).

Definition mutexUnlock (c : core_id_t) (mux time : Z) : MM unit :=
  l ← gets ss_mutexes;
  _ ← lift (assert_c (valid_id mux l));
  new_owner ← SimMutex_unlock mux c;
  _ ← when (negb (tile_id new_owner =? INVALID_TILE_ID))
        (netSend new_owner (SYNC_REPLY MUTEX_LOCK_RESPONSE time));
  netSend c (ACK_REPLY MUTEX_UNLOCK_RESPONSE).

Definition condInit (c : core_id_t) : MM unit :=
  _ ← modify (fun s => put_conds (ss_conds s ++ [SimCond_new]) s);
  l ← gets ss_conds;
  netSend c (ID_REPLY (wrap32 (wrap32 (Z.of_nat (length l)) - 1))).

Definition condWait (c : core_id_t) (cond mux time : Z) : MM unit :=
  ml ← gets ss_mutexes;
  _ ← lift (assert_c (valid_id mux ml));
  cl ← gets ss_conds;
  _ ← lift (assert_c (valid_id cond cl));
  new_mutex_owner ← SimCond_wait cond c time mux;
  when (negb (tile_id new_mutex_owner =? INVALID_TILE_ID))
    (netSend new_mutex_owner (SYNC_REPLY MUTEX_LOCK_RESPONSE time)).

Definition condSignal (c : core_id_t) (cond time : Z) : MM unit :=
  l ← gets ss_conds;
  _ ← lift (assert_c (valid_id cond l));
  woken ← SimCond_signal cond;
  _ ← when (negb (tile_id woken =? INVALID_TILE_ID))
        (netSend woken (SYNC_REPLY MUTEX_LOCK_RESPONSE time));
  netSend c (ACK_REPLY COND_SIGNAL_RESPONSE).

Definition condBroadcast (c : core_id_t) (cond time : Z) : MM unit :=
  l ← gets ss_conds;
  _ ← lift (assert_c (valid_id cond l));
  woken_list ← SimCond_broadcast cond;
  _ ← for_each woken_list (fun w =>
        _ ← lift (assert_c (negb (tile_id w =? INVALID_TILE_ID)));
        netSend w (SYNC_REPLY MUTEX_LOCK_RESPONSE time));
  netSend c (ACK_REPLY COND_BROADCAST_RESPONSE).

Definition barrierInit (c : core_id_t) (count : Z) : MM unit :=
  _ ← modify (fun s => put_barriers (ss_barriers s ++ [SimBarrier_new count]) s);
  l ← gets ss_barriers;
  netSend c (ID_REPLY (wrap32 (wrap32 (Z.of_nat (length l)) - 1))).

Definition barrierWait (c : core_id_t) (b time : Z) : MM unit :=
  l ← gets ss_barriers;
  _ ← lift (log_assert (b <? swrap 32 (Z.of_nat (length l))));
  woken_list ← SimBarrier_wait b c time;
  v ← get_barrier b;
  for_each woken_list (fun w =>
    _ ← lift (assert_c (negb (tile_id w =? INVALID_TILE_ID)));
    netSend w (SYNC_REPLY BARRIER_WAIT_RESPONSE (br_max_time v))).

(** ** MCP::processPacket *)

(** The packets of the cores.  The operating-system thread id is sent by
    [ThreadManager::setOSTid] as five words and decoded by position. *)
Inductive McpRequest : Type :=
  | MCP_QUIT
  | MCP_MUTEX_INIT | MCP_MUTEX_LOCK (mux time : Z) | MCP_MUTEX_UNLOCK (mux time : Z)
  | MCP_COND_INIT | MCP_COND_WAIT (cond mux time : Z) | MCP_COND_SIGNAL (cond time : Z)
  | MCP_COND_BROADCAST (cond time : Z)
  | MCP_BARRIER_INIT (count : Z) | MCP_BARRIER_WAIT (barrier time : Z)
  | MCP_THREAD_SPAWN_REQUEST (req : ThreadSpawnRequest)
  | MCP_THREAD_SPAWN_REPLY_FROM_SLAVE (req : ThreadSpawnRequest)
  | MCP_THREAD_YIELD_REQUEST (requester : core_id_t) (requester_tidx : Z)
  | MCP_THREAD_SET_OS_TID (words : list Z)
  | MCP_QUERY_THREAD_INDEX (tile type tid : Z)
  | MCP_THREAD_START (tile type thread_idx : Z)
  | MCP_THREAD_EXIT (tile type thread_idx time : Z)
  | MCP_THREAD_JOIN_REQUEST (req : ThreadJoinRequest)
  | MCP_CLOCK_SKEW_MANAGEMENT (time_ns : Z).

(** [ThreadManager::setOSTid]: the words after the message type. *)
Definition setOSTid_words (c : core_id_t) (thread_idx pid : Z) : list Z :=
  [tile_id c; core_type c; thread_idx; pid].

Definition skew_processSyncMsg (c : core_id_t) (time_ns : Z) : MM unit :=
  skew ← gets mcp_skew;
  match skew with
  | None => stop AssertFailed
  | Some lb =>
    tt ← gets tm_threads;
    '(lb', tiles) ← lift (lb_barrierWait tt c time_ns lb);
    _ ← modify (put_skew (Some lb'));
    for_each tiles (fun t => netSend (getMainCoreId t) BARRIER_RELEASE)
  end.

Definition processPacket (sender : core_id_t) (r : McpRequest) : MM unit :=
  match r with
  | MCP_QUIT => modify (put_finished true)
  | MCP_MUTEX_INIT => mutexInit sender
  | MCP_MUTEX_LOCK mux time => mutexLock sender mux time
  | MCP_MUTEX_UNLOCK mux time => mutexUnlock sender mux time
  | MCP_COND_INIT => condInit sender
  | MCP_COND_WAIT cond mux time => condWait sender cond mux time
  | MCP_COND_SIGNAL cond time => condSignal sender cond time
  | MCP_COND_BROADCAST cond time => condBroadcast sender cond time
  | MCP_BARRIER_INIT count => barrierInit sender count
  | MCP_BARRIER_WAIT b time => barrierWait sender b time
  | MCP_THREAD_SPAWN_REQUEST req => masterSpawnThread req
  | MCP_THREAD_SPAWN_REPLY_FROM_SLAVE req => masterSpawnThreadReply req
  | MCP_THREAD_YIELD_REQUEST c tidx => masterYieldThread c tidx
  | MCP_THREAD_SET_OS_TID words =>
      tile ← lift (vec_get words 0);
      thread_idx ← lift (vec_get words 1);
      pid ← lift (vec_get words 2);
      masterSetOSTid tile thread_idx pid
  | MCP_QUERY_THREAD_INDEX tile type tid => masterQueryThreadIndex (mkCore tile type) tid
  | MCP_THREAD_START tile _ thread_idx => masterOnThreadStart tile thread_idx
  | MCP_THREAD_EXIT tile type thread_idx time => masterOnThreadExit tile type thread_idx time
  | MCP_THREAD_JOIN_REQUEST req => masterJoinThread req
  | MCP_CLOCK_SKEW_MANAGEMENT time_ns => skew_processSyncMsg sender time_ns
  end.

(** ** The state at the start: [ThreadManager::ThreadManager] and the others *)

(** The threads that run from the start: the main thread, the thread spawners
    of full mode and the MCP. *)
Definition initially_running (tile : Z) : bool :=
  (tile =? 0) || (tile =? getMCPTileNum cfg) ||
  match cfg_mode cfg with
  | FULL => (getTotalTiles cfg - cfg_processes cfg - 1 <=? tile) && (tile <=? getTotalTiles cfg - 2)
  | LITE => false
  end.

Definition initial_row (tile : Z) : list ThreadState :=
  match replicate (Z.to_nat (cfg_threads_per_core cfg)) ThreadState_new with
  | [] => []
  | t :: ts => (if initially_running tile then set_status RUNNING t else t) :: ts
  end.

Definition Mcp_new (skew : option LaxBarrier) : Mcp :=
  mkMcp 0 (initial_row <$> seqZ 0 (getTotalTiles cfg))
    (replicate (Z.to_nat (getTotalTiles cfg)) INVALID_THREAD_ID) [] []
    (replicate (Z.to_nat (getTotalTiles cfg)) []) [] [] [] skew false [].

End Mcp.
