(* ===== verification/McpClients.v ===== *)
(** * The clients of the master control program: common/system/sync_client.cc,
    the client side of thread_manager.cc and lax_barrier_sync_client.cc

    A core sends a request to the MCP and, for most requests, waits for a
    reply of a certain kind; it asserts that the reply is of that kind.  A
    run is the sequence of packets the MCP processes.  The state of a core is
    determined by the requests it sent and the replies it received, and says
    which request it may send next. *)

From S2P Require Import Prelude Threads ThreadsThm Mcp.

Inductive ClientState : Type :=
  | Absent                       (* no thread *)
  | Starting                     (* spawned, has not reported its start *)
  | Active
  | AwaitId                      (* sent an init request *)
  | AwaitAck (dummy : Z)         (* sent an unlock, signal or broadcast *)
  | AwaitSpawn
  | AwaitExit
  | AtMutex (mux : Z)
  | AtCond (cond mux : Z)
  | AtBarrier (b : Z)
  | AtJoin (tid : Z).

#[export] Instance ClientState_eq_dec : EqDecision ClientState.
Proof. solve_decision. Defined.

(** The mutexes a core holds, whether it waits for the barrier of simulated
    time, and the packets of the MCP that stay in its network queue because it
    never asks for them. *)
Record Client : Type := mkClient {
  cl_state : ClientState;
  cl_held : list Z;
  cl_clock : bool;
  cl_unread : list McpReply }.

Abbreviation Clients := (Z -> Client).

Definition set_state (k : ClientState) (c : Client) : Client :=
  mkClient k (cl_held c) (cl_clock c) (cl_unread c).
Definition set_held (l : list Z) (c : Client) : Client :=
  mkClient (cl_state c) l (cl_clock c) (cl_unread c).
Definition set_clock (b : bool) (c : Client) : Client :=
  mkClient (cl_state c) (cl_held c) b (cl_unread c).
Definition leave_unread (r : McpReply) (c : Client) : Client :=
  mkClient (cl_state c) (cl_held c) (cl_clock c) (cl_unread c ++ [r]).

Section routines.
Context (cfg : SimConfig).
Abbreviation T := (getTotalTiles cfg).

(** [ThreadScheduler::onThreadExit]: the thread spawner of the process of the
    tile and the MCP do not wait for the reply to their exit, which the MCP
    sends them all the same. *)
Definition waits_for_exit (t : Z) : bool :=
  negb (t =? getThreadSpawnerTileNum cfg (cfg_process_of_tile cfg t)) && negb (t =? getMCPTileNum cfg).

(** ** Receiving a reply *)

(** What the core of tile [t] does with a packet; [None] when it does not wait
    for it or when its assertion on the reply code fails.  The reply to the
    exit of a thread spawner or of the MCP stays unread. *)
Definition receives (t : Z) (c : Client) (r : McpReply) : option Client :=
  match cl_state c, r with
  | AwaitId, ID_REPLY _ => Some (set_state Active c)
  | AwaitAck d, ACK_REPLY d' => if d' =? d then Some (set_state Active c) else None
  | AtMutex m, SYNC_REPLY d _ =>
      if d =? MUTEX_LOCK_RESPONSE
      then Some (set_held (m :: cl_held c) (set_state Active c)) else None
  | AtCond _ m, SYNC_REPLY d _ =>
      if d =? COND_WAIT_RESPONSE
      then Some (set_held (m :: cl_held c) (set_state Active c)) else None
  | AtBarrier _, SYNC_REPLY d _ =>
      if d =? BARRIER_WAIT_RESPONSE then Some (set_state Active c) else None
  | AwaitSpawn, THREAD_SPAWN_REPLY _ _ _ _ => Some (set_state Active c)
  | AwaitExit, THREAD_EXIT_REPLY _ _ _ => Some (set_state Absent c)
  | Absent, THREAD_EXIT_REPLY _ _ _ =>
      if waits_for_exit t then None else Some (leave_unread r c)
  | AtJoin _, THREAD_JOIN_REPLY _ => Some (set_state Active c)
  | Active, THREAD_QUERY_INDEX_REPLY _ _ _ _ => Some c
  | _, BARRIER_RELEASE => if cl_clock c then Some (set_clock false c) else None
  | _, _ => None
  end.

(** A spawn reply also means that a thread is about to start on the tile it
    names. *)
Definition deliver1 (o : Out) (C : Clients) : option Clients :=
  match o with
  | NetSend c r =>
    if isMainCore c then
      match receives (tile_id c) (C (tile_id c)) r with
      | Some k =>
        let C' := upd C (tile_id c) k in
        match r with
        | THREAD_SPAWN_REPLY tile _ _ _ =>
          if decide (cl_state (C' tile) = Absent)
          then Some (upd C' tile (set_state Starting (C' tile))) else None
        | _ => Some C'
        end
      | None => None
      end
    else None
  | GlobalSend _ _ => Some C
  end.

Fixpoint deliver (l : list Out) (C : Clients) : option Clients :=
  match l with
  | [] => Some C
  | o :: l' => match deliver1 o C with Some C' => deliver l' C' | None => None end
  end.

Lemma deliver_app l1 l2 C C1 : deliver l1 C = Some C1 -> deliver (l1 ++ l2) C = deliver l2 C1.
Proof.
  revert C. induction l1 as [|o l1 IH]; intros C; simpl; [by intros [= ->]|].
  destruct (deliver1 o C); [apply IH|done].
Qed.

(** ** Sending a request *)

(** The state of the core of tile [t] after it has sent a request. *)
Definition after_send (t : Z) (r : McpRequest) (c : Client) : Client :=
  match r with
  | MCP_MUTEX_INIT | MCP_COND_INIT | MCP_BARRIER_INIT _ => set_state AwaitId c
  | MCP_MUTEX_LOCK m _ => set_state (AtMutex m) c
  | MCP_MUTEX_UNLOCK m _ =>
      set_held (filter (fun x => x <> m) (cl_held c)) (set_state (AwaitAck MUTEX_UNLOCK_RESPONSE) c)
  | MCP_COND_WAIT cv m _ =>
      set_held (filter (fun x => x <> m) (cl_held c)) (set_state (AtCond cv m) c)
  | MCP_COND_SIGNAL _ _ => set_state (AwaitAck COND_SIGNAL_RESPONSE) c
  | MCP_COND_BROADCAST _ _ => set_state (AwaitAck COND_BROADCAST_RESPONSE) c
  | MCP_BARRIER_WAIT b _ => set_state (AtBarrier b) c
  | MCP_THREAD_SPAWN_REQUEST _ => set_state AwaitSpawn c
  | MCP_THREAD_JOIN_REQUEST req => set_state (AtJoin (jn_receiver_tid req)) c
  | MCP_THREAD_START _ _ _ => set_state Active c
  | MCP_THREAD_EXIT _ _ _ _ => set_state (if waits_for_exit t then AwaitExit else Absent) c
  | MCP_CLOCK_SKEW_MANAGEMENT _ => set_clock true c
  | _ => c
  end.

Definition submit (t : Z) (r : McpRequest) (C : Clients) : Clients := upd C t (after_send t r (C t)).

(** The requests a correct application sends, by the state [s] of the MCP and
    the states of the cores: identifiers are those of existing objects, a
    mutex is unlocked and a condition waited for by the holder of the mutex,
    the participants of a barrier run on tiles below its count, a spawn finds
    a free tile, and no two threads join the same thread. *)
Definition may_send (s : Mcp) (C : Clients) (t : Z) (r : McpRequest) : Prop :=
  0 <= t < T /\ cl_clock (C t) = false /\
  cl_state (C t) = match r with MCP_THREAD_START _ _ _ | MCP_THREAD_SET_OS_TID _ => Starting | _ => Active end /\
  match r with
  | MCP_QUIT | MCP_MUTEX_INIT | MCP_COND_INIT => True
  | MCP_MUTEX_LOCK m _ => 0 <= m < 2 ^ 31 /\ m < Z.of_nat (length (ss_mutexes s))
  | MCP_MUTEX_UNLOCK m _ => 0 <= m < 2 ^ 31 /\ m ∈ cl_held (C t)
  | MCP_COND_WAIT cv m _ =>
      0 <= m < 2 ^ 31 /\ m ∈ cl_held (C t) /\
      0 <= cv < 2 ^ 31 /\ cv < Z.of_nat (length (ss_conds s))
  | MCP_COND_SIGNAL cv _ | MCP_COND_BROADCAST cv _ =>
      0 <= cv < 2 ^ 31 /\ cv < Z.of_nat (length (ss_conds s))
  | MCP_BARRIER_INIT _ => Z.of_nat (length (ss_barriers s)) < 2 ^ 31 - 1
  | MCP_BARRIER_WAIT b _ =>
      0 <= b /\ exists v, ss_barriers s !! Z.to_nat b = Some v /\ t < br_count v
  | MCP_THREAD_SPAWN_REQUEST req =>
      sp_requester req = getMainCoreId t /\ sp_requester_tidx req = 0 /\
      tm_tid_counter s < 2 ^ 30 - 1 /\
      ((sp_destination req = INVALID_CORE_ID /\ sp_destination_tidx req = INVALID_THREAD_ID /\
        t < cfg_application_tiles cfg /\
        exists d, 0 < d < cfg_application_tiles cfg /\ cl_state (C d) = Absent) \/
       (exists d, sp_destination req = getMainCoreId d /\ 0 <= d < cfg_application_tiles cfg /\
          cl_state (C d) = Absent))
  | MCP_THREAD_START tile _ thread_idx => tile = t /\ thread_idx = 0
  | MCP_THREAD_EXIT tile type thread_idx _ =>
      tile = t /\ type = MAIN_CORE_TYPE /\ thread_idx = 0
  | MCP_THREAD_JOIN_REQUEST req =>
      jn_sender req = getMainCoreId t /\ jn_sender_tidx req = 0 /\
      0 <= jn_receiver_tid req /\
      exists c i, tm_tid_map s !! Z.to_nat (jn_receiver_tid req) = Some (c, i) /\
        forall row th, tm_threads s !! Z.to_nat (tile_id c) = Some row -> row !! 0%nat = Some th ->
          waiter_core th = INVALID_CORE_ID
  | MCP_CLOCK_SKEW_MANAGEMENT time_ns =>
      t < cfg_application_tiles cfg /\
      exists lb, mcp_skew s = Some lb /\ 0 <= time_ns < 2 ^ 64 - barrier_interval lb
  | MCP_THREAD_SET_OS_TID words => exists idx pid, words = setOSTid_words (getMainCoreId t) idx pid
  | MCP_QUERY_THREAD_INDEX tile type tid =>
      tile = t /\ type = MAIN_CORE_TYPE /\ 0 <= tid <= tm_tid_counter s /\
      tid < Z.of_nat (length (tm_tid_map s))
  | MCP_THREAD_SPAWN_REPLY_FROM_SLAVE _ | MCP_THREAD_YIELD_REQUEST _ _ => False
  end.

(** At the start the main thread, the MCP and, in full mode, the thread
    spawners run. *)
Definition initial_clients (t : Z) : Client :=
  mkClient (if (0 <=? t) && (t <? T) && initially_running cfg t then Active else Absent) [] false [].

(** Runs of the MCP and its clients. *)
Inductive mcp_run (skew : option LaxBarrier) : Mcp -> Clients -> Prop :=
  | run_new : mcp_run skew (Mcp_new cfg skew) initial_clients
  | run_step s C t r s' outs C' :
      mcp_run skew s C -> may_send s C t r ->
      processPacket cfg (getMainCoreId t) r s = Ok (tt, s') ->
      mcp_sent s' = mcp_sent s ++ outs ->
      deliver outs (submit t r C) = Some C' ->
      mcp_run skew s' C'.

(** ** What stays unread *)

(** The packets nobody reads are replies to the exit of a thread spawner or of
    the MCP. *)
Definition unread_ok (C : Clients) : Prop :=
  forall t r, r ∈ cl_unread (C t) -> waits_for_exit t = false /\ exists a b c, r = THREAD_EXIT_REPLY a b c.

Lemma receives_unread t k r k' : receives t k r = Some k' ->
  cl_unread k' = cl_unread k \/
  (cl_unread k' = cl_unread k ++ [r] /\ waits_for_exit t = false /\ exists a b c, r = THREAD_EXIT_REPLY a b c).
Proof.
  unfold receives. destruct (cl_state k), r; try done; repeat case_match; try done; intros [= <-];
    first [by left|right; split_and!; [done..|by eexists _, _, _]].
Qed.

Lemma unread_upd C t k : unread_ok C ->
  (forall r, r ∈ cl_unread k -> r ∈ cl_unread (C t) \/
     waits_for_exit t = false /\ exists a b c, r = THREAD_EXIT_REPLY a b c) ->
  unread_ok (upd C t k).
Proof.
  intros Hok Hk i r. unfold upd. destruct (decide (i = t)) as [->|]; [|apply Hok].
  intros [Hin|?]%Hk; [by apply Hok|done].
Qed.

Lemma deliver1_unread o C C' : deliver1 o C = Some C' -> unread_ok C -> unread_ok C'.
Proof.
  destruct o as [c r|]; simpl; [|by intros [= <-]]. destruct (isMainCore c); [|done].
  destruct (receives _ _ r) as [k|] eqn:Ek; [|done]. intros E Hok.
  assert (Hk : unread_ok (upd C (tile_id c) k)).
  { apply unread_upd; [done|]. intros r' Hin.
    destruct (receives_unread _ _ _ _ Ek) as [E'|(E' & Hw & Hr)]; rewrite E' in Hin; [by left|].
    apply elem_of_app in Hin as [?| ->%list_elem_of_singleton]; auto. }
  destruct r; try (by injection E as <-). case_decide; [|done]. injection E as <-.
  apply unread_upd; [done|]. by left.
Qed.

Lemma deliver_unread l C C' : deliver l C = Some C' -> unread_ok C -> unread_ok C'.
Proof.
  revert C. induction l as [|o l IH]; intros C; simpl; [by intros [= ->]|].
  destruct (deliver1 o C) as [C1|] eqn:E; [|done]. intros Hd Hok.
  eapply IH; [exact Hd|]. by eapply deliver1_unread.
Qed.

Lemma submit_unread t r C : unread_ok C -> unread_ok (submit t r C).
Proof. intros Hok. apply unread_upd; [done|]. intros r' Hin. left. by destruct r. Qed.

Lemma mcp_run_unread skew s C : mcp_run skew s C -> unread_ok C.
Proof.
  induction 1 as [|s C t r s' outs C' _ IH _ _ _ Hd].
  - intros t r Hin. by apply elem_of_nil in Hin.
  - eapply deliver_unread; [exact Hd|]. by apply submit_unread.
Qed.
End routines.
