(* ===== verification/McpThm.v ===== *)
(** * The routines of the MCP on its abstract state

    [View] is the state of the MCP with one thread slot per tile: the thread
    of every tile, the queues, the synchronization objects, and the clients as
    the packets sent so far leave them.  [rep] relates it to the state of the
    code; one lemma per routine gives its effect on the view.  The server of
    the barrier of simulated time, which every stalled thread may trigger, is
    dealt with here once: it only changes which clients wait for it. *)

From S2P Require Import Prelude Threads ThreadsThm Mcp McpClients.

Record View : Type := mkView {
  v_thread : Z -> ThreadState;
  v_queue : Z -> list ThreadSpawnRequest;
  v_counter : Z;
  v_tids : list (core_id_t * Z);
  v_mx : list SimMutex;
  v_cd : list SimCond;
  v_br : list SimBarrier;
  v_cl : Clients }.

Definition vs_thread (t : Z) (x : ThreadState) (V : View) : View :=
  mkView (upd (v_thread V) t x) (v_queue V) (v_counter V) (v_tids V) (v_mx V) (v_cd V) (v_br V) (v_cl V).
Definition vs_queue (t : Z) (x : list ThreadSpawnRequest) (V : View) : View :=
  mkView (v_thread V) (upd (v_queue V) t x) (v_counter V) (v_tids V) (v_mx V) (v_cd V) (v_br V) (v_cl V).
Definition vs_tids (n : Z) (m : list (core_id_t * Z)) (V : View) : View :=
  mkView (v_thread V) (v_queue V) n m (v_mx V) (v_cd V) (v_br V) (v_cl V).
Definition vs_mx (l : list SimMutex) (V : View) : View :=
  mkView (v_thread V) (v_queue V) (v_counter V) (v_tids V) l (v_cd V) (v_br V) (v_cl V).
Definition vs_cd (l : list SimCond) (V : View) : View :=
  mkView (v_thread V) (v_queue V) (v_counter V) (v_tids V) (v_mx V) l (v_br V) (v_cl V).
Definition vs_br (l : list SimBarrier) (V : View) : View :=
  mkView (v_thread V) (v_queue V) (v_counter V) (v_tids V) (v_mx V) (v_cd V) l (v_cl V).
Definition vs_cl (C : Clients) (V : View) : View :=
  mkView (v_thread V) (v_queue V) (v_counter V) (v_tids V) (v_mx V) (v_cd V) (v_br V) C.

(** Clients that differ only in whether they wait for the clock barrier. *)
Definition same_but_clock (C C' : Clients) : Prop :=
  forall t, cl_state (C' t) = cl_state (C t) /\ cl_held (C' t) = cl_held (C t).

(** ** The releases of the clock-skew server *)

Definition releases (tiles : list Z) : list Out :=
  (fun t => NetSend (getMainCoreId t) BARRIER_RELEASE) <$> tiles.

Lemma send_releases tiles s :
  for_each tiles (fun t => netSend (getMainCoreId t) BARRIER_RELEASE) s =
  Ok (tt, put_sent (mcp_sent s ++ releases tiles) s).
Proof.
  revert s. induction tiles as [|t tiles IH]; intros s.
  - simpl. rewrite app_nil_r. by destruct s.
  - cbn [for_each]. erewrite st_bind_run by (unfold netSend; reflexivity).
    rewrite IH. simpl. by rewrite <- app_assoc.
Qed.

Section releases.
Context (cfg : SimConfig).

Lemma receives_release t k : cl_clock k = true -> receives cfg t k BARRIER_RELEASE = Some (set_clock false k).
Proof. intros E. unfold receives. rewrite E. by destruct (cl_state k). Qed.

Lemma deliver_releases tiles C :
  NoDup tiles -> (forall t, t ∈ tiles -> cl_clock (C t) = true) ->
  exists C', deliver cfg (releases tiles) C = Some C' /\ same_but_clock C C' /\
    forall t, cl_clock (C' t) = true <-> cl_clock (C t) = true /\ t ∉ tiles.
Proof.
  intros Hnd. revert C. induction Hnd as [|t tiles Hni Hnd IH]; intros C Hc; simpl.
  - exists C. split; [done|]. split; [by intros ?|]. set_solver.
  - rewrite receives_release by (apply Hc; left).
    destruct (IH (upd C t (set_clock false (C t)))) as (C' & E & Hs & Hk).
    { intros k Hk. rewrite upd_ne by set_solver. apply Hc. by right. }
    exists C'. split; [done|]. split.
    + intros k. destruct (Hs k) as [-> ->]. unfold upd. by destruct (decide (k = t)) as [->|].
    + intros k. rewrite (Hk k). unfold upd. destruct (decide (k = t)) as [->|]; set_solver.
Qed.
End releases.

Section rep.
Context (cfg : SimConfig) (base : list Out) (C0 : Clients).
Abbreviation T := (getTotalTiles cfg).
Abbreviation A := (cfg_application_tiles cfg).
Context (HA : 0 < A) (HAT : A < T).

(** The clock-skew server and the clients agree on who waits for it. *)
Definition skew_rep (skew : option LaxBarrier) (C : Clients) : Prop :=
  match skew with
  | None => forall t, cl_clock (C t) = false
  | Some lb => lb_ok lb /\ num_application_tiles lb = A /\
      forall t, cl_clock (C t) = true <-> 0 <= t < A /\ waits lb t = true
  end.

Record rep (s : Mcp) (V : View) : Prop := {
  rp_threads_len : Z.of_nat (length (tm_threads s)) = T;
  rp_threads : forall t, 0 <= t < T -> tm_threads s !! Z.to_nat t = Some [v_thread V t];
  rp_last_len : Z.of_nat (length (tm_last_stalled s)) = T;
  rp_last : forall t, 0 <= t < T -> status (v_thread V t) = STALLED ->
    tm_last_stalled s !! Z.to_nat t = Some 0;
  rp_queue_len : Z.of_nat (length (sched_queue s)) = T;
  rp_queue : forall t, 0 <= t < T -> sched_queue s !! Z.to_nat t = Some (v_queue V t);
  rp_counter : tm_tid_counter s = v_counter V;
  rp_tids : tm_tid_map s = v_tids V;
  rp_mx : ss_mutexes s = v_mx V;
  rp_cd : ss_conds s = v_cd V;
  rp_br : ss_barriers s = v_br V;
  rp_skew : skew_rep (mcp_skew s) (v_cl V);
  rp_sent : exists outs, mcp_sent s = base ++ outs /\ deliver cfg outs C0 = Some (v_cl V) }.

Implicit Types (s : Mcp) (V : View).

Lemma signal_clients threads lb C :
  skew_rep (Some lb) C -> table_ok A threads ->
  exists lb' tiles C', lb_signal threads lb = Ok (lb', tiles) /\
    deliver cfg (releases tiles) C = Some C' /\ same_but_clock C C' /\ skew_rep (Some lb') C'.
Proof.
  intros (Hok & En & Hw) Htt. rewrite <- En in Htt.
  destruct (signal_spec threads lb Hok Htt) as (lb' & tiles & E & Hok' & Hc).
  destruct Hc as [(_ & -> & ->)|[_ Hrel]].
  - exists lb, [], C. split; [done|]. split; [done|]. split; [by intros ?|done].
  - destruct (deliver_releases cfg tiles C) as (C' & Ed & Hs & Hk); [apply Hrel| |].
    { intros t Ht. apply (rel_sent _ _ _ Hrel) in Ht as (Ht & Hwt & _).
      unfold app_tile in Ht. rewrite En in Ht. by apply Hw. }
    assert (Hap : forall t, 0 <= t < A -> app_tile lb t) by (unfold app_tile; by rewrite En).
    exists lb', tiles, C'. split; [done|]. split; [done|]. split; [done|].
    split; [done|]. split; [by rewrite (rel_tiles _ _ _ Hrel)|].
    intros t. rewrite (Hk t), (Hw t).
    split; [intros [[Ht Hwt] Hn]|intros [Ht Hwt]].
    + split; [done|]. apply (released_waits lb lb' tiles t); auto.
    + apply (released_waits lb lb' tiles t) in Hwt as [? ?]; auto.
Qed.

(** ** The thread table *)

Lemma rep_thread_at s V t : rep s V -> 0 <= t < T -> thread_at (tm_threads s) t 0 = Ok (v_thread V t).
Proof.
  intros Hr Ht. unfold thread_at.
  rewrite (proj2 (vec_get_ok (tm_threads s) t _) (conj (proj1 Ht) (rp_threads _ _ Hr t Ht))). done.
Qed.

Lemma rep_row s V t : rep s V -> 0 <= t < T -> vec_get (tm_threads s) t = Ok [v_thread V t].
Proof. intros Hr Ht. apply vec_get_ok. split; [lia|by apply Hr]. Qed.

Lemma rep_running s V t : rep s V -> 0 <= t < T ->
  isCoreRunning (tm_threads s) t = Ok (if has_status RUNNING (v_thread V t) then 0 else INVALID_THREAD_ID).
Proof.
  intros Hr Ht. unfold isCoreRunning. rewrite (rep_row _ _ _ Hr Ht). simpl.
  by destruct (has_status RUNNING (v_thread V t)).
Qed.

Lemma rep_table_ok s V : rep s V -> table_ok A (tm_threads s).
Proof. intros Hr t Ht. eexists. apply (rep_running s V); [done|lia]. Qed.

Lemma has_status_true k th : status th = k -> has_status k th = true.
Proof. intros. by apply bool_decide_eq_true. Qed.
Lemma has_status_false k th : status th <> k -> has_status k th = false.
Proof. intros. by apply bool_decide_eq_false. Qed.

Lemma update_thread_rep s V t f :
  rep s V -> 0 <= t < T ->
  update_thread t 0 f (tm_threads s) = Ok (<[Z.to_nat t := [f (v_thread V t)]]> (tm_threads s)).
Proof.
  intros Hr Ht. unfold update_thread. rewrite (rep_row _ _ _ Hr Ht). simpl.
  rewrite vec_set_eq by (rewrite (rp_threads_len _ _ Hr); lia). done.
Qed.

(** The threads after an update of one of them. *)
Lemma rep_threads_upd s V t x k :
  rep s V -> 0 <= t < T -> 0 <= k < T ->
  <[Z.to_nat t := [x]]> (tm_threads s) !! Z.to_nat k = Some [upd (v_thread V) t x k].
Proof.
  intros Hr Ht Hk. unfold upd. destruct (decide (k = t)) as [->|Hne].
  - apply list_lookup_insert_eq. pose proof (rp_threads_len _ _ Hr). lia.
  - rewrite list_lookup_insert_ne by lia. by apply Hr.
Qed.

Lemma on_thread_runs s V t f (Q : unit -> Mcp -> Prop) :
  rep s V -> 0 <= t < T ->
  (status (f (v_thread V t)) = STALLED -> status (v_thread V t) = STALLED) ->
  (forall s', rep s' (vs_thread t (f (v_thread V t)) V) -> Q tt s') ->
  runs (on_thread t 0 f) s Q.
Proof.
  intros Hr Ht Hst HQ. unfold on_thread. repeat runs_step.
  eapply runs_lift; [by apply update_thread_rep|]. repeat runs_step. apply HQ.
  destruct Hr; split; simpl; try done.
  - by rewrite length_insert.
  - intros k Hk. by apply rep_threads_upd.
  - intros k Hk. unfold upd. destruct (decide (k = t)) as [->|]; auto.
Qed.

(** ** Sending *)

Lemma netSend_runs s V t r k (Q : unit -> Mcp -> Prop) :
  rep s V -> receives cfg t (v_cl V t) r = Some k ->
  (forall a b c d, r <> THREAD_SPAWN_REPLY a b c d) -> r <> BARRIER_RELEASE ->
  (forall s', rep s' (vs_cl (upd (v_cl V) t k) V) -> Q tt s') ->
  runs (netSend (getMainCoreId t) r) s Q.
Proof.
  intros Hr Hk Hsp Hbr HQ. unfold netSend. runs_step. apply HQ.
  assert (Hcl : cl_clock k = cl_clock (v_cl V t)).
  { revert Hk. unfold receives. destruct (cl_state (v_cl V t)), r; try done;
      repeat case_match; try done; by intros [= <-]. }
  destruct Hr; split; simpl; try done.
  - unfold skew_rep in *. destruct (mcp_skew s) as [lb|].
    + destruct rp_skew0 as (? & ? & Hw). split; [done|]. split; [done|]. intros t'. rewrite <- Hw.
      unfold upd. destruct (decide (t' = t)) as [->|]; [by rewrite Hcl|done].
    + intros t'. unfold upd. destruct (decide (t' = t)) as [->|]; [by rewrite Hcl|done].
  - destruct rp_sent0 as (outs & E & Hd). exists (outs ++ [NetSend (getMainCoreId t) r]).
    split; [by rewrite E, app_assoc|]. rewrite (deliver_app _ _ _ _ _ Hd). simpl. rewrite Hk.
    destruct r; try done. by destruct (Hsp tile type tidx tid).
Qed.

Lemma globalSend_runs s V p m (Q : unit -> Mcp -> Prop) :
  rep s V -> (forall s', rep s' V -> Q tt s') -> runs (globalSend p m) s Q.
Proof.
  intros Hr HQ. unfold globalSend. runs_step. apply HQ. destruct Hr; split; simpl; try done.
  destruct rp_sent0 as (outs & E & Hd). exists (outs ++ [GlobalSend p m]).
  split; [by rewrite E, app_assoc|]. by rewrite (deliver_app _ _ _ _ _ Hd).
Qed.

Lemma insertThreadSpawnRequest_runs s V r (Q : unit -> Mcp -> Prop) :
  rep s V -> (forall s', rep s' V -> Q tt s') -> runs (insertThreadSpawnRequest r) s Q.
Proof.
  intros Hr HQ. unfold insertThreadSpawnRequest. runs_step. apply HQ. destruct Hr; by split.
Qed.

Lemma skew_signal_runs s V (Q : unit -> Mcp -> Prop) :
  rep s V ->
  (forall s' C', rep s' (vs_cl C' V) -> same_but_clock (v_cl V) C' -> Q tt s') ->
  runs skew_signal s Q.
Proof.
  intros Hr HQ. unfold skew_signal. repeat runs_step.
  destruct (mcp_skew s) as [lb|] eqn:Es.
  2: { apply runs_ret. apply (HQ s (v_cl V)); [|by intros ?]. by destruct V. }
  repeat runs_step. pose proof (rp_skew _ _ Hr) as Hsk. rewrite Es in Hsk.
  destruct (signal_clients (tm_threads s) lb (v_cl V) Hsk (rep_table_ok _ _ Hr))
    as (lb' & tiles & C' & E & Hd & Hsame & Hsk').
  eapply runs_lift; [exact E|]. cbn beta iota. repeat runs_step.
  eexists _, _. split; [apply send_releases|]. apply (HQ _ C'); [|done].
  destruct Hr; split; simpl; try done.
  destruct rp_sent0 as (outs & E1 & Hd1). exists (outs ++ releases tiles).
  split; [by rewrite E1, app_assoc|]. by rewrite (deliver_app _ _ _ _ _ Hd1).
Qed.

(** ** Stalling and resuming *)

Lemma stallThread_index_runs s V t (Q : unit -> Mcp -> Prop) :
  rep s V -> 0 <= t < T ->
  (forall s' C', rep s' (vs_cl C' (vs_thread t (set_status STALLED (v_thread V t)) V)) ->
     same_but_clock (v_cl V) C' -> Q tt s') ->
  runs (stallThread_index (getMainCoreId t) 0) s Q.
Proof.
  intros Hr Ht HQ. unfold stallThread_index, stallThread_tile. simpl.
  unfold on_thread. repeat runs_step.
  eapply runs_lift; [by apply update_thread_rep|]. repeat runs_step. cbn [tm_last_stalled put_threads].
  eapply runs_lift; [apply vec_set_eq; rewrite (rp_last_len _ _ Hr); lia|]. repeat runs_step.
  eapply (skew_signal_runs _ (vs_thread t (set_status STALLED (v_thread V t)) V)); [|exact HQ].
  pose proof (rp_last_len _ _ Hr).
  destruct Hr; split; simpl; try done.
  - by rewrite length_insert.
  - intros k Hk. apply rep_threads_upd; [|done|done]. by split.
  - by rewrite length_insert.
  - intros k Hk. unfold upd. destruct (decide (k = t)) as [->|Hne]; intros.
    + apply list_lookup_insert_eq. lia.
    + rewrite list_lookup_insert_ne by lia. auto.
Qed.

Lemma stallThread_runs s V t (Q : unit -> Mcp -> Prop) :
  rep s V -> 0 <= t < T -> status (v_thread V t) = RUNNING ->
  (forall s' C', rep s' (vs_cl C' (vs_thread t (set_status STALLED (v_thread V t)) V)) ->
     same_but_clock (v_cl V) C' -> Q tt s') ->
  runs (stallThread (getMainCoreId t)) s Q.
Proof.
  intros Hr Ht Hrun HQ. unfold stallThread. repeat runs_step.
  eapply runs_lift.
  { unfold main_core. simpl. rewrite (rep_running _ _ _ Hr Ht), has_status_true by done. done. }
  cbn beta. simpl. by apply (stallThread_index_runs s V t).
Qed.

Lemma resumeThread_runs s V t (Q : unit -> Mcp -> Prop) :
  rep s V -> 0 <= t < T -> status (v_thread V t) = STALLED ->
  (forall s', rep s' (vs_thread t (set_status RUNNING (v_thread V t)) V) -> Q tt s') ->
  runs (resumeThread (getMainCoreId t)) s Q.
Proof.
  intros Hr Ht Hst HQ. unfold resumeThread. simpl. repeat runs_step.
  eapply runs_lift; [apply vec_get_ok; split; [lia|by apply (rp_last _ _ Hr)]|]. repeat runs_step.
  apply runs_assert; [done|]. by apply on_thread_runs with V.
Qed.

(** ** Synchronization objects and queues *)

Lemma get_mutex_runs s V m x (Q : SimMutex -> Mcp -> Prop) :
  rep s V -> 0 <= m -> v_mx V !! Z.to_nat m = Some x -> Q x s -> runs (get_mutex m) s Q.
Proof.
  intros Hr Hm E HQ. unfold get_mutex. repeat runs_step. eapply runs_lift; [|done].
  apply vec_get_ok. by rewrite (rp_mx _ _ Hr).
Qed.
Lemma set_mutex_runs s V m x (Q : unit -> Mcp -> Prop) :
  rep s V -> 0 <= m < Z.of_nat (length (v_mx V)) ->
  (forall s', rep s' (vs_mx (<[Z.to_nat m := x]> (v_mx V)) V) -> Q tt s') -> runs (set_mutex m x) s Q.
Proof.
  intros Hr Hm HQ. unfold set_mutex. repeat runs_step.
  eapply runs_lift; [apply vec_set_eq; by rewrite (rp_mx _ _ Hr)|]. repeat runs_step. apply HQ.
  destruct Hr; split; simpl; try done. by rewrite rp_mx0.
Qed.

Lemma get_cond_runs s V m x (Q : SimCond -> Mcp -> Prop) :
  rep s V -> 0 <= m -> v_cd V !! Z.to_nat m = Some x -> Q x s -> runs (get_cond m) s Q.
Proof.
  intros Hr Hm E HQ. unfold get_cond. repeat runs_step. eapply runs_lift; [|done].
  apply vec_get_ok. by rewrite (rp_cd _ _ Hr).
Qed.
Lemma set_cond_runs s V m x (Q : unit -> Mcp -> Prop) :
  rep s V -> 0 <= m < Z.of_nat (length (v_cd V)) ->
  (forall s', rep s' (vs_cd (<[Z.to_nat m := x]> (v_cd V)) V) -> Q tt s') -> runs (set_cond m x) s Q.
Proof.
  intros Hr Hm HQ. unfold set_cond. repeat runs_step.
  eapply runs_lift; [apply vec_set_eq; by rewrite (rp_cd _ _ Hr)|]. repeat runs_step. apply HQ.
  destruct Hr; split; simpl; try done. by rewrite rp_cd0.
Qed.

Lemma get_barrier_runs s V m x (Q : SimBarrier -> Mcp -> Prop) :
  rep s V -> 0 <= m -> v_br V !! Z.to_nat m = Some x -> Q x s -> runs (get_barrier m) s Q.
Proof.
  intros Hr Hm E HQ. unfold get_barrier. repeat runs_step. eapply runs_lift; [|done].
  apply vec_get_ok. by rewrite (rp_br _ _ Hr).
Qed.
Lemma set_barrier_runs s V m x (Q : unit -> Mcp -> Prop) :
  rep s V -> 0 <= m < Z.of_nat (length (v_br V)) ->
  (forall s', rep s' (vs_br (<[Z.to_nat m := x]> (v_br V)) V) -> Q tt s') -> runs (set_barrier m x) s Q.
Proof.
  intros Hr Hm HQ. unfold set_barrier. repeat runs_step.
  eapply runs_lift; [apply vec_set_eq; by rewrite (rp_br _ _ Hr)|]. repeat runs_step. apply HQ.
  destruct Hr; split; simpl; try done. by rewrite rp_br0.
Qed.

Lemma queue_of_runs s V t (Q : list ThreadSpawnRequest -> Mcp -> Prop) :
  rep s V -> 0 <= t < T -> Q (v_queue V t) s -> runs (queue_of t) s Q.
Proof.
  intros Hr Ht HQ. unfold queue_of. repeat runs_step. eapply runs_lift; [|done].
  apply vec_get_ok. split; [lia|by apply Hr].
Qed.
Lemma set_queue_runs s V t x (Q : unit -> Mcp -> Prop) :
  rep s V -> 0 <= t < T ->
  (forall s', rep s' (vs_queue t x V) -> Q tt s') -> runs (set_queue t x) s Q.
Proof.
  intros Hr Ht HQ. unfold set_queue. repeat runs_step.
  eapply runs_lift; [apply vec_set_eq; rewrite (rp_queue_len _ _ Hr); lia|]. repeat runs_step. apply HQ.
  pose proof (rp_queue_len _ _ Hr).
  destruct Hr; split; simpl; try done.
  - by rewrite length_insert.
  - intros k Hk. unfold upd. destruct (decide (k = t)) as [->|Hne].
    + apply list_lookup_insert_eq. lia.
    + rewrite list_lookup_insert_ne by lia. auto.
Qed.
End rep.
