(* ===== verification/McpInv.v ===== *)
(** * The invariant of the master control program

    [L t] is where the thread of tile [t] stands in the server, [H t] the
    mutexes it holds.  The queues of the synchronization objects contain
    exactly the threads that stand there, each once; a mutex without an owner
    has no waiting thread; a stalled thread is in exactly one place.  The
    lemmas follow the invariant through the elementary transitions of the
    server. *)

From S2P Require Import Prelude Threads ThreadsThm Mcp McpClients McpThm.

Abbreviation main := getMainCoreId.

Lemma main_inj t t' : main t = main t' -> t = t'.
Proof. by intros [=]. Qed.

(** The status of a thread by where it stands. *)
Definition st_of (k : ClientState) : CoreState :=
  match k with
  | Absent => IDLE
  | Starting => INITIALIZING
  | AtMutex _ | AtCond _ _ | AtBarrier _ | AtJoin _ => STALLED
  | _ => RUNNING
  end.

(** What a client waits for and where it stands: a client that was woken on a
    condition variable may stand in the queue of the mutex. *)
Definition agrees (k l : ClientState) : Prop :=
  k = l \/ exists cv m, k = AtCond cv m /\ l = AtMutex m.

Section inv.
Context (cfg : SimConfig).
Abbreviation T := (getTotalTiles cfg).
Implicit Types (V : View) (L : Z -> ClientState) (H : Z -> list Z) (t : Z).

Record mutex_ok L H (m : Z) (x : SimMutex) : Prop := {
  mo_nodup : NoDup (mx_waiting x);
  mo_waiting : forall c, c ∈ mx_waiting x <-> exists t, c = main t /\ L t = AtMutex m;
  mo_owner :
    (mx_owner x = INVALID_CORE_ID /\ mx_waiting x = [] /\ forall t, m ∉ H t) \/
    exists o, mx_owner x = main o /\ 0 <= o < T /\ forall t, m ∈ H t <-> t = o }.

Record cond_ok L (cv : Z) (x : SimCond) : Prop := {
  co_nodup : NoDup (cw_core_id <$> cd_waiting x);
  co_waiting : forall w, w ∈ cd_waiting x ->
    exists t, cw_core_id w = main t /\ L t = AtCond cv (cw_mutex w);
  co_complete : forall t m, L t = AtCond cv m -> main t ∈ cw_core_id <$> cd_waiting x }.

Record barrier_ok L (b : Z) (x : SimBarrier) : Prop := {
  bo_nodup : NoDup (br_waiting x);
  bo_waiting : forall c, c ∈ br_waiting x <-> exists t, c = main t /\ L t = AtBarrier b;
  bo_tiles : forall t, L t = AtBarrier b -> t < br_count x;
  bo_size : br_waiting x <> [] -> Z.of_nat (length (br_waiting x)) < br_count x }.

(** A place a thread stands at exists; a join is recorded at the thread joined. *)
Definition at_ok V L t : Prop :=
  match L t with
  | AtMutex m => 0 <= m < Z.of_nat (length (v_mx V))
  | AtCond cv m => 0 <= cv < Z.of_nat (length (v_cd V)) /\ 0 <= m < Z.of_nat (length (v_mx V))
  | AtBarrier b => 0 <= b < Z.of_nat (length (v_br V))
  | AtJoin _ => exists k, 0 <= k < T /\ waiter_core (v_thread V k) = main t
  | _ => True
  end.

Definition waiter_ok V L k : Prop :=
  waiter_core (v_thread V k) = INVALID_CORE_ID \/
  exists w tid, waiter_core (v_thread V k) = main w /\ waiter_tid (v_thread V k) = 0 /\
    L w = AtJoin tid /\ L k <> Absent.

Record inv V L H : Prop := {
  i_range : forall t, ~ (0 <= t < T) -> L t = Absent;
  i_status : forall t, 0 <= t < T -> status (v_thread V t) = st_of (L t);
  i_mx : forall (m : nat) x, v_mx V !! m = Some x -> mutex_ok L H (Z.of_nat m) x;
  i_cd : forall cv x, v_cd V !! cv = Some x -> cond_ok L (Z.of_nat cv) x;
  i_br : forall b x, v_br V !! b = Some x -> barrier_ok L (Z.of_nat b) x;
  i_brlen : Z.of_nat (length (v_br V)) < 2 ^ 31;
  i_at : forall t, at_ok V L t;
  i_held : forall t m, m ∈ H t -> 0 <= m < Z.of_nat (length (v_mx V));
  i_join : forall k, 0 <= k < T -> waiter_ok V L k;
  i_join1 : forall k k' w, 0 <= k < T -> 0 <= k' < T -> 0 <= w ->
    waiter_core (v_thread V k) = main w -> waiter_core (v_thread V k') = main w -> k = k';
  i_queue : forall k, 0 <= k < T -> (length (v_queue V k) <= 1)%nat /\
    (L k = Absent \/ cfg_application_tiles cfg <= k -> v_queue V k = []);
  i_tids : Forall (fun e => exists t, e = (main t, 0) /\ 0 <= t < T) (v_tids V);
  i_counter : 0 <= v_counter V < 2 ^ 30 }.

(** The invariant does not look at the clients. *)
Lemma inv_cl V L H C : inv V L H -> inv (vs_cl C V) L H.
Proof. intros []. by split. Qed.

(** ** Objects a change does not concern *)

Lemma mutex_ok_frame L H L' H' m x :
  mutex_ok L H m x -> (forall t, L' t = AtMutex m <-> L t = AtMutex m) ->
  (forall t, m ∈ H' t <-> m ∈ H t) -> mutex_ok L' H' m x.
Proof.
  intros [Hn Hw Ho] HL HH. split; [done| |].
  - intros c. rewrite Hw. by setoid_rewrite HL.
  - destruct Ho as [(? & ? & Hf)|(o & ? & ? & Hf)]; [left|right; exists o].
    + split; [done|]. split; [done|]. intros t. by rewrite HH.
    + split; [done|]. split; [done|]. intros t. by rewrite HH.
Qed.

Lemma cond_ok_frame L L' cv x :
  cond_ok L cv x -> (forall t m, L' t = AtCond cv m <-> L t = AtCond cv m) -> cond_ok L' cv x.
Proof.
  intros [Hn Hw Hc] HL. split; [done| |].
  - intros w (t & ? & ?)%Hw. exists t. by rewrite HL.
  - intros t m ?%HL. by eapply Hc.
Qed.

Lemma barrier_ok_frame L L' b x :
  barrier_ok L b x -> (forall t, L' t = AtBarrier b <-> L t = AtBarrier b) -> barrier_ok L' b x.
Proof.
  intros [Hn Hw Ht Hs] HL. split; [done| | |done].
  - intros c. rewrite Hw. by setoid_rewrite HL.
  - intros t. rewrite HL. apply Ht.
Qed.

Lemma inv_in_range V L H t : inv V L H -> L t <> Absent -> 0 <= t < T.
Proof.
  intros Hi Hne. destruct (decide (0 <= t < T)); [done|]. by destruct Hne, (i_range _ _ _ Hi t).
Qed.

(** ** Threads move

    [moves V V' L L']: some threads, which neither come nor go and take part
    in no join as the waiting side, stand elsewhere; everything else but the
    synchronization objects is as it was. *)
Definition mobile (k : ClientState) : Prop := k <> Absent /\ forall tid, k <> AtJoin tid.

Record moves V V' L L' : Prop := {
  mv_states : forall i, L' i = L i \/ (0 <= i < T /\ mobile (L i) /\ mobile (L' i));
  mv_status : forall i, 0 <= i < T -> status (v_thread V' i) = st_of (L' i);
  mv_core : forall i, waiter_core (v_thread V' i) = waiter_core (v_thread V i);
  mv_tid : forall i, waiter_tid (v_thread V' i) = waiter_tid (v_thread V i);
  mv_queue : v_queue V' = v_queue V;
  mv_counter : v_counter V' = v_counter V;
  mv_tids : v_tids V' = v_tids V }.

Lemma inv_move V V' L L' H H' :
  inv V L H -> moves V V' L L' ->
  length (v_mx V') = length (v_mx V) -> length (v_cd V') = length (v_cd V) ->
  length (v_br V') = length (v_br V) ->
  (forall m x, v_mx V' !! m = Some x -> mutex_ok L' H' (Z.of_nat m) x) ->
  (forall cv x, v_cd V' !! cv = Some x -> cond_ok L' (Z.of_nat cv) x) ->
  (forall b x, v_br V' !! b = Some x -> barrier_ok L' (Z.of_nat b) x) ->
  (forall i, L' i = L i \/ at_ok V L' i) ->
  (forall t m, m ∈ H' t -> 0 <= m < Z.of_nat (length (v_mx V))) ->
  inv V' L' H'.
Proof.
  intros Hi [Hs Hst Hc Hw Hq Hn Htd] Em Ec Eb Hmx Hcd Hbr Hat Hheld.
  split; try done.
  - intros i Hr. destruct (Hs i) as [-> |[? _]]; [by apply Hi|done].
  - rewrite Eb. apply Hi.
  - intros i. assert (Hai : at_ok V L' i).
    { destruct (Hat i) as [E|]; [|done]. pose proof (i_at _ _ _ Hi i) as Ha. unfold at_ok in *. by rewrite E. }
    unfold at_ok in *. destruct (L' i); rewrite ?Em, ?Ec, ?Eb; try done.
    setoid_rewrite Hc. done.
  - intros i q. rewrite Em. apply Hheld.
  - intros i Hr. unfold waiter_ok. rewrite Hc, Hw.
    destruct (i_join _ _ _ Hi i Hr) as [?|(w & tid & ? & ? & Hlw & Hli)]; [by left|right].
    exists w, tid. split; [done|]. split; [done|]. split.
    + destruct (Hs w) as [-> |(_ & [_ Hj] & _)]; [done|]. by destruct (Hj tid).
    + destruct (Hs i) as [-> |(_ & _ & [? _])]; done.
  - intros i i' w Hr Hr' Hw0. rewrite !Hc. by apply Hi.
  - intros i Hr. rewrite Hq. destruct (i_queue _ _ _ Hi i Hr) as [H1 H2].
    split; [done|]. intros [E|E]; apply H2; [left|by right]. destruct (Hs i) as [<- |(_ & _ & [? _])]; done.
  - rewrite Htd. apply Hi.
  - rewrite Hn. apply Hi.
Qed.

(** The common case: one thread moves to [k], its status is set. *)
Lemma moves_one V V' L H t k :
  inv V L H -> 0 <= t < T -> mobile (L t) -> mobile k ->
  v_thread V' = upd (v_thread V) t (set_status (st_of k) (v_thread V t)) ->
  v_queue V' = v_queue V -> v_counter V' = v_counter V -> v_tids V' = v_tids V ->
  moves V V' L (upd L t k).
Proof.
  intros Hi Ht Hm Hk E Eq Ec Et. split; try done.
  - intros i. unfold upd. destruct (decide (i = t)) as [->|]; [by right|by left].
  - intros i Hr. rewrite E. unfold upd. destruct (decide (i = t)) as [->|]; [done|by apply Hi].
  - intros i. rewrite E. unfold upd. by destruct (decide (i = t)) as [->|].
  - intros i. rewrite E. unfold upd. by destruct (decide (i = t)) as [->|].
Qed.

Lemma moves_none V V' L H :
  inv V L H -> v_thread V' = v_thread V ->
  v_queue V' = v_queue V -> v_counter V' = v_counter V -> v_tids V' = v_tids V -> moves V V' L L.
Proof.
  intros Hi E Eq Ec Et. split; try done; rewrite ?E; try done.
  - by left.
  - apply Hi.
Qed.

Lemma upd_states L t k j i :
  L t <> j -> k <> j -> upd L t k i = j <-> L i = j.
Proof. intros H1 H2. unfold upd. destruct (decide (i = t)) as [->|]; naive_solver. Qed.

(** ** Mutexes *)

(** Replacing one element of a list of objects. *)
Lemma insert_cases {A} (l : list A) (i : nat) x (P : nat -> A -> Prop) :
  P i x -> (forall k y, k <> i -> l !! k = Some y -> P k y) ->
  forall k y, <[i := x]> l !! k = Some y -> P k y.
Proof.
  intros Hx Hl k y E. destruct (decide (k = i)) as [->|Hne].
  - destruct (decide (i < length l)%nat) as [Hlt|Hge].
    + rewrite list_lookup_insert_eq in E by done. by injection E as <-.
    + rewrite list_insert_ge in E by lia. apply lookup_lt_Some in E. lia.
  - rewrite list_lookup_insert_ne in E by done. by apply Hl.
Qed.

(** A free mutex is taken. *)
Lemma inv_lock_free V L H t (m : nat) x :
  inv V L H -> 0 <= t < T -> v_mx V !! m = Some x -> mx_owner x = INVALID_CORE_ID ->
  inv (vs_mx (<[m := mkMutex (mx_waiting x) (main t)]> (v_mx V)) V) L
    (upd H t (Z.of_nat m :: H t)).
Proof.
  intros Hi Ht Hx Ho. pose proof (i_mx _ _ _ Hi m x Hx) as [Hn Hw [(_ & E & Hf)|(o & E & ? & _)]].
  2: { rewrite Ho in E. injection E as E. lia. }
  eapply inv_move; [done|by eapply moves_none| | | | |apply Hi|apply Hi|by left|]; simpl; try done.
  - by rewrite length_insert.
  - apply insert_cases.
    + split; simpl; [done|done|]. right. exists t. split; [done|]. split; [done|].
      intros i. unfold upd. destruct (decide (i = t)) as [->|Hne]; [|by specialize (Hf i)].
      rewrite elem_of_cons. naive_solver.
    + intros k y Hk Hy. eapply mutex_ok_frame; [by apply Hi|done|].
      intros i. unfold upd. destruct (decide (i = t)) as [->|]; [|done].
      rewrite elem_of_cons. split; [intros [?|?]; [lia|done]|by right].
  - intros i q. unfold upd. destruct (decide (i = t)) as [->|]; [|apply Hi].
    rewrite elem_of_cons. intros [->|?]; [|by eapply Hi]. apply lookup_lt_Some in Hx. lia.
Qed.

(** A thread queues up for a mutex. *)
Lemma inv_lock_queue V L H t (m : nat) x :
  inv V L H -> 0 <= t < T -> L t = Active ->
  v_mx V !! m = Some x -> mx_owner x <> INVALID_CORE_ID ->
  inv (vs_mx (<[m := mkMutex (mx_waiting x ++ [main t]) (mx_owner x)]> (v_mx V))
         (vs_thread t (set_status STALLED (v_thread V t)) V))
    (upd L t (AtMutex (Z.of_nat m))) H.
Proof.
  intros Hi Ht HL Hx Ho. pose proof (i_mx _ _ _ Hi m x Hx) as [Hn Hw Hown].
  eapply inv_move; [done|eapply moves_one; try done; by rewrite ?HL| | | | | | | |apply Hi]; simpl; try done.
  - by rewrite length_insert.
  - apply insert_cases.
    + split; simpl.
      * apply NoDup_app. split; [done|]. split; [|apply NoDup_singleton].
        intros c Hc ->%list_elem_of_singleton. apply Hw in Hc as (i & E%main_inj & Hl). subst i. congruence.
      * intros c. rewrite elem_of_app, list_elem_of_singleton, Hw. split.
        -- intros [(i & -> & Hl)| ->].
           ++ exists i. split; [done|]. by rewrite upd_ne by (intros ->; congruence).
           ++ exists t. by rewrite upd_eq.
        -- intros (i & -> & Hl). unfold upd in Hl. destruct (decide (i = t)) as [->|]; [by right|left].
           by exists i.
      * destruct Hown as [(? & _)|?]; [done|by right].
    + intros k y Hk Hy. eapply mutex_ok_frame; [by apply Hi| |done].
      intros i. apply upd_states; [congruence|]. intros [= ?]. lia.
  - intros k y Hy. eapply cond_ok_frame; [by apply Hi|]. intros. apply upd_states; congruence.
  - intros k y Hy. eapply barrier_ok_frame; [by apply Hi|]. intros. apply upd_states; congruence.
  - intros i. unfold at_ok. unfold upd. destruct (decide (i = t)) as [->|]; [right|by left].
    apply lookup_lt_Some in Hx. lia.
Qed.

Lemma owner_is V L H t (m : nat) x :
  inv V L H -> 0 <= t < T -> v_mx V !! m = Some x -> mx_owner x = main t ->
  forall i, Z.of_nat m ∈ H i <-> i = t.
Proof.
  intros Hi Ht Hx Ho. destruct (mo_owner _ _ _ _ (i_mx _ _ _ Hi m x Hx)) as [(E & _)|(o & E & ? & Hh)].
  - rewrite Ho in E. injection E as ->. lia.
  - rewrite Ho in E. apply main_inj in E as ->. done.
Qed.

Lemma elem_of_released (l : list Z) (k q : Z) : k ∈ filter (fun y => y <> q) l <-> k <> q /\ k ∈ l.
Proof. by rewrite list_elem_of_filter. Qed.

(** The owner frees a mutex nobody waits for. *)
Lemma inv_unlock_free V L H t (m : nat) x :
  inv V L H -> 0 <= t < T -> v_mx V !! m = Some x -> mx_owner x = main t -> mx_waiting x = [] ->
  inv (vs_mx (<[m := mkMutex [] INVALID_CORE_ID]> (v_mx V)) V) L
    (upd H t (filter (fun y => y <> Z.of_nat m) (H t))).
Proof.
  intros Hi Ht Hx Ho Hw0. pose proof (owner_is _ _ _ _ _ _ Hi Ht Hx Ho) as Hh.
  pose proof (i_mx _ _ _ Hi m x Hx) as [Hn Hw _]. rewrite Hw0 in Hn, Hw.
  eapply inv_move; [done|by eapply moves_none| | | | |apply Hi|apply Hi|by left|]; simpl; try done.
  - by rewrite length_insert.
  - apply insert_cases.
    + split; simpl; [done|done|]. left. split; [done|]. split; [done|].
      intros i. unfold upd. destruct (decide (i = t)) as [->|]; [|by rewrite Hh].
      rewrite elem_of_released. by intros [? _].
    + intros k y Hk Hy. eapply mutex_ok_frame; [by apply Hi|done|].
      intros i. unfold upd. destruct (decide (i = t)) as [->|]; [|done].
      rewrite elem_of_released. split; [by intros [? ?]|]. split; [lia|done].
  - intros i q. unfold upd. destruct (decide (i = t)) as [->|]; [|apply Hi].
    intros [_ ?]%elem_of_released. by eapply Hi.
Qed.

(** The owner hands the mutex to the first thread that waits. *)
Lemma inv_unlock_next V L H t (m : nat) x w ws :
  inv V L H -> 0 <= t < T -> v_mx V !! m = Some x -> mx_owner x = main t ->
  mx_waiting x = main w :: ws -> L w = AtMutex (Z.of_nat m) -> w <> t ->
  inv (vs_thread w (set_status RUNNING (v_thread V w))
         (vs_mx (<[m := mkMutex ws (main w)]> (v_mx V)) V))
    (upd L w Active)
    (upd (upd H t (filter (fun y => y <> Z.of_nat m) (H t))) w (Z.of_nat m :: H w)).
Proof.
  intros Hi Ht Hx Ho Hw0 HL Hwt. pose proof (owner_is _ _ _ _ _ _ Hi Ht Hx Ho) as Hh.
  pose proof (i_mx _ _ _ Hi m x Hx) as [Hn Hw _]. rewrite Hw0 in Hn, Hw.
  apply NoDup_cons in Hn as [Hni Hn].
  assert (Hrw : 0 <= w < T) by (eapply inv_in_range; [done|by rewrite HL]).
  eapply inv_move; [done|eapply moves_one; try done; by rewrite ?HL| | | | | | | | ]; simpl; try done.
  - by rewrite length_insert.
  - apply insert_cases.
    + split; simpl; [done| |].
      * intros c. split.
        -- intros Hc. destruct (proj1 (Hw c)) as (i & -> & Hl); [by right|]. exists i. split; [done|].
           by rewrite upd_ne by (intros ->; done).
        -- intros (i & -> & Hl). unfold upd in Hl. destruct (decide (i = w)) as [->|Hne]; [done|].
           assert (Hin : main i ∈ main w :: ws) by (apply Hw; by exists i).
           apply elem_of_cons in Hin as [E%main_inj|]; done.
      * right. exists w. split; [done|]. split; [done|]. intros i.
        unfold upd. destruct (decide (i = w)) as [->|]; [rewrite elem_of_cons; naive_solver|].
        destruct (decide (i = t)) as [->|]; [rewrite elem_of_released; naive_solver|].
        rewrite Hh. done.
    + intros k y Hk Hy. eapply mutex_ok_frame; [by apply Hi| |].
      * intros i. apply upd_states; [|done]. rewrite HL. intros [= ?]. lia.
      * intros i. unfold upd. destruct (decide (i = w)) as [->|].
        -- rewrite elem_of_cons. split; [intros [?|?]; [lia|done]|by right].
        -- destruct (decide (i = t)) as [->|]; [|done].
           rewrite elem_of_released. split; [by intros [? ?]|]. split; [lia|done].
  - intros k y Hy. eapply cond_ok_frame; [by apply Hi|]. intros. apply upd_states; congruence.
  - intros k y Hy. eapply barrier_ok_frame; [by apply Hi|]. intros. apply upd_states; congruence.
  - intros i. unfold at_ok, upd. destruct (decide (i = w)) as [->|]; [by right|by left].
  - intros i q. unfold upd. destruct (decide (i = w)) as [->|].
    + rewrite elem_of_cons. intros [->|?]; [|by eapply Hi]. apply lookup_lt_Some in Hx. lia.
    + destruct (decide (i = t)) as [->|]; [|apply Hi]. intros [_ ?]%elem_of_released. by eapply Hi.
Qed.

(** ** Condition variables *)

(** A thread starts to wait for a condition. *)
Lemma inv_park V L H t (cv : nat) x (m time : Z) :
  inv V L H -> 0 <= t < T -> L t = Active -> v_cd V !! cv = Some x ->
  0 <= m < Z.of_nat (length (v_mx V)) ->
  inv (vs_cd (<[cv := mkCond (cd_waiting x ++ [mkWaiter (main t) m time])]> (v_cd V))
         (vs_thread t (set_status STALLED (v_thread V t)) V))
    (upd L t (AtCond (Z.of_nat cv) m)) H.
Proof.
  intros Hi Ht HL Hx Hm. pose proof (i_cd _ _ _ Hi cv x Hx) as [Hn Hw Hc].
  eapply inv_move; [done|eapply moves_one; try done; by rewrite ?HL| | | | | | | |apply Hi]; simpl; try done.
  - by rewrite length_insert.
  - intros k y Hy. eapply mutex_ok_frame; [by apply Hi| |done]. intros. apply upd_states; congruence.
  - apply insert_cases.
    + split; simpl.
      * rewrite fmap_app. apply NoDup_app. split; [done|]. split; [|apply NoDup_singleton].
        intros c (w & -> & Hin)%list_elem_of_fmap. simpl. rewrite list_elem_of_singleton. intros E.
        apply Hw in Hin as (i & E' & Hl). rewrite E' in E. apply main_inj in E as ->. congruence.
      * intros w. rewrite elem_of_app, list_elem_of_singleton. intros [Hin| ->].
        -- apply Hw in Hin as (i & E & Hl). exists i. split; [done|].
           by rewrite upd_ne by (intros ->; congruence).
        -- exists t. by rewrite upd_eq.
      * intros i q. rewrite fmap_app, elem_of_app. simpl. rewrite list_elem_of_singleton.
        unfold upd. destruct (decide (i = t)) as [->|]; [by right|]. intros ?. left. by eapply Hc.
    + intros k y Hk Hy. eapply cond_ok_frame; [by apply Hi|].
      intros i q. apply upd_states; [congruence|]. intros [= ?]. lia.
  - intros k y Hy. eapply barrier_ok_frame; [by apply Hi|]. intros. apply upd_states; congruence.
  - intros i. unfold at_ok, upd. destruct (decide (i = t)) as [->|]; [right|by left].
    apply lookup_lt_Some in Hx. lia.
Qed.

(** The thread that has waited longest is taken off the condition. *)
Lemma inv_unpark V L H (cv : nat) x w ws t :
  inv V L H -> v_cd V !! cv = Some x -> cd_waiting x = w :: ws -> cw_core_id w = main t ->
  L t = AtCond (Z.of_nat cv) (cw_mutex w) ->
  inv (vs_thread t (set_status RUNNING (v_thread V t)) (vs_cd (<[cv := mkCond ws]> (v_cd V)) V))
    (upd L t Active) H.
Proof.
  intros Hi Hx E Et HL. pose proof (i_cd _ _ _ Hi cv x Hx) as [Hn Hw Hc]. rewrite E in Hn, Hw, Hc.
  rewrite fmap_cons in Hn, Hc. apply NoDup_cons in Hn as [Hni Hn].
  assert (Hrt : 0 <= t < T) by (eapply inv_in_range; [done|by rewrite HL]).
  eapply inv_move; [done|eapply moves_one; try done; by rewrite ?HL| | | | | | | |apply Hi]; simpl; try done.
  - by rewrite length_insert.
  - intros k y Hy. eapply mutex_ok_frame; [by apply Hi| |done]. intros. apply upd_states; congruence.
  - apply insert_cases.
    + split; simpl; [done| |].
      * intros w' Hin. destruct (Hw w') as (i & E' & Hl); [by right|]. exists i. split; [done|].
        rewrite upd_ne; [done|]. intros ->. apply Hni. rewrite Et, <- E'. by apply list_elem_of_fmap_2.
      * intros i q. unfold upd. destruct (decide (i = t)) as [->|Hne]; [done|]. intros Hl.
        apply Hc in Hl as [E'|?]%elem_of_cons; [|done]. rewrite Et in E'. by apply main_inj in E'.
    + intros k y Hk Hy. eapply cond_ok_frame; [by apply Hi|].
      intros i q. apply upd_states; [|done]. rewrite HL. intros [= ?]. lia.
  - intros k y Hy. eapply barrier_ok_frame; [by apply Hi|]. intros. apply upd_states; congruence.
  - intros i. unfold at_ok, upd. destruct (decide (i = t)) as [->|]; [by right|by left].
Qed.

(** ** Barriers *)

(** A thread arrives at a barrier that is not complete. *)
Lemma inv_arrive V L H t (b : nat) x time :
  inv V L H -> 0 <= t < T -> L t = Active -> v_br V !! b = Some x ->
  t < br_count x -> Z.of_nat (length (br_waiting x)) + 1 < br_count x ->
  inv (vs_br (<[b := mkBarrier (br_waiting x ++ [main t]) (br_count x) time]> (v_br V))
         (vs_thread t (set_status STALLED (v_thread V t)) V))
    (upd L t (AtBarrier (Z.of_nat b))) H.
Proof.
  intros Hi Ht HL Hx Hc Hlen. pose proof (i_br _ _ _ Hi b x Hx) as [Hn Hw Htl Hs].
  eapply inv_move; [done|eapply moves_one; try done; by rewrite ?HL| | | | | | | |apply Hi]; simpl; try done.
  - by rewrite length_insert.
  - intros k y Hy. eapply mutex_ok_frame; [by apply Hi| |done]. intros. apply upd_states; congruence.
  - intros k y Hy. eapply cond_ok_frame; [by apply Hi|]. intros. apply upd_states; congruence.
  - apply insert_cases.
    + split; simpl.
      * apply NoDup_app. split; [done|]. split; [|apply NoDup_singleton].
        intros c Hin ->%list_elem_of_singleton. apply Hw in Hin as (i & E%main_inj & Hl). subst i. congruence.
      * intros c. rewrite elem_of_app, list_elem_of_singleton, Hw. split.
        -- intros [(i & -> & Hl)| ->].
           ++ exists i. split; [done|]. by rewrite upd_ne by (intros ->; congruence).
           ++ exists t. by rewrite upd_eq.
        -- intros (i & -> & Hl). unfold upd in Hl. destruct (decide (i = t)) as [->|]; [by right|left].
           by exists i.
      * intros i. unfold upd. destruct (decide (i = t)) as [->|]; [done|apply Htl].
      * intros _. rewrite length_app. simpl. lia.
    + intros k y Hk Hy. eapply barrier_ok_frame; [by apply Hi|].
      intros i. apply upd_states; [congruence|]. intros [= ?]. lia.
  - intros i. unfold at_ok, upd. destruct (decide (i = t)) as [->|]; [right|by left].
    apply lookup_lt_Some in Hx. lia.
Qed.

(** The last thread arrives: everyone leaves. *)
Lemma inv_release V V' L L' H (b : nat) x time :
  inv V L H -> v_br V !! b = Some x ->
  (forall i, L' i = if decide (L i = AtBarrier (Z.of_nat b)) then Active else L i) ->
  moves V V' L L' -> v_mx V' = v_mx V -> v_cd V' = v_cd V ->
  v_br V' = <[b := mkBarrier [] (br_count x) time]> (v_br V) ->
  inv V' L' H.
Proof.
  intros Hi Hx HL Hm Em Ec Eb.
  assert (Hsame : forall i k, k <> AtBarrier (Z.of_nat b) -> k <> Active -> L' i = k <-> L i = k).
  { intros i k H1 H2. rewrite HL. destruct (decide (L i = _)); naive_solver. }
  eapply inv_move; [done|done| | | | | | | |apply Hi]; rewrite ?Em, ?Ec, ?Eb; try done.
  - by rewrite length_insert.
  - intros k y Hy. eapply mutex_ok_frame; [by apply Hi| |done]. intros. by apply Hsame.
  - intros k y Hy. eapply cond_ok_frame; [by apply Hi|]. intros. by apply Hsame.
  - apply insert_cases.
    + assert (Hno : forall i, L' i <> AtBarrier (Z.of_nat b)).
      { intros i. rewrite HL. by destruct (decide (L i = _)). }
      split; simpl; [constructor| | |done].
      * intros c. split; [by intros ?%elem_of_nil|]. intros (i & _ & E). by destruct (Hno i).
      * intros i E. by destruct (Hno i).
    + intros k y Hk Hy. eapply barrier_ok_frame; [by apply Hi|]. intros i. apply Hsame; [|done].
      intros [= ?]. lia.
  - intros i. unfold at_ok. rewrite HL. destruct (decide (L i = _)); [by right|by left].
Qed.
End inv.
