(* ===== verification/McpSync.v ===== *)
(** * The synchronization requests

    Mutexes, condition variables and barriers: every request of a correct
    client is handled to the end, every reply goes to a client that waits for
    it, and the invariant is kept. *)

From S2P Require Import Prelude Threads ThreadsThm Mcp McpClients McpThm McpInv.

Section sync.
Context (cfg : SimConfig) (base : list Out) (C0 : Clients).
Abbreviation T := (getTotalTiles cfg).
Abbreviation A := (cfg_application_tiles cfg).
Context (HA : 0 < A) (HAT : A < T).
Abbreviation rep := (rep cfg base C0).
Abbreviation inv := (inv cfg).
Implicit Types (s : Mcp) (V : View) (L : Z -> ClientState) (H : Z -> list Z).

(** The clients agree with the server, but for the tile [x]. *)
Definition agree_but (x : Z) V L H : Prop :=
  forall t, t <> x -> agrees (cl_state (v_cl V t)) (L t) /\ cl_held (v_cl V t) = H t.
Definition agree V L H : Prop :=
  forall t, agrees (cl_state (v_cl V t)) (L t) /\ cl_held (v_cl V t) = H t.

Definition settled s : Prop := exists V L H, rep s V /\ inv V L H /\ agree V L H.

Lemma settle s V L H : rep s V -> inv V L H -> agree V L H -> settled s.
Proof. intros. by exists V, L, H. Qed.

Lemma receives_lock i k m time :
  agrees (cl_state k) (AtMutex m) ->
  receives cfg i k (SYNC_REPLY MUTEX_LOCK_RESPONSE time) = Some (set_held (m :: cl_held k) (set_state Active k)).
Proof.
  unfold receives. intros [->|(cv & q & -> & [= <-])]; by rewrite Z.eqb_refl.
Qed.

Lemma stalled_running V L H t :
  inv V L H -> 0 <= t < T -> L t = Active -> status (v_thread V t) = RUNNING.
Proof. intros Hi Ht E. by rewrite (i_status _ _ _ _ Hi t Ht), E. Qed.

(** ** Locking *)

Lemma owner_cases V L H (m : nat) x :
  inv V L H -> v_mx V !! m = Some x ->
  (mx_owner x = INVALID_CORE_ID /\ (tile_id (mx_owner x) =? INVALID_TILE_ID) = true) \/
  (mx_owner x <> INVALID_CORE_ID /\ (tile_id (mx_owner x) =? INVALID_TILE_ID) = false).
Proof.
  intros Hi Hx. destruct (mo_owner _ _ _ _ _ (i_mx _ _ _ _ Hi m x Hx)) as [(E & _)|(o & E & Ho & _)].
  - left. by rewrite E.
  - right. rewrite E. split; [intros [=]; lia|]. simpl. apply Z.eqb_neq. unfold INVALID_TILE_ID. lia.
Qed.

(** [broadcast] empties the queue of the condition at its end: the invariant
    is kept with the queue [l] of the threads that are left. *)
Lemma SimMutex_lock_left s V L H t m x l (Q : bool -> Mcp -> Prop) :
  rep s V -> inv (vs_cd l V) L H -> 0 <= t < T -> L t = Active ->
  0 <= m -> v_mx V !! Z.to_nat m = Some x ->
  (forall s' V', rep s' V' -> inv (vs_cd l V') L (upd H t (m :: H t)) -> v_cl V' = v_cl V ->
     v_cd V' = v_cd V -> Q true s') ->
  (forall s' V', rep s' V' -> inv (vs_cd l V') (upd L t (AtMutex m)) H ->
     same_but_clock (v_cl V) (v_cl V') -> v_cd V' = v_cd V -> Q false s') ->
  runs (SimMutex_lock m (main t)) s Q.
Proof.
  intros Hr Hi Ht HL Hm Hx Hfree Hqueue. unfold SimMutex_lock.
  pose proof (lookup_lt_Some _ _ _ Hx) as Hlt.
  runs_step. apply (get_mutex_runs cfg base C0 s V m x); [done|done|done|].
  destruct (owner_cases _ _ _ _ _ Hi Hx) as [[Ho ->]|[Ho ->]].
  - runs_step. eapply set_mutex_runs; [done|lia|]. intros s' Hr'. runs_step.
    apply (Hfree s' _ Hr'); try done.
    pose proof (inv_lock_free cfg _ L H t _ x Hi Ht Hx Ho) as Hi'. rewrite Z2Nat.id in Hi' by done. exact Hi'.
  - runs_step. eapply stallThread_runs; [done|done|done|by eapply (stalled_running (vs_cd l V))|].
    intros s1 C' Hr1 Hsame.
    runs_step. eapply set_mutex_runs; [exact Hr1|simpl; lia|]. intros s' Hr'. runs_step.
    apply (Hqueue s' _ Hr'); try done.
    pose proof (inv_lock_queue cfg _ L H t _ x Hi Ht HL Hx Ho) as Hi'. rewrite Z2Nat.id in Hi' by done.
    exact (inv_cl _ _ _ _ C' Hi').
Qed.

Lemma vs_cd_same V l : l = v_cd V -> vs_cd l V = V.
Proof. intros ->. by destruct V. Qed.

Lemma SimMutex_lock_runs s V L H t m x (Q : bool -> Mcp -> Prop) :
  rep s V -> inv V L H -> 0 <= t < T -> L t = Active ->
  0 <= m -> v_mx V !! Z.to_nat m = Some x ->
  (forall s' V', rep s' V' -> inv V' L (upd H t (m :: H t)) -> v_cl V' = v_cl V -> Q true s') ->
  (forall s' V', rep s' V' -> inv V' (upd L t (AtMutex m)) H -> same_but_clock (v_cl V) (v_cl V') ->
     Q false s') ->
  runs (SimMutex_lock m (main t)) s Q.
Proof.
  intros Hr Hi Ht HL Hm Hx Hfree Hqueue.
  apply (SimMutex_lock_left s V L H t m x (v_cd V)); try done.
  - by rewrite vs_cd_same.
  - intros s' V' Hr' Hi' ? E. rewrite vs_cd_same in Hi' by done. by apply (Hfree s' V').
  - intros s' V' Hr' Hi' ? E. rewrite vs_cd_same in Hi' by done. by apply (Hqueue s' V').
Qed.

(** ** Unlocking *)

Lemma SimMutex_unlock_runs s V L H t m (Q : core_id_t -> Mcp -> Prop) :
  rep s V -> inv V L H -> 0 <= t < T -> m ∈ H t -> L t <> AtMutex m ->
  (forall s' V', rep s' V' -> inv V' L (upd H t (filter (fun y => y <> m) (H t))) ->
     v_cl V' = v_cl V -> Q INVALID_CORE_ID s') ->
  (forall s' V' w, rep s' V' -> w <> t -> 0 <= w < T -> L w = AtMutex m ->
     inv V' (upd L w Active) (upd (upd H t (filter (fun y => y <> m) (H t))) w (m :: H w)) ->
     v_cl V' = v_cl V -> Q (main w) s') ->
  runs (SimMutex_unlock m (main t)) s Q.
Proof.
  intros Hr Hi Ht Hm HLt Hfree Hnext. pose proof (i_held _ _ _ _ Hi t m Hm) as Hrange.
  destruct (lookup_lt_is_Some_2 (v_mx V) (Z.to_nat m)) as [x Hx]; [lia|].
  pose proof (i_mx _ _ _ _ Hi _ x Hx) as Hok. rewrite Z2Nat.id in Hok by lia.
  assert (Ho : mx_owner x = main t).
  { destruct (mo_owner _ _ _ _ _ Hok) as [(_ & _ & Hno)|(o & E & _ & Hh)]; [by destruct (Hno t)|].
    apply Hh in Hm as ->. done. }
  unfold SimMutex_unlock. runs_step. apply (get_mutex_runs cfg base C0 s V m x); [done|lia|done|].
  runs_step. apply runs_assert; [by rewrite Ho; simpl; rewrite !Z.eqb_refl|].
  destruct (mx_waiting x) as [|c ws] eqn:Ew.
  - runs_step. eapply set_mutex_runs; [done|lia|]. intros s' Hr'. runs_step.
    apply (Hfree s' _ Hr'); [|done].
    pose proof (inv_unlock_free cfg V L H t _ x Hi Ht Hx Ho Ew) as Hi'. by rewrite Z2Nat.id in Hi' by lia.
  - destruct (proj1 (mo_waiting _ _ _ _ _ Hok c)) as (w & -> & HLw); [rewrite Ew; by left|].
    assert (Hrw : 0 <= w < T) by (eapply inv_in_range; [done|by rewrite HLw]).
    assert (Hwt : w <> t) by congruence.
    runs_step. eapply set_mutex_runs; [done|lia|]. intros s1 Hr1.
    runs_step. eapply resumeThread_runs; [exact Hr1|done| |].
    { simpl. by rewrite (i_status _ _ _ _ Hi w Hrw), HLw. }
    intros s' Hr'. runs_step. apply (Hnext s' _ w Hr'); try done.
    pose proof (inv_unlock_next cfg V L H t _ x w ws Hi Ht Hx Ho Ew) as Hi'.
    rewrite Z2Nat.id in Hi' by lia. by apply Hi'.
Qed.

(** ** Requests for mutexes *)

(** The state of the other clients after one of them has changed. *)
Lemma agree_deliver x V V' L L' H H' :
  agree_but x V L H -> (forall t, t <> x -> v_cl V' t = v_cl V t) ->
  (forall t, t <> x -> L' t = L t /\ H' t = H t) ->
  agrees (cl_state (v_cl V' x)) (L' x) -> cl_held (v_cl V' x) = H' x -> agree V' L' H'.
Proof.
  intros Ha Hc HL H1 H2 t. destruct (decide (t = x)) as [->|Hne]; [done|].
  rewrite (Hc t Hne). destruct (HL t Hne) as [-> ->]. by apply Ha.
Qed.

Lemma valid_id_ok {B} m (l : list B) : 0 <= m < 2 ^ 31 -> m < Z.of_nat (length l) -> valid_id m l = true.
Proof.
  intros Hm Hl. unfold valid_id. rewrite wrap_id by (unfold is_word; lia). by apply Z.ltb_lt.
Qed.

Lemma same_agree_but x V C L H :
  agree_but x V L H -> same_but_clock (v_cl V) C -> agree_but x (vs_cl C V) L H.
Proof. intros Ha Hs t Ht. simpl. destruct (Hs t) as [-> ->]. by apply Ha. Qed.

Lemma mutexLock_runs s V L H t m time :
  rep s V -> inv V L H -> agree_but t V L H -> 0 <= t < T -> L t = Active ->
  cl_state (v_cl V t) = AtMutex m -> cl_held (v_cl V t) = H t ->
  0 <= m < 2 ^ 31 -> m < Z.of_nat (length (v_mx V)) ->
  runs (mutexLock (main t) m time) s (fun _ => settled).
Proof.
  intros Hr Hi Ha Ht HL Hst Hh Hm Hlen. unfold mutexLock.
  destruct (lookup_lt_is_Some_2 (v_mx V) (Z.to_nat m)) as [x Hx]; [lia|].
  repeat runs_step. apply runs_log_assert; [rewrite (rp_mx _ _ _ _ _ Hr); by apply valid_id_ok|].
  runs_step. eapply (SimMutex_lock_runs s V L H t m x); try done; [lia| |].
  - intros s1 V1 Hr1 Hi1 E1. simpl.
    eapply netSend_runs; [exact Hr1|rewrite E1; apply receives_lock; by left|done|done|].
    intros s' Hr'. apply (settle _ _ L (upd H t (m :: H t)) Hr'); [apply inv_cl, Hi1|].
    eapply (agree_deliver t); [exact Ha| | | |].
    + intros i Hne. simpl. rewrite upd_ne by done. by rewrite E1.
    + intros i Hne. by rewrite upd_ne.
    + simpl. rewrite upd_eq. simpl. by left.
    + simpl. rewrite !upd_eq. simpl. by rewrite Hh.
  - intros s1 V1 Hr1 Hi1 Hs. simpl. apply runs_ret. exists V1, (upd L t (AtMutex m)), H.
    split; [done|]. split; [done|]. intros i. destruct (Hs i) as [-> ->].
    destruct (decide (i = t)) as [->|Hne].
    + rewrite upd_eq, Hst, Hh. split; [by left|done].
    + rewrite upd_ne by done. by apply Ha.
Qed.

(** The reply to the thread that gets the mutex. *)
Lemma grant_runs s V L H t w m time (Q : unit -> Mcp -> Prop) :
  rep s V -> agree_but t V L H -> w <> t -> L w = AtMutex m ->
  (forall s' C, rep s' (vs_cl C V) -> agree_but t (vs_cl C V) (upd L w Active) (upd H w (m :: H w)) ->
     C t = v_cl V t -> Q tt s') ->
  runs (netSend (main w) (SYNC_REPLY MUTEX_LOCK_RESPONSE time)) s Q.
Proof.
  intros Hr Ha Hne HL HQ. destruct (Ha w Hne) as [Hag Hh].
  eapply netSend_runs; [exact Hr|apply receives_lock; by rewrite <- HL|done|done|].
  intros s' Hr'. apply (HQ s' _ Hr').
  - intros i Hi. simpl. unfold upd. destruct (decide (i = w)) as [->|]; [|by apply Ha].
    simpl. split; [by left|by rewrite Hh].
  - by rewrite upd_ne.
Qed.

Lemma mutexUnlock_runs s V L H t m time :
  rep s V -> inv V L H -> agree_but t V L H -> 0 <= t < T -> L t = Active ->
  cl_state (v_cl V t) = AwaitAck MUTEX_UNLOCK_RESPONSE ->
  cl_held (v_cl V t) = filter (fun y => y <> m) (H t) ->
  0 <= m < 2 ^ 31 -> m ∈ H t ->
  runs (mutexUnlock (main t) m time) s (fun _ => settled).
Proof.
  intros Hr Hi Ha Ht HL Hst Hh Hm Hin. unfold mutexUnlock.
  pose proof (i_held _ _ _ _ Hi t m Hin) as Hlen.
  repeat runs_step. apply runs_assert; [rewrite (rp_mx _ _ _ _ _ Hr); apply valid_id_ok; lia|].
  runs_step. eapply (SimMutex_unlock_runs s V L H t m); try done; [by rewrite HL| |].
  - intros s1 V1 Hr1 Hi1 E1. simpl. runs_step.
    eapply netSend_runs; [exact Hr1|rewrite E1; unfold receives; rewrite Hst, Z.eqb_refl; reflexivity|done|done|].
    intros s' Hr'. eapply (settle _ _ L _ Hr'); [apply inv_cl, Hi1|].
    eapply (agree_deliver t); [exact Ha| | | |].
    + intros i Hne. simpl. rewrite upd_ne by done. by rewrite E1.
    + intros i Hne. by rewrite upd_ne.
    + simpl. rewrite upd_eq. simpl. by left.
    + simpl. rewrite !upd_eq. by simpl.
  - intros s1 V1 w Hr1 Hne Hw HLw Hi1 E1. simpl.
    rewrite (proj2 (Z.eqb_neq w INVALID_TILE_ID)) by (unfold INVALID_TILE_ID; lia). simpl.
    runs_step. eapply (grant_runs s1 V1 L H t w m); try done.
    { intros i Hnei. rewrite E1. by apply Ha. }
    intros s2 C Hr2 Ha2 Ect. simpl in Ha2.
    eapply netSend_runs; [exact Hr2| |done|done|].
    { simpl. rewrite Ect, E1. unfold receives. rewrite Hst, Z.eqb_refl. reflexivity. }
    intros s' Hr'. eapply (settle _ _ _ _ Hr'); [do 2 apply inv_cl; exact Hi1|].
    eapply (agree_deliver t); [exact Ha2| | | |].
    + intros i Hnei. simpl. by rewrite upd_ne.
    + intros i Hnei. split; [done|]. unfold upd. destruct (decide (i = w)) as [->|]; [done|].
      by rewrite decide_False.
    + simpl. rewrite upd_eq. simpl. left. rewrite upd_ne by done. by rewrite HL.
    + simpl. rewrite upd_eq. simpl. rewrite (upd_ne _ w) by done. by rewrite upd_eq.
Qed.

(** ** Condition variables *)

Lemma condWait_runs s V L H t cv m time :
  rep s V -> inv V L H -> agree_but t V L H -> 0 <= t < T -> L t = Active ->
  cl_state (v_cl V t) = AtCond cv m -> cl_held (v_cl V t) = filter (fun y => y <> m) (H t) ->
  0 <= m < 2 ^ 31 -> m ∈ H t -> 0 <= cv < 2 ^ 31 -> cv < Z.of_nat (length (v_cd V)) ->
  runs (condWait (main t) cv m time) s (fun _ => settled).
Proof.
  intros Hr Hi Ha Ht HL Hst Hh Hm Hin Hcv Hclen. unfold condWait, SimCond_wait.
  pose proof (i_held _ _ _ _ Hi t m Hin) as Hlen.
  destruct (lookup_lt_is_Some_2 (v_cd V) (Z.to_nat cv)) as [x Hx]; [lia|].
  repeat runs_step. apply runs_assert; [rewrite (rp_mx _ _ _ _ _ Hr); apply valid_id_ok; lia|].
  repeat runs_step. apply runs_assert; [rewrite (rp_cd _ _ _ _ _ Hr); apply valid_id_ok; lia|].
  repeat runs_step. eapply stallThread_runs; [done|done|done|by eapply stalled_running|].
  intros s1 C1 Hr1 Hs1. repeat runs_step. eapply get_cond_runs; [exact Hr1|lia|exact Hx|].
  repeat runs_step. eapply set_cond_runs; [exact Hr1|simpl; lia|]. intros s2 Hr2.
  pose proof (inv_park cfg V L H t _ x m time Hi Ht HL Hx ltac:(lia)) as Hi2.
  apply (inv_cl _ _ _ _ C1) in Hi2. rewrite Z2Nat.id in Hi2 by lia.
  set (L1 := upd L t (AtCond cv m)) in *.
  assert (Ha1 : agree_but t (vs_cl C1 V) L1 H).
  { intros i Hne. unfold L1. rewrite upd_ne by done. by apply (same_agree_but t V C1 L H Ha Hs1). }
  assert (Hs1t : cl_state (C1 t) = AtCond cv m /\ cl_held (C1 t) = filter (fun y => y <> m) (H t)).
  { destruct (Hs1 t) as [-> ->]. done. }
  eapply (SimMutex_unlock_runs s2 _ L1 H t m); [exact Hr2|exact Hi2|done|done| | |].
  { unfold L1. by rewrite upd_eq. }
  - intros s3 V3 Hr3 Hi3 E3. simpl. apply runs_ret. eapply (settle _ _ _ _ Hr3); [exact Hi3|].
    eapply (agree_deliver t); [exact Ha1| | | |]; rewrite ?E3; simpl.
    + done.
    + intros i Hne. by rewrite upd_ne.
    + unfold L1. rewrite upd_eq. left. apply Hs1t.
    + rewrite upd_eq. apply Hs1t.
  - intros s3 V3 w Hr3 Hne Hw HLw Hi3 E3. simpl.
    rewrite (proj2 (Z.eqb_neq w INVALID_TILE_ID)) by (unfold INVALID_TILE_ID; lia). simpl.
    eapply (grant_runs s3 V3 L1 H t w m); try done.
    { intros i Hnei. rewrite E3. by apply Ha1. }
    intros s4 C4 Hr4 Ha4 Ect. eapply (settle _ _ _ _ Hr4); [apply inv_cl, Hi3|].
    eapply (agree_deliver t); [exact Ha4| | | |]; simpl.
    + done.
    + intros i Hnei. split; [done|]. unfold upd. destruct (decide (i = w)) as [->|]; [done|].
      by rewrite decide_False.
    + rewrite Ect, E3. rewrite upd_ne by done. unfold L1. rewrite upd_eq. left. apply Hs1t.
    + rewrite Ect, E3. rewrite (upd_ne _ w) by done. rewrite upd_eq. apply Hs1t.
Qed.

(** Clients that have been given a mutex and whose replies are still to be
    sent. *)
Definition agree_pending (x : Z) (G : list Z) V L H : Prop :=
  (forall t, t <> x -> t ∉ G -> agrees (cl_state (v_cl V t)) (L t) /\ cl_held (v_cl V t) = H t) /\
  (forall w, w ∈ G -> w <> x /\ 0 <= w < T /\ L w = Active /\
     exists m, agrees (cl_state (v_cl V w)) (AtMutex m) /\ H w = m :: cl_held (v_cl V w)).

Lemma agree_no_pending x V L H : agree_pending x [] V L H <-> agree_but x V L H.
Proof.
  split.
  - intros [Ha _] t Ht. apply Ha; [done|]. by intros ?%elem_of_nil.
  - intros Ha. split; [intros; by apply Ha|]. by intros w ?%elem_of_nil.
Qed.

(** One thread is taken off a condition and asks for its mutex again. *)
Lemma wake_runs s V L H x G (cv : nat) wt ws cds (Q : bool -> Mcp -> Prop) :
  rep s V -> (cv < length cds)%nat -> NoDup G ->
  inv (vs_cd (<[cv := mkCond (wt :: ws)]> cds) V) L H -> agree_pending x G V L H -> L x = Active ->
  (forall b s' V' L' H' G' w, rep s' V' -> v_cd V' = v_cd V -> NoDup G' ->
     inv (vs_cd (<[cv := mkCond ws]> cds) V') L' H' -> agree_pending x G' V' L' H' ->
     L' x = Active -> H' x = H x -> same_but_clock (v_cl V) (v_cl V') ->
     cw_core_id wt = main w -> 0 <= w < T ->
     G' = (if (b : bool) then G ++ [w] else G) -> Q b s') ->
  runs (_ ← resumeThread (cw_core_id wt); SimMutex_lock (cw_mutex wt) (cw_core_id wt)) s Q.
Proof.
  intros Hr Hcv Hnd Hi Ha HLx HQ. set (l := <[cv := mkCond (wt :: ws)]> cds) in *.
  assert (Hx : l !! cv = Some (mkCond (wt :: ws))) by by apply list_lookup_insert_eq.
  destruct (co_waiting _ _ _ (i_cd _ _ _ _ Hi cv _ Hx) wt) as (w & Ew & HLw); [by left|].
  assert (Hw : 0 <= w < T) by (eapply inv_in_range; [done|by rewrite HLw]).
  assert (Hwx : w <> x) by congruence.
  assert (HwG : w ∉ G) by (intros Hin; apply Ha in Hin as (_ & _ & E & _); congruence).
  pose proof (i_at _ _ _ _ Hi w) as Hat. unfold at_ok in Hat. rewrite HLw in Hat. destruct Hat as [_ Hm].
  simpl in Hm. rewrite Ew. runs_step.
  eapply resumeThread_runs; [exact Hr|done| |].
  { change (v_thread V w) with (v_thread (vs_cd l V) w).
    rewrite (i_status _ _ _ _ Hi w Hw), HLw. done. }
  intros s1 Hr1.
  pose proof (inv_unpark cfg (vs_cd l V) L H cv _ wt ws w Hi Hx eq_refl Ew HLw) as Hi1.
  simpl in Hi1. unfold l in Hi1 at 1. rewrite list_insert_insert_eq in Hi1.
  destruct (proj1 Ha w Hwx HwG) as [Hag Hhw]. rewrite HLw in Hag.
  assert (Hst : cl_state (v_cl V w) = AtCond (Z.of_nat cv) (cw_mutex wt)).
  { destruct Hag as [?|(? & ? & _ & ?)]; done. }
  destruct (lookup_lt_is_Some_2 (v_mx V) (Z.to_nat (cw_mutex wt))) as [y Hy]; [lia|].
  eapply (SimMutex_lock_left s1 _ (upd L w Active) H w (cw_mutex wt) y _);
    [exact Hr1|exact Hi1|done|by rewrite upd_eq|lia|exact Hy| |].
  - intros s2 V2 Hr2 Hi2 E2 Ecd. simpl in E2, Ecd.
    apply (HQ true s2 V2 (upd L w Active) (upd H w (cw_mutex wt :: H w)) (G ++ [w]) w Hr2); try done.
    + apply NoDup_app. split; [done|]. split; [|apply NoDup_singleton].
      intros i Hin ->%list_elem_of_singleton. done.
    + destruct Ha as [Ha1 Ha2]. split.
      * intros i Hix. rewrite elem_of_app, list_elem_of_singleton. intros Hni. rewrite E2.
        rewrite !upd_ne by tauto. apply Ha1; tauto.
      * intros i. rewrite elem_of_app, list_elem_of_singleton, E2. intros [Hin| ->].
        -- assert (i <> w) by congruence. rewrite !upd_ne by done. by apply Ha2.
        -- split; [done|]. split; [done|]. rewrite !upd_eq. split; [done|].
           exists (cw_mutex wt). rewrite Hst, Hhw. split; [|done]. right. by eexists _, _.
    + by rewrite upd_ne.
    + by rewrite upd_ne.
    + rewrite E2. by intros ?.
  - intros s2 V2 Hr2 Hi2 Hs2 Ecd. simpl in Hs2, Ecd.
    apply (HQ false s2 V2 (upd (upd L w Active) w (AtMutex (cw_mutex wt))) H G w Hr2); try done.
    + destruct Ha as [Ha1 Ha2]. split.
      * intros i Hix Hni. destruct (Hs2 i) as [-> ->]. destruct (decide (i = w)) as [->|Hne].
        -- rewrite upd_eq, Hst, Hhw. split; [|done]. right. by eexists _, _.
        -- rewrite !upd_ne by done. by apply Ha1.
      * intros i Hin. assert (i <> w) by congruence. destruct (Hs2 i) as [-> ->].
        rewrite !upd_ne by done. by apply Ha2.
    + by rewrite !upd_ne.
Qed.

(** The replies to the threads that were given their mutexes. *)
Lemma grants_runs s V L H x G time :
  rep s V -> inv V L H -> NoDup G -> agree_pending x G V L H ->
  runs (for_each (main <$> G) (fun w =>
          _ ← lift (assert_c (negb (tile_id w =? INVALID_TILE_ID)));
          netSend w (SYNC_REPLY MUTEX_LOCK_RESPONSE time))) s
    (fun _ s' => exists C, rep s' (vs_cl C V) /\ agree_but x (vs_cl C V) L H /\ C x = v_cl V x).
Proof.
  intros Hr Hi Hnd. revert s V Hr Hi. induction Hnd as [|w G Hni Hnd IH]; intros s V Hr Hi Ha; simpl.
  - apply runs_ret. exists (v_cl V). destruct V. split; [done|]. split; [by apply agree_no_pending|done].
  - destruct (proj2 Ha w) as (Hwx & Hw & HLw & m & Hag & HHw); [by left|].
    repeat runs_step. apply runs_assert.
    { simpl. apply negb_true_iff, Z.eqb_neq. unfold INVALID_TILE_ID. lia. }
    eapply netSend_runs; [exact Hr|by apply receives_lock|done|done|].
    intros s1 Hr1.
    eapply runs_mono; [apply (IH s1 _ Hr1)|].
    + by apply inv_cl.
    + destruct Ha as [Ha1 Ha2]. split; simpl.
      * intros i Hix HiG. destruct (decide (i = w)) as [->|Hne].
        -- rewrite upd_eq, HLw, HHw. split; [by left|done].
        -- rewrite upd_ne by done. apply Ha1; [done|]. by intros [->|?]%elem_of_cons.
      * intros i Hin. rewrite upd_ne by (intros ->; done). apply Ha2. by right.
    + intros [] s2 (C & Hr2 & Ha2 & Ec). exists C. split; [exact Hr2|]. split; [exact Ha2|].
      rewrite Ec. simpl. by rewrite upd_ne.
Qed.

Lemma runs_assoc {B D E} (f : ST Mcp B) (g : B -> ST Mcp D) (h : D -> ST Mcp E) s (Q : E -> Mcp -> Prop) :
  runs ((f ≫= g) ≫= h) s Q -> runs (f ≫= fun a => g a ≫= h) s Q.
Proof. intros (e & s' & E1 & HQ). exists e, s'. split; [|done]. by rewrite <- bind_run. Qed.

(** The acknowledgement of an unlock, a signal or a broadcast. *)
Lemma ack_runs s V L H t d :
  rep s V -> inv V L H -> agree_but t V L H -> L t = Active ->
  cl_state (v_cl V t) = AwaitAck d -> cl_held (v_cl V t) = H t ->
  runs (netSend (main t) (ACK_REPLY d)) s (fun _ => settled).
Proof.
  intros Hr Hi Ha HL Hst Hh.
  eapply netSend_runs; [exact Hr|unfold receives; rewrite Hst, Z.eqb_refl; reflexivity|done|done|].
  intros s' Hr'. eapply (settle _ _ _ _ Hr'); [apply inv_cl, Hi|].
  eapply (agree_deliver t); [exact Ha| |done| |]; simpl.
  - intros i Hne. by rewrite upd_ne.
  - rewrite upd_eq, HL. by left.
  - by rewrite upd_eq.
Qed.

Lemma condSignal_runs s V L H t cv time :
  rep s V -> inv V L H -> agree_but t V L H -> L t = Active ->
  cl_state (v_cl V t) = AwaitAck COND_SIGNAL_RESPONSE -> cl_held (v_cl V t) = H t ->
  0 <= cv < 2 ^ 31 -> cv < Z.of_nat (length (v_cd V)) ->
  runs (condSignal (main t) cv time) s (fun _ => settled).
Proof.
  intros Hr Hi Ha HL Hst Hh Hcv Hlen. unfold condSignal, SimCond_signal.
  destruct (lookup_lt_is_Some_2 (v_cd V) (Z.to_nat cv)) as [[q] Hx]; [lia|].
  pose proof (lookup_lt_Some _ _ _ Hx) as Hlt.
  repeat runs_step. apply runs_assert; [rewrite (rp_cd _ _ _ _ _ Hr); apply valid_id_ok; lia|].
  repeat runs_step. eapply get_cond_runs; [exact Hr|lia|exact Hx|].
  destruct q as [|wt ws]; cbn beta iota delta [cd_waiting].
  - repeat runs_step. simpl. runs_step. by apply (ack_runs s V L H).
  - repeat runs_step. eapply set_cond_runs; [exact Hr|lia|]. intros s1 Hr1.
    apply runs_assoc, runs_bind.
    eapply (wake_runs s1 _ L H t [] (Z.to_nat cv) wt ws (v_cd V)); [exact Hr1|done|constructor| | |done|].
    { simpl. unfold vs_cd. simpl. rewrite list_insert_id by done. by destruct V. }
    { by apply agree_no_pending. }
    intros b s2 V2 L2 H2 G w Hr2 Ecd Hnd Hi2 Ha2 HL2 HH2 Hs2 Ew Hw EG. simpl in *.
    rewrite <- Ecd, vs_cd_same in Hi2 by done.
    destruct (Hs2 t) as [Est Ehd]. repeat runs_step.
    destruct b; subst G; simpl in Ha2.
    + rewrite Ew. simpl. rewrite (proj2 (Z.eqb_neq w INVALID_TILE_ID)) by (unfold INVALID_TILE_ID; lia).
      simpl.
      destruct (proj2 Ha2 w) as (Hwx & _ & HLw & m & Hag & HHw); [by left|].
      eapply netSend_runs; [exact Hr2|by apply receives_lock|done|done|]. intros s3 Hr3.
      eapply (ack_runs s3 _ L2 H2); [exact Hr3|apply inv_cl, Hi2| |done| |]; simpl.
      * intros i Hne. simpl. unfold upd. destruct (decide (i = w)) as [->|].
        -- simpl. rewrite HLw, HHw. split; [by left|done].
        -- apply Ha2; [done|]. by intros ?%list_elem_of_singleton.
      * rewrite upd_ne by done. by rewrite Est.
      * rewrite upd_ne by done. by rewrite Ehd, Hh.
    + simpl. runs_step.
      apply (ack_runs s2 V2 L2 H2); try done; [by apply agree_no_pending|by rewrite Est|by rewrite Ehd, Hh].
Qed.

Lemma broadcast_loop_runs ws s V L H t G (cv : nat) cds (Q : list core_id_t -> Mcp -> Prop) :
  rep s V -> (cv < length cds)%nat -> NoDup G -> v_cd V = cds ->
  inv (vs_cd (<[cv := mkCond ws]> cds) V) L H -> agree_pending t G V L H -> L t = Active ->
  (forall s' V' L' H' G', rep s' V' -> NoDup G' -> v_cd V' = cds ->
     inv (vs_cd (<[cv := mkCond []]> cds) V') L' H' -> agree_pending t G' V' L' H' ->
     L' t = Active -> H' t = H t -> same_but_clock (v_cl V) (v_cl V') -> Q (main <$> G') s') ->
  runs (broadcast_loop ws (main <$> G)) s Q.
Proof.
  revert s V L H G. induction ws as [|wt ws IH]; intros s V L H G Hr Hcv Hnd Ecd Hi Ha HL HQ.
  - cbn [broadcast_loop]. runs_step. apply (HQ s V L H); try done.
  - cbn [broadcast_loop]. apply runs_assoc, runs_bind.
    eapply (wake_runs s V L H t G cv wt ws cds); [exact Hr|done|done|exact Hi|exact Ha|done|].
    intros b s1 V1 L1 H1 G1 w Hr1 Ecd1 Hnd1 Hi1 Ha1 HL1 HH1 Hs1 Ew Hw EG.
    replace (if b then (main <$> G) ++ [cw_core_id wt] else main <$> G) with (main <$> G1).
    2: { subst G1. destruct b; [|done]. by rewrite fmap_app, Ew. }
    eapply (IH s1 V1 L1 H1 G1); try done; [by rewrite Ecd1|].
    intros s2 V2 L2 H2 G2 Hr2 ? ? ? ? ? EH Hs2. eapply (HQ s2 V2 L2 H2 G2); try done; [by rewrite EH|].
    intros i. destruct (Hs2 i) as [-> ->]. apply Hs1.
Qed.

Lemma condBroadcast_runs s V L H t cv time :
  rep s V -> inv V L H -> agree_but t V L H -> L t = Active ->
  cl_state (v_cl V t) = AwaitAck COND_BROADCAST_RESPONSE -> cl_held (v_cl V t) = H t ->
  0 <= cv < 2 ^ 31 -> cv < Z.of_nat (length (v_cd V)) ->
  runs (condBroadcast (main t) cv time) s (fun _ => settled).
Proof.
  intros Hr Hi Ha HL Hst Hh Hcv Hlen. unfold condBroadcast, SimCond_broadcast.
  destruct (lookup_lt_is_Some_2 (v_cd V) (Z.to_nat cv)) as [[q] Hx]; [lia|].
  repeat runs_step. apply runs_assert; [rewrite (rp_cd _ _ _ _ _ Hr); apply valid_id_ok; lia|].
  repeat runs_step. eapply get_cond_runs; [exact Hr|lia|exact Hx|]. repeat runs_step. simpl.
  change (@nil core_id_t) with (main <$> []).
  eapply (broadcast_loop_runs q s V L H t [] (Z.to_nat cv) (v_cd V)); [exact Hr|lia|constructor|done| | |done|].
  { rewrite list_insert_id by done. by rewrite vs_cd_same. }
  { by apply agree_no_pending. }
  intros s1 V1 L1 H1 G Hr1 Hnd Ecd Hi1 Ha1 HL1 HH1 Hs1. repeat runs_step.
  eapply set_cond_runs; [exact Hr1|rewrite Ecd; lia|]. intros s2 Hr2. repeat runs_step.
  rewrite Ecd in Hr2. destruct (Hs1 t) as [Est Ehd].
  eapply runs_mono; [eapply (grants_runs s2 _ L1 H1 t G time); [exact Hr2|exact Hi1|done|exact Ha1]|].
  intros [] s3 (C & Hr3 & Ha3 & Ec). simpl in Ec.
  eapply (ack_runs s3 _ L1 H1); [exact Hr3|apply inv_cl, Hi1|exact Ha3|done| |]; simpl; rewrite Ec.
  - by rewrite Est.
  - by rewrite Ehd, Hh.
Qed.

(** ** New objects *)

Lemma inv_new_mutex V L H : inv V L H -> inv (vs_mx (v_mx V ++ [SimMutex_new]) V) L H.
Proof.
  intros Hi. pose proof Hi as [? ? Hmx ? ? ? Hat Hheld ? ? ? ? ?]. split; try done.
  - intros m x [Hx|[Hge Hx]]%lookup_app_Some; [by apply Hmx|].
    apply list_lookup_singleton_Some in Hx as [Em <-].
    assert (m = length (v_mx V)) as -> by lia. split; simpl.
    + constructor.
    + intros c. split; [by intros ?%elem_of_nil|]. intros (t & _ & E).
      specialize (Hat t). unfold at_ok in Hat. rewrite E in Hat. lia.
    + left. split; [done|]. split; [done|]. intros t Hin%Hheld. lia.
  - intros t. specialize (Hat t). unfold at_ok in *. simpl. rewrite length_app. destruct (L t); try done; lia.
  - intros t m Hin%Hheld. simpl. rewrite length_app. lia.
Qed.

Lemma inv_new_cond V L H : inv V L H -> inv (vs_cd (v_cd V ++ [SimCond_new]) V) L H.
Proof.
  intros Hi. pose proof Hi as [? ? ? Hcd ? ? Hat ? ? ? ? ? ?]. split; try done.
  - intros m x [Hx|[Hge Hx]]%lookup_app_Some; [by apply Hcd|].
    apply list_lookup_singleton_Some in Hx as [Em <-].
    assert (m = length (v_cd V)) as -> by lia. split; simpl.
    + constructor.
    + by intros w ?%elem_of_nil.
    + intros t q E. specialize (Hat t). unfold at_ok in Hat. rewrite E in Hat. lia.
  - intros t. specialize (Hat t). unfold at_ok in *. simpl. rewrite length_app. destruct (L t); try done; lia.
Qed.

Lemma inv_new_barrier V L H n :
  inv V L H -> Z.of_nat (length (v_br V)) < 2 ^ 31 - 1 ->
  inv (vs_br (v_br V ++ [SimBarrier_new n]) V) L H.
Proof.
  intros Hi Hn. pose proof Hi as [? ? ? ? Hbr ? Hat ? ? ? ? ? ?]. split; try done.
  - intros m x [Hx|[Hge Hx]]%lookup_app_Some; [by apply Hbr|].
    apply list_lookup_singleton_Some in Hx as [Em <-].
    assert (m = length (v_br V)) as -> by lia.
    assert (Hno : forall t, L t <> AtBarrier (Z.of_nat (length (v_br V)))).
    { intros t E. specialize (Hat t). unfold at_ok in Hat. rewrite E in Hat. lia. }
    split; simpl; [constructor| | |done].
    + intros c. split; [by intros ?%elem_of_nil|]. intros (t & _ & E). by destruct (Hno t).
    + intros t E. by destruct (Hno t).
  - simpl. rewrite length_app. simpl. lia.
  - intros t. specialize (Hat t). unfold at_ok in *. simpl. rewrite length_app. destruct (L t); try done; lia.
Qed.

(** The reply with the identifier of a new object. *)
Lemma id_runs s V L H t i :
  rep s V -> inv V L H -> agree_but t V L H -> L t = Active ->
  cl_state (v_cl V t) = AwaitId -> cl_held (v_cl V t) = H t ->
  runs (netSend (main t) (ID_REPLY i)) s (fun _ => settled).
Proof.
  intros Hr Hi Ha HL Hst Hh.
  eapply netSend_runs; [exact Hr|unfold receives; rewrite Hst; reflexivity|done|done|].
  intros s' Hr'. eapply (settle _ _ _ _ Hr'); [apply inv_cl, Hi|].
  eapply (agree_deliver t); [exact Ha| |done| |]; simpl.
  - intros k Hne. by rewrite upd_ne.
  - rewrite upd_eq, HL. by left.
  - by rewrite upd_eq.
Qed.

Lemma init_runs s V L H t r n :
  rep s V -> inv V L H -> agree_but t V L H -> L t = Active ->
  cl_state (v_cl V t) = AwaitId -> cl_held (v_cl V t) = H t ->
  (r = MCP_MUTEX_INIT \/ r = MCP_COND_INIT \/
   (r = MCP_BARRIER_INIT n /\ Z.of_nat (length (v_br V)) < 2 ^ 31 - 1)) ->
  runs (processPacket cfg (main t) r) s (fun _ => settled).
Proof.
  intros Hr Hi Ha HL Hst Hh [->|[->|[-> Hn]]]; simpl;
    unfold mutexInit, condInit, barrierInit; repeat runs_step.
  - eapply (id_runs _ (vs_mx (v_mx V ++ [SimMutex_new]) V) L H); try done; [|by apply inv_new_mutex].
    destruct Hr; split; try done. simpl. by rewrite rp_mx.
  - eapply (id_runs _ (vs_cd (v_cd V ++ [SimCond_new]) V) L H); try done; [|by apply inv_new_cond].
    destruct Hr; split; try done. simpl. by rewrite rp_cd.
  - eapply (id_runs _ (vs_br (v_br V ++ [SimBarrier_new n]) V) L H); try done; [|by apply inv_new_barrier].
    destruct Hr; split; try done. simpl. by rewrite rp_br.
Qed.

(** ** Barriers *)

Lemma main_cores (l : list core_id_t) : Forall (fun c => exists t, c = main t) l -> exists W, l = main <$> W.
Proof.
  induction 1 as [|c l [t ->] _ [W ->]]; [by exists []|]. by exists (t :: W).
Qed.

Lemma resume_loop_runs W s V resumed (Q : unit -> Mcp -> Prop) :
  rep s V -> NoDup W ->
  (forall w, w ∈ W -> 0 <= w < T /\ status (v_thread V w) = STALLED /\
     resumed !! Z.to_nat w = Some false) ->
  (forall s' V', rep s' V' -> v_queue V' = v_queue V -> v_counter V' = v_counter V ->
     v_tids V' = v_tids V -> v_mx V' = v_mx V -> v_cd V' = v_cd V -> v_br V' = v_br V ->
     v_cl V' = v_cl V ->
     (forall i, v_thread V' i = if decide (i ∈ W) then set_status RUNNING (v_thread V i) else v_thread V i) ->
     Q tt s') ->
  runs (resume_loop (main <$> W) resumed) s Q.
Proof.
  intros Hr Hnd. revert s V resumed Hr. induction Hnd as [|w W Hni Hnd IH]; intros s V resumed Hr Hw HQ.
  - simpl. runs_step. by apply (HQ s V).
  - destruct (Hw w) as (Hrw & Hst & Hres); [by left|]. cbn [fmap list_fmap resume_loop].
    repeat runs_step. eapply runs_lift; [apply vec_get_ok; split; [simpl; lia|exact Hres]|].
    cbn beta iota. repeat runs_step. eapply runs_lift.
    { apply vec_set_eq. apply lookup_lt_Some in Hres. simpl. lia. }
    repeat runs_step. eapply resumeThread_runs; [exact Hr|done|done|]. intros s1 Hr1.
    eapply (IH s1 _ _ Hr1).
    + intros w' Hin. destruct (Hw w') as (? & ? & ?); [by right|]. assert (w' <> w) by congruence. simpl.
      rewrite upd_ne by done. split; [done|]. split; [done|]. rewrite list_lookup_insert_ne by lia. done.
    + intros s2 V2 Hr2 ? ? ? ? ? ? ? Hth. apply (HQ s2 V2); try done.
      intros i. rewrite (Hth i). simpl. unfold upd. destruct (decide (i = w)) as [->|Hne].
      * rewrite decide_False by done. rewrite decide_True by by left. done.
      * destruct (decide (i ∈ W)) as [Hin|Hin].
        -- by rewrite decide_True by by right.
        -- by rewrite decide_False by by intros [?|?]%elem_of_cons.
Qed.

Lemma wake_all_runs W s V b time :
  rep s V -> NoDup W -> (forall w, w ∈ W -> 0 <= w /\ cl_state (v_cl V w) = AtBarrier b) ->
  runs (for_each (main <$> W) (fun w =>
          _ ← lift (assert_c (negb (tile_id w =? INVALID_TILE_ID)));
          netSend w (SYNC_REPLY BARRIER_WAIT_RESPONSE time))) s
    (fun _ s' => exists C, rep s' (vs_cl C V) /\
       forall i, C i = if decide (i ∈ W) then set_state Active (v_cl V i) else v_cl V i).
Proof.
  intros Hr Hnd. revert s V Hr. induction Hnd as [|w W Hni Hnd IH]; intros s V Hr Hw.
  - simpl. runs_step. exists (v_cl V). destruct V. done.
  - destruct (Hw w) as (Hw0 & Hst); [by left|]. cbn [fmap list_fmap for_each].
    repeat runs_step. apply runs_assert.
    { simpl. apply negb_true_iff, Z.eqb_neq. unfold INVALID_TILE_ID. lia. }
    eapply netSend_runs; [exact Hr|unfold receives; rewrite Hst, Z.eqb_refl; reflexivity|done|done|].
    intros s1 Hr1. eapply runs_mono; [apply (IH s1 _ Hr1)|].
    + intros w' Hin. assert (w' <> w) by congruence. simpl. rewrite upd_ne by done. apply Hw. by right.
    + intros [] s2 (C & Hr2 & HC). exists C. split; [exact Hr2|]. intros i. rewrite (HC i). simpl.
      unfold upd. destruct (decide (i = w)) as [->|Hne].
      * rewrite decide_False by done. by rewrite decide_True by by left.
      * destruct (decide (i ∈ W)).
        -- by rewrite decide_True by by right.
        -- by rewrite decide_False by by intros [?|?]%elem_of_cons.
Qed.

(** The threads at a barrier once [t] has arrived. *)
Lemma barrier_waiters V L H t (b : nat) x :
  inv V L H -> 0 <= t < T -> L t = Active -> v_br V !! b = Some x -> t < br_count x ->
  exists W, br_waiting x ++ [main t] = main <$> W /\ NoDup W /\
    (forall w, w ∈ W <-> L w = AtBarrier (Z.of_nat b) \/ w = t) /\
    (forall w, w ∈ W -> 0 <= w < T /\ w < br_count x).
Proof.
  intros Hi Ht HL Hx Hc. pose proof (i_br _ _ _ _ Hi b x Hx) as [Hn Hw Htl _].
  destruct (main_cores (br_waiting x ++ [main t])) as [W EW].
  { apply Forall_forall. intros c. rewrite elem_of_app, list_elem_of_singleton.
    intros [(i & -> & _)%Hw| ->]; by eexists. }
  assert (Hin : forall w, w ∈ W <-> L w = AtBarrier (Z.of_nat b) \/ w = t).
  { intros w. transitivity (main w ∈ main <$> W).
    - split; [apply list_elem_of_fmap_2|]. by intros (i & E%main_inj & Hin)%list_elem_of_fmap; subst.
    - rewrite <- EW, elem_of_app, list_elem_of_singleton, Hw. split.
      + intros [(i & E%main_inj & ?)|E%main_inj]; subst; [by left|by right].
      + intros [?| ->]; [left; by exists w|by right]. }
  exists W. split; [done|]. split; [|split; [done|]].
  - apply (NoDup_fmap_1 main). rewrite <- EW. apply NoDup_app. split; [done|]. split; [|apply NoDup_singleton].
    intros c Hc' ->%list_elem_of_singleton. apply Hw in Hc' as (i & E%main_inj & ?). subst. congruence.
  - intros w [HLw| ->]%Hin; [|lia]. split; [|by apply Htl]. eapply inv_in_range; [done|by rewrite HLw].
Qed.

Lemma barrierWait_runs s V L H t b time x :
  rep s V -> inv V L H -> agree_but t V L H -> 0 <= t < T -> L t = Active ->
  cl_state (v_cl V t) = AtBarrier b -> cl_held (v_cl V t) = H t ->
  0 <= b -> v_br V !! Z.to_nat b = Some x -> t < br_count x ->
  runs (barrierWait (main t) b time) s (fun _ => settled).
Proof.
  intros Hr Hi Ha Ht HL Hst Hh Hb Hx Hc. unfold barrierWait, SimBarrier_wait.
  pose proof (lookup_lt_Some _ _ _ Hx) as Hlt. pose proof (i_brlen _ _ _ _ Hi) as Hmax.
  destruct (barrier_waiters V L H t _ x Hi Ht HL Hx Hc) as (W & EW & Hnd & HW & HWr).
  pose proof (i_br _ _ _ _ Hi _ x Hx) as [_ _ _ Hsize]. rewrite Z2Nat.id in HW by done.
  repeat runs_step. apply runs_log_assert.
  { rewrite (rp_br _ _ _ _ _ Hr), swrap_id by lia. apply Z.ltb_lt. lia. }
  repeat runs_step. eapply get_barrier_runs; [exact Hr|done|exact Hx|].
  rewrite EW. repeat runs_step. eapply set_barrier_runs; [exact Hr|lia|]. intros s1 Hr1.
  repeat runs_step. eapply stallThread_runs; [done|exact Hr1|done| |].
  { simpl. by eapply stalled_running. }
  intros s2 C2 Hr2 Hs2. simpl in Hr2, Hs2.
  assert (Hlen : length (main <$> W) = S (length (br_waiting x))).
  { rewrite <- EW, length_app. simpl. lia. }
  repeat runs_step. apply runs_assert.
  { apply Z.leb_le. rewrite Hlen. destruct (br_waiting x) as [|c l] eqn:E; [simpl; lia|].
    specialize (Hsize ltac:(done)). lia. }
  cbn beta zeta. set (mt := if _ =? 1 then time else _).
  destruct (Z.eqb_spec (Z.of_nat (length (main <$> W))) (br_count x)) as [Hfull|Hpart].
  - repeat runs_step. eapply (resume_loop_runs W); [exact Hr2|done| |].
    { intros w Hin. destruct (HWr w Hin) as [Hrw Hcw]. split; [done|]. split.
      - simpl. unfold upd. destruct (decide (w = t)) as [->|Hne]; [done|].
        apply HW in Hin as [HLw|]; [|done]. by rewrite (i_status _ _ _ _ Hi w Hrw), HLw.
      - apply lookup_replicate. split; [done|lia]. }
    intros s3 V3 Hr3 Eq Ecn Etd Emx Ecd Ebr Ecl Hth. simpl in *. repeat runs_step.
    eapply set_barrier_runs; [exact Hr3|rewrite Ebr, length_insert; lia|]. intros s4 Hr4. repeat runs_step.
    eapply get_barrier_runs; [exact Hr4|done| |].
    { simpl. rewrite Ebr. apply list_lookup_insert_eq. rewrite length_insert. done. }
    simpl. eapply runs_mono; [eapply (wake_all_runs W s4 _ b mt Hr4 Hnd)|].
    { intros w Hin. simpl. rewrite Ecl. destruct (Hs2 w) as [-> _]. split; [apply HWr in Hin; lia|].
      destruct (decide (w = t)) as [->|Hne]; [done|]. destruct (Ha w Hne) as [Hag _].
      apply HW in Hin as [HLw|]; [|done]. rewrite HLw in Hag. by destruct Hag as [?|(? & ? & _ & ?)]. }
    intros [] s5 (C & Hr5 & HC). simpl in HC.
    set (L' := fun i => if decide (L i = AtBarrier b) then Active else L i).
    eapply (settle _ _ L' H Hr5).
    + apply inv_cl. eapply (inv_release cfg V _ L L' H (Z.to_nat b) x mt Hi Hx).
      * intros i. by rewrite Z2Nat.id.
      * split; simpl; try done.
        -- intros i. unfold L'. destruct (decide (L i = AtBarrier b)) as [E|]; [right|by left].
           split; [eapply inv_in_range; [done|by rewrite E]|]. by rewrite E.
        -- intros i Hri. rewrite Hth. unfold L'. destruct (decide (i ∈ W)) as [Hin|Hni].
           ++ simpl. apply HW in Hin as [E| ->]; [by rewrite decide_True|]. by rewrite HL.
           ++ rewrite decide_False by (intros ?; apply Hni, HW; by left).
              rewrite upd_ne by (intros ->; apply Hni, HW; by right). by apply Hi.
        -- intros i. rewrite Hth. destruct (decide (i ∈ W)); simpl; unfold upd;
             by destruct (decide (i = t)) as [->|].
        -- intros i. rewrite Hth. destruct (decide (i ∈ W)); simpl; unfold upd;
             by destruct (decide (i = t)) as [->|].
      * done.
      * done.
      * simpl. rewrite Ebr. by rewrite list_insert_insert_eq.
    + intros i. simpl. rewrite (HC i), Ecl. unfold L'. destruct (Hs2 i) as [E1 E2].
      destruct (decide (i ∈ W)) as [Hin|Hni]; simpl.
      * split.
        -- left. apply HW in Hin as [E| ->]; [by rewrite decide_True|]. by rewrite HL.
        -- rewrite E2. destruct (decide (i = t)) as [->|Hne]; [done|]. by apply Ha.
      * rewrite decide_False by (intros ?; apply Hni, HW; by left).
        rewrite E1, E2. apply Ha. intros ->. apply Hni, HW. by right.
  - repeat runs_step. eapply set_barrier_runs; [exact Hr2|simpl; rewrite length_insert; lia|].
    intros s3 Hr3. repeat runs_step.
    eapply get_barrier_runs; [exact Hr3|done|simpl; apply list_lookup_insert_eq; by rewrite length_insert|].
    simpl. runs_step. eapply (settle _ _ (upd L t (AtBarrier b)) H Hr3).
    + simpl. pose proof (inv_arrive cfg V L H t _ x mt Hi Ht HL Hx Hc) as Hi'.
      rewrite Z2Nat.id, EW in Hi' by done.
      eapply (inv_cl _ _ _ _ C2) in Hi'; [|].
      2: { rewrite Hlen in Hpart. destruct (br_waiting x) as [|c l] eqn:E; [simpl in *; lia|].
           specialize (Hsize ltac:(done)). lia. }
      unfold vs_br, vs_cl, vs_thread in *. simpl in *. by rewrite list_insert_insert_eq.
    + intros i. simpl. destruct (Hs2 i) as [-> ->]. destruct (decide (i = t)) as [->|Hne].
      * rewrite upd_eq, Hst, Hh. split; [by left|done].
      * rewrite upd_ne by done. by apply Ha.
Qed.
End sync.
