(* ===== verification/McpLife.v ===== *)
(** * Spawning, starting, joining and ending threads

    The requests about threads, and the reports to the clock-skew server:
    every request of a correct client is handled to the end, every reply goes
    to a client that waits for it, and the invariant is kept. *)

From S2P Require Import Prelude Threads ThreadsThm Mcp McpClients McpThm McpInv McpSync.

Section life.
Context (cfg : SimConfig) (base : list Out) (C0 : Clients).
Abbreviation T := (getTotalTiles cfg).
Abbreviation A := (cfg_application_tiles cfg).
Context (HA : 0 < A) (HAT : A < T) (HT : T < 2 ^ 31) (Hone : cfg_threads_per_core cfg = 1).
Abbreviation rep := (rep cfg base C0).
Abbreviation inv := (inv cfg).
Abbreviation settled := (settled cfg base C0).
Implicit Types (s : Mcp) (V : View) (L : Z -> ClientState) (H : Z -> list Z).

(** ** Changes that concern no synchronization object *)

Definition sync_place (k : ClientState) : Prop :=
  match k with AtMutex _ | AtCond _ _ | AtBarrier _ => True | _ => False end.

Lemma inv_life V V' L L' H :
  inv V L H -> v_mx V' = v_mx V -> v_cd V' = v_cd V -> v_br V' = v_br V ->
  (forall i k, sync_place k -> L' i = k <-> L i = k) ->
  (forall i, ~ (0 <= i < T) -> L' i = Absent) ->
  (forall i, 0 <= i < T -> status (v_thread V' i) = st_of (L' i)) ->
  (forall i tid, L' i = AtJoin tid -> exists k, 0 <= k < T /\ waiter_core (v_thread V' k) = main i) ->
  (forall k, 0 <= k < T -> waiter_ok V' L' k) ->
  (forall k k' w, 0 <= k < T -> 0 <= k' < T -> 0 <= w ->
    waiter_core (v_thread V' k) = main w -> waiter_core (v_thread V' k') = main w -> k = k') ->
  (forall k, 0 <= k < T -> (length (v_queue V' k) <= 1)%nat /\
    (L' k = Absent \/ A <= k -> v_queue V' k = [])) ->
  Forall (fun e => exists t, e = (main t, 0) /\ 0 <= t < T) (v_tids V') ->
  0 <= v_counter V' < 2 ^ 30 ->
  inv V' L' H.
Proof.
  intros Hi Em Ec Eb HL Hrange Hst Hj Hw Hj1 Hq Htd Hn. split; rewrite ?Em, ?Ec, ?Eb; try done.
  - intros m x Hx. eapply mutex_ok_frame; [by apply Hi| |done]. intros. by apply HL.
  - intros m x Hx. eapply cond_ok_frame; [by apply Hi|]. intros. by apply HL.
  - intros m x Hx. eapply barrier_ok_frame; [by apply Hi|]. intros. by apply HL.
  - apply Hi.
  - intros i. pose proof (i_at _ _ _ _ Hi i) as Hat. unfold at_ok in *. rewrite Em, Ec, Eb.
    destruct (L' i) eqn:E; try done.
    + apply HL in E; [|done]. by rewrite E in Hat.
    + apply HL in E; [|done]. by rewrite E in Hat.
    + apply HL in E; [|done]. by rewrite E in Hat.
    + by eapply Hj.
  - apply Hi.
Qed.

(** One thread passes between places without queues. *)
Lemma sync_place_upd L t k i j :
  ~ sync_place (L t) -> ~ sync_place k -> sync_place j -> upd L t k i = j <-> L i = j.
Proof.
  intros H1 H2 Hj. unfold upd. destruct (decide (i = t)) as [->|]; [|done].
  split; intros <-; done.
Qed.

(** Changes of threads that the invariant does not look at. *)
Lemma inv_threads V V' L H :
  inv V L H -> v_mx V' = v_mx V -> v_cd V' = v_cd V -> v_br V' = v_br V ->
  v_counter V' = v_counter V -> v_tids V' = v_tids V -> v_queue V' = v_queue V ->
  (forall i, status (v_thread V' i) = status (v_thread V i) /\
    waiter_core (v_thread V' i) = waiter_core (v_thread V i) /\
    (waiter_tid (v_thread V' i) = waiter_tid (v_thread V i) \/
     waiter_core (v_thread V i) = INVALID_CORE_ID)) ->
  inv V' L H.
Proof.
  intros Hi Em Ec Eb En Et Eq Hsame. apply (inv_life V V' L); try done.
  - apply Hi.
  - intros i Hr. destruct (Hsame i) as [-> _]. by apply Hi.
  - intros i tid E. pose proof (i_at _ _ _ _ Hi i) as Hat. unfold at_ok in Hat. rewrite E in Hat.
    destruct Hat as (k & ? & ?). exists k. destruct (Hsame k) as (_ & -> & _). done.
  - intros k Hk. unfold waiter_ok. destruct (Hsame k) as (_ & -> & [->|Einv]); [by apply Hi|by left].
  - intros k k' w Hk Hk' Hw. destruct (Hsame k) as (_ & -> & _). destruct (Hsame k') as (_ & -> & _).
    by apply Hi.
  - rewrite Eq. apply Hi.
  - rewrite Et. apply Hi.
  - rewrite En. apply Hi.
Qed.

(** The other clients have kept their states and mutexes. *)
Lemma agree_others x V V' L L' H H' :
  agree_but x V L H ->
  (forall t, t <> x -> cl_state (v_cl V' t) = cl_state (v_cl V t) /\ cl_held (v_cl V' t) = cl_held (v_cl V t)) ->
  (forall t, t <> x -> L' t = L t /\ H' t = H t) ->
  agrees (cl_state (v_cl V' x)) (L' x) -> cl_held (v_cl V' x) = H' x -> agree V' L' H'.
Proof.
  intros Ha Hc HL H1 H2 t. destruct (decide (t = x)) as [->|Hne]; [done|].
  destruct (Hc t Hne) as [-> ->]. destruct (HL t Hne) as [-> ->]. by apply Ha.
Qed.

(** ** Start *)

Lemma inv_start V L H t :
  inv V L H -> 0 <= t < T -> L t = Starting ->
  inv (vs_thread t (set_status RUNNING (v_thread V t)) V) (upd L t Active) H.
Proof.
  intros Hi Ht HL. eapply inv_move; [done|eapply moves_one; try done; by rewrite HL| | | | | | | |apply Hi];
    simpl; try done.
  - intros m x Hx. eapply mutex_ok_frame; [by apply Hi| |done]. intros. apply upd_states; congruence.
  - intros m x Hx. eapply cond_ok_frame; [by apply Hi|]. intros. apply upd_states; congruence.
  - intros m x Hx. eapply barrier_ok_frame; [by apply Hi|]. intros. apply upd_states; congruence.
  - intros i. unfold at_ok, upd. destruct (decide (i = t)); [by right|by left].
Qed.

Lemma masterOnThreadStart_runs s V L H t :
  rep s V -> inv V L H -> agree_but t V L H -> 0 <= t < T -> L t = Starting ->
  cl_state (v_cl V t) = Active -> cl_held (v_cl V t) = H t ->
  runs (masterOnThreadStart t 0) s (fun _ => settled).
Proof.
  intros Hr Hi Ha Ht HL Hst Hh. unfold masterOnThreadStart. repeat runs_step.
  eapply runs_lift; [by eapply rep_thread_at|]. repeat runs_step.
  apply runs_log_assert; [apply has_status_true; by rewrite (i_status _ _ _ _ Hi t Ht), HL|].
  eapply on_thread_runs; [exact Hr|done|done|]. intros s' Hr'.
  eapply (settle _ _ _ _ _ _ _ Hr'); [by apply inv_start|].
  eapply (agree_deliver t V); [done|done| | |]; simpl.
  - intros i Hne. by rewrite upd_ne.
  - rewrite upd_eq. by left.
  - done.
Qed.

(** ** Exit *)

(** The threads after the exit of [t]: the thread that joins it, if any, goes on. *)
Definition joiner V t (i : Z) : Prop := 0 <= i /\ waiter_core (v_thread V t) = main i.
#[local] Instance joiner_dec V t i : Decision (joiner V t i).
Proof. apply _. Defined.
Definition exit_states V t L (i : Z) : ClientState :=
  if decide (i = t) then Absent else if decide (joiner V t i) then Active else L i.

Lemma joiner_waits V L H t i :
  inv V L H -> 0 <= t < T -> joiner V t i ->
  0 <= i < T /\ waiter_tid (v_thread V t) = 0 /\ L t <> Absent /\ exists tid, L i = AtJoin tid.
Proof.
  intros Hi Ht [Hr E]. destruct (i_join _ _ _ _ Hi t Ht) as [E'|(w & tid & E' & Hw & HLw & Hne)].
  - rewrite E' in E. injection E as <-. lia.
  - rewrite E' in E. apply main_inj in E as <-.
    split; [eapply inv_in_range; [done|by rewrite HLw]|]. split; [done|]. split; [done|]. by exists tid.
Qed.

Lemma inv_exit V V' L H t :
  inv V L H -> 0 <= t < T -> L t = Active ->
  v_mx V' = v_mx V -> v_cd V' = v_cd V -> v_br V' = v_br V ->
  v_counter V' = v_counter V -> v_tids V' = v_tids V ->
  (forall i, v_queue V' i = upd (v_queue V) t [] i) ->
  (forall i, 0 <= i < T -> status (v_thread V' i) = st_of (exit_states V t L i)) ->
  (forall i, i <> t -> waiter_core (v_thread V' i) = waiter_core (v_thread V i) /\
     waiter_tid (v_thread V' i) = waiter_tid (v_thread V i)) ->
  waiter_core (v_thread V' t) = INVALID_CORE_ID ->
  inv V' (exit_states V t L) H.
Proof.
  intros Hi Ht HL Em Ec Eb En Et Eq Hst Hw Hwt.
  assert (Hkeep : forall i tid, exit_states V t L i = AtJoin tid <->
    i <> t /\ ~ joiner V t i /\ L i = AtJoin tid).
  { intros i tid. unfold exit_states. destruct (decide (i = t)), (decide (joiner V t i)); naive_solver. }
  apply (inv_life V V' L); try done.
  - intros i k Hk. unfold exit_states. destruct (decide (i = t)) as [->|].
    { rewrite HL. by split; intros <-. }
    destruct (decide (joiner V t i)) as [Hj|]; [|done].
    destruct (joiner_waits V L H t i Hi Ht Hj) as (_ & _ & _ & tid & ->). by split; intros <-.
  - intros i Hni. unfold exit_states. destruct (decide (i = t)) as [->|]; [done|].
    destruct (decide (joiner V t i)) as [Hj|]; [|by apply Hi].
    by destruct (joiner_waits V L H t i Hi Ht Hj).
  - intros i tid (Hne & Hnj & E)%Hkeep. pose proof (i_at _ _ _ _ Hi i) as Hat.
    unfold at_ok in Hat. rewrite E in Hat. destruct Hat as (k & Hk & Ek). exists k. split; [done|].
    destruct (Hw k) as [-> _]; [|done]. intros ->. apply Hnj. split; [|done].
    assert (0 <= i < T) by (eapply inv_in_range; [done|by rewrite E]). lia.
  - intros k Hk. unfold waiter_ok. destruct (decide (k = t)) as [->|Hne]; [by left|].
    destruct (Hw k Hne) as [-> ->]. destruct (i_join _ _ _ _ Hi k Hk) as [?|(w & tid & E & E2 & HLw & Hk2)]; [by left|].
    right. exists w, tid. split; [done|]. split; [done|].
    assert (0 <= w < T) by (eapply inv_in_range; [done|by rewrite HLw]). split.
    + apply Hkeep. split; [congruence|]. split; [|done]. intros [_ E3]. apply Hne.
      by apply (i_join1 _ _ _ _ Hi k t w); [..|lia| |].
    + unfold exit_states. rewrite decide_False by done. by destruct (decide (joiner V t k)).
  - intros k k' w Hk Hk' Hw0. destruct (decide (k = t)) as [->|Hne].
    { rewrite Hwt. intros [= <-]. lia. }
    destruct (decide (k' = t)) as [->|Hne']; [rewrite Hwt; intros _ [= <-]; lia|].
    destruct (Hw k Hne) as [-> _]. destruct (Hw k' Hne') as [-> _]. by apply Hi.
  - intros k Hk. rewrite Eq. unfold upd. destruct (decide (k = t)) as [->|Hne]; [simpl; split; [lia|done]|].
    destruct (i_queue _ _ _ _ Hi k Hk) as [Hl Hab]. split; [done|]. unfold exit_states.
    rewrite decide_False by done. destruct (decide (joiner V t k)); [|done]. intros [|?]; [done|]. apply Hab. by right.
  - rewrite Et. apply Hi.
  - rewrite En. apply Hi.
Qed.

(** [wakeUpWaiter]: nobody waits, or the waiting thread is resumed. *)
Lemma wakeUpWaiter_runs s V t time (Q : bool -> Mcp -> Prop) :
  rep s V -> 0 <= t < T ->
  (waiter_core (v_thread V t) = INVALID_CORE_ID -> Q false s) ->
  (waiter_core (v_thread V t) = INVALID_CORE_ID \/
   exists w tid, waiter_core (v_thread V t) = main w /\ waiter_tid (v_thread V t) = 0 /\
     0 <= w < T /\ w <> t /\ cl_state (v_cl V w) = AtJoin tid) ->
  (forall s' w, 0 <= w < T -> w <> t -> waiter_core (v_thread V t) = main w ->
     rep s' (vs_thread t (set_waiter INVALID_CORE_ID INVALID_THREAD_ID (v_thread V t))
       (vs_cl (upd (v_cl V) w (set_state Active (v_cl V w)))
         (vs_thread w (set_status RUNNING (v_thread V w)) V))) -> Q true s') ->
  runs (wakeUpWaiter (main t) 0 time) s Q.
Proof.
  intros Hr Ht HQ0 Hw HQ. unfold wakeUpWaiter. repeat runs_step. apply runs_log_assert; [done|].
  repeat runs_step. eapply runs_lift; [by eapply rep_thread_at|]. cbn beta.
  change (tile_id (main t)) with t. destruct Hw as [E|(w & tid & E & E0 & Hrw & Hne & Hst)].
  - rewrite E. simpl. runs_step. by apply HQ0.
  - rewrite E, E0. cbn [tile_id getMainCoreId].
    rewrite (proj2 (Z.eqb_neq w INVALID_TILE_ID)) by (unfold INVALID_TILE_ID; lia).
    repeat runs_step. unfold resumeThread_index. simpl.
    eapply on_thread_runs; [exact Hr|done|done|]. intros s1 Hr1.
    repeat runs_step. eapply netSend_runs; [exact Hr1|simpl; unfold receives; rewrite Hst; reflexivity|done|done|].
    intros s2 Hr2. repeat runs_step. eapply on_thread_runs; [exact Hr2|done|done|].
    intros s3 Hr3. repeat runs_step. apply (HQ s3 w); try done.
    simpl in Hr3. rewrite (upd_ne _ w) in Hr3 by done. exact Hr3.
Qed.

Lemma spawner_tiles k : k = getCurrentThreadSpawnerTileNum cfg \/ k = getMCPTileNum cfg -> 0 <= k -> A <= k.
Proof.
  unfold getCurrentThreadSpawnerTileNum, getThreadSpawnerTileNum, getMCPTileNum. pose proof HAT as HAT'.
  unfold getTotalTiles in *. destruct (cfg_mode cfg); unfold INVALID_TILE_ID; lia.
Qed.

(** Whether it waits for it or not, a client may be sent the reply to its exit. *)
Lemma receives_exit t c i :
  cl_state c = (if waits_for_exit cfg t then AwaitExit else Absent) ->
  exists k, receives cfg t c (THREAD_EXIT_REPLY t MAIN_CORE_TYPE i) = Some k /\
    cl_state k = Absent /\ cl_held k = cl_held c.
Proof.
  intros E. unfold receives. rewrite E. destruct (waits_for_exit cfg t); eexists; (split; [reflexivity|]).
  - done.
  - by rewrite <- E.
Qed.

Lemma sched_exit_runs s V t (Q : unit -> Mcp -> Prop) :
  rep s V -> 0 <= t < T -> status (v_thread V t) = IDLE -> (length (v_queue V t) <= 1)%nat ->
  (A <= t -> v_queue V t = []) ->
  (forall i, exists k, receives cfg t (v_cl V t) (THREAD_EXIT_REPLY t MAIN_CORE_TYPE i) = Some k /\
     cl_state k = Absent /\ cl_held k = cl_held (v_cl V t)) ->
  (forall s' V', rep s' V' -> (forall i, v_queue V' i = upd (v_queue V) t [] i) ->
     v_thread V' = v_thread V -> v_mx V' = v_mx V -> v_cd V' = v_cd V -> v_br V' = v_br V ->
     v_counter V' = v_counter V -> v_tids V' = v_tids V ->
     (forall i, cl_held (v_cl V' i) = cl_held (v_cl V i) /\
        cl_state (v_cl V' i) = if decide (i = t) then Absent else cl_state (v_cl V i)) -> Q tt s') ->
  runs (sched_masterOnThreadExit cfg (main t) 0) s Q.
Proof.
  intros Hr Ht Hst Hlen HqA Hcl HQ. unfold sched_masterOnThreadExit. repeat runs_step.
  eapply runs_lift.
  { unfold main_core. simpl. rewrite (rep_running _ _ _ _ _ _ Hr Ht), has_status_false by by rewrite Hst. done. }
  repeat runs_step. apply runs_assert; [done|]. repeat runs_step.
  eapply queue_of_runs; [exact Hr|done|]. runs_step. simpl.
  assert (Htl : tail (v_queue V t) = []).
  { destruct (v_queue V t) as [|? [|]]; [done|done|simpl in Hlen; lia]. }
  apply runs_when.
  - intros _. rewrite Htl. eapply set_queue_runs; [exact Hr|done|]. intros s1 Hr1.
    unfold getNextThreadIdx. repeat runs_step. eapply queue_of_runs; [exact Hr1|done|].
    simpl. rewrite upd_eq. repeat runs_step. simpl. runs_step.
    destruct (Hcl INVALID_THREAD_ID) as (k & Hk & Es & Eh).
    eapply netSend_runs; [exact Hr1|exact Hk|done|done|].
    intros s2 Hr2. apply (HQ s2 _ Hr2); try done.
    intros i. simpl. unfold upd. by destruct (decide (i = t)) as [->|].
  - intros Eb. assert (HAt : A <= t).
    { apply spawner_tiles; [|lia]. apply andb_false_iff in Eb as [E|E]; apply negb_false_iff, Z.eqb_eq in E;
        [by left|by right]. }
    unfold getNextThreadIdx. repeat runs_step. eapply queue_of_runs; [exact Hr|done|].
    simpl. rewrite (HqA HAt). repeat runs_step. simpl. runs_step.
    destruct (Hcl INVALID_THREAD_ID) as (k & Hk & Es & Eh).
    eapply netSend_runs; [exact Hr|exact Hk|done|done|].
    intros s2 Hr2. apply (HQ s2 _ Hr2); try done; intros i; simpl; unfold upd;
      destruct (decide (i = t)) as [->|]; try done. by apply HqA.
Qed.

Lemma spawner_ack_runs s V t (Q : unit -> Mcp -> Prop) :
  rep s V -> (forall s', rep s' V -> Q tt s') -> runs (slaveTerminateThreadSpawnerAck cfg t) s Q.
Proof.
  intros Hr HQ. unfold slaveTerminateThreadSpawnerAck.
  eapply runs_mono; [apply (runs_for_each _ _ (fun s => rep s V)); [done|]|].
  - intros i s1 _ Hr1. apply runs_when; [intros _|done]. by eapply globalSend_runs.
  - intros [] s' Hr'. by apply HQ.
Qed.

Lemma exit_agree V Vf L H t :
  inv V L H -> 0 <= t < T -> agree_but t V L H ->
  (forall i, i <> t -> agrees (cl_state (v_cl Vf i)) (if decide (joiner V t i) then Active else L i) /\
     cl_held (v_cl Vf i) = H i) ->
  cl_state (v_cl Vf t) = Absent -> cl_held (v_cl Vf t) = H t ->
  agree Vf (exit_states V t L) H.
Proof.
  intros Hi Ht Ha Hoth Ht1 Ht2 i. unfold exit_states. destruct (decide (i = t)) as [->|Hne].
  - split; [by left|done].
  - by apply Hoth.
Qed.

Lemma masterOnThreadExit_runs s V L H t time :
  rep s V -> inv V L H -> agree_but t V L H -> 0 <= t < T -> L t = Active ->
  cl_state (v_cl V t) = (if waits_for_exit cfg t then AwaitExit else Absent) -> cl_held (v_cl V t) = H t ->
  runs (masterOnThreadExit cfg t MAIN_CORE_TYPE 0 time) s (fun _ => settled).
Proof.
  intros Hr Hi Ha Ht HL Hst Hh. unfold masterOnThreadExit. change (mkCore t MAIN_CORE_TYPE) with (main t).
  destruct (i_queue _ _ _ _ Hi t Ht) as [Hlen HqA].
  repeat runs_step. apply runs_log_assert.
  { rewrite (rp_threads_len _ _ _ _ _ Hr), wrap_id by (unfold is_word; lia). apply Z.ltb_lt; lia. }
  repeat runs_step. eapply runs_lift; [by eapply rep_thread_at|]. repeat runs_step.
  apply runs_log_assert; [apply has_status_true; by eapply stalled_running|].
  repeat runs_step. eapply on_thread_runs; [exact Hr|done|done|]. intros s1 Hr1.
  repeat runs_step. eapply skew_signal_runs; [done|exact Hr1|]. intros s2 C2 Hr2 Hs2. simpl in Hs2.
  set (th := set_completion time (set_status IDLE (v_thread V t))) in *.
  assert (Hfin : forall s3 V3, rep s3 V3 ->
    (forall i, i <> t -> status (v_thread V3 i) =
       if decide (joiner V t i) then RUNNING else status (v_thread V i)) ->
    status (v_thread V3 t) = IDLE -> waiter_core (v_thread V3 t) = INVALID_CORE_ID ->
    (forall i, i <> t -> waiter_core (v_thread V3 i) = waiter_core (v_thread V i) /\
       waiter_tid (v_thread V3 i) = waiter_tid (v_thread V i)) ->
    v_queue V3 = v_queue V -> v_mx V3 = v_mx V -> v_cd V3 = v_cd V -> v_br V3 = v_br V ->
    v_counter V3 = v_counter V -> v_tids V3 = v_tids V ->
    (forall i, cl_held (v_cl V3 i) = cl_held (v_cl V i) /\
       cl_state (v_cl V3 i) = if decide (joiner V t i) then Active else cl_state (v_cl V i)) ->
    runs (_ ← sched_masterOnThreadExit cfg (main t) 0;
          match cfg_mode cfg with FULL => slaveTerminateThreadSpawnerAck cfg t | LITE => mret tt end)
      s3 (fun _ => settled)).
  { intros s3 V3 Hr3 Hth Ht3 Hw3 Hwo Eq Em Ec Eb En Et Hcl. runs_step.
    assert (Hnj : ~ joiner V t t).
    { intros Hj. destruct (joiner_waits V L H t t Hi Ht Hj) as (_ & _ & _ & tid & E). congruence. }
    eapply (sched_exit_runs s3 V3 t); [exact Hr3|done|done|by rewrite Eq|rewrite Eq; auto| |].
    { intros i. apply receives_exit. destruct (Hcl t) as [_ ->]. by rewrite decide_False. }
    intros s4 V4 Hr4 Eq4 Eth4 Em4 Ec4 Eb4 En4 Et4 Ecl4.
    assert (Hinv : inv V4 (exit_states V t L) H).
    { apply (inv_exit V V4 L H t); try done; try (etrans; [eassumption|]; done).
      - intros i. rewrite Eq4. by rewrite Eq.
      - intros i Hri. rewrite Eth4. unfold exit_states. destruct (decide (i = t)) as [->|Hne]; [done|].
        rewrite (Hth i Hne). destruct (decide (joiner V t i)); [done|]. by apply Hi.
      - intros i Hne. rewrite Eth4. by apply Hwo.
      - by rewrite Eth4. }
    assert (Hag : agree V4 (exit_states V t L) H).
    { apply (exit_agree V V4 L H t); try done.
      - intros i Hne. destruct (Ecl4 i) as [-> ->], (Hcl i) as [-> ->]. rewrite decide_False by done.
        destruct (Ha i Hne) as [Hag ->]. split; [|done]. destruct (decide (joiner V t i)); [by left|done].
      - destruct (Ecl4 t) as [_ ->]. by rewrite decide_True.
      - destruct (Ecl4 t) as [-> _], (Hcl t) as [-> _]. done. }
    destruct (cfg_mode cfg).
    - eapply spawner_ack_runs; [exact Hr4|]. intros s5 Hr5. by apply (settle _ _ _ _ _ _ _ Hr5 Hinv Hag).
    - runs_step. by apply (settle _ _ _ _ _ _ _ Hr4 Hinv Hag). }
  repeat runs_step. eapply (wakeUpWaiter_runs s2 _ t time _ Hr2 Ht).
  - intros E. simpl in E. rewrite upd_eq in E. simpl in E.
    assert (Hnj : forall i, ~ joiner V t i) by (intros i [Hi0 E']; rewrite E in E'; injection E' as <-; lia).
    eapply (Hfin s2 _ Hr2); simpl; try done.
    + intros i Hne. rewrite upd_ne by done. by rewrite decide_False.
    + by rewrite upd_eq.
    + by rewrite upd_eq.
    + intros i Hne. by rewrite upd_ne.
    + intros i. rewrite decide_False by done. destruct (Hs2 i) as [-> ->]. done.
  - simpl. rewrite upd_eq. simpl. destruct (i_join _ _ _ _ Hi t Ht) as [?|(w & tid & E & E2 & HLw & _)]; [by left|right].
    assert (w <> t) by congruence. exists w, tid. split; [done|]. split; [done|].
    split; [eapply inv_in_range; [done|by rewrite HLw]|]. split; [done|]. destruct (Hs2 w) as [-> _].
    destruct (Ha w ltac:(done)) as [Hag _]. rewrite HLw in Hag. by destruct Hag as [?|(? & ? & _ & ?)].
  - intros s3 w Hrw Hne E Hr3. simpl in E, Hr3. rewrite upd_eq in E. simpl in E.
    assert (Hj : forall i, joiner V t i <-> i = w).
    { intros i. unfold joiner. rewrite E. split; [intros [_ ?%main_inj]; done|]. intros ->. split; [lia|done]. }
    eapply (Hfin s3 _ Hr3); simpl; try done.
    + intros i Hnei. rewrite (upd_ne _ t) by done. unfold upd at 1.
      destruct (decide (i = w)) as [->|]; [by rewrite decide_True by by apply Hj|].
      rewrite decide_False by by rewrite Hj. by rewrite upd_ne.
    + rewrite !upd_eq. by rewrite ?upd_eq.
    + by rewrite upd_eq.
    + intros i Hnei. rewrite (upd_ne _ t _ i) by done.
      destruct (decide (i = w)) as [->|]; [rewrite upd_eq|rewrite upd_ne by done]; simpl; by rewrite upd_ne.
    + intros i. unfold upd. destruct (decide (i = w)) as [->|Hnw]; simpl.
      * rewrite decide_True by by apply Hj. destruct (Hs2 w) as [_ ->]. done.
      * rewrite decide_False by by rewrite Hj. destruct (Hs2 i) as [-> ->]. done.
Qed.

(** ** Join *)

Lemma inv_join V V' L H t k tid :
  inv V L H -> 0 <= t < T -> 0 <= k < T -> L t = Active -> L k <> Absent ->
  waiter_core (v_thread V k) = INVALID_CORE_ID ->
  v_mx V' = v_mx V -> v_cd V' = v_cd V -> v_br V' = v_br V ->
  v_counter V' = v_counter V -> v_tids V' = v_tids V -> v_queue V' = v_queue V ->
  (forall i, status (v_thread V' i) = if decide (i = t) then STALLED else status (v_thread V i)) ->
  (forall i, i <> k -> waiter_core (v_thread V' i) = waiter_core (v_thread V i) /\
     waiter_tid (v_thread V' i) = waiter_tid (v_thread V i)) ->
  waiter_core (v_thread V' k) = main t -> waiter_tid (v_thread V' k) = 0 ->
  inv V' (upd L t (AtJoin tid)) H.
Proof.
  intros Hi Ht Hk HL HLk Hnone Em Ec Eb En Et Eq Hst Hw Hwk Hwk0.
  assert (Hnt : forall i, 0 <= i < T -> waiter_core (v_thread V i) <> main t).
  { intros i Hr E. destruct (joiner_waits V L H i t Hi Hr) as (_ & _ & _ & q & ?); [split; [lia|done]|congruence]. }
  apply (inv_life V V' L); try done.
  - intros i j Hj. apply sync_place_upd; [rewrite HL; by intros []|by intros []|done].
  - intros i Hni. rewrite upd_ne by (intros ->; done). by apply Hi.
  - intros i Hr. rewrite Hst. unfold upd. destruct (decide (i = t)); [done|by apply Hi].
  - intros i q. unfold upd. destruct (decide (i = t)) as [->|Hne]; [intros _; by exists k|]. intros E.
    pose proof (i_at _ _ _ _ Hi i) as Hat. unfold at_ok in Hat. rewrite E in Hat.
    destruct Hat as (k0 & Hk0 & Ek0). exists k0. split; [done|].
    destruct (Hw k0) as [-> _]; [|done]. intros ->. rewrite Hnone in Ek0. injection Ek0 as <-.
    rewrite (i_range _ _ _ _ Hi) in E by lia. done.
  - intros k0 Hk0. unfold waiter_ok. destruct (decide (k0 = k)) as [->|Hne].
    + right. exists t, tid. split; [done|]. split; [done|]. rewrite upd_eq. split; [done|].
      unfold upd. by destruct (decide (k = t)).
    + destruct (Hw k0 Hne) as [-> ->].
      destruct (i_join _ _ _ _ Hi k0 Hk0) as [?|(w & q & E & E2 & HLw & Hab)]; [by left|right].
      exists w, q. split; [done|]. split; [done|]. rewrite upd_ne by congruence. split; [done|].
      unfold upd. by destruct (decide (k0 = t)).
  - intros k0 k1 w Hk0 Hk1 Hw0.
    destruct (decide (k0 = k)) as [->|Hne0], (decide (k1 = k)) as [->|Hne1]; [done| | |].
    + rewrite Hwk. destruct (Hw k1 Hne1) as [-> _]. intros <-%main_inj E. by destruct (Hnt k1).
    + rewrite Hwk. destruct (Hw k0 Hne0) as [-> _]. intros E <-%main_inj. by destruct (Hnt k0).
    + destruct (Hw k0 Hne0) as [-> _]. destruct (Hw k1 Hne1) as [-> _]. by apply Hi.
  - intros k0 Hk0. rewrite Eq. destruct (i_queue _ _ _ _ Hi k0 Hk0) as [? Hq]. split; [done|].
    unfold upd. destruct (decide (k0 = t)) as [->|]; [|done]. intros [|]; [done|]. apply Hq. by right.
  - rewrite Et. apply Hi.
  - rewrite En. apply Hi.
Qed.

Lemma masterJoinThread_runs s V L H t req c i :
  rep s V -> inv V L H -> agree_but t V L H -> 0 <= t < T -> L t = Active ->
  cl_state (v_cl V t) = AtJoin (jn_receiver_tid req) -> cl_held (v_cl V t) = H t ->
  jn_sender req = main t -> jn_sender_tidx req = 0 -> 0 <= jn_receiver_tid req ->
  v_tids V !! Z.to_nat (jn_receiver_tid req) = Some (c, i) ->
  (0 <= tile_id c < T -> waiter_core (v_thread V (tile_id c)) = INVALID_CORE_ID) ->
  runs (masterJoinThread req) s (fun _ => settled).
Proof.
  intros Hr Hi Ha Ht HL Hst Hh Es Ei Htid Hmap Hnone. unfold masterJoinThread. rewrite Es, Ei.
  destruct (proj1 (Forall_lookup _ _) (i_tids _ _ _ _ Hi) _ _ Hmap) as (k & [= -> ->] & Hk).
  specialize (Hnone Hk). simpl in Hnone.
  repeat runs_step. apply runs_log_assert.
  { rewrite (rp_tids _ _ _ _ _ Hr). apply Z.ltb_lt. apply lookup_lt_Some in Hmap. lia. }
  repeat runs_step. eapply runs_lift; [apply vec_get_ok; rewrite (rp_tids _ _ _ _ _ Hr); done|].
  cbn beta iota. repeat runs_step. eapply runs_lift; [by apply (rep_thread_at cfg base C0 s V)|].
  cbn [tile_id getMainCoreId]. repeat runs_step. apply runs_log_assert; [by rewrite Hnone|].
  repeat runs_step. apply runs_log_assert.
  { rewrite (rp_threads_len _ _ _ _ _ Hr), wrap_id by (unfold is_word; lia). apply Z.ltb_lt. lia. }
  repeat runs_step. eapply on_thread_runs; [exact Hr|done|done|]. intros s1 Hr1.
  repeat runs_step. eapply stallThread_runs; [done|exact Hr1|done| |].
  { simpl. unfold upd. destruct (decide (t = k)) as [->|]; by eapply stalled_running. }
  intros s2 C2 Hr2 Hs2. simpl in Hs2.
  repeat runs_step. eapply runs_lift; [by eapply rep_thread_at|]. cbn beta.
  set (V2 := vs_cl C2 _) in *.
  assert (Hst2 : forall q, status (v_thread V2 q) = if decide (q = t) then STALLED else status (v_thread V q)).
  { intros q. simpl. unfold upd. destruct (decide (q = t)) as [->|]; [done|].
    by destruct (decide (q = k)) as [->|]. }
  assert (Hw2 : forall q, q <> k -> waiter_core (v_thread V2 q) = waiter_core (v_thread V q) /\
     waiter_tid (v_thread V2 q) = waiter_tid (v_thread V q)).
  { intros q Hne. simpl. unfold upd. destruct (decide (q = t)) as [->|]; simpl; by rewrite decide_False. }
  assert (Hk2 : waiter_core (v_thread V2 k) = main t /\ waiter_tid (v_thread V2 k) = 0).
  { simpl. unfold upd. destruct (decide (k = t)) as [->|]; simpl; by rewrite decide_True. }
  destruct (decide (L k = Absent)) as [Hab|Hab].
  - assert (Hkt : k <> t) by congruence.
    rewrite has_status_true by (rewrite Hst2, decide_False by done; by rewrite (i_status _ _ _ _ Hi k Hk), Hab).
    runs_step. eapply (wakeUpWaiter_runs s2 V2 k _ _ Hr2 Hk).
    + intros E. exfalso. destruct Hk2 as [E' _]. rewrite E' in E. injection E. lia.
    + right. exists t, (jn_receiver_tid req). destruct Hk2 as [-> ->]. split; [done|]. split; [done|].
      split; [done|]. split; [done|]. simpl. destruct (Hs2 t) as [-> _]. done.
    + intros s3 w Hrw Hne E Hr3. destruct Hk2 as [E' _]. rewrite E' in E. apply main_inj in E as <-.
      runs_step. eapply (settle _ _ _ _ _ L H Hr3).
      * eapply (inv_threads V); try done. intros q.
        destruct (decide (q = k)) as [->|Hqk]; cbn [v_thread vs_thread vs_cl].
        -- rewrite upd_eq. cbn [status waiter_core waiter_tid set_waiter]. rewrite Hst2, decide_False by done.
           split; [done|]. split; [by rewrite Hnone|by right].
        -- rewrite (upd_ne _ k) by done. destruct (Hw2 q Hqk) as [E1 E2].
           destruct (decide (q = t)) as [->|Hqt]; [rewrite upd_eq|rewrite upd_ne by done].
           ++ cbn [status waiter_core waiter_tid set_status]. rewrite E1, E2.
              split; [symmetry; by eapply stalled_running|]. split; [done|by left].
           ++ rewrite Hst2, decide_False by done. rewrite E1, E2. split; [done|]. split; [done|by left].
      * eapply (agree_others t V); [done| |done| |]; cbn [v_cl vs_thread vs_cl].
        -- intros q Hne'. rewrite upd_ne by done. apply Hs2.
        -- rewrite upd_eq, HL. by left.
        -- rewrite upd_eq. simpl. destruct (Hs2 t) as [_ ->]. done.
  - rewrite has_status_false.
    2: { rewrite Hst2. destruct (decide (k = t)); [done|]. rewrite (i_status _ _ _ _ Hi k Hk).
         by destruct (L k). }
    runs_step. eapply (settle _ _ _ _ _ _ H Hr2).
    + apply (inv_join V V2 L H t k (jn_receiver_tid req)); try done; apply Hk2.
    + eapply (agree_others t V); [done| | | |]; cbn [v_cl V2 vs_cl].
      * intros q _. apply Hs2.
      * intros q Hne. by rewrite upd_ne.
      * rewrite upd_eq. destruct (Hs2 t) as [-> _]. by left.
      * destruct (Hs2 t) as [_ ->]. done.
Qed.

(** ** Spawn *)

Definition tid_ok (e : core_id_t * Z) : Prop := exists t, e = (main t, 0) /\ 0 <= t < T.

Lemma getNewThreadId_runs s V d (Q : Z -> Mcp -> Prop) :
  rep s V -> 0 <= d < T -> 0 <= v_counter V < 2 ^ 30 - 1 -> Forall tid_ok (v_tids V) ->
  (forall s' tids, Forall tid_ok tids ->
     rep s' (vs_thread d (set_thread_id (v_counter V + 1) (v_thread V d))
       (vs_tids (v_counter V + 1) tids V)) -> Q (v_counter V + 1) s') ->
  runs (getNewThreadId (main d) 0) s Q.
Proof.
  intros Hr Hd Hc Hf HQ. unfold getNewThreadId. repeat runs_step. rewrite (rp_counter _ _ _ _ _ Hr).
  rewrite swrap_id by lia. cbn [tm_tid_map put_tid_counter]. rewrite (rp_tids _ _ _ _ _ Hr).
  rewrite (wrap_id 32) by (unfold is_word; lia). rewrite swrap_id by lia. rewrite (wrap_id 64) by (unfold is_word; lia).
  set (n := v_counter V + 1) in *.
  set (map := if Z.of_nat (length (v_tids V)) <=? n then tid_map_resize (2 * n) (v_tids V) else v_tids V).
  assert (Hmap : n < Z.of_nat (length map) /\ Forall tid_ok map).
  { unfold map. destruct (Z.leb_spec (Z.of_nat (length (v_tids V))) n); [|done].
    unfold tid_map_resize. rewrite length_resize. split; [lia|]. apply Forall_resize; [|done].
    exists 0. split; [done|lia]. }
  eapply runs_lift; [apply vec_set_eq; lia|]. repeat runs_step.
  eapply (on_thread_runs _ _ _ _ (vs_tids n (<[Z.to_nat n := (main d, 0)]> map) V)); [|done|done|].
  - destruct Hr; split; done.
  - intros s' Hr'. repeat runs_step. apply (HQ s' _) in Hr'; [done|].
    apply Forall_insert; [apply Hmap|]. by exists d.
Qed.

(** The search finds an idle tile when there is one. *)
Lemma spawn_tile_loop_finds s V t offsets :
  rep s V -> 0 <= t < A -> (forall i, i ∈ offsets -> 1 <= i <= A) ->
  (exists i, i ∈ offsets /\ (t + i) mod A <> 0 /\ status (v_thread V ((t + i) mod A)) = IDLE) ->
  exists d, spawn_tile_loop cfg (tm_threads s) t 0 offsets = Ok (Some d) /\ 0 < d < A /\
    status (v_thread V d) = IDLE.
Proof.
  intros Hr Ht. induction offsets as [|i offsets IH]; intros Hin (i0 & Hi0 & Hnz & Hidle).
  { by apply elem_of_nil in Hi0. }
  assert (Hi : 1 <= i <= A) by (apply Hin; left). simpl.
  rewrite wrap_id by (unfold is_word; lia).
  pose proof (Z.mod_pos_bound (t + i) A HA) as Hb.
  assert (Hrest : i <> i0 -> exists d, spawn_tile_loop cfg (tm_threads s) t 0 offsets = Ok (Some d) /\
    0 < d < A /\ status (v_thread V d) = IDLE).
  { intros Hne. apply IH; [intros; apply Hin; by right|]. exists i0. split; [|done].
    apply elem_of_cons in Hi0 as [|]; [congruence|done]. }
  destruct (Z.eqb_spec ((t + i) mod A) 0) as [E|Hne].
  { apply Hrest. intros ->. done. }
  rewrite (rep_thread_at _ _ _ s V) by (done || lia). simpl.
  destruct (decide (status (v_thread V ((t + i) mod A)) = IDLE)) as [E|E].
  - rewrite has_status_true by done. exists ((t + i) mod A). split; [done|]. split; [lia|done].
  - rewrite has_status_false by done. apply Hrest. intros ->. done.
Qed.

Lemma spawn_slot_finds s V t d0 dest :
  rep s V -> 0 <= t < A -> 0 < d0 < A -> status (v_thread V d0) = IDLE ->
  exists d, spawn_slot_loop cfg (tm_threads s) t (seqZ 0 (cfg_threads_per_core cfg)) dest = Ok (main d, 0) /\
    0 < d < A /\ status (v_thread V d) = IDLE.
Proof.
  intros Hr Ht Hd Hidle. rewrite Hone. change (seqZ 0 1) with [0]. cbn [spawn_slot_loop].
  destruct (spawn_tile_loop_finds s V t (seqZ 1 A) Hr Ht) as (d & E & Hd' & Hidle').
  - intros i Hi%elem_of_seqZ. lia.
  - exists ((d0 - t - 1) mod A + 1). pose proof (Z.mod_pos_bound (d0 - t - 1) A HA).
    assert (E : (t + ((d0 - t - 1) mod A + 1)) mod A = d0).
    { replace (t + ((d0 - t - 1) mod A + 1)) with ((d0 - t - 1) mod A + (t + 1)) by lia.
      rewrite Zplus_mod_idemp_l. replace (d0 - t - 1 + (t + 1)) with d0 by lia. apply Z.mod_small. lia. }
    rewrite E. split; [apply elem_of_seqZ; lia|]. split; [lia|done].
  - rewrite E. simpl. by exists d.
Qed.

Lemma inv_spawn V V' L H d req tids :
  inv V L H -> 0 <= d < A -> L d = Absent -> Forall tid_ok tids -> 0 <= v_counter V' < 2 ^ 30 ->
  v_mx V' = v_mx V -> v_cd V' = v_cd V -> v_br V' = v_br V -> v_tids V' = tids ->
  v_queue V' = upd (v_queue V) d [req] ->
  (forall i, status (v_thread V' i) = if decide (i = d) then INITIALIZING else status (v_thread V i)) ->
  (forall i, waiter_core (v_thread V' i) = waiter_core (v_thread V i) /\
     waiter_tid (v_thread V' i) = waiter_tid (v_thread V i)) ->
  inv V' (upd L d Starting) H.
Proof.
  intros Hi Hd HL Htids Hn Em Ec Eb Et Eq Hst Hw. apply (inv_life V V' L); try done.
  - intros i j Hj. apply sync_place_upd; [rewrite HL; by intros []|by intros []|done].
  - intros i Hni. rewrite upd_ne by (intros ->; lia). by apply Hi.
  - intros i Hr. rewrite Hst. unfold upd. destruct (decide (i = d)); [done|by apply Hi].
  - intros i tid. unfold upd. destruct (decide (i = d)) as [->|]; [done|]. intros E.
    pose proof (i_at _ _ _ _ Hi i) as Hat. unfold at_ok in Hat. rewrite E in Hat.
    destruct Hat as (k & ? & ?). exists k. destruct (Hw k) as [-> _]. done.
  - intros k Hk. unfold waiter_ok. destruct (Hw k) as [-> ->].
    destruct (i_join _ _ _ _ Hi k Hk) as [?|(w & q & E & E2 & HLw & Hab)]; [by left|right].
    exists w, q. rewrite !upd_ne by congruence. done.
  - intros k k' w Hk Hk' Hw0. destruct (Hw k) as [-> _]. destruct (Hw k') as [-> _]. by apply Hi.
  - intros k Hk. rewrite Eq. unfold upd. destruct (decide (k = d)) as [->|]; [|by apply Hi].
    simpl. split; [lia|]. intros [|]; [done|lia].
  - by rewrite Et.
Qed.

Lemma spawn_reply_runs s V t d type tidx tid (Q : unit -> Mcp -> Prop) :
  rep s V -> cl_state (v_cl V t) = AwaitSpawn -> cl_state (v_cl V d) = Absent -> d <> t ->
  (forall s', rep s' (vs_cl (upd (upd (v_cl V) t (set_state Active (v_cl V t))) d
      (set_state Starting (v_cl V d))) V) -> Q tt s') ->
  runs (netSend (main t) (THREAD_SPAWN_REPLY d type tidx tid)) s Q.
Proof.
  intros Hr Hst Hd Hne HQ. unfold netSend. runs_step. apply HQ.
  destruct Hr; split; simpl; try done.
  - assert (Hcl : forall i, cl_clock (upd (upd (v_cl V) t (set_state Active (v_cl V t))) d
      (set_state Starting (v_cl V d)) i) = cl_clock (v_cl V i)).
    { intros i. unfold upd. destruct (decide (i = d)) as [->|]; [done|]. by destruct (decide (i = t)) as [->|]. }
    unfold skew_rep in *. destruct (mcp_skew s) as [lb|]; [|intros i; by rewrite Hcl].
    destruct rp_skew as (? & ? & Hw). split; [done|]. split; [done|]. intros i. by rewrite Hcl.
  - destruct rp_sent as (outs & E & Hdl). eexists (outs ++ [NetSend (main t) (THREAD_SPAWN_REPLY d type tidx tid)]).
    split; [by rewrite E, app_assoc|]. rewrite (deliver_app _ _ _ _ _ Hdl). simpl.
    unfold receives. rewrite Hst. rewrite upd_ne by done. by rewrite decide_True.
Qed.

Lemma masterStartThread_runs s V req qs d (Q : unit -> Mcp -> Prop) :
  rep s V -> 0 <= d < T -> v_queue V d = req :: qs -> sp_destination req = main d ->
  sp_destination_tidx req = 0 -> status (v_thread V d) = INITIALIZING ->
  (forall s', rep s' V -> Q tt s') -> runs (masterStartThread cfg (main d)) s Q.
Proof.
  intros Hr Hd Hq E1 E2 Hst HQ. unfold masterStartThread. repeat runs_step.
  eapply queue_of_runs; [exact Hr|done|]. simpl. rewrite Hq. repeat runs_step. rewrite E1, E2.
  eapply runs_lift; [by eapply (rep_thread_at cfg base C0 s V)|]. repeat runs_step.
  apply runs_log_assert; [simpl; by rewrite has_status_true|].
  destruct (cfg_mode cfg); [by eapply globalSend_runs|by eapply insertThreadSpawnRequest_runs].
Qed.

Lemma masterScheduleThread_runs s V req d (Q : unit -> Mcp -> Prop) :
  rep s V -> 0 <= d < A -> v_queue V d = [] -> sp_destination req = main d ->
  sp_destination_tidx req = 0 -> status (v_thread V d) = IDLE -> tile_id (sp_requester req) <> d ->
  (forall s', rep s' (vs_thread d (set_status INITIALIZING (v_thread V d)) (vs_queue d [req] V)) -> Q tt s') ->
  runs (masterScheduleThread cfg req) s Q.
Proof.
  intros Hr Hd Hq E1 E2 Hst Hne HQ. unfold masterScheduleThread. rewrite E1, E2.
  assert (Hns : (tile_id (main d) =? getCurrentThreadSpawnerTileNum cfg) = false).
  { apply Z.eqb_neq. simpl. intros E. assert (A <= d) by (apply spawner_tiles; [by left|lia]). lia. }
  assert (Hdt : 0 <= d < T) by lia.
  repeat runs_step. rewrite Hns. unfold when. simpl negb. cbn iota. repeat runs_step.
  eapply queue_of_runs; [exact Hr|done|]. simpl. rewrite Hq.
  eapply set_queue_runs; [exact Hr|done|]. intros s1 Hr1. simpl in Hr1.
  repeat runs_step. cbn [tile_id getMainCoreId]. rewrite (proj2 (Z.eqb_neq _ _) Hne).
  repeat runs_step. unfold main_core. cbn [isMainCore core_type getMainCoreId].
  change (MAIN_CORE_TYPE =? MAIN_CORE_TYPE) with true. cbn iota.
  change (tile_id (main d)) with d.
  eapply runs_lift; [by rewrite (rep_running _ _ _ s V), has_status_false by (done || by rewrite Hst)|].
  cbn beta. change (INVALID_THREAD_ID =? INVALID_THREAD_ID) with true. cbn iota. repeat runs_step.
  eapply runs_lift.
  { unfold isCoreInitializing. rewrite (rep_row _ _ _ s V) by done. simpl.
    rewrite has_status_false by by rewrite Hst. done. }
  cbn [orb]. change (isMainCore (main d)) with true. repeat runs_step. eapply runs_lift.
  { unfold isCoreStalled. rewrite (rep_row _ _ _ s V) by done. simpl.
    rewrite has_status_false by by rewrite Hst. done. }
  repeat runs_step.
  eapply runs_lift; [by apply (rep_thread_at cfg base C0 s V)|]. repeat runs_step.
  apply runs_log_assert; [by apply has_status_true|].
  eapply on_thread_runs; [exact Hr1|done|done|]. intros s2 Hr2. simpl.
  eapply (masterStartThread_runs s2 _ req []); [exact Hr2|done| |done|done| |exact (fun s' Hs' => HQ s' Hs')].
  - simpl. by rewrite upd_eq.
  - simpl. by rewrite upd_eq.
Qed.

(** The rest of a spawn, once the idle tile [d] has been found. *)
Lemma spawn_on_runs s V L H t d time C1 :
  rep s (vs_cl C1 (vs_thread t (set_status STALLED (v_thread V t)) V)) ->
  inv V L H -> agree_but t V L H -> same_but_clock (v_cl V) C1 ->
  0 <= t < T -> 0 <= d < A -> L t = Active -> L d = Absent ->
  cl_state (v_cl V t) = AwaitSpawn -> cl_held (v_cl V t) = H t ->
  v_counter V < 2 ^ 30 - 1 ->
  runs (tid ← getNewThreadId (main d) 0;
        _ ← lift (log_assert (negb (tid =? INVALID_THREAD_ID)));
        _ ← masterScheduleThread cfg (mkSpawn (main t) 0 (main d) 0 tid time);
        masterSpawnThreadReply (mkSpawn (main t) 0 (main d) 0 tid time)) s (fun _ => settled).
Proof.
  intros Hr Hi Ha Hs1 Ht Hd HL HLd Hst Hh Hcnt. assert (Hdt : d <> t) by congruence.
  pose proof (i_counter _ _ _ _ Hi) as Hc0.
  runs_step. eapply getNewThreadId_runs; [exact Hr|lia|simpl; lia|apply Hi|].
  intros s1 tids Htids Hr1. repeat runs_step. apply runs_log_assert.
  { apply negb_true_iff, Z.eqb_neq. simpl. unfold INVALID_THREAD_ID. lia. }
  repeat runs_step.
  eapply masterScheduleThread_runs; [exact Hr1|done| |done|done| |simpl; congruence|].
  { simpl. apply (i_queue _ _ _ _ Hi); [lia|by left]. }
  { simpl. rewrite upd_eq, upd_ne by done. simpl. by rewrite (i_status _ _ _ _ Hi d) , HLd by lia. }
  intros s2 Hr2. unfold masterSpawnThreadReply. cbn [sp_requester]. repeat runs_step.
  eapply resumeThread_runs; [exact Hr2|done|simpl; rewrite !upd_ne by done; by rewrite upd_eq|].
  intros s3 Hr3. destruct (Hs1 t) as [Et1 Et2]. destruct (Hs1 d) as [Ed1 Ed2].
  assert (Hd1 : cl_state (C1 d) = Absent).
  { rewrite Ed1. destruct (Ha d Hdt) as [Hag _]. rewrite HLd in Hag. by destruct Hag as [?|(? & ? & _ & ?)]. }
  eapply spawn_reply_runs; [exact Hr3|simpl; congruence|done|done|]. intros s4 Hr4.
  eapply (settle _ _ _ _ _ _ H Hr4).
  - apply inv_cl. eapply (inv_spawn V _ L H d _ tids Hi Hd HLd Htids); simpl; try done; [lia| |].
    + intros i. destruct (decide (i = t)) as [->|Hit].
      * rewrite upd_eq. rewrite decide_False by congruence. simpl. symmetry. by eapply stalled_running.
      * rewrite upd_ne by done. unfold upd. destruct (decide (i = d)) as [->|]; [done|].
        by rewrite decide_False.
    + intros i. destruct (decide (i = t)) as [->|Hit].
      * rewrite upd_eq. simpl. rewrite !upd_ne by done. by rewrite upd_eq.
      * rewrite upd_ne by done. unfold upd. destruct (decide (i = d)) as [->|]; simpl.
        -- by rewrite decide_True, decide_False.
        -- by rewrite decide_False.
  - intros i. simpl. unfold upd. destruct (decide (i = d)) as [->|Hid]; simpl.
    + split; [by left|]. rewrite Ed2. by apply Ha.
    + destruct (decide (i = t)) as [->|Hit]; simpl.
      * rewrite HL. split; [by left|]. by rewrite Et2.
      * destruct (Hs1 i) as [-> ->]. by apply Ha.
Qed.

Lemma masterSpawnThread_runs s V L H t req :
  rep s V -> inv V L H -> agree_but t V L H -> 0 <= t < T -> L t = Active ->
  cl_state (v_cl V t) = AwaitSpawn -> cl_held (v_cl V t) = H t ->
  sp_requester req = main t -> sp_requester_tidx req = 0 -> v_counter V < 2 ^ 30 - 1 ->
  ((sp_destination req = INVALID_CORE_ID /\ sp_destination_tidx req = INVALID_THREAD_ID /\ t < A /\
    exists d, 0 < d < A /\ L d = Absent) \/
   (exists d, sp_destination req = main d /\ 0 <= d < A /\ L d = Absent)) ->
  runs (masterSpawnThread cfg req) s (fun _ => settled).
Proof.
  intros Hr Hi Ha Ht HL Hst Hh Hreq Htx Hcnt Hdest. unfold masterSpawnThread. rewrite Htx, Hreq.
  repeat runs_step. eapply stallThread_index_runs; [done|exact Hr|done|]. intros s1 C1 Hr1 Hs1.
  assert (Hstat : forall i, i <> t -> 0 <= i < T ->
    status (v_thread (vs_cl C1 (vs_thread t (set_status STALLED (v_thread V t)) V)) i) = st_of (L i)).
  { intros i Hne Hir. simpl. rewrite upd_ne by done. by apply Hi. }
  assert (Habs : forall d, 0 <= d < A ->
    status (v_thread (vs_cl C1 (vs_thread t (set_status STALLED (v_thread V t)) V)) d) = IDLE -> L d = Absent).
  { intros d Hd E. destruct (decide (d = t)) as [->|Hne]; [simpl in E; by rewrite upd_eq in E|].
    rewrite Hstat in E by (done || lia). by destruct (L d). }
  repeat runs_step. destruct Hdest as [(Ed & Edx & HtA & d0 & Hd0 & HL0)|(d & Ed & Hd & HLd)]; rewrite Ed.
  - change (tile_id INVALID_CORE_ID =? INVALID_TILE_ID) with true. cbn iota.
    destruct (spawn_slot_finds s1 _ t d0 (INVALID_CORE_ID, sp_destination_tidx req) Hr1) as (d & E & Hd & Hid);
      [lia|done|rewrite Hstat by (lia || congruence); by rewrite HL0|].
    eapply runs_lift; [exact E|]. cbn beta iota. repeat runs_step. apply runs_log_assert.
    { apply negb_true_iff, Z.eqb_neq. simpl. unfold INVALID_TILE_ID. lia. }
    repeat runs_step. apply runs_log_assert; [done|].
    apply (spawn_on_runs s1 V L H t d (sp_time req) C1); try done; [lia|]. apply Habs; [lia|done].
  - rewrite (proj2 (Z.eqb_neq (tile_id (main d)) INVALID_TILE_ID)) by (simpl; unfold INVALID_TILE_ID; lia).
    repeat runs_step. eapply (runs_lift _ 0).
    { unfold getIdleThread, main_core. simpl. rewrite Hone. change (seqZ 0 1) with [0]. cbn [idle_loop].
      rewrite (rep_thread_at _ _ _ _ _ _ Hr1) by lia. cbn [mbind result_bind].
      rewrite has_status_true; [done|]. etrans; [apply Hstat; [congruence|lia]|]. by rewrite HLd. }
    repeat runs_step. apply runs_log_assert.
    { apply negb_true_iff, Z.eqb_neq. simpl. unfold INVALID_TILE_ID. lia. }
    repeat runs_step. apply runs_log_assert; [done|].
    by apply (spawn_on_runs s1 V L H t d (sp_time req) C1).
Qed.

(** ** The other requests *)

Lemma setOSTid_runs s V L H t idx pid :
  rep s V -> inv V L H -> agree V L H -> 0 <= t < T ->
  runs (processPacket cfg (main t) (MCP_THREAD_SET_OS_TID (setOSTid_words (main t) idx pid))) s
    (fun _ => settled).
Proof.
  intros Hr Hi Ha Ht. simpl. repeat runs_step. eapply runs_lift; [done|]. repeat runs_step.
  eapply runs_lift; [done|]. repeat runs_step. eapply runs_lift; [done|].
  unfold masterSetOSTid. eapply on_thread_runs; [exact Hr|done|done|]. intros s' Hr'.
  eapply (settle _ _ _ _ _ L H Hr'); [|exact Ha]. apply (inv_threads V); try done.
  intros i. simpl. unfold upd. destruct (decide (i = t)) as [->|]; simpl; (split; [done|]); (split; [done|by left]).
Qed.

Lemma masterQueryThreadIndex_runs s V L H t tid :
  rep s V -> inv V L H -> agree V L H -> 0 <= t < T -> cl_state (v_cl V t) = Active ->
  0 <= tid <= v_counter V -> tid < Z.of_nat (length (v_tids V)) ->
  runs (masterQueryThreadIndex (main t) tid) s (fun _ => settled).
Proof.
  intros Hr Hi Ha Ht Hst Hc Hlen. unfold masterQueryThreadIndex, lookupThreadIndex. repeat runs_step.
  apply runs_log_assert; [apply Z.leb_le; rewrite (rp_counter _ _ _ _ _ Hr); lia|]. repeat runs_step.
  destruct (lookup_lt_is_Some_2 (v_tids V) (Z.to_nat tid)) as [e He]; [lia|].
  destruct (proj1 (Forall_lookup _ _) (i_tids _ _ _ _ Hi) _ _ He) as (k & -> & Hk).
  eapply runs_lift; [apply vec_get_ok; rewrite (rp_tids _ _ _ _ _ Hr); split; [lia|exact He]|].
  cbn beta iota. unfold getNextThreadIdx. repeat runs_step. eapply queue_of_runs; [exact Hr|done|].
  repeat runs_step. eapply netSend_runs; [exact Hr|unfold receives; rewrite Hst; reflexivity|done|done|].
  intros s' Hr'. eapply (settle _ _ _ _ _ L H Hr'); [apply inv_cl, Hi|].
  intros i. simpl. unfold upd. destruct (decide (i = t)) as [->|]; apply Ha.
Qed.
End life.
