(* ===== verification/McpSafe.v ===== *)
(** * The master control program serves correct clients

    In every run of the MCP and its clients: no request of a correct client
    stops the MCP, and every packet the MCP sends is one its receiver waits
    for; a mutex has one holder, and is never free while a client waits for
    it; every waiting client is in exactly one queue and is woken from there. *)

From S2P Require Import Prelude Threads ThreadsThm Mcp McpClients McpThm McpInv McpSync McpLife.

Section safe.
Context (cfg : SimConfig).
Abbreviation T := (getTotalTiles cfg).
Abbreviation A := (cfg_application_tiles cfg).
Context (HA : 0 < A) (HAT : A < T) (HT : T < 2 ^ 31) (Hone : cfg_threads_per_core cfg = 1).
Abbreviation inv := (inv cfg).
Implicit Types (s : Mcp) (C : Clients) (V : View).

(** The invariant of a state of the MCP and the states of the clients. *)
Definition state_ok s C : Prop :=
  exists V L H, rep cfg (mcp_sent s) C s V /\ v_cl V = C /\ inv V L H /\ agree V L H.

Lemma settled_step base C0 s :
  settled cfg base C0 s ->
  exists outs C', mcp_sent s = base ++ outs /\ deliver cfg outs C0 = Some C' /\ state_ok s C'.
Proof.
  intros (V & L & H & Hr & Hi & Ha). destruct (rp_sent _ _ _ _ _ Hr) as (outs & E & Hd).
  exists outs, (v_cl V). split; [done|]. split; [done|]. exists V, L, H. split; [|done].
  destruct Hr; split; try done. exists []. by rewrite app_nil_r.
Qed.

(** Sending a request changes the state of the sender only. *)
Lemma rep_submit s C V t r :
  rep cfg (mcp_sent s) C s V -> v_cl V = C ->
  cl_clock (after_send cfg t r (C t)) = cl_clock (C t) ->
  rep cfg (mcp_sent s) (submit cfg t r C) s (vs_cl (submit cfg t r C) V).
Proof.
  intros Hr Ec Hck.
  assert (Hcl : forall i, cl_clock (submit cfg t r C i) = cl_clock (C i)).
  { intros i. unfold submit, upd. by destruct (decide (i = t)) as [->|]. }
  destruct Hr; split; simpl; try done.
  - rewrite Ec in rp_skew. unfold skew_rep in *. destruct (mcp_skew s) as [lb|]; [|intros i; by rewrite Hcl].
    destruct rp_skew as (? & ? & Hw). split; [done|]. split; [done|]. intros i. by rewrite Hcl.
  - exists []. by rewrite app_nil_r.
Qed.

(** A report to the clock-skew server. *)
Lemma clock_runs s C V L H t time lb :
  rep cfg (mcp_sent s) C s V -> v_cl V = C -> inv V L H -> agree V L H ->
  0 <= t < A -> cl_clock (C t) = false -> mcp_skew s = Some lb ->
  0 <= time < 2 ^ 64 - barrier_interval lb ->
  runs (skew_processSyncMsg (main t) time) s
    (fun _ => settled cfg (mcp_sent s) (submit cfg t (MCP_CLOCK_SKEW_MANAGEMENT time) C)).
Proof.
  intros Hr Ec Hi Ha Ht Hck Hsk Htime. set (C1 := submit cfg _ _ C).
  pose proof (rp_skew _ _ _ _ _ Hr) as Hs. rewrite Hsk, Ec in Hs. destruct Hs as (Hok & En & Hw).
  assert (Happ : app_tile lb t) by (unfold app_tile; by rewrite En).
  assert (Hex : exists lb' tiles C', lb_barrierWait (tm_threads s) (main t) time lb = Ok (lb', tiles) /\
    deliver cfg (releases tiles) C1 = Some C' /\ same_but_clock C1 C' /\ skew_rep cfg (Some lb') C').
  { rewrite barrierWait_cases; [|done|rewrite En; by eapply rep_table_ok|done|done].
    destruct (Z.ltb_spec time (next_barrier_time lb)).
    - destruct (deliver_releases cfg [t] C1) as (C' & E & Hsame & Hclk).
      + apply NoDup_singleton.
      + intros i ->%list_elem_of_singleton. unfold C1, submit. by rewrite upd_eq.
      + exists lb, [t], C'. split; [done|]. split; [done|]. split; [done|]. split; [done|]. split; [done|].
        intros i. rewrite (Hclk i), list_elem_of_singleton, <- (Hw i). unfold C1, submit, upd.
        destruct (decide (i = t)) as [->|]; [|naive_solver]. rewrite Hck. naive_solver.
    - destruct (arrive_ok lb t time Hok Happ ltac:(lia)) as [Hok1 Hcl].
      apply signal_clients; [|by eapply rep_table_ok]. split; [done|]. split; [done|].
      intros i. unfold C1, submit, upd. destruct (decide (i = t)) as [->|Hne].
      + simpl. split; [|done]. intros _. split; [done|]. apply (lb_waits _ Hok1 t Happ).
        rewrite (Hcl t Happ), decide_True by done. done.
      + rewrite (Hw i). split; intros [Hi0 Hwi]; (split; [done|]);
          assert (Hai : app_tile lb i) by (unfold app_tile; by rewrite En).
        * apply (lb_waits _ Hok1 i Hai). rewrite (Hcl i Hai), decide_False by done.
          by apply (lb_waits _ Hok).
        * apply (lb_waits _ Hok1 i Hai) in Hwi. rewrite (Hcl i Hai), decide_False in Hwi by done.
          by apply (lb_waits _ Hok). }
  destruct Hex as (lb' & tiles & C' & E & Hd & Hsame & Hskr).
  unfold skew_processSyncMsg. repeat runs_step. rewrite Hsk. repeat runs_step.
  eapply runs_lift; [exact E|]. cbn beta iota. repeat runs_step.
  eexists _, _. split; [apply send_releases|]. exists (vs_cl C' V), L, H. split; [|split].
  - destruct Hr; split; simpl; try done. by exists (releases tiles).
  - by apply inv_cl.
  - intros i. simpl. destruct (Hsame i) as [-> ->]. unfold C1, submit, upd. rewrite <- Ec.
    destruct (decide (i = t)) as [->|]; apply Ha.
Qed.

Lemma agrees_eq k l : agrees k l -> (forall cv m, k <> AtCond cv m) -> l = k.
Proof. intros [->|(cv & m & -> & _)] Hne; [done|]. by destruct (Hne cv m). Qed.

(** One request. *)
Lemma mcp_request_runs s C t r :
  state_ok s C -> may_send cfg s C t r ->
  runs (processPacket cfg (main t) r) s (fun _ => settled cfg (mcp_sent s) (submit cfg t r C)).
Proof.
  intros (V & L & H & Hr & Ec & Hi & Ha) (Ht & Hck & Hst & Hreq).
  assert (Hh : cl_held (C t) = H t) by (rewrite <- Ec; apply Ha).
  assert (HL : L t = cl_state (C t)).
  { apply agrees_eq; [rewrite <- Ec; apply Ha|]. rewrite Hst. by destruct r. }
  rewrite Hst in HL.
  assert (Hck' : (forall time, r <> MCP_CLOCK_SKEW_MANAGEMENT time) ->
    rep cfg (mcp_sent s) (submit cfg t r C) s (vs_cl (submit cfg t r C) V)).
  { intros Hnc. apply (rep_submit s C V t r Hr Ec). destruct r; try done. by destruct (Hnc time_ns). }
  assert (Hi' : inv (vs_cl (submit cfg t r C) V) L H) by by apply inv_cl.
  assert (Ha' : agree_but t (vs_cl (submit cfg t r C) V) L H).
  { intros i Hne. simpl. unfold submit. rewrite upd_ne, <- Ec by done. apply Ha. }
  assert (Hself : submit cfg t r C t = after_send cfg t r (C t)) by apply upd_eq.
  assert (Hsame : after_send cfg t r (C t) = C t -> agree (vs_cl (submit cfg t r C) V) L H).
  { intros E i. destruct (decide (i = t)) as [->|Hne]; [|by apply Ha'].
    simpl. rewrite Hself, E, <- Ec. apply Ha. }
  destruct r; simpl in HL, Hself; try done;
    try (specialize (Hck' ltac:(done)); rename Hck' into Hr').
  - simpl. runs_step. eapply (settle _ _ _ _ _ L H); [|exact Hi'|by apply Hsame].
    destruct Hr'; by split.
  - eapply (init_runs _ _ _ _ _ L H t _ 0); try done; simpl; rewrite ?Hself; [done|done|by left].
  - destruct Hreq as [Hm Hlen].
    eapply (mutexLock_runs _ _ _ HAT s _ L H); try done; simpl; rewrite ?Hself; try done.
    by rewrite <- (rp_mx _ _ _ _ _ Hr).
  - destruct Hreq as [Hm Hin].
    eapply (mutexUnlock_runs _ _ _ s _ L H); try done; simpl; rewrite ?Hself; simpl; try done.
    + by rewrite Hh.
    + by rewrite <- Hh.
  - eapply (init_runs _ _ _ _ _ L H t _ 0); try done; simpl; rewrite ?Hself; [done|done|by right; left].
  - destruct Hreq as (Hm & Hin & Hcv & Hlen).
    eapply (condWait_runs _ _ _ HAT s _ L H); try done; simpl; rewrite ?Hself; simpl; try done.
    + by rewrite Hh.
    + by rewrite <- Hh.
    + by rewrite <- (rp_cd _ _ _ _ _ Hr).
  - destruct Hreq as [Hcv Hlen].
    eapply (condSignal_runs _ _ _ HAT s _ L H); try done; simpl; rewrite ?Hself; try done.
    by rewrite <- (rp_cd _ _ _ _ _ Hr).
  - destruct Hreq as [Hcv Hlen].
    eapply (condBroadcast_runs _ _ _ HAT s _ L H); try done; simpl; rewrite ?Hself; try done.
    by rewrite <- (rp_cd _ _ _ _ _ Hr).
  - eapply (init_runs _ _ _ _ _ L H t _ count); try done; simpl; rewrite ?Hself; [done|done|right; right].
    split; [done|]. by rewrite <- (rp_br _ _ _ _ _ Hr).
  - destruct Hreq as (Hb & v & Hv & Hlt).
    eapply (barrierWait_runs _ _ _ HAT s _ L H t _ _ v); try done; simpl; rewrite ?Hself; try done.
    by rewrite <- (rp_br _ _ _ _ _ Hr).
  - destruct Hreq as (E1 & E2 & Hcnt & Hd).
    assert (Habs : forall d, cl_state (C d) = Absent -> L d = Absent).
    { intros d E. rewrite <- E. apply agrees_eq; [rewrite <- Ec; apply Ha|by rewrite E]. }
    eapply (masterSpawnThread_runs _ _ _ HA HAT HT Hone s _ L H); try done; simpl; rewrite ?Hself; try done.
    + by rewrite <- (rp_counter _ _ _ _ _ Hr).
    + destruct Hd as [(? & ? & ? & d & ? & ?)|(d & ? & ? & ?)]; [left|right; exists d; auto].
      split; [done|]. split; [done|]. split; [done|]. exists d. auto.
  - destruct Hreq as (idx & pid & ->).
    apply (setOSTid_runs _ _ _ s (vs_cl (submit cfg t (MCP_THREAD_SET_OS_TID (setOSTid_words (main t) idx pid)) C) V) L H);
      [done|done|by apply Hsame|done].
  - destruct Hreq as (-> & -> & Hc & Hlen).
    eapply (masterQueryThreadIndex_runs _ _ _ s _ L H); [exact Hr'|done|by apply Hsame|done| | |]; simpl.
    + by rewrite Hself.
    + by rewrite <- (rp_counter _ _ _ _ _ Hr).
    + by rewrite <- (rp_tids _ _ _ _ _ Hr).
  - destruct Hreq as [-> ->].
    eapply (masterOnThreadStart_runs _ _ _ s _ L H); try done; simpl; by rewrite ?Hself.
  - destruct Hreq as (-> & -> & ->).
    eapply (masterOnThreadExit_runs _ _ _ HAT HT s _ L H); try done; simpl; by rewrite ?Hself.
  - destruct Hreq as (E1 & E2 & Htid & c & i & Hmap & Hnone).
    eapply (masterJoinThread_runs _ _ _ HAT HT s _ L H t req c i); try done; simpl; rewrite ?Hself; try done.
    + by rewrite <- (rp_tids _ _ _ _ _ Hr).
    + intros Hc. eapply Hnone; [by apply (rp_threads _ _ _ _ _ Hr)|done].
  - destruct Hreq as (HtA & lb & Hlb & Htime).
    by apply (clock_runs s C V L H t time_ns lb); try done; lia.
Qed.

(** ** The start *)

Definition initial_thread (t : Z) : ThreadState :=
  if initially_running cfg t then set_status RUNNING ThreadState_new else ThreadState_new.

Definition skew_ok (skew : option LaxBarrier) : Prop :=
  match skew with
  | None => True
  | Some lb => exists q, 0 < q < 2 ^ 64 /\ lb = LaxBarrier_new q A
  end.

Lemma new_waits q n t : waits (LaxBarrier_new q n) t = false.
Proof.
  unfold waits. simpl. destruct (replicate _ _ !! _) eqn:E; [|done]. by apply lookup_replicate in E as [-> _].
Qed.

Lemma Mcp_new_ok skew : skew_ok skew -> state_ok (Mcp_new cfg skew) (initial_clients cfg).
Proof.
  intros Hsk. set (C := initial_clients cfg).
  exists (mkView initial_thread (fun _ => []) 0 [] [] [] [] C), (fun t => cl_state (C t)), (fun _ => []).
  assert (HT0 : 0 < T) by lia.
  assert (Hst : forall t, 0 <= t < T -> cl_state (C t) = if initially_running cfg t then Active else Absent).
  { intros t Ht. simpl. rewrite (proj2 (Z.leb_le 0 t)), (proj2 (Z.ltb_lt t T)) by lia. done. }
  assert (Hcases : forall t, cl_state (C t) = Active \/ cl_state (C t) = Absent).
  { intros t. simpl. destruct (_ && _); [by left|by right]. }
  assert (Hlookup : forall t, 0 <= t < T -> seqZ 0 T !! Z.to_nat t = Some t).
  { intros t Ht. apply lookup_seqZ. lia. }
  split; [|split; [done|split]].
  - split; simpl.
    + rewrite length_fmap, length_seqZ. lia.
    + intros t Ht. rewrite list_lookup_fmap, (Hlookup t Ht). simpl. unfold initial_row. rewrite Hone. done.
    + rewrite length_replicate. lia.
    + intros t Ht. unfold initial_thread. by destruct (initially_running cfg t).
    + rewrite length_replicate. lia.
    + intros t Ht. apply lookup_replicate. split; [done|lia].
    + done.
    + done.
    + done.
    + done.
    + done.
    + destruct skew as [lb|]; [|done]. destruct Hsk as (q & Hq & ->).
      split; [apply LaxBarrier_new_ok; lia|]. split; [done|]. intros t. rewrite new_waits. naive_solver.
    + by exists [].
  - split; simpl; try done.
    + intros t Hr. destruct (Z.leb_spec 0 t), (Z.ltb_spec t T); try done. lia.
    + intros t Ht. fold (cl_state (C t)). change (if (0 <=? t) && (t <? T) && initially_running cfg t
        then Active else Absent) with (cl_state (C t)). rewrite (Hst t Ht). unfold initial_thread.
      by destruct (initially_running cfg t).
    + intros t. unfold at_ok. change (if (0 <=? t) && (t <? T) && initially_running cfg t
        then Active else Absent) with (cl_state (C t)). by destruct (Hcases t) as [-> | ->].
    + by intros t m ?%elem_of_nil.
    + intros k Hk. left. simpl. unfold initial_thread. by destruct (initially_running cfg k).
    + intros k k' w Hk Hk' Hw E. exfalso. unfold initial_thread in E.
      destruct (initially_running cfg k); injection E; lia.
    + intros k Hk. split; [lia|done].
  - intros t. split; [by left|done].
Qed.

Lemma mcp_run_ok skew s C : skew_ok skew -> mcp_run cfg skew s C -> state_ok s C.
Proof.
  intros Hsk. induction 1 as [|s C t r s' outs C' Hrun IH Hmay E Es Ed]; [by apply Mcp_new_ok|].
  destruct (mcp_request_runs s C t r IH Hmay) as ([] & s1 & E1 & Hset).
  rewrite E in E1. injection E1 as <-.
  destruct (settled_step _ _ _ Hset) as (outs1 & C1 & Es1 & Ed1 & Hok).
  rewrite Es in Es1. apply app_inv_head in Es1 as <-. rewrite Ed in Ed1. by injection Ed1 as <-.
Qed.
End safe.
