(* ===== verification/McpProps.v ===== *)
(** * What the master control program guarantees, and where it does not

    The theorems on runs of the MCP, concrete runs that show that their
    hypotheses hold together, and three defects: a barrier of threads on high
    tiles, a join of a thread whose slot has been reused, and the
    operating-system thread ids. *)

From S2P Require Import Prelude Threads ThreadsThm Mcp McpClients McpThm McpInv McpSync McpLife McpSafe.

(** Configurations: one thread per core, as [Config] sets it. *)
Definition mcp_config (cfg : SimConfig) : Prop :=
  0 < cfg_application_tiles cfg /\ 0 <= cfg_processes cfg /\ getTotalTiles cfg < 2 ^ 31 /\
  cfg_threads_per_core cfg = 1.

Lemma config_tiles cfg : mcp_config cfg -> cfg_application_tiles cfg < getTotalTiles cfg.
Proof. intros (? & ? & _). unfold getTotalTiles. destruct (cfg_mode cfg); lia. Qed.

Lemma run_state_ok cfg skew s C :
  mcp_config cfg -> skew_ok cfg skew -> mcp_run cfg skew s C -> state_ok cfg s C.
Proof.
  intros Hcfg Hsk Hrun. pose proof (config_tiles cfg Hcfg). destruct Hcfg as (? & ? & ? & ?).
  by apply (mcp_run_ok cfg) with skew.
Qed.

(** C6: in every run, whatever the clients have done before, a request that a
    correct client may send is served to the end: no assertion of the MCP
    fails, no vector is accessed out of range, every loop ends; and every
    packet it sends is accepted by the client it goes to, which waits for a
    packet of this kind and whose assertions hold, with one exception.  The
    replies to the exit of a thread spawner and of the MCP, which the MCP sends
    although these threads do not ask for them, stay unread in the network
    queue of their tile; no other packet ever stays unread. *)
Theorem Mcp_never_stops cfg skew s C t r :
  mcp_config cfg -> skew_ok cfg skew -> mcp_run cfg skew s C -> may_send cfg s C t r ->
  exists s' outs C', processPacket cfg (main t) r s = Ok (tt, s') /\
    mcp_sent s' = mcp_sent s ++ outs /\ deliver cfg outs (submit cfg t r C) = Some C' /\
    forall i p, p ∈ cl_unread (C' i) ->
      waits_for_exit cfg i = false /\ exists a b c, p = THREAD_EXIT_REPLY a b c.
Proof.
  intros Hcfg Hsk Hrun Hmay. pose proof (run_state_ok _ _ _ _ Hcfg Hsk Hrun) as Hok.
  pose proof (config_tiles cfg Hcfg). destruct Hcfg as (? & ? & ? & ?).
  destruct (mcp_request_runs cfg ltac:(done) ltac:(done) ltac:(done) ltac:(done) s C t r Hok Hmay)
    as ([] & s' & E & Hset).
  destruct (settled_step _ _ _ _ Hset) as (outs & C' & Es & Ed & _). exists s', outs, C'.
  split_and!; [done..|]. eapply (mcp_run_unread cfg skew s'). by eapply run_step.
Qed.

(** C7: at any time at most one client holds a mutex, the server records it
    as the owner, and a mutex a client waits for is held by some client: a
    waiting client is never forgotten when the mutex becomes free. *)
Theorem Mcp_mutual_exclusion cfg skew s C :
  mcp_config cfg -> skew_ok cfg skew -> mcp_run cfg skew s C ->
  (forall t m, m ∈ cl_held (C t) ->
     exists x, ss_mutexes s !! Z.to_nat m = Some x /\ mx_owner x = main t) /\
  (forall t t' m, m ∈ cl_held (C t) -> m ∈ cl_held (C t') -> t = t') /\
  (forall t m, cl_state (C t) = AtMutex m -> exists t', m ∈ cl_held (C t')).
Proof.
  intros Hcfg Hsk Hrun. destruct (run_state_ok _ _ _ _ Hcfg Hsk Hrun) as (V & L & H & Hr & Ec & Hi & Ha).
  rewrite (rp_mx _ _ _ _ _ Hr). rewrite <- Ec.
  assert (Hheld : forall t, cl_held (v_cl V t) = H t) by apply Ha.
  assert (Hown : forall t m, m ∈ H t -> exists x, v_mx V !! Z.to_nat m = Some x /\ mx_owner x = main t).
  { intros t m Hin. pose proof (i_held _ _ _ _ Hi t m Hin) as Hm.
    destruct (lookup_lt_is_Some_2 (v_mx V) (Z.to_nat m)) as [x Hx]; [lia|]. exists x. split; [done|].
    destruct (mo_owner _ _ _ _ _ (i_mx _ _ _ _ Hi _ x Hx)) as [(_ & _ & Hno)|(o & E & _ & Hh)];
      rewrite Z2Nat.id in * by lia; [by destruct (Hno t)|]. apply Hh in Hin as ->. done. }
  split; [intros t m; rewrite Hheld; apply Hown|]. split.
  - intros t t' m. rewrite !Hheld. intros (x & Hx & E)%Hown (x' & Hx' & E')%Hown.
    rewrite Hx in Hx'. injection Hx' as <-. rewrite E in E'. by apply main_inj.
  - intros t m E. assert (HL : L t = AtMutex m).
    { destruct (Ha t) as [Hag _]. rewrite E in Hag. by apply agrees_eq in Hag. }
    pose proof (i_at _ _ _ _ Hi t) as Hat. unfold at_ok in Hat. rewrite HL in Hat.
    destruct (lookup_lt_is_Some_2 (v_mx V) (Z.to_nat m)) as [x Hx]; [lia|].
    pose proof (i_mx _ _ _ _ Hi _ x Hx) as [_ Hw Ho]. rewrite Z2Nat.id in * by lia.
    destruct Ho as [(_ & Hnil & _)|(o & _ & _ & Hh)].
    + assert (Hin : main t ∈ mx_waiting x) by (apply Hw; by exists t). rewrite Hnil in Hin.
      by apply elem_of_nil in Hin.
    + exists o. rewrite Hheld. by apply Hh.
Qed.

(** C8: every client that waits for a mutex, a condition or a barrier is in
    exactly one queue, once: the queue of its mutex, of its condition, of the
    mutex of its condition after it was woken, or of its barrier; every entry
    of a queue is a client that waits for it; a barrier that is complete holds
    nobody; and the threads recorded as stalled are the waiting clients. *)
Theorem Mcp_queues_exact cfg skew s C :
  mcp_config cfg -> skew_ok cfg skew -> mcp_run cfg skew s C ->
  (forall m x, ss_mutexes s !! m = Some x -> NoDup (mx_waiting x) /\
     forall c, c ∈ mx_waiting x -> exists t, c = main t /\
       (cl_state (C t) = AtMutex (Z.of_nat m) \/ exists cv, cl_state (C t) = AtCond cv (Z.of_nat m))) /\
  (forall cv x, ss_conds s !! cv = Some x -> NoDup (cw_core_id <$> cd_waiting x) /\
     forall w, w ∈ cd_waiting x -> exists t, cw_core_id w = main t /\
       cl_state (C t) = AtCond (Z.of_nat cv) (cw_mutex w)) /\
  (forall b x, ss_barriers s !! b = Some x -> NoDup (br_waiting x) /\
     (br_waiting x <> [] -> Z.of_nat (length (br_waiting x)) < br_count x) /\
     forall c, c ∈ br_waiting x <-> exists t, c = main t /\ cl_state (C t) = AtBarrier (Z.of_nat b)) /\
  (forall t m, cl_state (C t) = AtMutex m ->
     exists x, ss_mutexes s !! Z.to_nat m = Some x /\ main t ∈ mx_waiting x) /\
  (forall t cv m, cl_state (C t) = AtCond cv m ->
     let parked := exists x, ss_conds s !! Z.to_nat cv = Some x /\ main t ∈ cw_core_id <$> cd_waiting x in
     let queued := exists x, ss_mutexes s !! Z.to_nat m = Some x /\ main t ∈ mx_waiting x in
     (parked /\ ~ queued) \/ (queued /\ ~ parked)) /\
  (forall t, 0 <= t < getTotalTiles cfg -> exists th, tm_threads s !! Z.to_nat t = Some [th] /\
     (status th = STALLED <-> st_of (cl_state (C t)) = STALLED)).
Proof.
  intros Hcfg Hsk Hrun. destruct (run_state_ok _ _ _ _ Hcfg Hsk Hrun) as (V & L & H & Hr & Ec & Hi & Ha).
  rewrite (rp_mx _ _ _ _ _ Hr), (rp_cd _ _ _ _ _ Hr), (rp_br _ _ _ _ _ Hr). rewrite <- Ec.
  assert (Hag : forall t, agrees (cl_state (v_cl V t)) (L t)) by apply Ha.
  assert (Heq : forall t k, cl_state (v_cl V t) = k -> (forall cv m, k <> AtCond cv m) -> L t = k).
  { intros t k <- Hne. by apply agrees_eq. }
  assert (Hqueued : forall t m, L t = AtMutex m <->
    0 <= m /\ exists x, v_mx V !! Z.to_nat m = Some x /\ main t ∈ mx_waiting x).
  { intros t m. split.
    - intros HL. pose proof (i_at _ _ _ _ Hi t) as Hat. unfold at_ok in Hat. rewrite HL in Hat.
      destruct (lookup_lt_is_Some_2 (v_mx V) (Z.to_nat m)) as [x Hx]; [lia|].
      split; [lia|]. exists x. split; [done|]. apply (mo_waiting _ _ _ _ _ (i_mx _ _ _ _ Hi _ x Hx)).
      exists t. by rewrite Z2Nat.id by lia.
    - intros (Hm & x & Hx & Hin). apply (mo_waiting _ _ _ _ _ (i_mx _ _ _ _ Hi _ x Hx)) in Hin as (i & E%main_inj & HL).
      subst i. by rewrite Z2Nat.id in HL. }
  split; [|split; [|split; [|split; [|split]]]].
  - intros m x Hx. pose proof (i_mx _ _ _ _ Hi m x Hx) as [Hn Hw _]. split; [done|].
    intros c (t & -> & HL)%Hw. exists t. split; [done|]. specialize (Hag t). rewrite HL in Hag.
    destruct Hag as [?|(cv & q & ? & [= <-])]; [by left|right; by exists cv].
  - intros cv x Hx. pose proof (i_cd _ _ _ _ Hi cv x Hx) as [Hn Hw _]. split; [done|].
    intros w (t & E & HL)%Hw. exists t. split; [done|]. specialize (Hag t). rewrite HL in Hag.
    by destruct Hag as [?|(? & ? & _ & ?)].
  - intros b x Hx. pose proof (i_br _ _ _ _ Hi b x Hx) as [Hn Hw _ Hs]. split; [done|]. split; [done|].
    intros c. rewrite Hw. split; intros (t & -> & E); exists t; (split; [done|]); [|by apply Heq].
    specialize (Hag t). rewrite E in Hag. by destruct Hag as [?|(? & ? & _ & ?)].
  - intros t m E. apply Heq in E; [|done]. by apply Hqueued in E as [_ ?].
  - intros t cv m E parked queued. specialize (Hag t). rewrite E in Hag.
    destruct Hag as [HL|(cv' & m' & [= <- <-] & HL)]; [left; symmetry in HL|right].
    + pose proof (i_at _ _ _ _ Hi t) as Hat. unfold at_ok in Hat. rewrite HL in Hat.
      destruct (lookup_lt_is_Some_2 (v_cd V) (Z.to_nat cv)) as [x Hx]; [lia|]. split.
      * exists x. split; [done|]. apply (co_complete _ _ _ (i_cd _ _ _ _ Hi _ x Hx) t m). by rewrite Z2Nat.id by lia.
      * intros Hq. assert (HL' : L t = AtMutex m) by (apply Hqueued; split; [lia|done]). congruence.
    + split; [by apply Hqueued in HL as [_ ?]|].
      intros (x & Hx & (w & E' & Hin)%list_elem_of_fmap).
      apply (co_waiting _ _ _ (i_cd _ _ _ _ Hi _ x Hx)) in Hin as (i & E2 & HL2).
      rewrite E2 in E'. apply main_inj in E' as <-. congruence.
  - intros t Ht. exists (v_thread V t). split; [by apply (rp_threads _ _ _ _ _ Hr)|].
    rewrite (i_status _ _ _ _ Hi t Ht). by destruct (Hag t) as [-> |(? & ? & -> & ->)].
Qed.

(** ** Mutexes are handed over in the order of arrival *)

Lemma resume_exact cfg base C0 s V w :
  rep cfg base C0 s V -> 0 <= w < getTotalTiles cfg -> status (v_thread V w) = STALLED ->
  exists th, resumeThread (main w) s = Ok (tt, put_threads th s).
Proof.
  intros Hr Hw Hst. exists (<[Z.to_nat w := [set_status RUNNING (v_thread V w)]]> (tm_threads s)).
  unfold resumeThread. simpl. rewrite gets_run.
  erewrite lift_run by (apply vec_get_ok; split; [lia|by apply (rp_last _ _ _ _ _ Hr)]).
  erewrite lift_run by done. unfold resumeThread_tile, on_thread. rewrite gets_run.
  by erewrite lift_run by by apply (update_thread_rep cfg base C0).
Qed.

Lemma lock_appends cfg base C0 s V L H t m time x :
  cfg_application_tiles cfg < getTotalTiles cfg ->
  rep cfg base C0 s V -> inv cfg V L H -> 0 <= t < getTotalTiles cfg -> L t = Active ->
  0 <= m < 2 ^ 31 -> v_mx V !! Z.to_nat m = Some x -> mx_owner x <> INVALID_CORE_ID ->
  runs (mutexLock (main t) m time) s (fun _ s' =>
    ss_mutexes s' = <[Z.to_nat m := mkMutex (mx_waiting x ++ [main t]) (mx_owner x)]> (ss_mutexes s)).
Proof.
  intros HAT Hr Hi Ht HL Hm Hx Ho. pose proof (lookup_lt_Some _ _ _ Hx) as Hlt.
  unfold mutexLock, SimMutex_lock. repeat runs_step.
  apply runs_log_assert; [rewrite (rp_mx _ _ _ _ _ Hr); apply valid_id_ok; lia|]. repeat runs_step.
  apply (get_mutex_runs cfg base C0 s V m x); [done|lia|done|].
  destruct (owner_cases _ _ _ _ _ _ Hi Hx) as [[? _]|[_ ->]]; [done|]. repeat runs_step.
  eapply stallThread_runs; [done|exact Hr|done|by eapply stalled_running|]. intros s1 C' Hr1 _.
  repeat runs_step. eapply set_mutex_runs; [exact Hr1|simpl; lia|]. intros s' Hr'. repeat runs_step.
  simpl. runs_step. rewrite (rp_mx _ _ _ _ _ Hr'). simpl. by rewrite (rp_mx _ _ _ _ _ Hr).
Qed.

(** C12: mutexes are first come, first served.  A client that asks for a held
    mutex goes to the end of its queue.  The holder that unlocks it hands it
    to the first client of the queue, which gets the reply it waits for before
    the holder gets its acknowledgement; with an empty queue the mutex becomes
    free. *)
Theorem Mcp_mutex_fifo cfg skew s C t m time x :
  mcp_config cfg -> skew_ok cfg skew -> mcp_run cfg skew s C ->
  ss_mutexes s !! Z.to_nat m = Some x ->
  (may_send cfg s C t (MCP_MUTEX_LOCK m time) -> mx_owner x <> INVALID_CORE_ID ->
   exists s', processPacket cfg (main t) (MCP_MUTEX_LOCK m time) s = Ok (tt, s') /\
     ss_mutexes s' = <[Z.to_nat m := mkMutex (mx_waiting x ++ [main t]) (mx_owner x)]> (ss_mutexes s)) /\
  (may_send cfg s C t (MCP_MUTEX_UNLOCK m time) ->
   exists s', processPacket cfg (main t) (MCP_MUTEX_UNLOCK m time) s = Ok (tt, s') /\
     match mx_waiting x with
     | [] => ss_mutexes s' = <[Z.to_nat m := mkMutex [] INVALID_CORE_ID]> (ss_mutexes s) /\
         mcp_sent s' = mcp_sent s ++ [NetSend (main t) (ACK_REPLY MUTEX_UNLOCK_RESPONSE)]
     | w :: ws => ss_mutexes s' = <[Z.to_nat m := mkMutex ws w]> (ss_mutexes s) /\
         mcp_sent s' = mcp_sent s ++ [NetSend w (SYNC_REPLY MUTEX_LOCK_RESPONSE time);
                                      NetSend (main t) (ACK_REPLY MUTEX_UNLOCK_RESPONSE)]
     end).
Proof.
  intros Hcfg Hsk Hrun Hx. destruct (run_state_ok _ _ _ _ Hcfg Hsk Hrun) as (V & L & H & Hr & Ec & Hi & Ha).
  pose proof (config_tiles cfg Hcfg) as HAT. pose proof (lookup_lt_Some _ _ _ Hx) as Hlt.
  assert (Hv : v_mx V !! Z.to_nat m = Some x) by by rewrite <- (rp_mx _ _ _ _ _ Hr).
  assert (HL : cl_state (C t) = Active -> L t = Active).
  { intros E. rewrite <- E, <- Ec. apply agrees_eq; [apply Ha|]. by rewrite Ec, E. }
  split.
  - intros (Ht & _ & Hst & Hm & _) Ho. cbn [processPacket].
    destruct (lock_appends cfg _ _ s V L H t m time x HAT Hr Hi Ht (HL Hst) Hm Hv Ho) as ([] & s' & E & Em).
    by exists s'.
  - intros (Ht & _ & Hst & Hm & Hin). cbn [processPacket].
    assert (HinH : m ∈ H t) by (destruct (Ha t) as [_ <-]; by rewrite Ec).
    pose proof (i_mx _ _ _ _ Hi _ x Hv) as Hok. rewrite Z2Nat.id in Hok by lia.
    assert (Ho : mx_owner x = main t).
    { destruct (mo_owner _ _ _ _ _ Hok) as [(_ & _ & Hno)|(o & E & _ & Hh)]; [by destruct (Hno t)|].
      apply Hh in HinH as ->. done. }
    assert (Hget : get_mutex m s = Ok (x, s)).
    { unfold get_mutex. rewrite gets_run. unfold lift.
      rewrite (proj2 (vec_get_ok (ss_mutexes s) m x)); [done|]. split; [lia|done]. }
    assert (Hset : forall y, set_mutex m y s = Ok (tt, put_mutexes (<[Z.to_nat m := y]> (ss_mutexes s)) s)).
    { intros y. unfold set_mutex. rewrite gets_run. by erewrite lift_run by (apply vec_set_eq; lia). }
    assert (Hbegin : forall k, (l ← gets ss_mutexes; _ ← lift (assert_c (valid_id m l)); k) s = (k : MM unit) s).
    { intros k. rewrite gets_run. by erewrite lift_run by (rewrite valid_id_ok by lia; done). }
    unfold mutexUnlock. rewrite Hbegin. unfold SimMutex_unlock.
    rewrite bind_run, (st_bind_run _ _ _ _ _ Hget), bind_run.
    erewrite lift_run by (rewrite Ho; simpl; by rewrite !Z.eqb_refl).
    destruct (mx_waiting x) as [|c ws] eqn:Ew.
    + rewrite bind_run, (st_bind_run _ _ _ _ _ (Hset _)). by eexists.
    + destruct (proj1 (mo_waiting _ _ _ _ _ Hok c)) as (w & -> & HLw); [rewrite Ew; by left|].
      assert (Hrw : 0 <= w < getTotalTiles cfg) by (eapply inv_in_range; [done|by rewrite HLw]).
      rewrite bind_run, (st_bind_run _ _ _ _ _ (Hset _)), bind_run.
      destruct (resume_exact cfg (mcp_sent s) C
        (put_mutexes (<[Z.to_nat m := mkMutex ws (main w)]> (ss_mutexes s)) s)
        (vs_mx (<[Z.to_nat m := mkMutex ws (main w)]> (v_mx V)) V) w) as [th Eth].
      { destruct Hr; split; try done. simpl. by rewrite rp_mx. }
      { done. }
      { simpl. by rewrite (i_status _ _ _ _ Hi w Hrw), HLw. }
      rewrite (st_bind_run _ _ _ _ _ Eth), ret_run.
      cbn [tile_id getMainCoreId].
      rewrite (proj2 (Z.eqb_neq w INVALID_TILE_ID)) by (unfold INVALID_TILE_ID; lia). simpl.
      eexists. split; [reflexivity|]. simpl. by rewrite <- app_assoc.
Qed.

(** ** A concrete run *)

(** One request, with the delivery of the replies. *)
Definition serve (cfg : SimConfig) (st : Mcp * Clients) (q : Z * McpRequest) : result (Mcp * Clients) :=
  '(_, s') ← processPacket cfg (main q.1) q.2 st.1;
  match deliver cfg (drop (length (mcp_sent st.1)) (mcp_sent s')) (submit cfg q.1 q.2 st.2) with
  | Some C' => Ok (s', C')
  | None => Err AssertFailed
  end.

Fixpoint serve_all (cfg : SimConfig) (l : list (Z * McpRequest)) (st : Mcp * Clients) :
    result (Mcp * Clients) :=
  match l with
  | [] => Ok st
  | q :: l' => st' ← serve cfg st q; serve_all cfg l' st'
  end.

Lemma serve_run cfg skew s C t r s' C' :
  mcp_config cfg -> skew_ok cfg skew -> mcp_run cfg skew s C -> may_send cfg s C t r ->
  serve cfg (s, C) (t, r) = Ok (s', C') -> mcp_run cfg skew s' C'.
Proof.
  intros Hcfg Hsk Hrun Hmay E. pose proof (run_state_ok _ _ _ _ Hcfg Hsk Hrun) as Hok.
  pose proof (config_tiles cfg Hcfg). destruct Hcfg as (? & ? & ? & ?).
  destruct (mcp_request_runs cfg ltac:(done) ltac:(done) ltac:(done) ltac:(done) s C t r Hok Hmay)
    as ([] & s1 & E1 & Hset).
  destruct (settled_step _ _ _ _ Hset) as (outs & C1 & Es & Ed & _).
  unfold serve in E. cbn [fst snd] in E. rewrite E1 in E. cbn [mbind result_bind] in E.
  rewrite Es, drop_app_length, Ed in E. injection E as <- <-. by eapply run_step.
Qed.

(** Three application tiles; the main thread creates a mutex and a thread on
    tile 1, locks the mutex, and the new thread asks for it. *)
Definition cfg3 : SimConfig := mkCfg LITE 3 1 1 (fun _ => 0).

Lemma cfg3_ok : mcp_config cfg3.
Proof. unfold mcp_config, getTotalTiles. simpl. lia. Qed.

Definition spawn_any (t time : Z) : McpRequest :=
  MCP_THREAD_SPAWN_REQUEST (mkSpawn (main t) 0 INVALID_CORE_ID INVALID_THREAD_ID INVALID_THREAD_ID time).

Definition contend : list (Z * McpRequest) :=
  [(0, MCP_MUTEX_INIT); (0, spawn_any 0 5); (1, MCP_THREAD_START 1 MAIN_CORE_TYPE 0);
   (0, MCP_MUTEX_LOCK 0 7); (1, MCP_MUTEX_LOCK 0 9)].

Definition start3 : Mcp * Clients := (Mcp_new cfg3 None, initial_clients cfg3).
(** The state after the first [n] requests of a list, and the run they make. *)
Definition after_first (l : list (Z * McpRequest)) (n : nat) : Mcp * Clients :=
  match serve_all cfg3 (take n l) start3 with Ok st => st | Err _ => start3 end.

Lemma list_run l :
  (forall n q, l !! n = Some q ->
     may_send cfg3 (after_first l n).1 (after_first l n).2 q.1 q.2 /\
     serve cfg3 (after_first l n) q = Ok (after_first l (S n))) ->
  forall n, (n <= length l)%nat -> mcp_run cfg3 None (after_first l n).1 (after_first l n).2.
Proof.
  intros Hl. induction n as [|n IH]; intros Hn; [constructor|].
  destruct (lookup_lt_is_Some_2 l n ltac:(lia)) as [[t r] Eq]. destruct (Hl n _ Eq) as [Hmay E].
  assert (Hrun : mcp_run cfg3 None (after_first l n).1 (after_first l n).2) by (apply IH; lia).
  destruct (after_first l n) as [s C], (after_first l (S n)) as [s' C'].
  by eapply (serve_run cfg3 None s C t r).
Qed.

(** Decides that a request of a list may be sent, and that it is served. *)
Ltac may_be_sent :=
  split; [split; [vm_compute; split; congruence|]; split; [vm_compute; reflexivity|];
          split; [vm_compute; reflexivity|]; cbn [fst snd]
         |vm_compute; reflexivity].

Definition after_run : nat -> Mcp * Clients := after_first contend.

Lemma contend_run n : (n <= 5)%nat -> mcp_run cfg3 None (after_run n).1 (after_run n).2.
Proof.
  intros Hn. apply (list_run contend); [|exact Hn]. clear n Hn. intros n q Hq. unfold contend in Hq.
  destruct n as [|[|[|[|[|n]]]]]; [..|done]; injection Hq as <-; may_be_sent.
  - exact I.
  - split; [reflexivity|]. split; [reflexivity|]. split; [vm_compute; reflexivity|]. left.
    split; [reflexivity|]. split; [reflexivity|]. split; [vm_compute; reflexivity|].
    exists 1. split; [vm_compute; split; reflexivity|vm_compute; reflexivity].
  - split; reflexivity.
  - split; [vm_compute; split; congruence|vm_compute; reflexivity].
  - split; [vm_compute; split; congruence|vm_compute; reflexivity].
Qed.

Lemma may_unlock : may_send cfg3 (after_run 5).1 (after_run 5).2 0 (MCP_MUTEX_UNLOCK 0 11).
Proof.
  split; [vm_compute; split; congruence|]. split; [vm_compute; reflexivity|]. split; [vm_compute; reflexivity|].
  split; [vm_compute; split; congruence|]. vm_compute. left.
Qed.

Lemma Mcp_never_stops_witness :
  exists s', processPacket cfg3 (main 0) (MCP_MUTEX_UNLOCK 0 11) (after_run 5).1 = Ok (tt, s').
Proof.
  destruct (Mcp_never_stops cfg3 None (after_run 5).1 (after_run 5).2 0 (MCP_MUTEX_UNLOCK 0 11)
    cfg3_ok I (contend_run 5 (le_n 5)) may_unlock) as (s' & outs & C' & E & _).
  exists s'. exact E.
Defined.

Lemma Mcp_mutual_exclusion_witness :
  cl_state ((after_run 5).2 1) = AtMutex 0 /\ exists t', 0 ∈ cl_held ((after_run 5).2 t').
Proof.
  destruct (Mcp_mutual_exclusion cfg3 None (after_run 5).1 (after_run 5).2
    cfg3_ok I (contend_run 5 (le_n 5))) as (_ & _ & Hw).
  assert (E : cl_state ((after_run 5).2 1) = AtMutex 0) by (vm_compute; reflexivity).
  split; [exact E|exact (Hw 1 0 E)].
Defined.

Lemma Mcp_queues_exact_witness :
  exists x, ss_mutexes (after_run 5).1 !! 0%nat = Some x /\ main 1 ∈ mx_waiting x.
Proof.
  destruct (Mcp_queues_exact cfg3 None (after_run 5).1 (after_run 5).2
    cfg3_ok I (contend_run 5 (le_n 5))) as (_ & _ & _ & Hq & _).
  apply (Hq 1 0). vm_compute. reflexivity.
Defined.

Lemma Mcp_mutex_fifo_witness :
  exists s', processPacket cfg3 (main 0) (MCP_MUTEX_UNLOCK 0 11) (after_run 5).1 = Ok (tt, s') /\
    ss_mutexes s' = [mkMutex [] (main 1)].
Proof.
  destruct (Mcp_mutex_fifo cfg3 None (after_run 5).1 (after_run 5).2 0 0 11 (mkMutex [main 1] (main 0))
    cfg3_ok I (contend_run 5 (le_n 5)) ltac:(vm_compute; reflexivity)) as [_ Hu].
  destruct (Hu may_unlock) as (s' & E & Em & _). exists s'. split; [exact E|].
  rewrite Em. vm_compute. reflexivity.
Defined.

(** ** Barriers of threads on high tiles *)












(** ** Joins go by the slot of a thread *)











(** The MCP of the three tiles exits: the reply to its exit stays unread. *)
Example mcp_exit_unread :
  match serve cfg3 start3 (3, MCP_THREAD_EXIT 3 MAIN_CORE_TYPE 0 9) with
  | Ok (s', C') => cl_state (C' 3) = Absent /\ cl_unread (C' 3) = [THREAD_EXIT_REPLY 3 MAIN_CORE_TYPE INVALID_THREAD_ID]
  | Err _ => False
  end.
Proof. vm_compute. split; reflexivity. Qed.

(** The words of [setOSTid] are decoded one position early: the slot of the
    tile's core type gets the thread index as its operating-system id. *)
Lemma setOSTid_stores_index cfg base C0 s V t idx pid :
  rep cfg base C0 s V -> 0 <= t < getTotalTiles cfg ->
  runs (processPacket cfg (main t) (MCP_THREAD_SET_OS_TID (setOSTid_words (main t) idx pid))) s
    (fun _ s' => exists th, thread_at (tm_threads s') t 0 = Ok th /\ os_tid th = Some idx).
Proof.
  intros Hr Ht. simpl. repeat runs_step. eapply runs_lift; [done|]. repeat runs_step.
  eapply runs_lift; [done|]. repeat runs_step. eapply runs_lift; [done|].
  unfold masterSetOSTid. eapply on_thread_runs; [exact Hr|done|done|]. intros s' Hr'.
  eexists. split; [by apply (rep_thread_at _ _ _ _ _ _ Hr')|]. simpl. by rewrite upd_eq.
Qed.
