(* ===== verification/QueueModel.v ===== *)
(** * Queue models: common/shared_models/queue_model.cc,
    common/shared_models/queue_models/queue_model_{basic,history_list,m_g_1}.cc

    A queue model stands for one port of a router or one memory channel.  For
    a packet that arrives at a time and occupies the port for a processing
    time it computes how long the packet waits.  The history list keeps the
    intervals in which the port is free.

    Figures computed in floating point are parameters: the moving average of
    the basic model and the waiting time of the M/G/1 model.  Its sums, which
    the code keeps in doubles, are exact integers here. *)

From S2P Require Import Prelude.

Definition UINT64_MAX : Z := 2 ^ 64 - 1.

(** ** Utilization counters of the base class *)

Record QueueCounters : Type := mkQC {
  total_utilized_cycles : Z;
  last_request_time : Z;
  total_requests : Z }.

Definition QueueCounters_new : QueueCounters := mkQC 0 0 0.

Definition updateQueueUtilizationCounters (request_time processing_time queue_delay : Z)
    (c : QueueCounters) : QueueCounters :=
  mkQC (wrap64 (total_utilized_cycles c + processing_time))
    (Z.max (last_request_time c) (wrap64 (request_time + queue_delay + processing_time)))
    (wrap64 (total_requests c + 1)).

(** ** The interface the routers use *)

(** [computeQueueDelay q pkt_time processing_time] *)
Class QueueOps (Q : Type) : Type := {
  computeQueueDelay : Q -> Z -> Z -> result (Z * Q) }.

(** What a queue model promises its clients.  The times of a simulation are at
    most [2^60] cycles (the assumption the constructor of the history list
    states); [has_room n q]: the model can serve further requests of [n]
    cycles in total. *)
Definition MAX_TIME : Z := 2 ^ 60.

Class QueueLaws (Q : Type) `{QueueOps Q} : Type := {
  has_room : Z -> Q -> Prop;
  has_room_less n n' q : has_room n q -> n' <= n -> has_room n' q;
  queue_serves n q t p : has_room n q -> 0 <= t <= MAX_TIME -> 0 < p <= n ->
    exists d q', computeQueueDelay q t p = Ok (d, q') /\ is_word 64 d /\ has_room (n - p) q' }.

(** ** QueueModelBasic *)

Section basic.
(** The moving average: its state and [compute]. *)
Context {Average : Type} (average_compute : Average -> Z -> Z * Average).

Record QueueModelBasic : Type := mkBasic {
  qb_queue_time : Z;
  qb_moving_average : option Average;
  qb_counters : QueueCounters }.

Definition QueueModelBasic_new (avg : option Average) : QueueModelBasic :=
  mkBasic 0 avg QueueCounters_new.

Definition basic_computeQueueDelay (q : QueueModelBasic) (pkt_time processing_time : Z) :
    Z * QueueModelBasic :=
  let '(ref_time, avg) :=
    match qb_moving_average q with
    | Some a => let '(r, a') := average_compute a pkt_time in (r, Some a')
    | None => (pkt_time, None)
    end in
  let queue_delay := if ref_time <? qb_queue_time q then qb_queue_time q - ref_time else 0 in
  (queue_delay,
   mkBasic (wrap64 (Z.max (qb_queue_time q) ref_time + processing_time)) avg
     (updateQueueUtilizationCounters ref_time processing_time queue_delay (qb_counters q))).
End basic.

(** ** QueueModelMG1 *)

Record QueueModelMG1 : Type := mkMG1 {
  sigma_service_time_square : Z;
  sigma_service_time : Z;
  num_arrivals : Z;
  newest_arrival_time : Z }.

Definition QueueModelMG1_new : QueueModelMG1 := mkMG1 0 0 0 0.

(** [waiting] is the formula over the four members. *)
Definition mg1_computeQueueDelay (waiting : QueueModelMG1 -> Z) (q : QueueModelMG1)
    (service_time : Z) : result Z :=
  _ ← log_assert (0 <? service_time);
  Ok (if num_arrivals q =? 0 then 0 else waiting q).

Definition mg1_updateQueue (pkt_time service_time waiting_time_queue : Z) (q : QueueModelMG1) :
    QueueModelMG1 :=
  mkMG1 (sigma_service_time_square q + service_time * service_time)
    (sigma_service_time q + service_time) (wrap64 (num_arrivals q + 1))
    (Z.max (newest_arrival_time q) (wrap64 (pkt_time + waiting_time_queue + service_time))).

(** ** QueueModelHistoryList *)

Abbreviation Interval := (Z * Z)%type.

Record QueueModelHistoryList : Type := mkHL {
  hl_min_processing_time : Z;
  hl_max_size : Z;
  hl_analytical_enabled : bool;
  hl_interleaving_enabled : bool;
  hl_free : list Interval;
  hl_mg1 : QueueModelMG1;
  hl_analytical_requests : Z;
  hl_counters : QueueCounters }.

Definition QueueModelHistoryList_new (min_processing_time max_size : Z) (analytical interleaving : bool) :
    QueueModelHistoryList :=
  mkHL min_processing_time max_size analytical interleaving [(0, UINT64_MAX)]
    QueueModelMG1_new 0 QueueCounters_new.

(** An interval that is inserted when it is long enough. *)
Definition keep_if (min a b : Z) : list Interval :=
  if min <=? wrap64 (b - a) then [(a, b)] else [].

(** The loop of [computeUsingHistoryList]: the iterator stands between
    [before] and [after]; insertions go in front of it.  When two packets may
    be interleaved, an interval that is too short is used up and the iterator
    is moved back and forth again; moving it back from the first element is
    undefined.  In the first of these cases [processing_time] is reduced by
    [interval.second - pkt_time] after [pkt_time] became [interval.second]. *)
Fixpoint history_loop (min : Z) (interleaving : bool) (before after : list Interval)
    (pkt_time processing_time queue_delay : Z) : result (Z * list Interval) :=
  match after with
  | [] => Ok (queue_delay, before)
  | (a, b) :: after' =>
    let next := wrap64 (pkt_time + processing_time) in
    if (a <=? pkt_time) && (next <=? b) then
      Ok (queue_delay, before ++ keep_if min a pkt_time ++ keep_if min next b ++ after')
    else
      let end_ := wrap64 (a + processing_time) in
      if (pkt_time <? a) && (end_ <=? b) then
        Ok (wrap64 (queue_delay + (a - pkt_time)), before ++ keep_if min end_ b ++ after')
      else if interleaving && (a <=? pkt_time) && (pkt_time <? b) then
        match before ++ keep_if min a pkt_time with
        | [] => Err OutOfRange
        | before' => history_loop min interleaving before' after' b
                       (wrap64 (processing_time - (b - b))) queue_delay
        end
      else if interleaving && (pkt_time <? a) then
        match before with
        | [] => Err OutOfRange
        | _ => history_loop min interleaving before after' b (wrap64 (processing_time - (b - a)))
                 (wrap64 (queue_delay + (a - pkt_time)))
        end
      else history_loop min interleaving (before ++ [(a, b)]) after' pkt_time processing_time queue_delay
  end.

Definition computeUsingHistoryList (q : QueueModelHistoryList) (pkt_time processing_time : Z) :
    result (Z * list Interval) :=
  _ ← log_assert (Z.of_nat (length (hl_free q)) <=? hl_max_size q);
  '(queue_delay, l) ← history_loop (hl_min_processing_time q) (hl_interleaving_enabled q) []
                        (hl_free q) pkt_time processing_time 0;
  Ok (queue_delay, if hl_max_size q <? Z.of_nat (length l) then tail l else l).

Section history_list.
Context (waiting : QueueModelMG1 -> Z).

Definition hl_computeQueueDelay (q : QueueModelHistoryList) (pkt_time processing_time : Z) :
    result (Z * QueueModelHistoryList) :=
  match hl_free q with
  | [] => Err LogError
  | oldest :: _ =>
    '(queue_delay, l, n) ←
      (if hl_analytical_enabled q && (wrap64 (pkt_time + processing_time) <? oldest.1) then
         queue_delay ← mg1_computeQueueDelay waiting (hl_mg1 q) processing_time;
         Ok (queue_delay, hl_free q, wrap64 (hl_analytical_requests q + 1))
       else
         '(queue_delay, l) ← computeUsingHistoryList q pkt_time processing_time;
         Ok (queue_delay, l, hl_analytical_requests q));
    Ok (queue_delay,
        mkHL (hl_min_processing_time q) (hl_max_size q) (hl_analytical_enabled q)
          (hl_interleaving_enabled q) l
          (mg1_updateQueue pkt_time processing_time queue_delay (hl_mg1 q)) n
          (updateQueueUtilizationCounters pkt_time processing_time queue_delay (hl_counters q)))
  end.
End history_list.
