(* ===== verification/QueueThm.v ===== *)
(** * What the queue models guarantee

    The history list gives a packet the earliest free slot that is long enough
    for it and then withdraws the slot: the slots it hands out are disjoint,
    the port serves one packet at a time.  With interleaving it books more
    time than the packet needs. *)

From S2P Require Import Prelude QueueModel.

(** ** Lists of free intervals *)

(** Sorted, separated, of at least [min] cycles, inside the 64-bit range. *)
Fixpoint ordered (min lo : Z) (l : list Interval) : Prop :=
  match l with
  | [] => True
  | (a, b) :: l' => lo < a /\ a + min <= b /\ b <= UINT64_MAX /\ ordered min b l'
  end.

Definition free (l : list Interval) (x : Z) : Prop := exists i, i ∈ l /\ i.1 <= x < i.2.

Lemma free_nil x : ~ free [] x.
Proof. intros (i & Hi & _). by apply elem_of_nil in Hi. Qed.

Lemma free_cons i l x : free (i :: l) x <-> i.1 <= x < i.2 \/ free l x.
Proof.
  split.
  - intros (j & [-> |Hj]%elem_of_cons & Hx); [by left|right; by exists j].
  - intros [Hx|(j & Hj & Hx)]; [exists i; split; [left|done]|exists j; split; [by right|done]].
Qed.

Lemma free_app l1 l2 x : free (l1 ++ l2) x <-> free l1 x \/ free l2 x.
Proof.
  induction l1 as [|i l1 IH]; simpl.
  - split; [by right|]. intros [H|H]; [by apply free_nil in H|done].
  - rewrite !free_cons, IH. tauto.
Qed.

Section ordered.
Context (min : Z) (Hmin : 1 <= min).

Lemma ordered_lo lo lo' l : lo' <= lo -> ordered min lo l -> ordered min lo' l.
Proof. destruct l as [|[a b] l]; [done|]. simpl. intros ? (? & ? & ? & ?). repeat split; [lia|lia|lia|done]. Qed.

Lemma ordered_tail lo i l : ordered min lo (i :: l) -> ordered min lo l.
Proof. destruct i as [a b]. intros (? & ? & ? & H). eapply ordered_lo; [|exact H]. lia. Qed.

Lemma ordered_above lo l i : ordered min lo l -> i ∈ l -> lo < i.1 /\ i.1 + min <= i.2 <= UINT64_MAX.
Proof.
  revert lo. induction l as [|[a b] l IH]; intros lo; simpl; [by intros ? ?%elem_of_nil|].
  intros (? & ? & ? & Hl) [-> |Hi]%elem_of_cons; simpl; [lia|]. specialize (IH _ Hl Hi). lia.
Qed.

Lemma ordered_app lo l1 l2 :
  ordered min lo (l1 ++ l2) <->
  ordered min lo l1 /\ ordered min lo l2 /\ (forall i j, i ∈ l1 -> j ∈ l2 -> i.2 < j.1).
Proof.
  revert lo. induction l1 as [|[a b] l1 IH]; intros lo; simpl.
  - split; [|by intros (_ & ? & _)]. intros H. split; [done|]. split; [done|].
    by intros i j ?%elem_of_nil.
  - rewrite IH. split.
    + intros (? & ? & ? & Hl1 & Hl2 & Hsep). split; [done|]. split; [eapply ordered_lo; [|exact Hl2]; lia|].
      intros i j [-> |Hi]%elem_of_cons Hj; [|by apply Hsep].
      apply (ordered_above b l2 j) in Hj; [simpl; lia|done].
    + intros ((? & ? & ? & Hl1) & Hl2 & Hsep). repeat split; try done.
      * destruct l2 as [|[a' b'] l2]; [done|]. destruct Hl2 as (? & ? & ? & ?).
        specialize (Hsep (a, b) (a', b') ltac:(left) ltac:(left)). by simpl in *.
      * intros i j Hi Hj. apply Hsep; [by right|done].
Qed.

(** A stretch of free time lies in one interval. *)
Lemma stretch_in_interval lo l u p :
  ordered min lo l -> 0 < p -> (forall x, u <= x < u + p -> free l x) ->
  exists i, i ∈ l /\ i.1 <= u /\ u + p <= i.2.
Proof.
  intros Hl Hp Hfree. destruct (Hfree u ltac:(lia)) as (i & Hi & Hu). exists i. split; [done|].
  split; [lia|]. destruct (decide (u + p <= i.2)) as [|Hn]; [done|exfalso].
  destruct (Hfree i.2 ltac:(lia)) as (j & Hj & Hx).
  apply list_elem_of_split in Hi as (l1 & l2 & ->).
  apply ordered_app in Hl as (_ & Hl & H12).
  apply elem_of_app in Hj as [Hj|[-> |Hj]%elem_of_cons]; [|lia|].
  - specialize (H12 j i Hj ltac:(left)). lia.
  - destruct i as [a b]. destruct Hl as (_ & _ & _ & Hl).
    apply (ordered_above b l2 j) in Hj; [simpl in *; lia|done].
Qed.

(** ** The loop without interleaving *)

(** A packet that arrives at [t] and needs [p] cycles fits into an interval. *)
Definition fits (t p : Z) (i : Interval) : Prop := Z.max t i.1 + p <= i.2.
#[global] Instance fits_dec t p i : Decision (fits t p i).
Proof. unfold fits. apply _. Defined.

Definition keep (a b : Z) : list Interval := if decide (a + min <= b) then [(a, b)] else [].
(** What is left of an interval. *)
Definition carve (t p : Z) (i : Interval) : list Interval :=
  keep i.1 (Z.max t i.1) ++ keep (Z.max t i.1 + p) i.2.

Lemma keep_if_keep a b : 0 <= a -> a <= b <= UINT64_MAX -> keep_if min a b = keep a b.
Proof.
  intros Ha Hb. unfold keep_if, keep, UINT64_MAX in *.
  rewrite wrap_id by (unfold is_word; lia). destruct (Z.leb_spec min (b - a)); case_decide; lia || done.
Qed.

Lemma elem_keep a b i : i ∈ keep a b <-> i = (a, b) /\ a + min <= b.
Proof.
  unfold keep. case_decide; [rewrite list_elem_of_singleton|rewrite elem_of_nil]; naive_solver.
Qed.

Lemma history_loop_spec lo before F1 i F2 t p d0 :
  ordered min lo (F1 ++ i :: F2) -> -1 <= lo -> 0 <= t <= MAX_TIME -> 0 < p <= 2 ^ 62 ->
  (forall j, j ∈ F1 ++ i :: F2 -> j.1 <= 2 ^ 63) ->
  Forall (fun j => ~ fits t p j) F1 -> fits t p i -> 0 <= d0 -> d0 + (Z.max t i.1 - t) < 2 ^ 64 ->
  history_loop min false before (F1 ++ i :: F2) t p d0 =
    Ok (d0 + (Z.max t i.1 - t), before ++ F1 ++ carve t p i ++ F2).
Proof.
  intros Hord Hlo Ht Hp Hstart HF1 Hfit Hd0 Hd. revert lo before Hord Hlo Hstart.
  unfold MAX_TIME in *.
  induction F1 as [|[a b] F1 IH]; intros lo before Hord Hlo Hstart.
  - destruct i as [a b]. destruct Hord as (? & ? & Hb & _). unfold fits in Hfit. simpl in *.
    assert (a <= 2 ^ 63) by apply (Hstart (a, b) ltac:(left)).
    rewrite !(wrap_id 64 (t + p)), !(wrap_id 64 (a + p)) by (unfold is_word; lia).
    unfold UINT64_MAX in Hb. destruct (Z.leb_spec a t) as [Hat|Hat]; simpl.
    + rewrite Z.max_l in * by lia. rewrite (proj2 (Z.leb_le (t + p) b)) by lia.
      unfold carve. simpl. rewrite Z.max_l by lia.
      rewrite !keep_if_keep by (unfold UINT64_MAX; lia). rewrite <- app_assoc. repeat f_equal. lia.
    + rewrite Z.max_r in * by lia. rewrite (proj2 (Z.ltb_lt t a)) by lia.
      rewrite (proj2 (Z.leb_le (a + p) b)) by lia. simpl.
      rewrite wrap_id by (unfold is_word; lia). unfold carve. simpl. rewrite Z.max_r by lia.
      rewrite keep_if_keep by (unfold UINT64_MAX; lia).
      unfold keep at 2. rewrite decide_False by lia. done.
  - apply Forall_cons in HF1 as [Hnf HF1]. simpl in Hord. destruct Hord as (? & ? & Hb & Hord).
    unfold fits in Hnf. simpl in *. unfold UINT64_MAX in Hb.
    assert (a <= 2 ^ 63) by apply (Hstart (a, b) ltac:(left)).
    rewrite !(wrap_id 64 (t + p)), !(wrap_id 64 (a + p)) by (unfold is_word; lia).
    destruct (Z.leb_spec a t), (Z.leb_spec (t + p) b); simpl; try lia.
    all: destruct (Z.ltb_spec t a), (Z.leb_spec (a + p) b); simpl; try lia.
    all: rewrite (IH HF1 b) by (done || lia || (intros; apply Hstart; by right)).
    all: by rewrite <- app_assoc.
Qed.

(** ** Points before and after *)

Lemma free_carve t p i x : 0 < p -> fits t p i ->
  free (carve t p i) x ->
  i.1 <= x < i.2 /\ ~ (Z.max t i.1 <= x < Z.max t i.1 + p).
Proof.
  intros Hp Hf (j & Hj & Hx). unfold carve, fits in *.
  apply elem_of_app in Hj as [[-> ?]%elem_keep|[-> ?]%elem_keep]; simpl in *; lia.
Qed.

(** Time that is lost is closer than [min] to the slot. *)
Lemma carve_free t p i x : 0 < p -> fits t p i -> i.1 <= x < i.2 ->
  ~ (Z.max t i.1 <= x < Z.max t i.1 + p) ->
  free (carve t p i) x \/ Z.max t i.1 - min < x < Z.max t i.1 + p + min.
Proof.
  intros Hp Hf Hx Hn. unfold carve, fits in *. destruct (decide (x < Z.max t i.1)) as [Hlt|Hge].
  - destruct (decide (i.1 + min <= Z.max t i.1)).
    + left. apply free_app. left. exists (i.1, Z.max t i.1). split; [by apply elem_keep|simpl; lia].
    + right. lia.
  - destruct (decide (Z.max t i.1 + p + min <= i.2)).
    + left. apply free_app. right. exists (Z.max t i.1 + p, i.2). split; [by apply elem_keep|simpl; lia].
    + right. lia.
Qed.

Lemma ordered_carve lo F1 i F2 t p :
  ordered min lo (F1 ++ i :: F2) -> 0 < p -> fits t p i -> ordered min lo (F1 ++ carve t p i ++ F2).
Proof.
  intros (H1 & Hi & H12)%ordered_app Hp Hf. destruct i as [a b]. destruct Hi as (Hlo & Hab & Hb & H2).
  unfold fits in Hf. simpl in *. unfold carve. simpl.
  assert (H2' : ordered min lo F2) by (eapply ordered_lo; [|exact H2]; lia).
  apply ordered_app. split; [done|]. split.
  - unfold keep. do 2 case_decide; simpl; repeat (split; [lia|]); try done.
    eapply ordered_lo; [|exact H2]. lia.
  - intros j k Hj Hk. specialize (H12 j (a, b) Hj ltac:(left)) as Hja. simpl in Hja.
    apply elem_of_app in Hk as [[[-> ?]%elem_keep|[-> ?]%elem_keep]%elem_of_app|Hk]; simpl; [lia|lia|].
    apply H12; [done|by right].
Qed.

Section used.
Context (lo : Z) (F1 : list Interval) (i : Interval) (F2 : list Interval) (t p : Z).
Context (Hl : ordered min lo (F1 ++ i :: F2)) (Hp : 0 < p) (Hf : fits t p i).

Lemma used_sides j : (j ∈ F1 -> j.2 < i.1) /\ (j ∈ F2 -> i.2 < j.1).
Proof.
  pose proof Hl as (_ & Hi & Hsep)%ordered_app. split; intros Hj.
  - apply Hsep; [done|left].
  - destruct i as [a b]. destruct Hi as (_ & _ & _ & Hi).
    apply (ordered_above b F2 j Hi) in Hj. simpl. lia.
Qed.

Lemma free_used x : free (F1 ++ carve t p i ++ F2) x ->
  free (F1 ++ i :: F2) x /\ ~ (Z.max t i.1 <= x < Z.max t i.1 + p).
Proof.
  rewrite !free_app, free_cons. unfold fits in Hf.
  intros [(j & Hj & Hx)|[Hx|(j & Hj & Hx)]].
  - split; [left; by exists j|]. apply (proj1 (used_sides j)) in Hj. lia.
  - apply free_carve in Hx as [? ?]; [|done..]. tauto.
  - split; [right; right; by exists j|]. apply (proj2 (used_sides j)) in Hj. lia.
Qed.

Lemma used_free x : free (F1 ++ i :: F2) x -> ~ (Z.max t i.1 <= x < Z.max t i.1 + p) ->
  free (F1 ++ carve t p i ++ F2) x \/ Z.max t i.1 - min < x < Z.max t i.1 + p + min.
Proof.
  rewrite !free_app, free_cons. intros [Hx|[Hx|Hx]] Hn; [tauto| |tauto].
  apply (carve_free t p i x) in Hx; [tauto|done..].
Qed.

(** No earlier start leaves the port free for the whole time. *)
Lemma earliest_start u : Forall (fun j => ~ fits t p j) F1 -> t <= u < Z.max t i.1 ->
  exists x, u <= x < u + p /\ ~ free (F1 ++ i :: F2) x.
Proof.
  intros HF1 Hu.
  destruct (decide (Exists (fun j => j.1 <= u /\ u + p <= j.2) (F1 ++ i :: F2))) as [Hex|Hno].
  - exfalso. apply Exists_exists in Hex as (j & Hj & Hj1 & Hj2).
    apply elem_of_app in Hj as [Hj|[-> |Hj]%elem_of_cons]; [|lia|].
    + rewrite Forall_forall in HF1. apply (HF1 j Hj). unfold fits. lia.
    + apply (proj2 (used_sides j)) in Hj. unfold fits in Hf. lia.
  - destruct (decide (Forall (fun x => Exists (fun j => j.1 <= x < j.2) (F1 ++ i :: F2)) (seqZ u p)))
      as [Hall|Hn].
    + exfalso. apply Hno. destruct (stretch_in_interval lo (F1 ++ i :: F2) u p) as (j & ? & ?); [done..| |].
      * intros x Hx. rewrite Forall_forall in Hall. specialize (Hall x ltac:(apply elem_of_seqZ; lia)).
        by apply Exists_exists in Hall.
      * apply Exists_exists. by exists j.
    + apply not_Forall_Exists in Hn; [|apply _]. apply Exists_exists in Hn as (x & Hx & Hn).
      apply elem_of_seqZ in Hx. exists x. split; [lia|]. intros (j & Hj & Hin). apply Hn, Exists_exists.
      by exists j.
Qed.
End used.
End ordered.

Arguments carve : simpl never.

(** ** The history list *)

(** The last interval is open: it starts at [s]. *)
Definition open_from (s : Z) (l : list Interval) : Prop := exists l', l = l' ++ [(s, UINT64_MAX)].

Lemma open_from_elem s l : open_from s l -> (s, UINT64_MAX) ∈ l.
Proof. intros [l' ->]. apply elem_of_app. right. left. Qed.

Lemma open_from_last min lo s l i : ordered min lo l -> 1 <= min -> open_from s l -> i ∈ l -> i.1 <= s.
Proof.
  intros Hl Hmin [l' ->]. apply ordered_app in Hl as (Hl & Hs & Hsep); [|done].
  intros [Hi|[-> |[]%elem_of_nil]%elem_of_cons]%elem_of_app; [|done].
  specialize (Hsep i _ Hi ltac:(left)).
  pose proof (ordered_above min Hmin lo l' i Hl Hi). simpl in *. lia.
Qed.

Lemma open_from_tail s l : open_from s l -> (2 <= length l)%nat -> open_from s (tail l).
Proof.
  intros [[|i l'] ->]; simpl; [lia|]. intros _. by exists l'.
Qed.

(** The state of a history list that can serve requests of [n] cycles. *)
Record hl_ok (n : Z) (q : QueueModelHistoryList) : Prop := {
  ho_room : 0 <= n <= 2 ^ 62;
  ho_min : 1 <= hl_min_processing_time q <= 2 ^ 62;
  ho_size : Z.of_nat (length (hl_free q)) <= hl_max_size q;
  ho_ordered : ordered (hl_min_processing_time q) (-1) (hl_free q);
  ho_open : exists s, open_from s (hl_free q) /\ s + n <= 2 ^ 63 }.

Lemma QueueModelHistoryList_new_ok min max_size analytical interleaving :
  1 <= min <= 2 ^ 62 -> 1 <= max_size ->
  hl_ok (2 ^ 62) (QueueModelHistoryList_new min max_size analytical interleaving).
Proof.
  intros ? ?. split; simpl; try done; [unfold UINT64_MAX; lia|].
  exists 0. split; [by exists []|lia].
Qed.

(** The slot the list grants: the first interval the packet fits into. *)
Lemma first_fit min s l t p : 1 <= min <= 2 ^ 62 -> 0 <= t <= MAX_TIME -> 0 < p <= 2 ^ 62 ->
  ordered min (-1) l -> open_from s l -> s + p <= 2 ^ 63 ->
  exists F1 i F2, l = F1 ++ i :: F2 /\ Forall (fun j => ~ fits t p j) F1 /\ fits t p i.
Proof.
  intros Hmin Ht Hp Hl [l' ->] Hs. unfold MAX_TIME in *.
  assert (Hex : Exists (fits t p) (l' ++ [(s, UINT64_MAX)])).
  { apply Exists_app. right. left. unfold fits, UINT64_MAX. simpl. lia. }
  clear Hl Hs. revert Hex. generalize (l' ++ [(s, UINT64_MAX)]). induction l as [|i l IH]; [by intros ?%Exists_nil|].
  intros Hex. destruct (decide (fits t p i)) as [Hf|Hn].
  - exists [], i, l. split; [done|]. split; [constructor|done].
  - apply Exists_cons in Hex as [?|Hex]; [done|]. destruct (IH Hex) as (F1 & j & F2 & -> & HF1 & Hj).
    exists (i :: F1), j, F2. split; [done|]. split; [by constructor|done].
Qed.

(** The effect of [computeUsingHistoryList]: [i] is the interval used. *)
Definition pruned (max_size : Z) (l : list Interval) : list Interval :=
  if max_size <? Z.of_nat (length l) then tail l else l.

Lemma list_serves n q t p : hl_interleaving_enabled q = false -> hl_ok n q -> 0 <= t <= MAX_TIME -> 0 < p <= n ->
  exists F1 i F2, hl_free q = F1 ++ i :: F2 /\ Forall (fun j => ~ fits t p j) F1 /\ fits t p i /\
    computeUsingHistoryList q t p =
      Ok (Z.max t i.1 - t, pruned (hl_max_size q) (F1 ++ carve (hl_min_processing_time q) t p i ++ F2)) /\
    is_word 64 (Z.max t i.1 - t).
Proof.
  intros Hint [Hn Hmin Hsize Hord (s & Hopen & Hs)] Ht Hp.
  destruct (first_fit _ s (hl_free q) t p Hmin Ht ltac:(lia) Hord Hopen ltac:(lia))
    as (F1 & i & F2 & E & HF1 & Hf).
  assert (Hle : forall j, j ∈ hl_free q -> j.1 <= 2 ^ 63).
  { intros j Hj. pose proof (open_from_last _ _ _ _ _ Hord ltac:(lia) Hopen Hj). lia. }
  assert (Hi : i ∈ hl_free q) by (rewrite E; apply elem_of_app; right; left).
  pose proof (Hle _ Hi). unfold MAX_TIME in *.
  exists F1, i, F2. split; [done|]. split; [done|]. split; [done|]. split; [|unfold is_word; lia].
  unfold computeUsingHistoryList. rewrite (proj2 (Z.leb_le _ _) Hsize), Hint. simpl.
  rewrite E in Hord, Hle |- *. by rewrite (history_loop_spec (hl_min_processing_time q) ltac:(lia) (-1) [] F1 i F2 t p 0)
    by (done || lia || (unfold MAX_TIME; lia)).
Qed.

Lemma length_carve min t p i : (length (carve min t p i) <= 2)%nat.
Proof. unfold carve, keep. repeat case_decide; simpl; lia. Qed.

Lemma open_from_carve min s F1 i F2 n t p :
  1 <= min <= 2 ^ 62 -> 0 <= t <= MAX_TIME -> 0 < p <= n -> n <= 2 ^ 62 -> s + n <= 2 ^ 63 ->
  open_from s (F1 ++ i :: F2) ->
  exists s', open_from s' (F1 ++ carve min t p i ++ F2) /\ s' + (n - p) <= 2 ^ 63.
Proof.
  intros Hmin Ht Hp Hn Hs [l' E]. unfold MAX_TIME in *.
  destruct (destruct_list F2) as [[j [F2' ->]]|HF2]; [|subst F2].
  - exists s. split; [|lia].
    assert (Hsuf : exists F3, j :: F2' = F3 ++ [(s, UINT64_MAX)]).
    { destruct (exists_last (l := j :: F2') ltac:(done)) as (F3 & k & E3). exists F3.
      rewrite E3. rewrite E3 in E. rewrite (app_comm_cons F3 [k] i), (assoc_L app F1 (i :: F3) [k]) in E.
      by apply app_inj_tail in E as [_ ->]. }
    destruct Hsuf as [F3 ->]. exists (F1 ++ carve min t p i ++ F3). by rewrite <- !(assoc_L app).
  - apply app_inj_tail in E as [-> ->]. exists (Z.max t s + p). split; [|lia].
    unfold carve. simpl. unfold keep at 2. rewrite decide_True by (unfold UINT64_MAX; lia).
    rewrite app_nil_r. exists (l' ++ keep min s (Z.max t s)). by rewrite <- (assoc_L app).
Qed.

Lemma pruned_cases max_size l : 0 <= max_size -> Z.of_nat (length l) <= max_size + 1 ->
  Z.of_nat (length (pruned max_size l)) <= max_size /\
  (pruned max_size l = l \/ (max_size < Z.of_nat (length l) /\ pruned max_size l = tail l)).
Proof.
  intros Hm Hl. unfold pruned. destruct (Z.ltb_spec max_size (Z.of_nat (length l))); [|split; [lia|by left]].
  split; [|by right]. destruct l; simpl in *; lia.
Qed.

Lemma free_pruned max_size l x : free (pruned max_size l) x -> free l x.
Proof.
  unfold pruned. case_match; [|done]. destruct l as [|i l]; [done|]. intros Hf. apply free_cons. by right.
Qed.

Section history_list.
(** The waiting time of the M/G/1 model is a [UInt64]. *)
Context (waiting : QueueModelMG1 -> Z) (waiting_word : forall m, is_word 64 (waiting m)).

(** Whether the list, not the analytical model, answers a request. *)
Definition served_by_list (q : QueueModelHistoryList) (t p : Z) : bool :=
  match hl_free q with
  | [] => false
  | oldest :: _ => negb (hl_analytical_enabled q && (wrap64 (t + p) <? oldest.1))
  end.

Lemma hl_ok_nonempty n q : hl_ok n q -> exists i l, hl_free q = i :: l.
Proof.
  intros [_ _ _ _ (s & [l' E] & _)]. rewrite E. destruct l' as [|i l']; eauto.
Qed.

Lemma hl_ok_less n n' q : hl_ok n q -> 0 <= n' <= n -> hl_ok n' q.
Proof. intros [Hn Hmin Hsize Hord (s & Ho & Hs)] Hle. split; try done; [lia|]. exists s. split; [done|lia]. Qed.

(** The two cases of [computeQueueDelay]. *)
Lemma hl_step n q t p : hl_interleaving_enabled q = false -> hl_ok n q -> 0 <= t <= MAX_TIME -> 0 < p <= n ->
  exists d q', hl_computeQueueDelay waiting q t p = Ok (d, q') /\ is_word 64 d /\ hl_ok (n - p) q' /\
    hl_max_size q' = hl_max_size q /\ hl_interleaving_enabled q' = false /\
    (served_by_list q t p = false -> hl_free q' = hl_free q) /\
    (served_by_list q t p = true ->
       exists F1 i F2, hl_free q = F1 ++ i :: F2 /\ Forall (fun j => ~ fits t p j) F1 /\ fits t p i /\
         d = Z.max t i.1 - t /\
         hl_free q' = pruned (hl_max_size q) (F1 ++ carve (hl_min_processing_time q) t p i ++ F2)).
Proof.
  intros Hint Hok Ht Hp. destruct (hl_ok_nonempty n q Hok) as (j & l & El).
  unfold hl_computeQueueDelay, served_by_list. rewrite El.
  destruct (hl_analytical_enabled q && (wrap64 (t + p) <? j.1)) eqn:Ean; simpl.
  - unfold mg1_computeQueueDelay. rewrite (proj2 (Z.ltb_lt 0 p)) by lia. simpl.
    eexists _, _. split; [reflexivity|]. split.
    { case_match; [unfold is_word; lia|apply waiting_word]. }
    split; [|done].
    destruct (hl_ok_less n (n - p) q Hok ltac:(destruct Hok; lia)) as [? ? Hsize Hord Hop].
    rewrite El in Hsize, Hord, Hop. by split.
  - destruct (list_serves n q t p Hint Hok Ht Hp) as (F1 & i & F2 & E & HF1 & Hf & -> & Hd). simpl.
    eexists _, _. split; [reflexivity|]. split; [done|]. split; [|split; [done|split; [done|split; [done|]]]].
    2:{ intros _. exists F1, i, F2. by rewrite <- El, E. }
    destruct Hok as [Hn Hmin Hsize Hord (s & Hopen & Hs)]. rewrite E in *.
    set (mid := F1 ++ carve (hl_min_processing_time q) t p i ++ F2).
    assert (Hlen : Z.of_nat (length mid) <= hl_max_size q + 1).
    { unfold mid. rewrite !length_app in *. pose proof (length_carve (hl_min_processing_time q) t p i).
      simpl in *. lia. }
    assert (Hmid : ordered (hl_min_processing_time q) (-1) mid) by (apply ordered_carve; done || lia).
    destruct (open_from_carve _ s F1 i F2 n t p Hmin Ht Hp ltac:(lia) Hs Hopen) as (s' & Hop & Hs').
    fold mid in Hop. destruct (pruned_cases (hl_max_size q) mid ltac:(lia) Hlen) as [Hsz Hcase].
    split; simpl; try done; [lia| |].
    + destruct Hcase as [-> |[_ ->]]; [done|]. destruct mid as [|k mid']; [done|]. simpl.
      eapply ordered_tail; [|exact Hmid]. lia.
    + exists s'. split; [|lia]. destruct Hcase as [-> |[Hlt ->]]; [done|].
      apply open_from_tail; [done|]. rewrite length_app in Hsize. simpl in Hsize. lia.
Qed.

(** C19: with interleaving disabled, a request that the history list answers is
    given the earliest slot the list knows of: the packet waits until the first
    moment from which the port is free for its whole processing time.  The slot
    is withdrawn, and possibly more: afterwards the port is free only where it
    was free before and outside the slot, and what is lost besides the slot is
    closer than [min_processing_time] to it, or was older than everything that
    is left, because the oldest interval is dropped when the list is full.  The
    list stays sorted and within its maximum size.  The hypothesis is needed (the
    theorem on interleaving below), and carbon_sim.cfg enables interleaving for
    this queue model; the queue model that file selects is the history tree,
    which has no interleaving and answers like the list without it. *)
Theorem HistoryList_earliest_slot n q t p :
  hl_interleaving_enabled q = false -> hl_ok n q -> 0 <= t <= MAX_TIME -> 0 < p <= n -> served_by_list q t p = true ->
  exists d q', hl_computeQueueDelay waiting q t p = Ok (d, q') /\ 0 <= d /\ hl_ok (n - p) q' /\
    (forall x, t + d <= x < t + d + p -> free (hl_free q) x) /\
    (forall u, t <= u < t + d -> exists x, u <= x < u + p /\ ~ free (hl_free q) x) /\
    (forall x, free (hl_free q') x -> free (hl_free q) x /\ ~ (t + d <= x < t + d + p)) /\
    (forall x, free (hl_free q) x -> ~ (t + d <= x < t + d + p) ->
       free (hl_free q') x \/
       t + d - hl_min_processing_time q < x < t + d + p + hl_min_processing_time q \/
       (Z.of_nat (length (hl_free q')) = hl_max_size q /\ forall y, free (hl_free q') y -> x < y)).
Proof.
  intros Hint Hok Ht Hp Hs. destruct (hl_step n q t p Hint Hok Ht Hp) as (d & q' & E & Hd & Hok' & Emax & _ & _ & Hl).
  destruct (Hl Hs) as (F1 & i & F2 & Efree & HF1 & Hf & -> & Efree'). clear Hl.
  pose proof (ho_min _ _ Hok) as Hmin. assert (Hm1 : 1 <= hl_min_processing_time q) by lia. assert (Hp0 : 0 < p) by lia.
  pose proof (ho_ordered _ _ Hok) as Hord.
  assert (Ein : i ∈ hl_free q) by (rewrite Efree; apply elem_of_app; right; left).
  pose proof (ordered_above _ Hm1 _ _ _ Hord Ein) as Hi.
  assert (Est : t + (Z.max t i.1 - t) = Z.max t i.1) by lia.
  set (mid := F1 ++ carve (hl_min_processing_time q) t p i ++ F2) in *.
  assert (Hmid : ordered (hl_min_processing_time q) (-1) mid).
  { apply ordered_carve; [lia|by rewrite <- Efree|lia|done]. }
  eexists _, q'. split; [done|]. split; [lia|]. split; [done|]. rewrite Efree', Efree, !Est in *.
  split; [intros x Hx; exists i; split; [done|unfold fits in Hf; lia]|].
  split; [intros u Hu; by apply (earliest_start _ Hm1 (-1) F1 i F2 t p)|].
  split; [intros x Hx%free_pruned; by apply (free_used _ Hm1 (-1) F1 i F2 t p) in Hx|].
  intros x Hx Hn. destruct (used_free (hl_min_processing_time q) Hm1 F1 i F2 t p Hp0 Hf x Hx Hn) as [Hm|?];
    [fold mid in Hm|tauto].
  unfold pruned. destruct (Z.ltb_spec (hl_max_size q) (Z.of_nat (length mid))) as [Hlt|]; [|tauto].
  destruct mid as [|k mid'] eqn:Em; [by apply free_nil in Hm|].
  apply free_cons in Hm as [Hk|?]; [|tauto]. right. right. cbn [length tail].
  pose proof (ho_size _ _ Hok') as Hsz. rewrite Efree' in Hsz. unfold pruned in Hsz.
  rewrite (proj2 (Z.ltb_lt _ _)), Emax in Hsz by done. cbn [length tail] in Hsz, Hlt. split; [lia|].
  intros y (j & Hj & Hy). destruct k as [a b]. destruct Hmid as (_ & _ & _ & Hmid).
  apply (ordered_above _ Hm1 _ _ _ Hmid) in Hj. simpl in *. lia.
Qed.

(** What every later theorem needs of a step. *)
Lemma hl_withdraws n q t p : hl_interleaving_enabled q = false -> hl_ok n q ->
  0 <= t <= MAX_TIME -> 0 < p <= n ->
  exists d q', hl_computeQueueDelay waiting q t p = Ok (d, q') /\ hl_interleaving_enabled q' = false /\
    hl_ok (n - p) q' /\
    (forall x, free (hl_free q') x -> free (hl_free q) x) /\
    (served_by_list q t p = true ->
       (forall x, t + d <= x < t + d + p -> free (hl_free q) x /\ ~ free (hl_free q') x)).
Proof.
  intros Hint Hok Ht Hp. destruct (hl_step n q t p Hint Hok Ht Hp) as (d & q' & E & Hd & Hok' & _ & Hint' & Ha & Hl).
  pose proof (ho_min _ _ Hok) as Hmin. assert (Hm1 : 1 <= hl_min_processing_time q) by lia.
  assert (Hp0 : 0 < p) by lia. pose proof (ho_ordered _ _ Hok) as Hord.
  exists d, q'. split; [done|]. split; [done|]. split; [done|]. destruct (served_by_list q t p).
  - destruct (Hl eq_refl) as (F1 & i & F2 & Efree & _ & Hf & -> & Efree'). rewrite Efree in Hord |- *.
    pose proof (free_used _ Hm1 (-1) F1 i F2 t p Hord Hp0 Hf) as Hused. rewrite Efree'. split.
    + intros x Hx%free_pruned. by apply Hused.
    + intros _ x Hx. split.
      * apply free_app. right. apply free_cons. left. unfold fits in Hf.
        assert (i ∈ F1 ++ i :: F2) by (apply elem_of_app; right; left). lia.
      * intros Hx'%free_pruned. apply Hused in Hx'. lia.
  - rewrite (Ha eq_refl). by split.
Qed.

(** A sequence of requests, with the slots (start and length) that the list
    grants. *)
Fixpoint hl_run (q : QueueModelHistoryList) (reqs : list (Z * Z)) :
    result (list (Z * Z) * QueueModelHistoryList) :=
  match reqs with
  | [] => Ok ([], q)
  | (t, p) :: reqs' =>
    '(d, q') ← hl_computeQueueDelay waiting q t p;
    '(slots, q'') ← hl_run q' reqs';
    Ok ((if served_by_list q t p then [(t + d, p)] else []) ++ slots, q'')
  end.

Definition in_slot (s : Z * Z) (x : Z) : Prop := s.1 <= x < s.1 + s.2.
Definition apart (s s' : Z * Z) : Prop := forall x, in_slot s x -> ~ in_slot s' x.
Definition total_time (reqs : list (Z * Z)) : Z := foldr (fun r n => r.2 + n) 0 reqs.

Lemma total_time_pos reqs : Forall (fun r => 0 <= r.1 <= MAX_TIME /\ 0 < r.2) reqs -> 0 <= total_time reqs.
Proof. unfold total_time. induction 1 as [|[t p] reqs [_ ?] _ IH]; simpl in *; lia. Qed.

Lemma list_slots_apart n q reqs :
  hl_interleaving_enabled q = false -> hl_ok n q -> Forall (fun r => 0 <= r.1 <= MAX_TIME /\ 0 < r.2) reqs -> total_time reqs <= n ->
  exists slots q', hl_run q reqs = Ok (slots, q') /\
    Forall (fun s => forall x, in_slot s x -> free (hl_free q) x) slots /\
    ForallOrdPairs apart slots.
Proof.
  revert n q. induction reqs as [|[t p] reqs IH]; intros n q Hint Hok Hall Hn.
  - exists [], q. split; [done|]. split; constructor.
  - apply Forall_cons in Hall as [[Ht Hp] Hall]. pose proof (total_time_pos reqs Hall) as H0.
    unfold total_time in *. simpl in *.
    destruct (hl_withdraws n q t p Hint Hok Ht ltac:(lia)) as (d & q' & E & Hint' & Hok' & Hsub & Hslot).
    destruct (IH (n - p) q' Hint' Hok' Hall ltac:(lia)) as (slots & q'' & E' & Hin & Hap).
    rewrite E. simpl. rewrite E'. simpl. eexists _, q''. split; [done|].
    assert (Hin' : Forall (fun s => forall x, in_slot s x -> free (hl_free q) x) slots).
    { eapply Forall_impl; [exact Hin|]. intros s Hs x Hx. by apply Hsub, Hs. }
    destruct (served_by_list q t p); simpl; [|done]. split.
    + constructor; [|done]. intros x Hx. by apply Hslot.
    + constructor; [|done]. eapply Forall_impl; [exact Hin|]. intros s Hs x Hx Hx'.
      apply (proj2 (Hslot eq_refl x Hx)). by apply Hs.
Qed.

(** C20: with interleaving disabled, a history list serves one packet at a
    time.  Whatever the order of the arrival times, every request of a sequence
    is served, and the slots the list grants do not overlap.  (With interleaving,
    which carbon_sim.cfg enables for this queue model, packets book more time
    than they need: the theorem on interleaving below.) *)
Theorem HistoryList_serves_one_at_a_time n q reqs :
  hl_interleaving_enabled q = false -> hl_ok n q -> Forall (fun r => 0 <= r.1 <= MAX_TIME /\ 0 < r.2) reqs -> total_time reqs <= n ->
  exists slots q', hl_run q reqs = Ok (slots, q') /\
    Forall (fun s => forall x, in_slot s x -> free (hl_free q) x) slots /\
    ForallOrdPairs apart slots.
Proof. apply list_slots_apart. Qed.
End history_list.

(** ** The models implement the interface *)

Section instances.
Context (waiting : QueueModelMG1 -> Z) (waiting_word : forall m, is_word 64 (waiting m)).

Definition history_list_ops : QueueOps QueueModelHistoryList :=
  Build_QueueOps _ (hl_computeQueueDelay waiting).

(** The history list without interleaving. *)
Definition list_room (n : Z) (q : QueueModelHistoryList) : Prop :=
  hl_interleaving_enabled q = false /\ hl_ok (Z.max 0 n) q.

Lemma list_room_less n n' q : list_room n q -> n' <= n -> list_room n' q.
Proof. intros [Hint Hok] Hn. split; [done|]. apply (hl_ok_less (Z.max 0 n)); [done|lia]. Qed.

Lemma history_list_serves n q t p : list_room n q -> 0 <= t <= MAX_TIME -> 0 < p <= n ->
  exists d q', hl_computeQueueDelay waiting q t p = Ok (d, q') /\ is_word 64 d /\ list_room (n - p) q'.
Proof.
  intros [Hint Hok] Ht Hp.
  destruct (hl_step waiting waiting_word _ q t p Hint Hok Ht ltac:(lia)) as (d & q' & E & Hd & Hok' & _ & Hint' & _).
  exists d, q'. split; [done|]. split; [done|]. split; [done|]. by replace (Z.max 0 (n - p)) with (Z.max 0 n - p) by lia.
Qed.

Definition history_list_laws : @QueueLaws _ history_list_ops :=
  @Build_QueueLaws _ history_list_ops list_room list_room_less history_list_serves.
End instances.

Section basic_instance.
Context {Average : Type} (average_compute : Average -> Z -> Z * Average).
Context (average_pos : forall a t, 0 <= t -> 0 <= (average_compute a t).1).

Definition basic_ops : QueueOps (@QueueModelBasic Average) :=
  Build_QueueOps _ (fun q t p => Ok (basic_computeQueueDelay average_compute q t p)).

Lemma basic_serves n q t p : is_word 64 (qb_queue_time q) -> 0 <= t <= MAX_TIME -> 0 < p <= n ->
  exists d q', Ok (basic_computeQueueDelay average_compute q t p) = Ok (d, q') /\ is_word 64 d /\
    is_word 64 (qb_queue_time q').
Proof.
  intros Hq Ht Hp. unfold basic_computeQueueDelay.
  assert (Href : forall r avg, 0 <= r -> exists d q',
    Ok (if r <? qb_queue_time q then qb_queue_time q - r else 0,
        mkBasic (wrap64 (Z.max (qb_queue_time q) r + p)) avg
          (updateQueueUtilizationCounters r p (if r <? qb_queue_time q then qb_queue_time q - r else 0) (qb_counters q)))
    = Ok (d, q') /\ is_word 64 d /\ is_word 64 (@qb_queue_time Average q')).
  { intros r avg Hr. eexists _, _. split; [reflexivity|]. unfold is_word in *. split; [case_match; bool_facts; lia|].
    by apply wrap_word. }
  destruct (qb_moving_average q) as [a|].
  - pose proof (average_pos a t ltac:(lia)). destruct (average_compute a t) as [r a']. by apply Href.
  - apply Href. lia.
Qed.

(** The basic model serves any number of requests. *)
Definition basic_laws : @QueueLaws _ basic_ops :=
  @Build_QueueLaws _ basic_ops (fun _ q => is_word 64 (qb_queue_time q)) (fun _ _ _ Hq _ => Hq) basic_serves.
End basic_instance.

(** The initial state, and a state with a gap. *)
Definition no_wait : QueueModelMG1 -> Z := fun _ => 0.
Lemma no_wait_word m : is_word 64 (no_wait m).
Proof. unfold no_wait, is_word. lia. Qed.
Definition list_new (interleaving : bool) : QueueModelHistoryList :=
  QueueModelHistoryList_new 1 100 false interleaving.

Lemma list_new_ok interleaving : hl_ok (2 ^ 62) (list_new interleaving).
Proof. apply QueueModelHistoryList_new_ok; lia. Qed.

Lemma HistoryList_earliest_slot_witness :
  exists d q', hl_computeQueueDelay no_wait (list_new false) 10 5 = Ok (d, q') /\ 0 <= d.
Proof.
  destruct (HistoryList_earliest_slot no_wait no_wait_word (2 ^ 62) (list_new false) 10 5 eq_refl (list_new_ok false)
    ltac:(unfold MAX_TIME; lia) ltac:(lia) ltac:(vm_compute; reflexivity)) as (d & q' & E & Hd & _).
  exists d, q'. split; [exact E|exact Hd].
Defined.

Lemma HistoryList_serves_one_at_a_time_witness :
  exists slots q', hl_run no_wait (list_new false) [(10, 5); (0, 12); (3, 4)] = Ok (slots, q') /\
    ForallOrdPairs apart slots.
Proof.
  destruct (HistoryList_serves_one_at_a_time no_wait no_wait_word (2 ^ 62) (list_new false)
    [(10, 5); (0, 12); (3, 4)] eq_refl (list_new_ok false) ltac:(unfold MAX_TIME; repeat constructor; simpl; lia)
    ltac:(vm_compute; discriminate)) as (slots & q' & E & _ & Hap).
  exists slots, q'. split; [exact E|exact Hap].
Defined.

(** ** Interleaving *)

(** Intervals that end before the packet arrives are passed over. *)
Lemma history_loop_past min lo inter before l1 l2 t p d :
  1 <= min -> ordered min lo l1 -> -1 <= lo -> (forall j, j ∈ l1 -> j.2 <= t) -> 0 <= t -> 0 < p -> t + p < 2 ^ 64 ->
  history_loop min inter before (l1 ++ l2) t p d = history_loop min inter (before ++ l1) l2 t p d.
Proof.
  intros Hmin Hl Hlo Hpast Ht Hp Htp. revert lo before Hl Hlo.
  induction l1 as [|[a b] l1 IH]; intros lo before Hl Hlo; [by rewrite app_nil_r|].
  destruct Hl as (Ha & Hab & Hb & Hl). pose proof (Hpast (a, b) ltac:(left)) as Hbt. simpl in Hbt.
  cbn [history_loop app]. rewrite (wrap_id 64 (t + p)) by (unfold is_word; lia).
  rewrite (proj2 (Z.leb_gt (t + p) b)), (proj2 (Z.ltb_ge t a)), (proj2 (Z.ltb_ge t b)) by lia.
  rewrite !andb_false_r. cbn [andb]. rewrite (IH (fun j Hj => Hpast j (list_elem_of_further _ _ _ Hj)) b) by (done || lia).
  by rewrite <- app_assoc.
Qed.

(** A packet that begins in an interval that is too short for it, and fits into
    the next one. *)
Lemma history_loop_split min before a b c e l2 t p d :
  0 <= a -> a <= t < b -> b < t + p -> b < c -> c + p <= e -> e <= UINT64_MAX -> 0 <= d < 2 ^ 63 -> c <= 2 ^ 62 ->
  0 < p <= 2 ^ 62 ->
  history_loop min true before ((a, b) :: (c, e) :: l2) t p d =
  match before ++ keep_if min a t with
  | [] => Err OutOfRange
  | before' => Ok (d + (c - b), before' ++ keep_if min (c + p) e ++ l2)
  end.
Proof.
  intros Ha Hat Hb Hbc Hce He Hd Hc Hp. unfold UINT64_MAX in He. cbn [history_loop].
  rewrite !(wrap_id 64 (t + p)), !(wrap_id 64 (a + p)) by (unfold is_word; lia).
  rewrite (proj2 (Z.leb_le a t)), (proj2 (Z.leb_gt (t + p) b)), (proj2 (Z.ltb_ge t a)), (proj2 (Z.ltb_lt t b)) by lia.
  cbn [andb]. destruct (before ++ keep_if min a t) as [|i before']; [done|].
  replace (p - (b - b)) with p by lia. rewrite (wrap_id 64 p), !(wrap_id 64 (b + p)), !(wrap_id 64 (c + p)) by (unfold is_word; lia).
  rewrite (proj2 (Z.leb_gt c b)), (proj2 (Z.ltb_lt b c)), (proj2 (Z.leb_le (c + p) e)) by lia. cbn [andb].
  by rewrite (wrap_id 64 (d + (c - b))) by (unfold is_word; lia).
Qed.

(** C30: with interleaving a split packet books more time than it needs.  When
    a packet of [p] cycles arrives at [t] in a free interval [a, b) that is too
    short for it, and the next free interval [c, e) is long enough, the list
    withdraws the rest of the first interval, from [t] to [b], and then the
    whole [p] cycles again from [c] on: the processing time is not reduced by
    the time already used.  The delay it answers is [c - b] only.  And when the
    packet arrives in the first interval of the list and less than
    [min_processing_time] after its begin, the iterator of the loop is moved
    before the beginning of the list, which is undefined behaviour. *)
Theorem HistoryList_interleaving_overbooks waiting n q t p l1 a b c e l2 :
  hl_interleaving_enabled q = true -> hl_ok n q -> 0 <= t <= MAX_TIME -> 0 < p <= n ->
  hl_free q = l1 ++ (a, b) :: (c, e) :: l2 -> a <= t < b -> b < t + p -> c <= 2 ^ 62 -> c + p <= e ->
  served_by_list q t p = true ->
  if decide (l1 = [] /\ t - a < hl_min_processing_time q)
  then hl_computeQueueDelay waiting q t p = Err OutOfRange
  else exists q', hl_computeQueueDelay waiting q t p = Ok (c - b, q') /\
    forall x, t <= x < b \/ c <= x < c + p -> free (hl_free q) x /\ ~ free (hl_free q') x.
Proof.
  intros Hint Hok Ht Hp Efree Hat Hbt Hc62 Hce Hserved.
  destruct Hok as [Hn Hmin Hsize Hord _]. assert (Hm1 : 1 <= hl_min_processing_time q) by lia.
  rewrite Efree in Hord. pose proof (ordered_app _ Hm1 (-1) l1 ((a, b) :: (c, e) :: l2)) as [Happ _].
  destruct (Happ Hord) as (H1 & (Ha & Hab & Hb & Hbc & Hcm & He & H2) & Hsep). unfold MAX_TIME, UINT64_MAX in *.
  set (min := hl_min_processing_time q) in *.
  assert (Hloop : history_loop min true [] (hl_free q) t p 0 =
    match l1 ++ keep_if min a t with
    | [] => Err OutOfRange
    | before' => Ok (c - b, before' ++ keep_if min (c + p) e ++ l2)
    end).
  { rewrite Efree, (history_loop_past min (-1)); try done; try lia.
    - rewrite (history_loop_split min (app [] l1)) by (unfold UINT64_MAX; lia). done.
    - intros j Hj. specialize (Hsep j (a, b) Hj ltac:(left)). simpl in Hsep. lia. }
  assert (Hkeep : keep_if min a t = keep min a t).
  { apply keep_if_keep; unfold UINT64_MAX; lia. }
  assert (Hkeep' : keep_if min (c + p) e = keep min (c + p) e).
  { apply keep_if_keep; unfold UINT64_MAX; lia. }
  rewrite Hkeep, Hkeep' in Hloop.
  unfold hl_computeQueueDelay. unfold served_by_list in Hserved.
  assert (Hne : exists i l, hl_free q = i :: l) by (rewrite Efree; destruct l1; eauto).
  destruct Hne as (i & l & El). rewrite El in Hserved |- *. apply negb_true_iff in Hserved. rewrite Hserved.
  unfold computeUsingHistoryList. rewrite (proj2 (Z.leb_le _ _) Hsize), Hint. cbn [log_assert assert_c mbind result_bind].
  fold min. rewrite Hloop. clear Hloop. case_decide as Hcase.
  - destruct Hcase as [-> Hlt]. unfold keep. rewrite decide_False by lia. done.
  - destruct (l1 ++ keep min a t) as [|k ks] eqn:Ek.
    { exfalso. apply Hcase. apply app_eq_nil in Ek as [-> Ek]. split; [done|]. unfold keep in Ek.
      case_decide; [done|lia]. }
    rewrite <- Ek. cbn [mbind result_bind]. eexists. split; [reflexivity|]. cbn [hl_free].
    intros x Hx. split.
    + rewrite <- El, Efree, free_app, !free_cons. simpl. lia.
    + intros Hfree%free_pruned. revert Hfree. rewrite !free_app. intros [[(j & Hj & Hjx)|Hf]|[Hf|(j & Hj & Hjx)]].
      * specialize (Hsep j (a, b) Hj ltac:(left)). simpl in Hsep. lia.
      * destruct Hf as (j & [-> ?]%elem_keep & Hjx). simpl in Hjx. lia.
      * destruct Hf as (j & [-> ?]%elem_keep & Hjx). simpl in Hjx. lia.
      * apply (ordered_above _ Hm1 e l2 j H2) in Hj. lia.
Qed.

(** The port is busy from 10 to 20 and a packet of 10 cycles arrives at 5: it
    takes the cycles from 5 to 10 and from 20 to 30.  On the list that is busy
    from 0 to 10 and from 12 to 17, one of 5 cycles that arrives at 10 moves
    the iterator before the beginning. *)
Definition list_busy : QueueModelHistoryList :=
  match hl_run no_wait (list_new true) [(10, 10)] with Ok r => r.2 | Err _ => list_new true end.
Definition list_split : QueueModelHistoryList :=
  match hl_run no_wait (list_new true) [(0, 10); (12, 5)] with Ok r => r.2 | Err _ => list_new true end.

Lemma list_state_ok q l : q = mkHL 1 100 false true l (hl_mg1 q) (hl_analytical_requests q) (hl_counters q) ->
  ordered 1 (-1) l -> Z.of_nat (length l) <= 100 -> (exists s, open_from s l /\ s + 2 ^ 60 <= 2 ^ 63) ->
  hl_ok (2 ^ 60) q.
Proof. intros -> ? ? ?. by split. Qed.

Lemma HistoryList_interleaving_witness :
  (exists q', hl_computeQueueDelay no_wait list_busy 5 10 = Ok (10, q') /\
     (free (hl_free list_busy) 7 /\ ~ free (hl_free q') 7) /\ (free (hl_free list_busy) 29 /\ ~ free (hl_free q') 29)) /\
  hl_computeQueueDelay no_wait list_split 10 5 = Err OutOfRange.
Proof.
  assert (H1 : hl_ok (2 ^ 60) list_busy).
  { apply (list_state_ok _ [(0, 10); (20, UINT64_MAX)]); [vm_compute; reflexivity|vm_compute; repeat split; congruence|
      vm_compute; congruence|]. exists 20. split; [by exists [(0, 10)]|lia]. }
  assert (H2 : hl_ok (2 ^ 60) list_split).
  { apply (list_state_ok _ [(10, 12); (17, UINT64_MAX)]); [vm_compute; reflexivity|vm_compute; repeat split; congruence|
      vm_compute; congruence|]. exists 17. split; [by exists [(10, 12)]|lia]. }
  split.
  - pose proof (HistoryList_interleaving_overbooks no_wait (2 ^ 60) list_busy 5 10 [] 0 10 20 UINT64_MAX []
      ltac:(vm_compute; reflexivity) H1 ltac:(unfold MAX_TIME; lia) ltac:(lia) ltac:(vm_compute; reflexivity)
      ltac:(lia) ltac:(lia) ltac:(lia) ltac:(unfold UINT64_MAX; lia) ltac:(vm_compute; reflexivity)) as Hr.
    rewrite decide_False in Hr by (vm_compute; intros [_ H]; discriminate H).
    destruct Hr as (q' & E & Hx). exists q'. split; [exact E|]. split; apply Hx; lia.
  - pose proof (HistoryList_interleaving_overbooks no_wait (2 ^ 60) list_split 10 5 [] 10 12 17 UINT64_MAX []
      ltac:(vm_compute; reflexivity) H2 ltac:(unfold MAX_TIME; lia) ltac:(lia) ltac:(vm_compute; reflexivity)
      ltac:(lia) ltac:(lia) ltac:(lia) ltac:(unfold UINT64_MAX; lia) ltac:(vm_compute; reflexivity)) as Hr.
    rewrite decide_True in Hr by (split; vm_compute; reflexivity). exact Hr.
Defined.
