(* ===== verification/IntervalTree.v ===== *)
(** * The interval tree: common/misc/interval_tree.{h,cc}

    An AVL tree of intervals over blocks of memory that belong to the client
    (queue_model_history_tree).  The nodes are shared and changed through
    pointers, so the store is explicit: a pointer is [None] (NULL) or the
    index of a block, every assignment to a member is a write to the block.

    The recursive routines follow child or parent pointers; their fuel is one
    more than the number of blocks, which [IntervalTreeThm] shows to be enough. *)

From S2P Require Import Prelude QueueModel.

Abbreviation Ptr := (option Z).

Record Node : Type := mkNode {
  n_parent : Ptr;
  n_left : Ptr;
  n_right : Ptr;
  n_height : Z;
  n_key : Z;
  n_interval : Interval }.

Definition Node_new : Node := mkNode None None None 0 0 (0, 0).
Definition Node_initialize (interval : Interval) : Node := mkNode None None None 1 interval.1 interval.

Definition set_parent (p : Ptr) (n : Node) : Node :=
  mkNode p (n_left n) (n_right n) (n_height n) (n_key n) (n_interval n).
Definition set_left (p : Ptr) (n : Node) : Node :=
  mkNode (n_parent n) p (n_right n) (n_height n) (n_key n) (n_interval n).
Definition set_right (p : Ptr) (n : Node) : Node :=
  mkNode (n_parent n) (n_left n) p (n_height n) (n_key n) (n_interval n).
Definition set_height (h : Z) (n : Node) : Node :=
  mkNode (n_parent n) (n_left n) (n_right n) h (n_key n) (n_interval n).
(** [node->key = ...; node->interval = ...] *)
Definition set_data (key : Z) (interval : Interval) (n : Node) : Node :=
  mkNode (n_parent n) (n_left n) (n_right n) (n_height n) key interval.

Record IntervalTree : Type := mkTree {
  t_memory : gmap Z Node;
  t_root : Ptr;
  t_size : Z }.

Definition IntervalTree_new (memory : gmap Z Node) (root_tree : Ptr) : IntervalTree :=
  mkTree memory root_tree 1.

Definition set_memory (f : gmap Z Node -> gmap Z Node) (t : IntervalTree) : IntervalTree :=
  mkTree (f (t_memory t)) (t_root t) (t_size t).
Definition set_root (p : Ptr) (t : IntervalTree) : IntervalTree := mkTree (t_memory t) p (t_size t).
Definition set_tree_size (n : Z) (t : IntervalTree) : IntervalTree := mkTree (t_memory t) (t_root t) n.

(** ** Pointers *)

Definition deref_node (p : Ptr) : ST IntervalTree Node := fun t =>
  match p with
  | None => Err NullDeref
  | Some b => match t_memory t !! b with Some n => Ok (n, t) | None => Err OutOfRange end
  end.

Definition write_node (p : Ptr) (f : Node -> Node) : ST IntervalTree unit :=
  _ ← deref_node p;
  match p with Some b => modify (set_memory (alter f b)) | None => mret tt end.

Definition tree_fuel (t : IntervalTree) : nat := S (size (t_memory t)).

(** ** Links and heights *)

Inductive RotationDirection : Type := CLOCKWISE | ANTI_CLOCKWISE.
Inductive ChildDirection : Type := INVALID_CHILD | LEFT_CHILD | RIGHT_CHILD.

Definition updateChildPointer (node child_node : Ptr) (child_direction : ChildDirection) :
    ST IntervalTree unit :=
  match node with
  | None => mret tt
  | Some _ =>
    match child_direction with
    | INVALID_CHILD =>
      _ ← lift (assert_c (bool_decide (is_Some child_node)));
      n ← deref_node node;
      c ← deref_node child_node;
      if n_key n <? n_key c then write_node node (set_right child_node)
      else write_node node (set_left child_node)
    | LEFT_CHILD => write_node node (set_left child_node)
    | RIGHT_CHILD => write_node node (set_right child_node)
    end
  end.

Definition updateParentPointer (node parent_node : Ptr) : ST IntervalTree unit :=
  _ ← match node with Some _ => write_node node (set_parent parent_node) | None => mret tt end;
  match parent_node with None => modify (set_root node) | Some _ => mret tt end.

Definition getHeight (root_subtree : Ptr) : ST IntervalTree Z :=
  match root_subtree with
  | Some _ => n ← deref_node root_subtree; mret (n_height n)
  | None => mret 0
  end.

Definition heightBalanced (node : Ptr) : ST IntervalTree bool :=
  _ ← lift (assert_c (bool_decide (is_Some node)));
  n ← deref_node node;
  hl ← getHeight (n_left n);
  hr ← getHeight (n_right n);
  mret (Z.abs (hl - hr) <=? 1).

Definition updateHeight (node : Ptr) : ST IntervalTree unit :=
  _ ← lift (assert_c (bool_decide (is_Some node)));
  n ← deref_node node;
  hl ← getHeight (n_left n);
  hr ← getHeight (n_right n);
  write_node node (set_height (Z.max hl hr + 1)).

Definition performRotation (y : Ptr) (rotation_direction : RotationDirection) : ST IntervalTree unit :=
  yn ← deref_node y;
  let x := match rotation_direction with CLOCKWISE => n_left yn | ANTI_CLOCKWISE => n_right yn end in
  _ ← updateParentPointer x (n_parent yn);
  xn ← deref_node x;
  _ ← updateChildPointer (n_parent xn) x INVALID_CHILD;
  _ ← match rotation_direction with
      | CLOCKWISE =>
        xn ← deref_node x;
        _ ← write_node y (set_left (n_right xn));
        yn ← deref_node y;
        _ ← updateParentPointer (n_left yn) y;
        write_node x (set_right y)
      | ANTI_CLOCKWISE =>
        xn ← deref_node x;
        _ ← write_node y (set_right (n_left xn));
        yn ← deref_node y;
        _ ← updateParentPointer (n_right yn) y;
        write_node x (set_left y)
      end;
  _ ← updateParentPointer y x;
  _ ← updateHeight y;
  updateHeight x.

(** The taller child of a node, [tie] when both have one height. *)
Definition taller_child (n : Node) (tie : ChildDirection) : ST IntervalTree (Ptr * ChildDirection) :=
  hl ← getHeight (n_left n);
  hr ← getHeight (n_right n);
  mret (if hr <? hl then (n_left n, LEFT_CHILD)
        else if hl <? hr then (n_right n, RIGHT_CHILD)
        else match tie with LEFT_CHILD => (n_left n, LEFT_CHILD) | _ => (n_right n, RIGHT_CHILD) end).

Definition balanceHeight (root_subtree : Ptr) : ST IntervalTree Ptr :=
  let z := root_subtree in
  zn ← deref_node z;
  hl ← getHeight (n_left zn);
  hr ← getHeight (n_right zn);
  _ ← lift (assert_c (negb (hl =? hr)));
  '(y, y_direction) ← taller_child zn RIGHT_CHILD;
  _ ← lift (assert_c (bool_decide (is_Some y)));
  yn ← deref_node y;
  '(x, x_direction) ← taller_child yn y_direction;
  _ ← lift (assert_c (bool_decide (is_Some x)));
  match y_direction, x_direction with
  | LEFT_CHILD, RIGHT_CHILD =>
    _ ← performRotation y ANTI_CLOCKWISE; _ ← performRotation z CLOCKWISE; mret x
  | LEFT_CHILD, _ => _ ← performRotation z CLOCKWISE; mret y
  | _, LEFT_CHILD =>
    _ ← performRotation y CLOCKWISE; _ ← performRotation z ANTI_CLOCKWISE; mret x
  | _, _ => _ ← performRotation z ANTI_CLOCKWISE; mret y
  end.

Fixpoint rebalance_loop (fuel : nat) (root_subtree : Ptr) : ST IntervalTree unit :=
  match root_subtree with
  | None => mret tt
  | Some _ =>
    match fuel with
    | O => stop OutOfFuel
    | S fuel' =>
      old ← deref_node root_subtree;
      balanced ← heightBalanced root_subtree;
      new_root_subtree ←
        (if negb balanced then balanceHeight root_subtree
         else _ ← updateHeight root_subtree; mret root_subtree);
      balanced' ← heightBalanced new_root_subtree;
      _ ← lift (log_assert balanced');
      new ← deref_node new_root_subtree;
      if negb (n_height new =? n_height old) then rebalance_loop fuel' (n_parent new) else mret tt
    end
  end.

Definition rebalanceAVLTree (root_subtree : Ptr) : ST IntervalTree unit :=
  fuel ← gets tree_fuel; rebalance_loop fuel root_subtree.

(** ** Insertion *)

Fixpoint insert_loop (fuel : nat) (node root_subtree : Ptr) : ST IntervalTree unit :=
  match fuel with
  | O => stop OutOfFuel
  | S fuel' =>
    n ← deref_node node;
    r ← deref_node root_subtree;
    if n_key n <? n_key r then
      match n_left r with
      | Some _ => insert_loop fuel' node (n_left r)
      | None =>
        _ ← write_node root_subtree (set_left node);
        _ ← write_node node (set_parent root_subtree);
        rebalanceAVLTree root_subtree
      end
    else if n_key r <? n_key n then
      match n_right r with
      | Some _ => insert_loop fuel' node (n_right r)
      | None =>
        _ ← write_node root_subtree (set_right node);
        _ ← write_node node (set_parent root_subtree);
        rebalanceAVLTree root_subtree
      end
    else stop LogError
  end.

Definition insertInTree (node root_subtree : Ptr) : ST IntervalTree unit :=
  fuel ← gets tree_fuel; insert_loop fuel node root_subtree.

Definition IntervalTree_insert (node : Ptr) : ST IntervalTree unit :=
  _ ← modify (fun t => set_tree_size (wrap32 (t_size t + 1)) t);
  root ← gets t_root;
  insertInTree node root.

(** ** Removal *)

Definition swap_nodes (node1 node2 : Ptr) : ST IntervalTree unit :=
  temp_node ← deref_node node1;
  n2 ← deref_node node2;
  _ ← write_node node1 (set_data (n_key n2) (n_interval n2));
  write_node node2 (set_data (n_key temp_node) (n_interval temp_node)).

Fixpoint min_loop (fuel : nat) (root_subtree : Ptr) : ST IntervalTree Ptr :=
  match fuel with
  | O => stop OutOfFuel
  | S fuel' =>
    n ← deref_node root_subtree;
    match n_left n with
    | Some _ => min_loop fuel' (n_left n)
    | None => mret root_subtree
    end
  end.

Definition findMinKeyNode (root_subtree : Ptr) : ST IntervalTree Ptr :=
  fuel ← gets tree_fuel; min_loop fuel root_subtree.

(** The successor of a node with two children has no left child: two levels
    of the recursion are enough. *)
Fixpoint remove_loop (fuel : nat) (node : Ptr) : ST IntervalTree Ptr :=
  match fuel with
  | O => stop OutOfFuel
  | S fuel' =>
    n ← deref_node node;
    match n_left n, n_right n with
    | None, _ =>
      _ ← match n_parent n with
          | Some _ =>
            p ← deref_node (n_parent n);
            updateChildPointer (n_parent n) (n_right n)
              (if n_key p <? n_key n then RIGHT_CHILD else LEFT_CHILD)
          | None => mret tt
          end;
      _ ← updateParentPointer (n_right n) (n_parent n);
      n ← deref_node node;
      _ ← rebalanceAVLTree (n_parent n);
      mret node
    | Some _, None =>
      _ ← updateChildPointer (n_parent n) (n_left n) INVALID_CHILD;
      _ ← updateParentPointer (n_left n) (n_parent n);
      n ← deref_node node;
      _ ← rebalanceAVLTree (n_parent n);
      mret node
    | Some _, Some _ =>
      successor_node ← findMinKeyNode (n_right n);
      removed_node ← remove_loop fuel' successor_node;
      _ ← lift (assert_c (bool_decide (removed_node = successor_node)));
      _ ← swap_nodes node successor_node;
      mret successor_node
    end
  end.

Definition removeFromTree (node : Ptr) : ST IntervalTree Ptr := remove_loop 2 node.

Definition IntervalTree_remove (node : Ptr) : ST IntervalTree Ptr :=
  _ ← modify (fun t => set_tree_size (wrap32 (t_size t - 1)) t);
  removeFromTree node.

(** ** Search *)

Fixpoint search_loop (fuel : nat) (interval : Interval) (root_subtree : Ptr) : ST IntervalTree Ptr :=
  match root_subtree with
  | None => mret None
  | Some _ =>
    match fuel with
    | O => stop OutOfFuel
    | S fuel' =>
      n ← deref_node root_subtree;
      let '(a, b) := n_interval n in
      if (a <=? interval.1) && (interval.2 <=? b) then mret root_subtree
      else
        found_node ← (if interval.2 <? a then search_loop fuel' interval (n_left n) else mret None);
        match found_node with
        | Some _ => mret found_node
        | None =>
          if (interval.1 <? a) && (wrap64 (interval.2 - interval.1) <=? wrap64 (b - a)) then mret root_subtree
          else search_loop fuel' interval (n_right n)
        end
    end
  end.

Definition searchTree (interval : Interval) (root_subtree : Ptr) : ST IntervalTree Ptr :=
  fuel ← gets tree_fuel; search_loop fuel interval root_subtree.

Definition IntervalTree_search (interval : Interval) : ST IntervalTree Ptr :=
  root ← gets t_root; searchTree interval root.
