(* ===== verification/TreeShape.v ===== *)
(** * The interval tree is a balanced search tree

    The blocks that can be reached from the root form a binary tree whose
    parent pointers are right, whose keys increase from left to right and whose
    nodes are balanced.  The tree is described by an inductive [tree] and a
    position in it by the subtree below and the path above ([frame]s).  Each
    routine is shown to finish without a failed assertion, and to change the
    list of intervals from left to right the way its name says. *)

From stdpp Require Import sorting.
From S2P Require Import Prelude QueueModel QueueThm IntervalTree.

(** ** Trees and positions *)

(** A node: its block and its interval; then the height that is stored. *)
Abbreviation Item := (Z * Interval)%type.
Inductive tree : Type :=
  | Leaf
  | Br (l : tree) (i : Item) (h : Z) (r : tree).

#[export] Instance tree_eq_dec : EqDecision tree.
Proof. solve_decision. Defined.

Inductive frame : Type :=
  | InLeft (i : Item) (h : Z) (r : tree)
  | InRight (l : tree) (i : Item) (h : Z).

Fixpoint items (t : tree) : list Item :=
  match t with Leaf => [] | Br l i _ r => items l ++ i :: items r end.
Fixpoint items_before (k : list frame) : list Item :=
  match k with
  | [] => []
  | InLeft _ _ _ :: k' => items_before k'
  | InRight l i _ :: k' => items_before k' ++ items l ++ [i]
  end.
Fixpoint items_after (k : list frame) : list Item :=
  match k with
  | [] => []
  | InLeft i _ r :: k' => i :: items r ++ items_after k'
  | InRight _ _ _ :: k' => items_after k'
  end.

Fixpoint fill (t : tree) (k : list frame) : tree :=
  match k with
  | [] => t
  | InLeft i h r :: k' => fill (Br t i h r) k'
  | InRight l i h :: k' => fill (Br l i h t) k'
  end.

Lemma items_fill t k : items (fill t k) = items_before k ++ items t ++ items_after k.
Proof.
  revert t. induction k as [|[i h r|l i h] k IH]; intros t; simpl; [by rewrite app_nil_r| |];
    rewrite IH; simpl; by rewrite <- !(assoc_L app).
Qed.

Definition blocks (l : list Item) : list Z := l.*1.
Definition intervals (t : tree) : list Interval := (items t).*2.
Definition key (i : Item) : Z := i.2.1.

Definition root_ptr (t : tree) : Ptr := match t with Leaf => None | Br _ i _ _ => Some i.1 end.
Definition parent_ptr (k : list frame) : Ptr :=
  match k with
  | [] => None
  | InLeft i _ _ :: _ => Some i.1
  | InRight _ i _ :: _ => Some i.1
  end.

(** The blocks, in no particular order. *)
Definition tree_blocks (t : tree) : list Z := blocks (items t).
Definition path_blocks (k : list frame) : list Z := blocks (items_before k) ++ blocks (items_after k).

Lemma tree_blocks_br l i h r : tree_blocks (Br l i h r) ≡ₚ i.1 :: tree_blocks l ++ tree_blocks r.
Proof. unfold tree_blocks, blocks. simpl. rewrite fmap_app. simpl. by rewrite Permutation_middle. Qed.
Lemma path_blocks_left i h r k : path_blocks (InLeft i h r :: k) ≡ₚ i.1 :: tree_blocks r ++ path_blocks k.
Proof. unfold path_blocks, tree_blocks, blocks. simpl. rewrite fmap_app. solve_Permutation. Qed.
Lemma path_blocks_right l i h k : path_blocks (InRight l i h :: k) ≡ₚ i.1 :: tree_blocks l ++ path_blocks k.
Proof. unfold path_blocks, tree_blocks, blocks. simpl. rewrite !fmap_app. simpl. solve_Permutation. Qed.
Lemma blocks_fill t k : tree_blocks (fill t k) ≡ₚ tree_blocks t ++ path_blocks k.
Proof.
  unfold tree_blocks, path_blocks, blocks. rewrite items_fill, !fmap_app. solve_Permutation.
Qed.

Lemma all_cons (P : Z -> Prop) x l : (forall y, y ∈ x :: l -> P y) <-> P x /\ forall y, y ∈ l -> P y.
Proof. set_solver. Qed.
Lemma all_app (P : Z -> Prop) l1 l2 :
  (forall y, y ∈ l1 ++ l2 -> P y) <-> (forall y, y ∈ l1 -> P y) /\ (forall y, y ∈ l2 -> P y).
Proof. set_solver. Qed.

Lemma all_not_cons (x : Z) (l l' : list Z) :
  (forall y, y ∈ l -> y ∉ (x :: l')) <-> (x ∉ l) /\ forall y, y ∈ l -> y ∉ l'.
Proof. set_solver. Qed.
Lemma all_not_app (l l1 l2 : list Z) :
  (forall y, y ∈ l -> y ∉ (l1 ++ l2)) <-> (forall y, y ∈ l -> y ∉ l1) /\ (forall y, y ∈ l -> y ∉ l2).
Proof. set_solver. Qed.

(** Turns [NoDup] of the blocks of a position into inequalities. *)
Ltac nodup_facts H :=
  let F := fresh "F" in pose proof H as F;
  rewrite ?blocks_fill, ?tree_blocks_br, ?path_blocks_left, ?path_blocks_right in F;
  repeat progress (rewrite ?NoDup_cons, ?NoDup_app, ?not_elem_of_cons, ?not_elem_of_app, ?all_cons, ?all_app,
    ?all_not_cons, ?all_not_app in F);
  destruct_and? F.

(** Uses these facts: a block is not [c], or not among the blocks [l]. *)
Ltac elsewhere :=
  solve
    [ assumption
    | congruence
    | by intros ->
    | progress (rewrite ?tree_blocks_br, ?path_blocks_left, ?path_blocks_right, ?not_elem_of_cons, ?not_elem_of_app);
      repeat split; elsewhere
    | match goal with F : forall y, y ∈ _ -> y ∉ ?l |- _ ∉ ?l => by apply F end
    | let Hin := fresh in intros Hin;
      match goal with F : forall y, y ∈ _ -> y ∉ _ |- _ => by apply (F _ Hin) end ].

(** ** The tree in memory *)

Section memory.
Implicit Types m : gmap Z Node.

Definition node_of (par : Ptr) (l : tree) (i : Item) (h : Z) (r : tree) : Node :=
  mkNode par (root_ptr l) (root_ptr r) h (key i) i.2.

Fixpoint in_memory m (par : Ptr) (t : tree) : Prop :=
  match t with
  | Leaf => True
  | Br l i h r =>
    m !! i.1 = Some (node_of par l i h r) /\ in_memory m (Some i.1) l /\ in_memory m (Some i.1) r
  end.

(** The path above a position whose subtree is at [p]. *)
Fixpoint path_in_memory m (root p : Ptr) (k : list frame) : Prop :=
  match k with
  | [] => root = p
  | InLeft i h r :: k' =>
    m !! i.1 = Some (mkNode (parent_ptr k') p (root_ptr r) h (key i) i.2) /\
    in_memory m (Some i.1) r /\ path_in_memory m root (Some i.1) k'
  | InRight l i h :: k' =>
    m !! i.1 = Some (mkNode (parent_ptr k') (root_ptr l) p h (key i) i.2) /\
    in_memory m (Some i.1) l /\ path_in_memory m root (Some i.1) k'
  end.

Definition at_position m (root : Ptr) (t : tree) (k : list frame) : Prop :=
  in_memory m (parent_ptr k) t /\ path_in_memory m root (root_ptr t) k.

Lemma at_fill m root t k : at_position m root (fill t k) [] <-> at_position m root t k.
Proof.
  revert t. induction k as [|[i h r|l i h] k IH]; intros t; [done| |].
  all: simpl; rewrite IH; unfold at_position; simpl; unfold node_of; tauto.
Qed.

(** Writes elsewhere. *)
Lemma in_memory_ext m m' par t :
  (forall b, b ∈ tree_blocks t -> m' !! b = m !! b) -> in_memory m par t -> in_memory m' par t.
Proof.
  revert par. induction t as [|l IHl i h r IHr]; intros par Hm; [done|]. simpl.
  setoid_rewrite tree_blocks_br in Hm. intros (Hi & Hl & Hr).
  rewrite Hm by set_solver. split; [done|]. split; [apply IHl|apply IHr]; try done; set_solver.
Qed.

Lemma path_in_memory_ext m m' root p k :
  (forall b, b ∈ path_blocks k -> m' !! b = m !! b) -> path_in_memory m root p k -> path_in_memory m' root p k.
Proof.
  revert p. induction k as [|[i h r|l i h] k IH]; intros p Hm; simpl; [done| |].
  all: setoid_rewrite path_blocks_left in Hm || setoid_rewrite path_blocks_right in Hm.
  all: intros (Hi & Ht & Hk); rewrite Hm by set_solver; split; [done|]; split; [|apply IH; [set_solver|done]].
  all: eapply in_memory_ext; [|done]; set_solver.
Qed.

Lemma in_memory_alter m par t f b : b ∉ tree_blocks t -> in_memory m par t -> in_memory (alter f b m) par t.
Proof. intros Hb. apply in_memory_ext. intros b' Hb'. apply lookup_alter_ne. by intros ->. Qed.
Lemma path_in_memory_alter m root p k f b :
  b ∉ path_blocks k -> path_in_memory m root p k -> path_in_memory (alter f b m) root p k.
Proof. intros Hb. apply path_in_memory_ext. intros b' Hb'. apply lookup_alter_ne. by intros ->. Qed.

(** The root of a tree gets another parent. *)
Definition reparent (p par : Ptr) m : gmap Z Node :=
  match p with Some b => alter (set_parent par) b m | None => m end.

Lemma in_memory_reparent m par par' t :
  NoDup (tree_blocks t) -> in_memory m par t -> in_memory (reparent (root_ptr t) par' m) par' t.
Proof.
  destruct t as [|l i h r]; simpl; [done|]. intros Hnd (E & Hl & Hr). nodup_facts Hnd.
  rewrite lookup_alter_eq, E. split; [done|]. split; (apply in_memory_alter; [elsewhere|done]).
Qed.

(** The parent of a position gets another child. *)
Definition replace_child (k : list frame) (p : Ptr) m : gmap Z Node :=
  match k with
  | [] => m
  | InLeft i _ _ :: _ => alter (set_left p) i.1 m
  | InRight _ i _ :: _ => alter (set_right p) i.1 m
  end.
Definition root_below (root p : Ptr) (k : list frame) : Ptr :=
  match k with [] => p | _ => root end.

Lemma path_replace_child m root p p' k :
  NoDup (path_blocks k) -> path_in_memory m root p k ->
  path_in_memory (replace_child k p' m) (root_below root p' k) p' k.
Proof.
  destruct k as [|[i h r|l i h] k]; simpl; [done| |]; intros Hnd (Hi & Ht & Hk); nodup_facts Hnd.
  all: rewrite lookup_alter_eq, Hi; split; [done|].
  all: split; [apply in_memory_alter; [elsewhere|done]|apply path_in_memory_alter; [elsewhere|done]].
Qed.

Lemma in_memory_replace_child m par t k p :
  NoDup (tree_blocks t ++ path_blocks k) -> in_memory m par t -> in_memory (replace_child k p m) par t.
Proof.
  destruct k as [|[i h r|l i h] k]; simpl; [done| |]; intros Hnd Ht; nodup_facts Hnd.
  all: apply in_memory_alter; [elsewhere|done].
Qed.
End memory.

Lemma root_ptr_ne t b : b ∉ tree_blocks t -> root_ptr t <> Some b.
Proof. destruct t as [|l i h r]; [done|]. rewrite tree_blocks_br. simpl. intros Hb [= <-]. set_solver. Qed.
Lemma lookup_reparent_ne m p par b : p <> Some b -> reparent p par m !! b = m !! b.
Proof. destruct p as [c|]; simpl; [|done]. intros. apply lookup_alter_ne. by intros ->. Qed.
Lemma lookup_replace_child_ne m k p b : b ∉ path_blocks k -> replace_child k p m !! b = m !! b.
Proof.
  destruct k as [|[i h r|l i h] k]; simpl; [done| |].
  all: rewrite ?path_blocks_left, ?path_blocks_right; intros Hb; apply lookup_alter_ne; set_solver.
Qed.

(** Reads a block through writes to other blocks. *)
Ltac read_block :=
  repeat first
    [ rewrite lookup_alter_eq
    | rewrite lookup_alter_ne by elsewhere
    | rewrite lookup_replace_child_ne by elsewhere
    | rewrite lookup_reparent_ne by (congruence || (apply root_ptr_ne; elsewhere)) ].

(** ** A tree in a state *)

Definition below_key (i j : Item) : Prop := key i < key j.

Record pos_ok (s : IntervalTree) (t : tree) (k : list frame) : Prop := {
  po_tree : in_memory (t_memory s) (parent_ptr k) t;
  po_path : path_in_memory (t_memory s) (t_root s) (root_ptr t) k;
  po_blocks : NoDup (tree_blocks t ++ path_blocks k);
  po_sorted : StronglySorted below_key (items_before k ++ items t ++ items_after k) }.

Definition tree_ok (s : IntervalTree) (t : tree) : Prop := pos_ok s t [].

Lemma pos_fill s t k : tree_ok s (fill t k) <-> pos_ok s t k.
Proof.
  pose proof (at_fill (t_memory s) (t_root s) t k) as Hat. unfold at_position in Hat. split.
  - intros [Ht Hp Hb Hs]. assert (Hfill : in_memory (t_memory s) None (fill t k) /\ t_root s = root_ptr (fill t k)) by done.
    simpl in Hat. apply Hat in Hfill as [? ?]. split; try done.
    + unfold path_blocks in Hb at 1. simpl in Hb. by rewrite app_nil_r, blocks_fill in Hb.
    + simpl in Hs. by rewrite app_nil_r, items_fill in Hs.
  - intros [Ht Hp Hb Hs]. destruct (proj2 Hat (conj Ht Hp)) as [? ?]. split; try done.
    + unfold path_blocks at 1. simpl. by rewrite app_nil_r, blocks_fill.
    + simpl. by rewrite app_nil_r, items_fill.
Qed.

(** From a node to its children and back. *)
Lemma down_left s l i h r k : pos_ok s (Br l i h r) k -> pos_ok s l (InLeft i h r :: k).
Proof. by rewrite <- !pos_fill. Qed.
Lemma down_right s l i h r k : pos_ok s (Br l i h r) k -> pos_ok s r (InRight l i h :: k).
Proof. by rewrite <- !pos_fill. Qed.
Lemma up_left s l i h r k : pos_ok s l (InLeft i h r :: k) -> pos_ok s (Br l i h r) k.
Proof. by rewrite <- !pos_fill. Qed.
Lemma up_right s l i h r k : pos_ok s r (InRight l i h :: k) -> pos_ok s (Br l i h r) k.
Proof. by rewrite <- !pos_fill. Qed.

(** The interval and the key that a block holds, and what the routines that
    only move nodes leave alone: they are for every block the same. *)
Definition data (m : gmap Z Node) (b : Z) : option (Z * Interval) :=
  (fun n => (n_key n, n_interval n)) <$> m !! b.

Lemma data_alter m f b c : (forall n, n_key (f n) = n_key n /\ n_interval (f n) = n_interval n) ->
  data (alter f b m) c = data m c.
Proof.
  intros Hf. unfold data. destruct (decide (b = c)) as [-> |Hne]; [|by rewrite lookup_alter_ne].
  rewrite lookup_alter_eq. destruct (m !! c) as [n|]; [|done]. simpl. by rewrite (proj1 (Hf n)), (proj2 (Hf n)).
Qed.
Lemma data_reparent p par m c : data (reparent p par m) c = data m c.
Proof. destruct p; [by apply data_alter|done]. Qed.
Lemma data_replace_child k p m c : data (replace_child k p m) c = data m c.
Proof. destruct k as [|[]]; [done|by apply data_alter..]. Qed.

Definition kept (s s' : IntervalTree) : Prop :=
  t_size s' = t_size s /\ forall b, data (t_memory s') b = data (t_memory s) b.
#[global] Instance kept_preorder : PreOrder kept.
Proof.
  split; [by split|]. intros s1 s2 s3 [Hn Hd] [Hn' Hd']. split; [congruence|]. intros b. by rewrite Hd', Hd.
Qed.

(** ** The primitive steps *)

Definition stored (t : tree) : Z := match t with Leaf => 0 | Br _ _ h _ => h end.

Lemma deref_run s b n : t_memory s !! b = Some n -> deref_node (Some b) s = Ok (n, s).
Proof. intros E. simpl. by rewrite E. Qed.
Lemma write_run s b n f : t_memory s !! b = Some n ->
  write_node (Some b) f s = Ok (tt, set_memory (alter f b) s).
Proof. intros E. unfold write_node. by rewrite (st_bind_run _ _ _ _ _ (deref_run _ _ _ E)). Qed.

Lemma runs_deref s b n (Q : Node -> IntervalTree -> Prop) :
  t_memory s !! b = Some n -> Q n s -> runs (deref_node (Some b)) s Q.
Proof. intros E HQ. exists n, s. by rewrite (deref_run _ _ _ E). Qed.
Lemma runs_write s b n f (Q : unit -> IntervalTree -> Prop) :
  t_memory s !! b = Some n -> Q tt (set_memory (alter f b) s) -> runs (write_node (Some b) f) s Q.
Proof. intros E HQ. eexists _, _. by rewrite (write_run _ _ _ _ E). Qed.

Lemma runs_getHeight s par t (Q : Z -> IntervalTree -> Prop) :
  in_memory (t_memory s) par t -> Q (stored t) s -> runs (getHeight (root_ptr t)) s Q.
Proof.
  destruct t as [|l i h r]; simpl; intros Ht HQ; [by apply runs_ret|]. destruct Ht as (E & _).
  apply runs_bind. eapply runs_deref; [done|]. by apply runs_ret.
Qed.

Lemma runs_updateParent s p par (Q : unit -> IntervalTree -> Prop) :
  (forall b, p = Some b -> is_Some (t_memory s !! b)) ->
  Q tt (mkTree (reparent p par (t_memory s)) (match par with None => p | Some _ => t_root s end) (t_size s)) ->
  runs (updateParentPointer p par) s Q.
Proof.
  intros Hp HQ. unfold updateParentPointer. apply runs_bind.
  assert (Hroot : forall s', s' = set_memory (reparent p par) s ->
    runs (match par with None => modify (set_root p) | Some _ => mret tt end) s' Q).
  { intros s' ->. destruct par; [by apply runs_ret|by apply runs_modify]. }
  destruct p as [b|]; [|apply runs_ret, Hroot; by destruct s].
  destruct (Hp b eq_refl) as [n E]. eapply runs_write; [done|by apply Hroot].
Qed.

(** The side of its parent that the key of a node points to. *)
Definition on_side (k : list frame) (z : Z) : Prop :=
  match k with
  | [] => True
  | InLeft j _ _ :: _ => z < key j
  | InRight _ j _ :: _ => key j < z
  end.

Lemma runs_updateChild s root q k b n (Q : unit -> IntervalTree -> Prop) :
  path_in_memory (t_memory s) root q k -> t_memory s !! b = Some n ->
  on_side k (n_key n) ->
  Q tt (set_memory (replace_child k (Some b)) s) ->
  runs (updateChildPointer (parent_ptr k) (Some b) INVALID_CHILD) s Q.
Proof.
  intros Hk E Hside HQ. unfold updateChildPointer.
  destruct k as [|[i h r|l i h] k]; cbn [parent_ptr]; [apply runs_ret; by destruct s| |].
  all: destruct Hk as (Ep & _); apply runs_bind, runs_assert; [done|].
  all: apply runs_bind; eapply runs_deref; [done|]; apply runs_bind; eapply runs_deref; [done|].
  all: cbn [on_side n_key] in *.
  - rewrite (proj2 (Z.ltb_ge _ _)) by lia. by eapply runs_write.
  - rewrite (proj2 (Z.ltb_lt _ _)) by lia. by eapply runs_write.
Qed.

(** The keys of a position are on the right sides. *)
Lemma pos_on_side s l i h r k : pos_ok s (Br l i h r) k ->
  on_side k (key i) /\ Forall (fun j => on_side k (key j)) (items l) /\ Forall (fun j => on_side k (key j)) (items r).
Proof.
  intros [_ _ _ Hs]. rewrite !Forall_forall.
  assert (Hside : forall j, j ∈ items (Br l i h r) -> on_side k (key j)).
  { intros j Hj. destruct k as [|[p hp t|t p hp] k]; simpl in *; [done| |].
    - eapply (StronglySorted_app_1_r _ (items_before k)) in Hs.
      apply (StronglySorted_app_1_elem_of _ _ _ j p Hs); [done|left].
    - apply (StronglySorted_app_1_elem_of _ _ _ p j Hs); set_solver. }
  simpl in Hside. split; [apply Hside; set_solver|]. split; intros j Hj; apply Hside; set_solver.
Qed.

(** Changing the stored height of a node. *)
Lemma runs_updateHeight s l i h r k (Q : unit -> IntervalTree -> Prop) :
  pos_ok s (Br l i h r) k ->
  (forall s', pos_ok s' (Br l i (Z.max (stored l) (stored r) + 1) r) k -> kept s s' -> Q tt s') ->
  runs (updateHeight (Some i.1)) s Q.
Proof.
  intros [(E & Hl & Hr) Hk Hnd Hs] HQ. unfold updateHeight. apply runs_bind, runs_assert; [done|].
  apply runs_bind. eapply runs_deref; [done|]. cbn [n_left n_right node_of].
  apply runs_bind. eapply runs_getHeight; [done|]. apply runs_bind. eapply runs_getHeight; [done|].
  eapply runs_write; [done|]. apply HQ; [|split; [done|intros b; by apply data_alter]].
  nodup_facts Hnd. destruct s as [m root n].
  split; simpl in *; [|apply path_in_memory_alter; [elsewhere|done]| |done].
  - rewrite lookup_alter_eq, E. split; [done|]. split; (apply in_memory_alter; [elsewhere|done]).
  - rewrite tree_blocks_br in Hnd |- *. done.
Qed.

(** ** Rotations *)

(** A part of the tree that was not written since the memory [m]. *)
Ltac unchanged m :=
  let b := fresh "b" in let Hb := fresh "Hb" in
  lazymatch goal with
  | |- in_memory _ _ _ => apply (in_memory_ext m)
  | |- path_in_memory _ _ _ _ => apply (path_in_memory_ext m)
  end; [intros b Hb; read_block; reflexivity|].

(** The links after a rotation, before the heights are adjusted. *)
Definition rotate_memory (set_inner set_outer : Ptr -> Node -> Node) (y x : Item) (B : tree) (k : list frame) m :
    gmap Z Node :=
  reparent (Some y.1) (Some x.1) (alter (set_outer (Some y.1)) x.1
    (reparent (root_ptr B) (Some y.1) (alter (set_inner (root_ptr B)) y.1
      (replace_child k (Some x.1) (reparent (Some x.1) (parent_ptr k) m))))).

Section links.
Context (m : gmap Z Node) (root : Ptr) (A B C : tree) (x y : Item) (hx hy : Z) (k : list frame).

Lemma rotate_path f g :
  path_in_memory m root (Some y.1) k -> NoDup (path_blocks k) ->
  x.1 ∉ path_blocks k -> y.1 ∉ path_blocks k -> (forall b, b ∈ tree_blocks B -> b ∉ path_blocks k) ->
  path_in_memory (rotate_memory f g y x B k m) (root_below root (Some x.1) k) (Some x.1) k.
Proof.
  intros Hk Hnd Hx Hy HB. unfold rotate_memory. cbn [reparent].
  unchanged (replace_child k (Some x.1) (alter (set_parent (parent_ptr k)) x.1 m)).
  eapply path_replace_child; [done|]. unchanged m. exact Hk.
Qed.

Lemma rotate_right_links :
  in_memory m (parent_ptr k) (Br (Br A x hx B) y hy C) -> path_in_memory m root (Some y.1) k ->
  NoDup (tree_blocks (Br (Br A x hx B) y hy C) ++ path_blocks k) ->
  let m' := rotate_memory set_left set_right y x B k m in
  in_memory m' (parent_ptr k) (Br A x hx (Br B y hy C)) /\
  path_in_memory m' (root_below root (Some x.1) k) (Some x.1) k.
Proof.
  intros (Ey & (Ex & HA & HB) & HC) Hk Hnd m'. nodup_facts Hnd.
  split; [|by apply rotate_path]. subst m'. unfold rotate_memory.
  cbn [in_memory root_ptr reparent]. split; [|split; [|split; [|split]]].
  - read_block. by rewrite Ex.
  - by unchanged m.
  - read_block. by rewrite Ey.
  - do 2 (apply in_memory_alter; [elsewhere|]). eapply in_memory_reparent; [done|]. by unchanged m.
  - by unchanged m.
Qed.

Lemma rotate_left_links :
  in_memory m (parent_ptr k) (Br A y hy (Br B x hx C)) -> path_in_memory m root (Some y.1) k ->
  NoDup (tree_blocks (Br A y hy (Br B x hx C)) ++ path_blocks k) ->
  let m' := rotate_memory set_right set_left y x B k m in
  in_memory m' (parent_ptr k) (Br (Br A y hy B) x hx C) /\
  path_in_memory m' (root_below root (Some x.1) k) (Some x.1) k.
Proof.
  intros (Ey & HA & (Ex & HB & HC)) Hk Hnd m'. nodup_facts Hnd.
  split; [|by apply rotate_path]. subst m'. unfold rotate_memory.
  cbn [in_memory root_ptr reparent]. split; [|split; [split; [|split]|]].
  - read_block. by rewrite Ex.
  - read_block. by rewrite Ey.
  - by unchanged m.
  - do 2 (apply in_memory_alter; [elsewhere|]). eapply in_memory_reparent; [done|]. by unchanged m.
  - by unchanged m.
Qed.
End links.
Lemma rotate_kept m root root' n f g y x B k :
  (forall p o, n_key (f p o) = n_key o /\ n_interval (f p o) = n_interval o) ->
  (forall p o, n_key (g p o) = n_key o /\ n_interval (g p o) = n_interval o) ->
  kept (mkTree m root n) (mkTree (rotate_memory f g y x B k m) root' n).
Proof.
  intros Hf Hg. split; [done|]. intros b. cbn [t_memory]. unfold rotate_memory.
  by rewrite data_reparent, data_alter, data_reparent, data_alter, data_replace_child, data_reparent.
Qed.
Arguments rotate_memory : simpl never.

(** The assignments of a rotation, up to the heights: [x] is the child that
    moves up, [B] the subtree that changes sides. *)
Section assignments.
Context (m : gmap Z Node) (root : Ptr) (n : Z) (x y : Item) (B : tree) (k : list frame) (ny nx : Node).
Context (Ey : m !! y.1 = Some ny) (Ex : m !! x.1 = Some nx) (Hne : y.1 <> x.1).
Context (Hpar : n_parent ny = parent_ptr k) (HyB : y.1 ∉ tree_blocks B) (HxB : x.1 ∉ tree_blocks B).
Context (Hyk : y.1 ∉ path_blocks k) (Hxk : x.1 ∉ path_blocks k) (Hside : on_side k (n_key nx)).
Context (HBk : forall b, b ∈ tree_blocks B -> b ∉ path_blocks k) (HB : in_memory m (Some x.1) B).
Context (Hk : path_in_memory m root (Some y.1) k).

Let up := reparent (Some x.1) (parent_ptr k) m.

Lemma child_moves_up K (Q : unit -> IntervalTree -> Prop) :
  runs K (mkTree (replace_child k (Some x.1) up) (root_below root (Some x.1) k) n) Q ->
  runs (_ ← updateParentPointer (Some x.1) (n_parent ny);
        xn ← deref_node (Some x.1);
        _ ← updateChildPointer (n_parent xn) (Some x.1) INVALID_CHILD;
        K) (mkTree m root n) Q.
Proof.
  intros HQ. rewrite Hpar. apply runs_bind, runs_updateParent; [intros b [= <-]; by eexists|].
  assert (Ex' : up !! x.1 = Some (set_parent (parent_ptr k) nx)) by (subst up; cbn [reparent]; read_block; by rewrite Ex).
  apply runs_bind. eapply runs_deref; [exact Ex'|]. cbn [n_parent set_parent].
  apply runs_bind. eapply (runs_updateChild _ root (Some y.1)); [|exact Ex'|done|].
  - cbn [t_memory reparent]. by unchanged m.
  - assert (Eroot : match parent_ptr k with None => Some x.1 | Some _ => root end = root_below root (Some x.1) k)
      by (by destruct k as [|[] ]).
    cbn [t_root t_memory t_size]. rewrite Eroot. exact HQ.
Qed.
End assignments.

Lemma in_memory_root m par t b : in_memory m par t -> root_ptr t = Some b -> is_Some (m !! b).
Proof. destruct t as [|l i h r]; simpl; [done|]. intros (E & _) [= <-]. by eexists. Qed.

(** One assignment of a routine; the contents of the blocks read are among
    the hypotheses. *)
Ltac block_contents :=
  unfold set_memory; cbn [t_memory reparent]; read_block;
  repeat match goal with E : _ !! _ = Some _ |- _ => rewrite E end; reflexivity.
Ltac link_step :=
  lazymatch goal with
  | |- runs (_ ≫= _) _ _ => apply runs_bind
  | |- runs (mret _) _ _ => apply runs_ret
  | |- runs (deref_node (Some _)) _ _ =>
      eapply runs_deref; [block_contents|];
      cbn [n_left n_right n_parent set_parent set_left set_right node_of fmap option_fmap option_map]
  | |- runs (write_node (Some _) _) _ _ => eapply runs_write; [block_contents|]
  end.

Lemma rotate_items A x hx B y hy C hx' hy' :
  items (Br (Br A x hx B) y hy C) = items (Br A x hx' (Br B y hy' C)).
Proof. simpl. by rewrite <- (assoc_L app). Qed.

Lemma runs_rotate_right s A x hx B y hy C k (Q : unit -> IntervalTree -> Prop) :
  pos_ok s (Br (Br A x hx B) y hy C) k ->
  (forall s' hx' hy', pos_ok s' (Br A x hx' (Br B y hy' C)) k -> kept s s' ->
     hy' = Z.max (stored B) (stored C) + 1 -> hx' = Z.max (stored A) hy' + 1 -> Q tt s') ->
  runs (performRotation (Some y.1) CLOCKWISE) s Q.
Proof.
  intros Hpos HQ. pose proof (pos_on_side _ _ _ _ _ _ Hpos) as (_ & Hx & _).
  destruct Hpos as [Ht Hk Hnd Hs]. pose proof (rotate_right_links _ _ _ _ _ _ _ _ _ _ Ht Hk Hnd) as [Ht' Hk'].
  destruct Ht as (Ey & (Ex & HA & HB) & HC). nodup_facts Hnd. destruct s as [m root n]. cbn [t_memory t_root] in *.
  unfold performRotation. apply runs_bind. eapply runs_deref; [done|]. cbn [n_left root_ptr node_of].
  eapply (child_moves_up m root n x y B k); try done.
  { cbn. rewrite Forall_forall in Hx. apply Hx. set_solver. }
  repeat link_step. apply runs_updateParent.
  { unfold set_memory. cbn [t_memory]. intros b. eapply (in_memory_root _ (Some x.1)). by unchanged m. }
  repeat link_step. apply runs_updateParent; [intros b [= <-]; eexists; block_contents|].
  apply runs_bind, (runs_updateHeight _ B y hy C (InRight A x hx :: k)).
  { apply (down_right _ A x hx (Br B y hy C)). unfold tree_blocks in Hnd. rewrite (rotate_items _ _ _ _ _ _ _ hx hy) in Hnd, Hs.
    by split. }
  intros s1 Hp1 Hn1. eapply runs_updateHeight; [by apply up_right|]. intros s2 Hp2 Hn2.
  eapply HQ; [exact Hp2| |done|done]. rewrite <- Hn2, <- Hn1. by apply rotate_kept.
Qed.

Lemma runs_rotate_left s A y hy B x hx C k (Q : unit -> IntervalTree -> Prop) :
  pos_ok s (Br A y hy (Br B x hx C)) k ->
  (forall s' hx' hy', pos_ok s' (Br (Br A y hy' B) x hx' C) k -> kept s s' ->
     hy' = Z.max (stored A) (stored B) + 1 -> hx' = Z.max hy' (stored C) + 1 -> Q tt s') ->
  runs (performRotation (Some y.1) ANTI_CLOCKWISE) s Q.
Proof.
  intros Hpos HQ. pose proof (pos_on_side _ _ _ _ _ _ Hpos) as (_ & _ & Hx).
  destruct Hpos as [Ht Hk Hnd Hs]. pose proof (rotate_left_links _ _ _ _ _ _ _ _ _ _ Ht Hk Hnd) as [Ht' Hk'].
  destruct Ht as (Ey & HA & (Ex & HB & HC)). nodup_facts Hnd. destruct s as [m root n]. cbn [t_memory t_root] in *.
  unfold performRotation. apply runs_bind. eapply runs_deref; [done|]. cbn [n_right root_ptr node_of].
  eapply (child_moves_up m root n x y B k); try done.
  { cbn. rewrite Forall_forall in Hx. apply Hx. set_solver. }
  repeat link_step. apply runs_updateParent.
  { unfold set_memory. cbn [t_memory]. intros b. eapply (in_memory_root _ (Some x.1)). by unchanged m. }
  repeat link_step. apply runs_updateParent; [intros b [= <-]; eexists; block_contents|].
  apply runs_bind, (runs_updateHeight _ A y hy B (InLeft x hx C :: k)).
  { apply (down_left _ (Br A y hy B) x hx C). unfold tree_blocks in Hnd.
    rewrite <- (rotate_items A y hy B x hx C hy hx) in Hnd, Hs. by split. }
  intros s1 Hp1 Hn1. eapply runs_updateHeight; [by apply up_left|]. intros s2 Hp2 Hn2.
  eapply HQ; [exact Hp2| |done|done]. rewrite <- Hn2, <- Hn1. by apply rotate_kept.
Qed.

(** ** Balance *)

(** Every node stores its height, and its subtrees differ by at most one. *)
Fixpoint avl (t : tree) : Prop :=
  match t with
  | Leaf => True
  | Br l i h r =>
    h = Z.max (stored l) (stored r) + 1 /\ Z.abs (stored l - stored r) <= 1 /\ avl l /\ avl r
  end.

Lemma avl_pos t : avl t -> 0 <= stored t.
Proof. induction t as [|l IHl i h r IHr]; simpl; [lia|]. intros (-> & _ & Hl & Hr). specialize (IHl Hl). lia. Qed.

Lemma runs_taller s par l i h r tie (Q : Ptr * ChildDirection -> IntervalTree -> Prop) :
  in_memory (t_memory s) par (Br l i h r) -> tie <> INVALID_CHILD ->
  (stored r <= stored l -> (stored l = stored r -> tie = LEFT_CHILD) -> Q (root_ptr l, LEFT_CHILD) s) ->
  (stored l <= stored r -> (stored l = stored r -> tie = RIGHT_CHILD) -> Q (root_ptr r, RIGHT_CHILD) s) ->
  runs (taller_child (node_of par l i h r) tie) s Q.
Proof.
  intros (_ & Hl & Hr) Htie HL HR. unfold taller_child. cbn [n_left n_right node_of].
  apply runs_bind. eapply runs_getHeight; [done|]. apply runs_bind. eapply runs_getHeight; [done|].
  apply runs_ret. destruct (Z.ltb_spec (stored r) (stored l)); [apply HL; lia|].
  destruct (Z.ltb_spec (stored l) (stored r)); [apply HR; lia|].
  destruct tie; [done|by apply HL|by apply HR].
Qed.

Definition rebalanced (s : IntervalTree) (l : tree) (i : Item) (h : Z) (r : tree) (k : list frame)
    (p : Ptr) (s' : IntervalTree) : Prop :=
  exists t', p = root_ptr t' /\ t' <> Leaf /\ pos_ok s' t' k /\ avl t' /\ kept s s' /\
    items t' = items (Br l i h r) /\
    Z.max (stored l) (stored r) <= stored t' <= Z.max (stored l) (stored r) + 1.

Ltac same_items := simpl; rewrite <- ?(assoc_L app); simpl; rewrite <- ?(assoc_L app); reflexivity.
(** The conditions on the tree that [balanceHeight] leaves, at position [Hp]. *)
Ltac rebalanced_tree Hp :=
  apply runs_ret; eexists; split; [|split; [|split; [exact Hp|]]]; [reflexivity|discriminate|];
  cbn [avl stored]; split; [repeat split; try done; lia|]; split; [by repeat (etrans; [eassumption|])|]; split; [same_items|lia].

Lemma balance_left s l i h r k :
  pos_ok s (Br l i h r) k -> avl l -> avl r -> stored l = stored r + 2 ->
  runs (balanceHeight (Some i.1)) s (rebalanced s l i h r k).
Proof.
  intros Hpos Hl Hr Hd. pose proof (avl_pos r Hr). destruct l as [|ll li lh lr]; [simpl in Hd; lia|].
  destruct (Hpos) as [(E & Hinl & Hinr) _ _ _].
  unfold balanceHeight. apply runs_bind. eapply runs_deref; [exact E|]. cbn [n_left n_right node_of].
  apply runs_bind. eapply runs_getHeight; [done|]. apply runs_bind. eapply runs_getHeight; [done|].
  apply runs_bind, runs_assert; [apply negb_true_iff, Z.eqb_neq; lia|].
  apply runs_bind. eapply runs_taller; [by destruct Hpos|done| |lia].
  intros _ _. apply runs_bind, runs_assert; [done|].
  apply runs_bind. eapply runs_deref; [by destruct Hinl|].
  simpl in Hd. destruct Hl as (-> & Hb & Hll & Hlr). pose proof (avl_pos _ Hll). pose proof (avl_pos _ Hlr).
  apply runs_bind. eapply runs_taller; [exact Hinl|done| |]; intros Hle Htie.
  - apply runs_bind, runs_assert; [destruct ll; [simpl in *; lia|done]|].
    apply runs_bind. eapply runs_rotate_right; [done|]. intros s' hx' hy' Hp Hn -> ->.
    rebalanced_tree Hp.
  - destruct lr as [|lrl x hx lrr]; [simpl in *; lia|]. destruct Hlr as (Ehx & Hb' & Hlrl & Hlrr). cbn [stored root_ptr] in *.
    assert (stored ll <> hx) by (intros Heq; discriminate (Htie Heq)).
    pose proof (avl_pos _ Hlrl). pose proof (avl_pos _ Hlrr).
    apply runs_bind, runs_assert; [done|].
    apply runs_bind. eapply runs_rotate_left; [by apply down_left|]. intros s' hx' hy' Hp Hn -> ->.
    apply runs_bind. eapply runs_rotate_right; [by apply up_left|]. intros s'' hx'' hy'' Hp' Hn' -> ->.
    rebalanced_tree Hp'.
Qed.

Lemma balance_right s l i h r k :
  pos_ok s (Br l i h r) k -> avl l -> avl r -> stored r = stored l + 2 ->
  runs (balanceHeight (Some i.1)) s (rebalanced s l i h r k).
Proof.
  intros Hpos Hl Hr Hd. pose proof (avl_pos l Hl). destruct r as [|rl ri rh rr]; [simpl in Hd; lia|].
  destruct (Hpos) as [(E & Hinl & Hinr) _ _ _].
  unfold balanceHeight. apply runs_bind. eapply runs_deref; [exact E|]. cbn [n_left n_right node_of].
  apply runs_bind. eapply runs_getHeight; [done|]. apply runs_bind. eapply runs_getHeight; [done|].
  apply runs_bind, runs_assert; [apply negb_true_iff, Z.eqb_neq; lia|].
  apply runs_bind. eapply runs_taller; [by destruct Hpos|done|lia|].
  intros _ _. apply runs_bind, runs_assert; [done|].
  apply runs_bind. eapply runs_deref; [by destruct Hinr|].
  cbn [stored] in Hd. destruct Hr as (-> & Hb & Hrl & Hrr). pose proof (avl_pos _ Hrl). pose proof (avl_pos _ Hrr).
  apply runs_bind. eapply runs_taller; [exact Hinr|done| |]; intros Hle Htie.
  - destruct rl as [|rll x hx rlr]; [simpl in *; lia|]. destruct Hrl as (Ehx & Hb' & Hrll & Hrlr). cbn [stored root_ptr] in *.
    assert (hx <> stored rr) by (intros Heq; discriminate (Htie Heq)).
    pose proof (avl_pos _ Hrll). pose proof (avl_pos _ Hrlr).
    apply runs_bind, runs_assert; [done|].
    apply runs_bind. eapply runs_rotate_right; [by apply down_right|]. intros s' hx' hy' Hp Hn -> ->.
    apply runs_bind. eapply runs_rotate_left; [by apply up_right|]. intros s'' hx'' hy'' Hp' Hn' -> ->.
    rebalanced_tree Hp'.
  - apply runs_bind, runs_assert; [destruct rr; [simpl in *; lia|done]|].
    apply runs_bind. eapply runs_rotate_left; [done|]. intros s' hx' hy' Hp Hn -> ->.
    rebalanced_tree Hp.
Qed.

(** ** Rebalancing on the way to the root *)

(** The path is balanced around a subtree of height [d]. *)
Fixpoint avl_path (d : Z) (k : list frame) : Prop :=
  match k with
  | [] => True
  | InLeft _ h r :: k' =>
    h = Z.max d (stored r) + 1 /\ Z.abs (d - stored r) <= 1 /\ avl r /\ avl_path h k'
  | InRight l _ h :: k' =>
    h = Z.max (stored l) d + 1 /\ Z.abs (stored l - d) <= 1 /\ avl l /\ avl_path h k'
  end.

Lemma avl_fill t k : avl (fill t k) <-> avl t /\ avl_path (stored t) k.
Proof.
  revert t. induction k as [|[i h r|l i h] k IH]; intros t; simpl; [tauto| |]; rewrite IH; simpl; tauto.
Qed.

Lemma runs_heightBalanced s par l i h r (Q : bool -> IntervalTree -> Prop) :
  in_memory (t_memory s) par (Br l i h r) -> Q (Z.abs (stored l - stored r) <=? 1) s ->
  runs (heightBalanced (Some i.1)) s Q.
Proof.
  intros (E & Hl & Hr) HQ. unfold heightBalanced. apply runs_bind, runs_assert; [done|].
  apply runs_bind. eapply runs_deref; [done|]. cbn [n_left n_right node_of].
  apply runs_bind. eapply runs_getHeight; [done|]. apply runs_bind. eapply runs_getHeight; [done|].
  by apply runs_ret.
Qed.

(** A balanced tree with the items [l]. *)
Definition settled_as (l : list Item) (s s' : IntervalTree) : Prop :=
  exists t', tree_ok s' t' /\ avl t' /\ items t' = l /\ kept s s'.

Lemma settled_trans l s s1 s' : kept s s1 -> settled_as l s1 s' -> settled_as l s s'.
Proof. intros Hk (t' & ? & ? & ? & ?). exists t'. repeat (split; [done|]). by etrans. Qed.

(** The subtrees of a node of height [h], one of which has changed by one. *)
Definition nearly_avl (l r : tree) (h : Z) : Prop :=
  exists dl dr, h = Z.max dl dr + 1 /\ Z.abs (dl - dr) <= 1 /\
    ((stored l = dl /\ Z.abs (stored r - dr) <= 1) \/ (stored r = dr /\ Z.abs (stored l - dl) <= 1)).

Lemma rebalance_node s l i h r k :
  pos_ok s (Br l i h r) k -> avl l -> avl r -> nearly_avl l r h ->
  runs (balanced ← heightBalanced (Some i.1);
        if negb balanced then balanceHeight (Some i.1)
        else _ ← updateHeight (Some i.1); mret (Some i.1)) s
    (fun p s' => exists t', p = root_ptr t' /\ t' <> Leaf /\ pos_ok s' t' k /\ avl t' /\ kept s s' /\
       items t' = items (Br l i h r) /\ Z.abs (stored t' - h) <= 1).
Proof.
  intros Hpos Hl Hr (dl & dr & Hh & Hd & Hlr). apply runs_bind.
  eapply runs_heightBalanced; [by destruct Hpos|]. destruct (Z.leb_spec (Z.abs (stored l - stored r)) 1) as [Hb|Hb]; simpl.
  - apply runs_bind. eapply runs_updateHeight; [done|]. intros s' Hp Hn. apply runs_ret.
    eexists. split; [|split; [|split; [exact Hp|]]]; [done..|].
    cbn [avl stored]. split; [done|]. split; [done|]. split; [done|]. lia.
  - assert (Hbal : runs (balanceHeight (Some i.1)) s (rebalanced s l i h r k)).
    { destruct (decide (stored r <= stored l)); [apply balance_left|apply balance_right]; done || lia. }
    eapply runs_mono; [exact Hbal|]. intros p s' (t' & ? & ? & ? & ? & ? & ? & ?). exists t'.
    repeat (split; [done|]). lia.
Qed.

Lemma runs_join {A B C} (m : ST IntervalTree A) (f : A -> ST IntervalTree B) (g : B -> ST IntervalTree C) s P Q :
  runs (m ≫= f) s P -> (forall b s', P b s' -> runs (g b) s' Q) -> runs (m ≫= fun a => f a ≫= g) s Q.
Proof.
  intros (b & s' & E & HP) Hg. destruct (Hg b s' HP) as (c & s'' & E' & HQ). exists c, s''. split; [|done].
  rewrite <- bind_run. by rewrite (st_bind_run _ _ _ _ _ E).
Qed.

(** One round of [rebalanceAVLTree], given what the next ones do. *)
Lemma rebalance_round fuel s l i h r k :
  (forall u s1, pos_ok s1 u k -> avl u -> Z.abs (stored u - h) <= 1 ->
     runs (rebalance_loop fuel (parent_ptr k)) s1 (fun _ => settled_as (items (fill u k)) s1)) ->
  pos_ok s (Br l i h r) k -> avl l -> avl r -> nearly_avl l r h -> avl_path h k ->
  runs (rebalance_loop (S fuel) (Some i.1)) s (fun _ => settled_as (items (fill (Br l i h r) k)) s).
Proof.
  intros IH Hpos Hl Hr Hnear Hk. cbn [rebalance_loop]. destruct (Hpos) as [(E & _) _ _ _].
  apply runs_bind. eapply runs_deref; [exact E|]. cbn [n_height node_of].
  eapply runs_join; [by apply rebalance_node|]. intros p s1 (t' & -> & Hne & Hp & Ht & Hn & Hit & Hh).
  assert (Hfill : items (fill t' k) = items (fill (Br l i h r) k)) by (by rewrite !items_fill, Hit).
  destruct t' as [|l' i' h' r']; [done|]. cbn [root_ptr].
  apply runs_bind. eapply runs_heightBalanced; [by destruct Hp|]. cbn [avl] in Ht. destruct Ht as (Hh' & Hb & Ht).
  apply runs_bind, runs_log_assert; [by apply Z.leb_le|]. destruct (Hp) as [(E' & _) _ _ _].
  apply runs_bind. eapply runs_deref; [exact E'|]. cbn [n_height n_parent node_of].
  destruct (Z.eqb_spec h' h) as [Heq|Hneq]; simpl.
  - apply runs_ret. exists (fill (Br l' i' h' r') k). split; [by apply pos_fill|]. split; [|done].
    apply avl_fill. split; [done|]. cbn [stored]. by rewrite Heq.
  - rewrite <- Hfill. eapply runs_mono; [by apply IH|]. intros [] s2. by apply settled_trans.
Qed.

(** From a position whose subtree had the height [d] the routine restores the
    balance of the whole tree. *)
Lemma rebalance_spec fuel s u k d :
  pos_ok s u k -> avl u -> avl_path d k -> Z.abs (stored u - d) <= 1 -> (length k <= fuel)%nat ->
  runs (rebalance_loop fuel (parent_ptr k)) s (fun _ => settled_as (items (fill u k)) s).
Proof.
  revert fuel s u d. induction k as [|[i h r|l i h] k IH]; intros fuel s u d Hpos Hu Hk Hd Hf; simpl in Hf.
  - destruct fuel; apply runs_ret; exists u; by repeat (split; [done|]).
  - destruct fuel as [|fuel]; [lia|]. destruct Hk as (Hh & Hb & Hr & Hk).
    apply (rebalance_round fuel s u i h r k); try done; [|by apply up_left|].
    + intros u' s1 Hp' Hu' Hd'. eapply IH; try done. lia.
    + exists d, (stored r). lia.
  - destruct fuel as [|fuel]; [lia|]. destruct Hk as (Hh & Hb & Hl & Hk).
    apply (rebalance_round fuel s l i h u k); try done; [|by apply up_right|].
    + intros u' s1 Hp' Hu' Hd'. eapply IH; try done. lia.
    + exists (stored l), d. lia.
Qed.

(** The fuel of the routines exceeds the length of every path. *)
Lemma length_path k : (length k <= length (path_blocks k))%nat.
Proof.
  induction k as [|[i h r|l i h] k IH]; simpl; [lia| |].
  - rewrite path_blocks_left. simpl. rewrite length_app. lia.
  - rewrite path_blocks_right. simpl. rewrite length_app. lia.
Qed.

Lemma in_memory_dom m par t b : in_memory m par t -> b ∈ tree_blocks t -> b ∈ dom m.
Proof.
  revert par. induction t as [|l IHl i h r IHr]; intros par; [by intros _ ?%elem_of_nil|].
  intros (E & Hl & Hr). rewrite tree_blocks_br. intros [-> |[Hb|Hb]%elem_of_app]%elem_of_cons;
    [by apply elem_of_dom|by eapply IHl|by eapply IHr].
Qed.

Lemma fuel_enough s t : tree_ok s t -> (length (tree_blocks t) < tree_fuel s)%nat.
Proof.
  intros [Ht _ Hnd _]. unfold path_blocks in Hnd. simpl in Hnd. rewrite app_nil_r in Hnd.
  unfold tree_fuel. rewrite <- size_dom, <- (size_list_to_set (C := gset Z)) by done.
  apply Nat.lt_succ_r, subseteq_size. intros b Hb%elem_of_list_to_set. by eapply in_memory_dom.
Qed.

Lemma path_fuel s t k : pos_ok s t k -> (length (tree_blocks t) + length k < tree_fuel s)%nat.
Proof.
  intros Hp. pose proof (fuel_enough s (fill t k) (proj2 (pos_fill s t k) Hp)) as Hf.
  rewrite blocks_fill, length_app in Hf. pose proof (length_path k). lia.
Qed.

Lemma rebalance_runs s u k d :
  pos_ok s u k -> avl u -> avl_path d k -> Z.abs (stored u - d) <= 1 ->
  runs (rebalanceAVLTree (parent_ptr k)) s (fun _ => settled_as (items (fill u k)) s).
Proof.
  intros Hp Hu Hk Hd. apply runs_bind, runs_gets. eapply rebalance_spec; try done.
  pose proof (path_fuel s u k Hp). lia.
Qed.
