(* ===== verification/IntervalTreeThm.v ===== *)
(** * The operations of the interval tree

    Insertion, removal, search and the change of an interval, each as a
    function on the list of the intervals from left to right. *)

From stdpp Require Import sorting.
From S2P Require Import Prelude QueueModel QueueThm IntervalTree TreeShape.

(** ** Insertion *)

(** The smaller items, the new one, the larger ones. *)
Definition insert_item (new : Item) (l : list Item) : list Item :=
  filter (fun j => key j < key new) l ++ new :: filter (fun j => key new < key j) l.

Lemma insert_item_between new l1 l2 :
  Forall (fun j => key j < key new) l1 -> Forall (fun j => key new < key j) l2 ->
  insert_item new (l1 ++ l2) = l1 ++ new :: l2.
Proof.
  intros H1 H2. unfold insert_item. rewrite !filter_app.
  assert (N2 : Forall (fun j => ~ key j < key new) l2) by (eapply Forall_impl; [exact H2|]; simpl; lia).
  assert (N1 : Forall (fun j => ~ key new < key j) l1) by (eapply Forall_impl; [exact H1|]; simpl; lia).
  rewrite (filter_all _ l1 H1), (filter_all _ l2 H2), (filter_none _ l1 N1), (filter_none _ l2 N2).
  by rewrite app_nil_r.
Qed.

Lemma sorted_between new l1 l2 :
  StronglySorted below_key (l1 ++ l2) ->
  Forall (fun j => key j < key new) l1 -> Forall (fun j => key new < key j) l2 ->
  StronglySorted below_key (l1 ++ new :: l2).
Proof.
  intros Hs H1 H2. apply StronglySorted_app in Hs as (H12 & Hs1 & Hs2). apply StronglySorted_app.
  rewrite Forall_forall in H1. split; [|split; [done|by apply StronglySorted_cons]].
  intros x y Hx [-> |Hy]%elem_of_cons; [by apply H1|by apply H12].
Qed.

Lemma sorted_split (z : Z) l :
  StronglySorted below_key l -> z ∉ map key l ->
  exists l1 l2, l = l1 ++ l2 /\ Forall (fun j => key j < z) l1 /\ Forall (fun j => z < key j) l2.
Proof.
  induction l as [|j l IH]; intros Hs Hz; [by exists [], []|].
  apply StronglySorted_cons in Hs as [Hj Hs]. simpl in Hz. apply not_elem_of_cons in Hz as [Hzj Hz].
  destruct (decide (z < key j)).
  - exists [], (j :: l). split; [done|]. split; [constructor|]. constructor; [done|].
    eapply Forall_impl; [exact Hj|]. unfold below_key. lia.
  - destruct (IH Hs Hz) as (l1 & l2 & -> & H1 & H2). exists (j :: l1), l2. split; [done|].
    split; [constructor; [lia|done]|done].
Qed.

Lemma length_insert_item new l :
  StronglySorted below_key l -> key new ∉ map key l -> length (insert_item new l) = S (length l).
Proof.
  intros Hs Hz. destruct (sorted_split (key new) l Hs Hz) as (l1 & l2 & -> & H1 & H2).
  rewrite insert_item_between, !length_app by done. simpl. lia.
Qed.

(** The links of a new leaf. *)
Lemma attach_leaf s b iv k :
  pos_ok s Leaf k -> k <> [] -> t_memory s !! b = Some (Node_initialize iv) -> b ∉ path_blocks k ->
  Forall (fun j => key j < iv.1) (items_before k) -> Forall (fun j => iv.1 < key j) (items_after k) ->
  pos_ok (set_memory (fun m => reparent (Some b) (parent_ptr k) (replace_child k (Some b) m)) s)
    (Br Leaf (b, iv) 1 Leaf) k.
Proof.
  intros [_ Hk Hnd Hs] Hne E Hb Hlt Hgt. destruct s as [m root n]. cbn [t_memory t_root] in *.
  assert (Hnd' : NoDup (path_blocks k)) by (by apply NoDup_app in Hnd as (_ & _ & ?)). split.
  - unfold set_memory. cbn [t_memory in_memory fst root_ptr reparent]. split; [|done]. read_block. by rewrite E.
  - unfold set_memory. cbn [t_memory t_root root_ptr fst].
    replace root with (root_below root (Some b) k) by (by destruct k).
    unchanged (replace_child k (Some b) m). eapply path_replace_child; [done|]. exact Hk.
  - simpl. apply NoDup_cons. split; [done|exact Hnd'].
  - simpl. by apply sorted_between.
Qed.

Section insertion.
Context (b : Z) (iv : Interval).

(** One step to the left or the right child. *)
Lemma insert_step fuel s l i h r k (Q : unit -> IntervalTree -> Prop) :
  pos_ok s (Br l i h r) k -> t_memory s !! b = Some (Node_initialize iv) -> key i <> iv.1 ->
  (iv.1 < key i -> l <> Leaf -> runs (insert_loop fuel (Some b) (root_ptr l)) s Q) ->
  (key i < iv.1 -> r <> Leaf -> runs (insert_loop fuel (Some b) (root_ptr r)) s Q) ->
  (iv.1 < key i -> l = Leaf ->
     runs (_ ← write_node (Some i.1) (set_left (Some b)); _ ← write_node (Some b) (set_parent (Some i.1));
           rebalanceAVLTree (Some i.1)) s Q) ->
  (key i < iv.1 -> r = Leaf ->
     runs (_ ← write_node (Some i.1) (set_right (Some b)); _ ← write_node (Some b) (set_parent (Some i.1));
           rebalanceAVLTree (Some i.1)) s Q) ->
  runs (insert_loop (S fuel) (Some b) (Some i.1)) s Q.
Proof.
  intros [(E & _) _ _ _] Eb Hne Hl Hr Hl' Hr'. cbn [insert_loop].
  apply runs_bind. eapply runs_deref; [exact Eb|]. apply runs_bind. eapply runs_deref; [exact E|].
  cbn [n_key n_left n_right node_of Node_initialize].
  destruct (Z.ltb_spec iv.1 (key i)).
  - destruct l as [|ll li lh lr]; [by apply Hl'|by apply Hl].
  - rewrite (proj2 (Z.ltb_lt _ _)) by lia. destruct r as [|rl ri rh rr]; [apply Hr'; [lia|done]|apply Hr; [lia|done]].
Qed.

(** The new leaf is linked and the tree rebalanced. *)
Lemma insert_leaf s k f p :
  pos_ok s Leaf k -> avl_path 0 k -> t_memory s !! b = Some (Node_initialize iv) -> b ∉ path_blocks k ->
  Forall (fun j => key j < iv.1) (items_before k) -> Forall (fun j => iv.1 < key j) (items_after k) ->
  parent_ptr k = Some p -> replace_child k (Some b) = alter f p ->
  runs (_ ← write_node (Some p) f; _ ← write_node (Some b) (set_parent (Some p)); rebalanceAVLTree (Some p)) s
    (fun _ => settled_as (items_before k ++ (b, iv) :: items_after k) s).
Proof.
  intros Hpos Hk E Hb Hlt Hgt Hp Hf. assert (Hne : k <> []) by (by intros ->).
  pose proof (attach_leaf s b iv k Hpos Hne E Hb Hlt Hgt) as Hnew.
  assert (Hin : exists n, t_memory s !! p = Some n).
  { destruct Hpos as [_ Hpath _ _]. destruct k as [|[]]; simpl in *; [done|..]; injection Hp as <-; destruct Hpath; eauto. }
  destruct Hin as [n En]. assert (Hpb : p ∈ path_blocks k).
  { destruct k as [|[]]; [done|..]; injection Hp as <-; rewrite ?path_blocks_left, ?path_blocks_right; left. }
  apply runs_bind. eapply runs_write; [done|].
  apply runs_bind. eapply runs_write; [unfold set_memory; cbn [t_memory]; rewrite lookup_alter_ne by (by intros ->); done|].
  rewrite Hp, Hf in Hnew. cbn [reparent] in Hnew.
  assert (Hbal : avl (Br Leaf (b, iv) 1 Leaf)) by (simpl; repeat split; lia).
  pose proof (rebalance_runs _ _ k 0 Hnew Hbal Hk ltac:(simpl; lia)) as Hrun. rewrite Hp in Hrun.
  eapply runs_mono; [exact Hrun|]. intros [] s' Hs'. rewrite items_fill in Hs'. eapply settled_trans; [|exact Hs'].
  split; [done|]. intros c. unfold set_memory. cbn [t_memory]. rewrite data_alter, <- Hf by done. apply data_replace_child.
Qed.

(** The same result, as an insertion into the list. *)
Lemma insert_at_leaf s k f p :
  pos_ok s Leaf k -> avl (fill Leaf k) -> t_memory s !! b = Some (Node_initialize iv) ->
  b ∉ tree_blocks (fill Leaf k) ->
  Forall (fun j => key j < iv.1) (items_before k) -> Forall (fun j => iv.1 < key j) (items_after k) ->
  parent_ptr k = Some p -> replace_child k (Some b) = alter f p ->
  runs (_ ← write_node (Some p) f; _ ← write_node (Some b) (set_parent (Some p)); rebalanceAVLTree (Some p)) s
    (fun _ => settled_as (insert_item (b, iv) (items (fill Leaf k))) s).
Proof.
  intros Hpos [_ Hk]%avl_fill E Hb Hlt Hgt Hp Hf. rewrite blocks_fill in Hb.
  rewrite items_fill, (insert_item_between (b, iv)) by done. by apply insert_leaf.
Qed.

Lemma insert_spec fuel s t k :
  pos_ok s t k -> t <> Leaf -> avl (fill t k) -> t_memory s !! b = Some (Node_initialize iv) ->
  b ∉ tree_blocks (fill t k) -> iv.1 ∉ map key (items (fill t k)) ->
  Forall (fun j => key j < iv.1) (items_before k) -> Forall (fun j => iv.1 < key j) (items_after k) ->
  (length (tree_blocks t) <= fuel)%nat ->
  runs (insert_loop fuel (Some b) (root_ptr t)) s
    (fun _ => settled_as (insert_item (b, iv) (items (fill t k))) s).
Proof.
  revert fuel k. induction t as [|l IHl i h r IHr]; intros fuel k Hpos Hne Havl E Hb Hkey Hlt Hgt Hf; [done|].
  rewrite tree_blocks_br in Hf. simpl in Hf. rewrite length_app in Hf. destruct fuel as [|fuel]; [lia|].
  pose proof (po_sorted _ _ _ Hpos) as Hs. simpl in Hs. pose proof (proj1 (avl_fill _ _) Havl) as [Hav Hpath].
  assert (Hi : key i <> iv.1).
  { intros Heq. apply Hkey, list_elem_of_fmap. exists i. split; [done|]. rewrite items_fill. simpl. set_solver. }
  apply StronglySorted_app in Hs as (Hbi & Hsb & Hs). rewrite <- (assoc_L app) in Hs.
  apply StronglySorted_app in Hs as (Hli & Hsl & Hs). simpl in Hs.
  apply StronglySorted_cons in Hs as [Hir Hs].
  assert (Hleft : iv.1 < key i -> Forall (fun j => iv.1 < key j) (items_after (InLeft i h r :: k))).
  { intros Hlti. simpl. constructor; [done|]. eapply Forall_impl; [exact Hir|]. unfold below_key. lia. }
  assert (Hright : key i < iv.1 -> Forall (fun j => key j < iv.1) (items_before (InRight l i h :: k))).
  { intros Hlti. simpl. rewrite !Forall_app. split; [done|]. split; [|by constructor].
    apply Forall_forall. intros j Hj. specialize (Hli j i Hj ltac:(left)). unfold below_key in Hli. lia. }
  cbn [root_ptr]. apply (insert_step fuel s l i h r k); try done.
  - intros Hlti Hl. apply (IHl fuel (InLeft i h r :: k)); try done; [by apply down_left|by apply Hleft|lia].
  - intros Hgti Hr. apply (IHr fuel (InRight l i h :: k)); try done; [by apply down_right|by apply Hright|lia].
  - intros Hlti ->. apply (insert_at_leaf s (InLeft i h r :: k)); try done; [by apply down_left|by apply Hleft].
  - intros Hgti ->. apply (insert_at_leaf s (InRight l i h :: k)); try done; [by apply down_right|by apply Hright].
Qed.
End insertion.

(** The tree promises: in memory, balanced, with these items. *)
Definition holds (s : IntervalTree) (l : list Item) : Prop :=
  exists t, tree_ok s t /\ avl t /\ items t = l /\ t_size s = Z.of_nat (length l).

Lemma IntervalTree_insert_runs s l b iv :
  holds s l -> l <> [] -> Z.of_nat (length l) < 2 ^ 32 - 1 ->
  t_memory s !! b = Some (Node_initialize iv) -> b ∉ blocks l -> iv.1 ∉ map key l ->
  runs (IntervalTree_insert (Some b)) s (fun _ s' => holds s' (insert_item (b, iv) l)).
Proof.
  intros (t & Ht & Havl & <- & Hn) Hne Hlen E Hb Hkey. unfold IntervalTree_insert.
  apply runs_bind, runs_modify. apply runs_bind, runs_gets. unfold insertInTree. apply runs_bind, runs_gets.
  set (s1 := set_tree_size (wrap32 (t_size s + 1)) s).
  assert (Ht1 : tree_ok s1 t) by (by destruct Ht).
  assert (Hroot : t_root s1 = root_ptr t) by (by destruct Ht). rewrite Hroot.
  eapply runs_mono; [apply (insert_spec b iv (tree_fuel s1) s1 t [])|]; try done.
  - by intros ->.
  - pose proof (fuel_enough s1 t Ht1). lia.
  - intros [] s' (t' & Ht' & Havl' & Hit & Hn' & _). exists t'. split; [done|]. split; [done|]. split; [done|].
    rewrite Hn'. simpl. rewrite Hn, wrap_id by (unfold is_word; lia).
    rewrite length_insert_item; [lia| |done]. destruct Ht as [_ _ _ Hs]. simpl in Hs. by rewrite app_nil_r in Hs.
Qed.

(** ** Removal *)

(** A node [i] with one subtree [c] is bypassed. *)
Lemma bypass m root n (i : Item) c k :
  in_memory m (Some i.1) c -> path_in_memory m root (Some i.1) k ->
  NoDup (i.1 :: tree_blocks c ++ path_blocks k) ->
  StronglySorted below_key (items_before k ++ items c ++ items_after k) ->
  let s' := mkTree (reparent (root_ptr c) (parent_ptr k) (replace_child k (root_ptr c) m))
              (root_below root (root_ptr c) k) n in
  pos_ok s' c k /\ kept (mkTree m root n) s'.
Proof.
  intros Hc Hk Hnd Hs s'. nodup_facts Hnd. split; [split; subst s'; cbn [t_memory t_root]|split; [done|]].
  - eapply in_memory_reparent; [done|]. by unchanged m.
  - unchanged (replace_child k (root_ptr c) m). by eapply path_replace_child.
  - by apply NoDup_cons in Hnd as [_ ?].
  - done.
  - intros b. subst s'; cbn [t_memory]. by rewrite data_reparent, data_replace_child.
Qed.

(** The block of the removed node keeps its contents. *)
Lemma bypass_block m (i : Item) c k n :
  i.1 ∉ tree_blocks c -> i.1 ∉ path_blocks k -> m !! i.1 = Some n ->
  reparent (root_ptr c) (parent_ptr k) (replace_child k (root_ptr c) m) !! i.1 = Some n.
Proof. intros Hc Hk E. read_block. exact E. Qed.

(** What the remaining subtree [c] satisfies. *)
Lemma bypass_facts s l i h r c k :
  pos_ok s (Br l i h r) k -> avl (Br l i h r) -> (l = Leaf /\ c = r \/ r = Leaf /\ c = l) ->
  in_memory (t_memory s) (Some i.1) c /\ NoDup (i.1 :: tree_blocks c ++ path_blocks k) /\
  StronglySorted below_key (items_before k ++ items c ++ items_after k) /\ avl c /\ Z.abs (stored c - h) <= 1.
Proof.
  intros [(_ & Hl & Hr) _ Hnd Hs] (Hh & Hb & Hal & Har) Hc. split; [by destruct Hc as [[_ ->]|[_ ->]]|]. split; [|split].
  - rewrite tree_blocks_br in Hnd. destruct Hc as [[-> ->]|[-> ->]]; [done|]. simpl in Hnd.
    unfold tree_blocks at 2, blocks in Hnd. simpl in Hnd. by rewrite app_nil_r in Hnd.
  - simpl in Hs. apply StronglySorted_app in Hs as (Hbi & Hsb & Hs). rewrite <- (assoc_L app) in Hs.
    apply StronglySorted_app in Hs as (Hli & Hsl & Hs). simpl in Hs. apply StronglySorted_cons in Hs as [Hir Hs].
    apply StronglySorted_app. destruct Hc as [[-> ->]|[-> ->]]; simpl in *.
    + split; [|done]. intros x y Hx Hy. apply Hbi; [done|by right].
    + split; [|split; [done|]].
      * intros x y Hx Hy. apply Hbi; [done|]. set_solver.
      * apply StronglySorted_app. split; [|done]. intros x y Hx Hy. apply Hli; [done|by right].
  - pose proof (avl_pos l Hal). pose proof (avl_pos r Har).
    destruct Hc as [[-> ->]|[-> ->]]; simpl in *; (split; [done|lia]).
Qed.

(** [updateParentPointer] and the rebalancing that follow. *)
Lemma finish_removal s i l r c h k :
  pos_ok s (Br l i h r) k -> avl (fill (Br l i h r) k) -> (l = Leaf /\ c = r \/ r = Leaf /\ c = l) ->
  runs (_ ← updateParentPointer (root_ptr c) (parent_ptr k);
        n ← deref_node (Some i.1);
        _ ← rebalanceAVLTree (n_parent n);
        mret (Some i.1))
    (set_memory (replace_child k (root_ptr c)) s)
    (fun p s' => p = Some i.1 /\ settled_as (items_before k ++ items c ++ items_after k) s s').
Proof.
  intros Hpos Havl Hc. apply avl_fill in Havl as [Hav Hpath]. cbn [stored] in Hpath.
  destruct (bypass_facts s l i h r c k Hpos Hav Hc) as (Hcm & Hcb & Hcs & Hac & Hch).
  destruct (Hpos) as [(E & _ & _) Hk _ _]. destruct s as [m root n]. cbn [t_memory t_root] in *.
  destruct (bypass m root n i c k Hcm Hk Hcb Hcs) as [Hnew Hkept].
  pose proof Hcb as [Hic Hcb']%NoDup_cons. apply not_elem_of_app in Hic as [Hic Hik].
  apply runs_bind, runs_updateParent.
  { unfold set_memory. cbn [t_memory]. intros b. eapply (in_memory_root _ (Some i.1)).
    apply in_memory_replace_child; [by apply Hcb'|done]. }
  unfold set_memory. cbn [t_memory t_root t_size].
  replace (match parent_ptr k with None => root_ptr c | Some _ => root end) with (root_below root (root_ptr c) k)
    by (by destruct k as [|[]]).
  apply runs_bind. eapply runs_deref; [cbn [t_memory]; by eapply bypass_block|]. cbn [n_parent node_of].
  apply runs_bind. eapply runs_mono; [by apply (rebalance_runs _ c k h)|].
  intros [] s' Hs'. apply runs_ret. split; [done|]. rewrite items_fill in Hs'. by eapply settled_trans.
Qed.

(** What remains when the item at a position is removed. *)
Definition remaining (l r : tree) (k : list frame) : list Item :=
  items_before k ++ items l ++ items r ++ items_after k.

Lemma child_direction s l i h r k : pos_ok s (Br l i h r) k ->
  match k with [] => True | InLeft j _ _ :: _ => (key j <? key i) = false | InRight _ j _ :: _ => (key j <? key i) = true end.
Proof.
  intros Hpos. destruct (pos_on_side _ _ _ _ _ _ Hpos) as (Hside & _). destruct k as [|[j hj t|t j hj] k]; [done|..];
    simpl in Hside; [by apply Z.ltb_ge, Z.lt_le_incl|by apply Z.ltb_lt].
Qed.

Lemma remove_no_left fuel s i h r k :
  pos_ok s (Br Leaf i h r) k -> avl (fill (Br Leaf i h r) k) ->
  runs (remove_loop (S fuel) (Some i.1)) s
    (fun p s' => p = Some i.1 /\ settled_as (remaining Leaf r k) s s').
Proof.
  intros Hpos Havl. pose proof (child_direction _ _ _ _ _ _ Hpos) as Hdir.
  pose proof (finish_removal s i Leaf r r h k Hpos Havl ltac:(by left)) as Hfin.
  destruct (Hpos) as [(E & _) Hk _ _]. cbn [remove_loop].
  apply runs_bind. eapply runs_deref; [exact E|]. cbn [n_left n_right n_parent n_key node_of root_ptr].
  apply runs_bind. destruct k as [|[j hj t|t j hj] k]; cbn [parent_ptr].
  - apply runs_ret. destruct s. exact Hfin.
  - destruct Hk as (Ej & _). apply runs_bind. eapply runs_deref; [exact Ej|]. cbn [n_key]. rewrite Hdir.
    eapply runs_write; [exact Ej|]. exact Hfin.
  - destruct Hk as (Ej & _). apply runs_bind. eapply runs_deref; [exact Ej|]. cbn [n_key]. rewrite Hdir.
    eapply runs_write; [exact Ej|]. exact Hfin.
Qed.

Lemma remove_no_right fuel s l i h k :
  pos_ok s (Br l i h Leaf) k -> avl (fill (Br l i h Leaf) k) -> l <> Leaf ->
  runs (remove_loop (S fuel) (Some i.1)) s
    (fun p s' => p = Some i.1 /\ settled_as (remaining l Leaf k) s s').
Proof.
  intros Hpos Havl Hne. pose proof (finish_removal s i l Leaf l h k Hpos Havl ltac:(by right)) as Hfin.
  destruct (pos_on_side _ _ _ _ _ _ Hpos) as (_ & Hside & _).
  destruct l as [|ll li lh lr]; [done|]. rewrite Forall_forall in Hside.
  destruct (Hpos) as [(E & (El & _) & _) Hk _ _]. cbn [remove_loop].
  apply runs_bind. eapply runs_deref; [exact E|]. cbn [n_left n_right n_parent n_key node_of root_ptr].
  apply runs_bind. eapply runs_updateChild; [exact Hk|exact El|apply Hside; simpl; set_solver|]. exact Hfin.
Qed.

Lemma min_spec fuel s t k :
  pos_ok s t k -> t <> Leaf -> (length (tree_blocks t) <= fuel)%nat ->
  exists j h r k' rest, min_loop fuel (root_ptr t) s = Ok (Some j.1, s) /\ pos_ok s (Br Leaf j h r) k' /\
    fill (Br Leaf j h r) k' = fill t k /\ items_before k' = items_before k /\
    items t = j :: rest /\ rest ++ items_after k = items r ++ items_after k'.
Proof.
  revert fuel k. induction t as [|l IHl i h r _]; intros fuel k Hpos Hne Hf; [done|].
  rewrite tree_blocks_br in Hf. simpl in Hf. rewrite length_app in Hf. destruct fuel as [|fuel]; [lia|].
  destruct (Hpos) as [(E & _) _ _ _]. cbn [min_loop root_ptr].
  rewrite (st_bind_run _ _ _ _ _ (deref_run _ _ _ E)). cbn [n_left node_of].
  destruct l as [|ll li lh lr].
  - exists i, h, r, k, (items r). by repeat (split; [done|]).
  - destruct (IHl fuel (InLeft i h r :: k)) as (j & hj & rj & k' & rest & Erun & Hp & Hfill & Hbef & Hit & Haft);
      [by apply down_left|done|lia|].
    exists j, hj, rj, k', (rest ++ i :: items r). split; [exact Erun|]. split; [done|]. split; [done|]. split; [done|].
    split; [simpl in *; by rewrite Hit|]. rewrite <- Haft. simpl. by rewrite <- (assoc_L app).
Qed.

(** ** Changing the interval of a node *)

Definition update_item (b : Z) (iv : Interval) (i : Item) : Item := if decide (i.1 = b) then (b, iv) else i.
Fixpoint set_item (b : Z) (iv : Interval) (t : tree) : tree :=
  match t with
  | Leaf => Leaf
  | Br l i h r =>
    Br (set_item b iv l) (update_item b iv i) h (set_item b iv r)
  end.

Lemma items_set_item b iv t : items (set_item b iv t) = map (update_item b iv) (items t).
Proof. induction t as [|l IHl i h r IHr]; [done|]. simpl. by rewrite IHl, IHr, map_app. Qed.
Lemma root_ptr_set_item b iv t : root_ptr (set_item b iv t) = root_ptr t.
Proof. destruct t as [|l i h r]; [done|]. simpl. unfold update_item. by case_decide; subst. Qed.
Lemma blocks_update b iv l : blocks (map (update_item b iv) l) = blocks l.
Proof.
  induction l as [|i l IH]; [done|]. unfold blocks in *. rewrite map_cons, !fmap_cons, IH. f_equal.
  unfold update_item. by case_decide.
Qed.
Lemma avl_set_item b iv t : avl t -> avl (set_item b iv t).
Proof.
  assert (Hst : forall u, stored (set_item b iv u) = stored u) by (by destruct u).
  induction t as [|l IHl i h r IHr]; [done|]. simpl. rewrite !Hst. intros (? & ? & ? & ?). auto.
Qed.

Lemma update_item_split b iv l1 old l2 : NoDup (blocks (l1 ++ (b, old) :: l2)) ->
  map (update_item b iv) (l1 ++ (b, old) :: l2) = l1 ++ (b, iv) :: l2.
Proof.
  unfold blocks. rewrite fmap_app. simpl. intros (_ & Hd & [H2 _]%NoDup_cons)%NoDup_app.
  assert (Hid : forall l, b ∉ l.*1 -> map (update_item b iv) l = l).
  { induction l as [|i l IH]; [done|]. simpl. intros [Hi Hl]%not_elem_of_cons. rewrite IH by done.
    f_equal. unfold update_item. by rewrite decide_False by done. }
  rewrite map_app. simpl. unfold update_item at 2. rewrite decide_True by done.
  rewrite !Hid; [done|done|]. intros H1. apply (Hd b H1). left.
Qed.

Lemma in_memory_set_item m par t b iv :
  in_memory m par t -> NoDup (tree_blocks t) ->
  in_memory (alter (set_data iv.1 iv) b m) par (set_item b iv t).
Proof.
  revert par. induction t as [|l IHl i h r IHr]; intros par; [done|]. intros (E & Hl & Hr) Hnd. nodup_facts Hnd.
  simpl. unfold update_item. case_decide as Hi; simpl.
  - subst b. rewrite lookup_alter_eq, E. unfold node_of. rewrite !root_ptr_set_item. split; [done|].
    split; [by apply IHl|by apply IHr].
  - rewrite lookup_alter_ne by done. rewrite E. unfold node_of. rewrite !root_ptr_set_item. split; [done|].
    split; [by apply IHl|by apply IHr].
Qed.

(** The key of a node changes with its interval. *)
Lemma set_data_ok s t b iv :
  tree_ok s t -> StronglySorted below_key (map (update_item b iv) (items t)) ->
  tree_ok (set_memory (alter (set_data iv.1 iv) b) s) (set_item b iv t).
Proof.
  intros [Ht Hk Hnd Hs] Hsort. destruct s as [m root n]. cbn [t_memory t_root] in *.
  unfold path_blocks in Hnd. simpl in Hnd. rewrite app_nil_r in Hnd. split; simpl.
  - by apply in_memory_set_item.
  - simpl in Hk. by rewrite root_ptr_set_item.
  - unfold path_blocks. simpl. rewrite app_nil_r. unfold tree_blocks. by rewrite items_set_item, blocks_update.
  - by rewrite app_nil_r, items_set_item.
Qed.

Lemma tree_ok_alter s t f b : b ∉ tree_blocks t -> tree_ok s t -> tree_ok (set_memory (alter f b) s) t.
Proof. intros Hb [Ht Hk Hnd Hs]. destruct s as [m root n]. split; simpl; [by apply in_memory_alter|done..]. Qed.

Lemma tree_item s t i : tree_ok s t -> i ∈ items t -> data (t_memory s) i.1 = Some (key i, i.2).
Proof.
  intros [Ht _ _ _]. revert Ht. generalize (parent_ptr []). induction t as [|l IHl j h r IHr]; intros p; simpl.
  - by intros _ ?%elem_of_nil.
  - intros (E & Hl & Hr) [Hi|[-> |Hi]%elem_of_cons]%elem_of_app; [by eapply IHl| |by eapply IHr].
    unfold data. by rewrite E.
Qed.

(** The data of the successor are moved to the node. *)
Lemma runs_swap s s0 i j l1 l2 :
  settled_as (l1 ++ i :: l2) s0 s -> data (t_memory s) j.1 = Some (key j, j.2) -> j.1 ∉ blocks (l1 ++ i :: l2) ->
  StronglySorted below_key (l1 ++ (i.1, j.2) :: l2) ->
  runs (swap_nodes (Some i.1) (Some j.1)) s (fun _ s' =>
    exists t', tree_ok s' t' /\ avl t' /\ items t' = l1 ++ (i.1, j.2) :: l2 /\ t_size s' = t_size s0).
Proof.
  intros (t & Ht & Havl & Hit & Hn & _) Hj Hjb Hs.
  assert (Hi : data (t_memory s) i.1 = Some (key i, i.2)).
  { eapply tree_item; [exact Ht|]. rewrite Hit. set_solver. }
  assert (Hij : i.1 <> j.1).
  { intros E. apply Hjb. rewrite <- E. apply list_elem_of_fmap. exists i. split; [done|set_solver]. }
  assert (Hnd : NoDup (blocks (l1 ++ i :: l2))).
  { destruct Ht as [_ _ Hnd _]. unfold path_blocks in Hnd. simpl in Hnd. rewrite app_nil_r in Hnd.
    unfold tree_blocks in Hnd. by rewrite Hit in Hnd. }
  unfold data in Hi, Hj. apply fmap_Some in Hi as (ni & Ei & [= Hki Hii]). apply fmap_Some in Hj as (nj & Ej & [= Hkj Hji]).
  unfold swap_nodes. apply runs_bind. eapply runs_deref; [exact Ei|]. apply runs_bind. eapply runs_deref; [exact Ej|].
  apply runs_bind. eapply runs_write; [exact Ei|].
  eapply runs_write; [unfold set_memory; cbn [t_memory]; by rewrite lookup_alter_ne|].
  assert (Eit : map (update_item i.1 j.2) (items t) = l1 ++ (i.1, j.2) :: l2).
  { rewrite Hit. destruct i as [b iv]. by apply update_item_split. }
  exists (set_item i.1 j.2 t). split; [|split; [by apply avl_set_item|split; [by rewrite items_set_item|done]]].
  apply tree_ok_alter.
  - unfold tree_blocks. rewrite items_set_item, blocks_update. by rewrite Hit.
  - rewrite <- Hkj, <- Hji. apply set_data_ok; [done|]. by rewrite Eit.
Qed.

Lemma successor_facts before after (i j : Item) :
  NoDup (blocks (before ++ i :: j :: after)) -> StronglySorted below_key (before ++ i :: j :: after) ->
  (j.1 ∉ blocks (before ++ i :: after)) /\ StronglySorted below_key (before ++ (i.1, j.2) :: after).
Proof.
  unfold blocks. rewrite !fmap_app. simpl. intros Hnd Hs. split.
  - rewrite (cons_middle i.1), (assoc_L app), <- Permutation_middle in Hnd.
    apply NoDup_cons in Hnd as [Hj _]. by rewrite <- (assoc_L app) in Hj.
  - apply StronglySorted_app in Hs as (Hb & Hsb & [_ [Hj Ha]%StronglySorted_cons]%StronglySorted_cons).
    apply StronglySorted_app. split; [|split; [done|by apply StronglySorted_cons]].
    intros x y Hx [-> |Hy]%elem_of_cons; [apply (Hb x j); [done|right; left]|apply Hb; [done|by do 2 right]].
Qed.

Lemma remove_both fuel s l i h r k :
  pos_ok s (Br l i h r) k -> avl (fill (Br l i h r) k) -> l <> Leaf -> r <> Leaf ->
  runs (remove_loop (S (S fuel)) (Some i.1)) s (fun p s' =>
    exists j rest t', items r = j :: rest /\ p = Some j.1 /\ tree_ok s' t' /\ avl t' /\ t_size s' = t_size s /\
      items t' = (items_before k ++ items l) ++ (i.1, j.2) :: rest ++ items_after k).
Proof.
  intros Hpos Havl Hl Hr. pose proof (down_right _ _ _ _ _ _ Hpos) as Hposr.
  destruct (min_spec (tree_fuel s) s r (InRight l i h :: k) Hposr Hr)
    as (j & hj & rj & k' & rest & Emin & Hpj & Hfill & Hbef & Er & Haft).
  { pose proof (path_fuel _ _ _ Hposr). lia. }
  destruct (Hpos) as [(E & _) _ Hnd Hs]. cbn [remove_loop].
  apply runs_bind. eapply runs_deref; [exact E|]. cbn [n_left n_right node_of].
  destruct l as [|ll li lh lr]; [done|]. destruct r as [|rl ri rh rr]; [done|]. cbn [root_ptr].
  apply runs_bind. exists (Some j.1), s. split; [exact Emin|].
  apply runs_bind. eapply runs_mono; [apply (remove_no_left fuel s j hj rj k' Hpj)|].
  { rewrite Hfill. exact Havl. }
  intros p s1 [-> Hs1]. apply runs_bind, runs_assert; [by apply bool_decide_eq_true|].
  set (l := Br ll li lh lr) in *. set (r := Br rl ri rh rr) in *.
  assert (Eall : remaining Leaf rj k' = (items_before k ++ items l) ++ i :: rest ++ items_after k).
  { unfold remaining. rewrite Hbef. simpl. simpl in Haft. rewrite <- Haft, <- !(assoc_L app). done. }
  assert (Eold : items (fill (Br l i h r) k) = (items_before k ++ items l) ++ i :: j :: rest ++ items_after k).
  { rewrite items_fill. cbn [items]. rewrite Er, <- !(assoc_L app). done. }
  pose proof (proj2 (pos_fill _ _ _) Hpos) as [_ _ Hndf Hsf]. simpl in Hsf. unfold path_blocks in Hndf. simpl in Hndf.
  rewrite app_nil_r in Hndf, Hsf. unfold tree_blocks in Hndf. rewrite Eold in Hndf, Hsf. clear Eold.
  set (before := items_before k ++ items l) in *. set (after := rest ++ items_after k) in *.
  rewrite Eall in Hs1.
  apply runs_bind. eapply runs_mono; [apply (runs_swap s1 s i j before after Hs1)|].
  - destruct Hs1 as (_ & _ & _ & _ & _ & Hdata). rewrite Hdata. destruct Hpj as [(Ej & _) _ _ _].
    unfold data. by rewrite Ej.
  - by apply (successor_facts before after i j).
  - by apply (successor_facts before after i j).
  - intros [] s' (t' & ? & ? & ? & ?). apply runs_ret. exists j, rest, t'. done.
Qed.

(** ** Removing a node *)

Lemma items_unique (l1 l2 l3 l4 : list Item) i j :
  NoDup (blocks (l1 ++ i :: l2)) -> l1 ++ i :: l2 = l3 ++ j :: l4 -> i.1 = j.1 -> l1 = l3 /\ i = j /\ l2 = l4.
Proof.
  unfold blocks. revert l3. induction l1 as [|x l1 IH]; intros [|y l3]; simpl; intros Hnd [= -> E] Hij.
  - done.
  - apply NoDup_cons in Hnd as [Hn _]. destruct Hn. rewrite Hij, E, fmap_app. simpl. set_solver.
  - apply NoDup_cons in Hnd as [Hn _]. destruct Hn. rewrite <- Hij, fmap_app. simpl. set_solver.
  - apply NoDup_cons in Hnd as [_ Hnd]. by destruct (IH l3 Hnd E Hij) as (-> & -> & ->).
Qed.

Lemma locate t i k : i ∈ items t -> exists l h r k', fill t k = fill (Br l i h r) k'.
Proof.
  revert k. induction t as [|l IHl j h r IHr]; intros k; simpl; [by intros ?%elem_of_nil|].
  intros [Hi|[-> |Hi]%elem_of_cons]%elem_of_app.
  - apply (IHl (InLeft j h r :: k) Hi).
  - by exists l, h, r, k.
  - apply (IHr (InRight l j h :: k) Hi).
Qed.

Lemma locate_split t F1 i F2 :
  items t = F1 ++ i :: F2 -> NoDup (tree_blocks t) ->
  exists l h r k, t = fill (Br l i h r) k /\ F1 = items_before k ++ items l /\ F2 = items r ++ items_after k.
Proof.
  intros E Hnd. destruct (locate t i []) as (l & h & r & k & Ef); [rewrite E; set_solver|]. simpl in Ef.
  exists l, h, r, k. split; [done|]. unfold tree_blocks in Hnd. rewrite E in Hnd.
  subst t. rewrite items_fill in E. simpl in E. rewrite <- (assoc_L app), (assoc_L app) in E. simpl in E.
  symmetry in E. by destruct (items_unique _ _ _ _ _ _ Hnd E eq_refl) as (-> & _ & ->).
Qed.

Lemma holds_blocks s l : holds s l -> NoDup (blocks l) /\ StronglySorted below_key l.
Proof.
  intros (t & [_ _ Hnd Hs] & _ & <- & _). unfold path_blocks in Hnd. simpl in Hnd, Hs.
  by rewrite app_nil_r in Hnd, Hs.
Qed.

Lemma removed_lists b iv l r k :
  (remaining l r k).*2 = (items_before k ++ items l).*2 ++ (items r ++ items_after k).*2 /\
  b :: blocks (remaining l r k) ≡ₚ blocks ((items_before k ++ items l) ++ (b, iv) :: items r ++ items_after k).
Proof.
  unfold remaining, blocks. rewrite !fmap_app. simpl. rewrite !fmap_app, <- !(assoc_L app). split; [done|].
  solve_Permutation.
Qed.

Lemma IntervalTree_remove_runs s F1 b iv F2 :
  holds s (F1 ++ (b, iv) :: F2) -> Z.of_nat (length (F1 ++ (b, iv) :: F2)) < 2 ^ 32 ->
  runs (IntervalTree_remove (Some b)) s (fun p s' => exists b' l,
    p = Some b' /\ holds s' l /\ l.*2 = F1.*2 ++ F2.*2 /\ b' :: blocks l ≡ₚ blocks (F1 ++ (b, iv) :: F2)).
Proof.
  intros Hholds Hlen. pose proof (holds_blocks _ _ Hholds) as [Hnd _].
  destruct Hholds as (t & Ht & Havl & Hit & Hn). unfold IntervalTree_remove. apply runs_bind, runs_modify.
  rewrite <- Hit in Hnd. destruct (locate_split t F1 (b, iv) F2 Hit Hnd) as (l & h & r & k & -> & -> & ->).
  set (s1 := set_tree_size (wrap32 (t_size s - 1)) s).
  assert (Hp : pos_ok s1 (Br l (b, iv) h r) k) by (apply pos_fill; by destruct Ht).
  assert (Hsz : t_size s1 = Z.of_nat (length (remaining l r k))).
  { subst s1. simpl. rewrite Hn in *. unfold remaining. rewrite !length_app in *. simpl in *. rewrite !length_app in *.
    rewrite wrap_id by (unfold is_word; lia). lia. }
  unfold removeFromTree. destruct (decide (l = Leaf)) as [-> |Hl]; [|destruct (decide (r = Leaf)) as [-> |Hr]].
  - eapply runs_mono; [apply (remove_no_left _ _ (b, iv) h r k Hp Havl)|].
    intros p s' [-> (t' & Ht' & Havl' & Hit' & Hn' & _)]. exists b, (remaining Leaf r k). split; [done|].
    split; [exists t'; rewrite Hn'; by repeat (split; [done|])|]. by apply removed_lists.
  - eapply runs_mono; [apply (remove_no_right _ _ l (b, iv) h k Hp Havl Hl)|].
    intros p s' [-> (t' & Ht' & Havl' & Hit' & Hn' & _)]. exists b, (remaining l Leaf k). split; [done|].
    split; [exists t'; rewrite Hn'; by repeat (split; [done|])|]. by apply removed_lists.
  - eapply runs_mono; [apply (remove_both _ _ l (b, iv) h r k Hp Havl Hl Hr)|].
    intros p s' (j & rest & t' & Er & -> & Ht' & Havl' & Hn' & Hit'). exists j.1. eexists. split; [done|].
    split; [exists t'; split; [done|split; [done|split; [exact Hit'|]]]|].
    + rewrite Hn', Hsz. unfold remaining. rewrite Er, !length_app. simpl. rewrite !length_app. lia.
    + rewrite Er. unfold blocks. rewrite !fmap_app. simpl. rewrite !fmap_app. split; [done|]. solve_Permutation.
Qed.

(** ** The interval of a node is changed *)

Lemma runs_set_interval s F1 b old F2 iv (Q : unit -> IntervalTree -> Prop) :
  holds s (F1 ++ (b, old) :: F2) -> StronglySorted below_key (F1 ++ (b, iv) :: F2) ->
  (forall s', holds s' (F1 ++ (b, iv) :: F2) -> t_root s' = t_root s -> t_size s' = t_size s -> Q tt s') ->
  runs (write_node (Some b) (set_data iv.1 iv)) s Q.
Proof.
  intros Hh Hs HQ. pose proof (holds_blocks _ _ Hh) as [Hnd _]. destruct Hh as (t & Ht & Havl & Hit & Hn).
  assert (Hb : data (t_memory s) b = Some (old.1, old)) by (apply (tree_item s t (b, old) Ht); rewrite Hit; set_solver).
  unfold data in Hb. apply fmap_Some in Hb as (n & En & _). eapply runs_write; [exact En|].
  assert (Eit : map (update_item b iv) (items t) = F1 ++ (b, iv) :: F2) by (rewrite Hit; by apply update_item_split).
  apply HQ; [|done..]. exists (set_item b iv t). split; [apply set_data_ok; [done|by rewrite Eit]|].
  split; [by apply avl_set_item|]. split; [by rewrite items_set_item|].
  simpl. rewrite Hn, !length_app. done.
Qed.

(** ** Search *)

Section search.
Context (min : Z) (Hmin : 1 <= min) (x p : Z) (Hx : 0 <= x) (Hp : 0 < p) (Hxp : x + p < 2 ^ 64).

(** The block of the first interval with room for [p] from [x]. *)
Definition first_block (l : list Item) : Ptr := fst <$> head (filter (fun i => fits x p i.2) l).

Lemma first_block_app l1 l2 :
  first_block (l1 ++ l2) = match first_block l1 with Some b => Some b | None => first_block l2 end.
Proof. unfold first_block. rewrite filter_app. by destruct (filter _ l1). Qed.
Lemma first_block_cons i l :
  first_block (i :: l) = if decide (fits x p i.2) then Some i.1 else first_block l.
Proof. unfold first_block. rewrite filter_cons. by case_decide. Qed.
Lemma first_block_none l : (forall i, i ∈ l -> ~ fits x p i.2) -> first_block l = None.
Proof.
  intros Hl. unfold first_block. by rewrite filter_none by (by apply Forall_forall).
Qed.

Lemma search_spec fuel lo s par t :
  in_memory (t_memory s) par t -> ordered min lo (items t).*2 -> -1 <= lo -> (length (tree_blocks t) <= fuel)%nat ->
  search_loop fuel (x, x + p) (root_ptr t) s = Ok (first_block (items t), s).
Proof.
  revert fuel par lo. induction t as [|l IHl i h r IHr]; intros fuel par lo; [by destruct fuel|].
  intros (E & Hl & Hr) Ho Hlo Hf. rewrite tree_blocks_br in Hf. simpl in Hf. rewrite length_app in Hf.
  destruct fuel as [|fuel]; [lia|]. cbn [items] in *. rewrite fmap_app in Ho.
  apply (ordered_app min Hmin) in Ho as (Hol & Ho & Hsep). simpl in Ho, Hsep.
  assert (Hleft : forall j, j ∈ items l -> j.2.2 < i.2.1).
  { intros j Hj. apply (Hsep j.2 i.2); [by apply list_elem_of_fmap_2|left]. }
  cbn [search_loop root_ptr]. rewrite (st_bind_run _ _ _ _ _ (deref_run _ _ _ E)).
  cbn [n_interval n_left n_right node_of]. destruct i as [bi [a b]]. cbn [fst snd] in *.
  destruct Ho as (Hloa & Hab & Hbm & Hor). unfold UINT64_MAX in Hbm. rewrite first_block_app, first_block_cons. cbn [fst snd].
  destruct (Z.leb_spec a x) as [Hax|Hax]; [destruct (Z.leb_spec (x + p) b) as [Hb|Hb]|]; cbn [andb].
  - rewrite first_block_none; [by rewrite decide_True by (unfold fits; simpl; lia)|].
    intros j Hj Hfit. specialize (Hleft j Hj). unfold fits in Hfit. lia.
  - rewrite first_block_none; [|intros j Hj Hfit; specialize (Hleft j Hj); unfold fits in Hfit; lia].
    rewrite (proj2 (Z.ltb_ge (x + p) a)), (proj2 (Z.ltb_ge x a)), decide_False by (unfold fits; simpl; lia).
    rewrite ret_run. cbn [andb]. eapply (IHr fuel _ b); [done..|lia|lia].
  - destruct (Z.ltb_spec (x + p) a) as [Hlt|Hge].
    + rewrite (st_bind_run _ _ _ _ _ (IHl fuel _ lo Hl Hol Hlo ltac:(lia))).
      destruct (first_block (items l)); [done|]. cbv beta iota. rewrite !wrap_id by (unfold is_word; lia).
      rewrite (proj2 (Z.ltb_lt _ _)) by lia. cbn [andb].
      destruct (Z.leb_spec (x + p - x) (b - a)); [by rewrite decide_True by (unfold fits; simpl; lia)|].
      rewrite decide_False by (unfold fits; simpl; lia). eapply (IHr fuel _ b); [done..|lia|lia].
    + rewrite first_block_none; [|intros j Hj Hfit; specialize (Hleft j Hj); unfold fits in Hfit; lia].
      rewrite ret_run, !wrap_id by (unfold is_word; lia). rewrite (proj2 (Z.ltb_lt _ _)) by lia. cbn [andb].
      destruct (Z.leb_spec (x + p - x) (b - a)); [by rewrite decide_True by (unfold fits; simpl; lia)|].
      rewrite decide_False by (unfold fits; simpl; lia). eapply (IHr fuel _ b); [done..|lia|lia].
Qed.

Lemma IntervalTree_search_run s l :
  holds s l -> ordered min (-1) l.*2 -> IntervalTree_search (x, x + p) s = Ok (first_block l, s).
Proof.
  intros (t & Ht & _ & <- & _) Ho. unfold IntervalTree_search. rewrite gets_run.
  assert (Hroot : t_root s = root_ptr t) by (by destruct Ht). rewrite Hroot. unfold searchTree. rewrite gets_run.
  eapply search_spec; [by destruct Ht|done|lia|]. pose proof (fuel_enough s t Ht). lia.
Qed.
End search.

(** ** The contract of the tree *)

Fixpoint depth (t : tree) : Z :=
  match t with Leaf => 0 | Br l _ _ r => Z.max (depth l) (depth r) + 1 end.

Lemma avl_depth t : avl t -> stored t = depth t.
Proof. induction t as [|l IHl i h r IHr]; [done|]. intros (-> & _ & Hl & Hr). simpl. by rewrite IHl, IHr. Qed.

(** The height is at most twice the logarithm of the size. *)
Lemma avl_height t : avl t -> 2 ^ stored t <= (Z.of_nat (length (items t)) + 1) ^ 2.
Proof.
  induction t as [|l IHl i h r IHr]; intros Ht; [done|]. destruct Ht as (-> & Hb & Hl & Hr).
  pose proof (avl_pos l Hl). pose proof (avl_pos r Hr). specialize (IHl Hl). specialize (IHr Hr).
  cbn [stored items]. rewrite length_app. cbn [length].
  set (A := Z.of_nat (length (items l)) + 1) in *. set (B := Z.of_nat (length (items r)) + 1) in *.
  replace (Z.of_nat (length (items l) + S (length (items r))) + 1) with (A + B) by lia.
  rewrite Z.pow_add_r by lia. assert (0 < A /\ 0 < B) as [HA HB] by lia.
  assert (Hhalf : forall x y u v, 0 < u -> 0 < v -> 0 <= y <= x -> x <= y + 1 ->
    2 ^ x <= u ^ 2 -> 2 ^ y <= v ^ 2 -> 2 ^ x * 2 <= (u + v) ^ 2).
  { clear. intros x y u v Hu Hv Hy Hx Hxu Hyv.
    assert (Hxy : 2 ^ x <= 2 * 2 ^ y) by (rewrite <- Z.pow_succ_r by lia; apply Z.pow_le_mono_r; lia).
    assert (Hp : 0 < 2 ^ y) by (apply Z.pow_pos_nonneg; lia).
    assert (Hyx : 2 ^ y <= 2 ^ x) by (apply Z.pow_le_mono_r; lia).
    assert (Hprod : 2 ^ y <= u * v) by nia. nia. }
  destruct (Z.max_spec (stored l) (stored r)) as [[? ->]|[? ->]].
  - rewrite (Z.add_comm A B). apply (Hhalf _ (stored l)); done || lia.
  - apply (Hhalf _ (stored r)); done || lia.
Qed.

(** C23: the interval tree keeps its nodes as a balanced search tree in
    memory, and its operations are those of a sorted list of intervals.
    Inserting a fresh block puts its interval in its place; removing a block
    takes its interval out and returns a block that is then no longer in use
    (the successor's, when the node has two children); a search answers the
    first interval with room.  The tree is at most twice as deep as the
    logarithm of the number of its nodes (plus one).  No operation uses a null
    pointer or fails an assertion, and none runs out of fuel. *)
Theorem IntervalTree_refines_list s l :
  holds s l -> Z.of_nat (length l) < 2 ^ 32 - 1 ->
  (exists t, tree_ok s t /\ items t = l /\ 2 ^ depth t <= (Z.of_nat (length l) + 1) ^ 2) /\
  (forall b iv, l <> [] -> t_memory s !! b = Some (Node_initialize iv) -> b ∉ blocks l -> iv.1 ∉ map key l ->
     runs (IntervalTree_insert (Some b)) s (fun _ s' => holds s' (insert_item (b, iv) l))) /\
  (forall F1 b iv F2, l = F1 ++ (b, iv) :: F2 ->
     runs (IntervalTree_remove (Some b)) s (fun p s' => exists b' l',
       p = Some b' /\ holds s' l' /\ l'.*2 = F1.*2 ++ F2.*2 /\ b' :: blocks l' ≡ₚ blocks l)) /\
  (forall min x p, 1 <= min -> ordered min (-1) l.*2 -> 0 <= x -> 0 < p -> x + p < 2 ^ 64 ->
     IntervalTree_search (x, x + p) s = Ok (fst <$> head (filter (fun i => fits x p i.2) l), s)).
Proof.
  intros Hh Hlen. split; [|split; [|split]].
  - destruct Hh as (t & Ht & Havl & Hit & _). exists t. split; [done|]. split; [done|].
    rewrite <- (avl_depth t Havl), <- Hit. by apply avl_height.
  - intros b iv Hne Eb Hb Hkey. by apply IntervalTree_insert_runs.
  - intros F1 b iv F2 ->. apply IntervalTree_remove_runs; [done|lia].
  - intros min x p Hmin Ho Hx Hp Hxp. by apply (IntervalTree_search_run min).
Qed.

(** A tree of one node, and a second block. *)
Definition two_blocks : IntervalTree :=
  mkTree (<[0 := Node_initialize (20, 30)]> {[1 := Node_initialize (5, 8)]}) (Some 0) 1.

Lemma two_blocks_holds : holds two_blocks [(0, (20, 30))].
Proof.
  exists (Br Leaf (0, (20, 30)) 1 Leaf). split; [split; simpl|by repeat split].
  - by repeat split.
  - done.
  - unfold tree_blocks, path_blocks, blocks. simpl. apply NoDup_singleton.
  - repeat constructor.
Qed.

Lemma IntervalTree_refines_list_witness :
  holds two_blocks [(0, (20, 30))] /\
  runs (IntervalTree_insert (Some 1)) two_blocks (fun _ s' => holds s' [(1, (5, 8)); (0, (20, 30))]).
Proof.
  split; [apply two_blocks_holds|].
  destruct (IntervalTree_refines_list two_blocks [(0, (20, 30))] two_blocks_holds ltac:(simpl; lia)) as (_ & Hins & _).
  apply (Hins 1 (5, 8)).
  - discriminate.
  - reflexivity.
  - simpl. intros [H|H]%elem_of_cons; [discriminate H|by apply elem_of_nil in H].
  - simpl. intros [H|H]%elem_of_cons; [discriminate H|by apply elem_of_nil in H].
Defined.
