(* ===== verification/HistoryTree.v ===== *)
(** * The history tree: common/shared_models/queue_models/queue_model_history_tree.{h,cc}

    The queue model the configuration selects by default.  Like the history
    list it keeps the intervals in which the port is free, here in an
    [IntervalTree] whose nodes come from a pool of [_max_free_interval_size]
    blocks.  The pool ([_memory_blocks]) is the memory of the tree. *)

From S2P Require Import Prelude QueueModel IntervalTree.

Record QueueModelHistoryTree : Type := mkHT {
  ht_min_processing_time : Z;
  ht_max_size : Z;                       (* _max_free_interval_size *)
  ht_analytical_enabled : bool;
  ht_free_list : list Z;                 (* _free_memory_block_list *)
  ht_tail : Z;                           (* _free_memory_block_list_tail *)
  ht_tree : IntervalTree;                (* _interval_tree, _memory_blocks *)
  ht_mg1 : QueueModelMG1;
  ht_analytical_requests : Z;
  ht_counters : QueueCounters }.

Definition set_ht_tree (t : IntervalTree) (q : QueueModelHistoryTree) : QueueModelHistoryTree :=
  mkHT (ht_min_processing_time q) (ht_max_size q) (ht_analytical_enabled q) (ht_free_list q) (ht_tail q)
    t (ht_mg1 q) (ht_analytical_requests q) (ht_counters q).
Definition set_pool (l : list Z) (tail : Z) (q : QueueModelHistoryTree) : QueueModelHistoryTree :=
  mkHT (ht_min_processing_time q) (ht_max_size q) (ht_analytical_enabled q) l tail
    (ht_tree q) (ht_mg1 q) (ht_analytical_requests q) (ht_counters q).
Definition set_statistics (m : QueueModelMG1) (n : Z) (c : QueueCounters) (q : QueueModelHistoryTree) :
    QueueModelHistoryTree :=
  mkHT (ht_min_processing_time q) (ht_max_size q) (ht_analytical_enabled q) (ht_free_list q) (ht_tail q)
    (ht_tree q) m n c.

(** A call of a method of the tree. *)
Definition on_tree {A} (m : ST IntervalTree A) : ST QueueModelHistoryTree A := on_part ht_tree set_ht_tree m.

(** ** The pool of nodes *)

Definition allocateMemory (n : Z) : gmap Z Node * list Z * Z :=
  (list_to_map (map (fun i => (i, Node_new)) (seqZ 0 n)), seqZ 0 n, n - 1).

Definition allocateNode (interval : Interval) : ST QueueModelHistoryTree Ptr :=
  q ← gets id;
  _ ← lift (log_assert (0 <=? ht_tail q));
  free_index ← lift (vec_get (ht_free_list q) (ht_tail q));
  _ ← lift (if (0 <=? free_index) && (free_index <? ht_max_size q) then Ok tt else Err OutOfRange);
  _ ← on_tree (modify (set_memory <[free_index := Node_initialize interval]>));
  _ ← modify (set_pool (ht_free_list q) (ht_tail q - 1));
  mret (Some free_index).

Definition releaseNode (node : Ptr) : ST QueueModelHistoryTree unit :=
  match node with
  | None => stop NullDeref
  | Some index =>
    q ← gets id;
    _ ← lift (assert_c ((0 <=? index) && (index <? ht_max_size q)));
    let tail := ht_tail q + 1 in
    _ ← lift (log_assert (tail <? ht_max_size q));
    l ← lift (vec_set (ht_free_list q) tail index);
    modify (set_pool l tail)
  end.

Definition QueueModelHistoryTree_new (min_processing_time max_size : Z) (analytical : bool) :
    result QueueModelHistoryTree :=
  let '(memory, free, tail) := allocateMemory max_size in
  '(start_node, q) ← allocateNode (0, UINT64_MAX)
    (mkHT min_processing_time max_size analytical free tail (IntervalTree_new memory None)
       QueueModelMG1_new 0 QueueCounters_new);
  Ok (set_ht_tree (IntervalTree_new (t_memory (ht_tree q)) start_node) q).

(** ** A request *)

(** [node->interval.second = t], and [node->interval.first = t; node->key = t]. *)
Definition set_second (t : Z) (n : Node) : Node := set_data (n_key n) ((n_interval n).1, t) n.
Definition set_first (t : Z) (n : Node) : Node := set_data t (t, (n_interval n).2) n.

Definition remove_and_release (node : Ptr) : ST QueueModelHistoryTree unit :=
  removed ← on_tree (IntervalTree_remove node); releaseNode removed.

(** The tree is pruned when it has grown too large. *)
Definition prune_tree : ST QueueModelHistoryTree unit :=
  min_node ← on_tree (IntervalTree_search (0, 1));
  q ← gets id;
  when (wrap32 (ht_max_size q) <=? t_size (ht_tree q)) (remove_and_release min_node).

(** The packet is given a slot in the interval of [node]. *)
Definition serve_in_node (node : Ptr) (pkt_time processing_time : Z) : ST QueueModelHistoryTree Z :=
  min ← gets ht_min_processing_time;
  n ← on_tree (deref_node node);
  let '(first, second) := n_interval n in
  let next := wrap64 (pkt_time + processing_time) in
  _ ← lift (assert_c (next <=? second));
  if first <=? pkt_time then
    _ ← (if min <=? wrap64 (pkt_time - first) then
           _ ← when (min <=? wrap64 (second - next))
                 (next_node ← allocateNode (next, second); on_tree (IntervalTree_insert next_node));
           on_tree (write_node node (set_second pkt_time))
         else if min <=? wrap64 (second - next) then on_tree (write_node node (set_first next))
         else remove_and_release node);
    mret 0
  else
    let end_ := wrap64 (first + processing_time) in
    _ ← (if min <=? wrap64 (second - end_) then on_tree (write_node node (set_first end_))
         else remove_and_release node);
    mret (wrap64 (first - pkt_time)).

Section history_tree.
Context (waiting : QueueModelMG1 -> Z).

Definition ht_delay (pkt_time processing_time : Z) : ST QueueModelHistoryTree Z :=
  _ ← prune_tree;
  min_node ← on_tree (IntervalTree_search (0, 1));
  q ← gets id;
  analytical ←
    (if ht_analytical_enabled q then
       n ← on_tree (deref_node min_node);
       mret (wrap64 (pkt_time + processing_time) <? (n_interval n).1)
     else mret false);
  if analytical : bool then
    _ ← modify (set_statistics (ht_mg1 q) (wrap64 (ht_analytical_requests q + 1)) (ht_counters q));
    lift (mg1_computeQueueDelay waiting (ht_mg1 q) processing_time)
  else
    node ← on_tree (IntervalTree_search (pkt_time, wrap64 (pkt_time + processing_time)));
    _ ← lift (log_assert (bool_decide (is_Some node)));
    serve_in_node node pkt_time processing_time.

Definition ht_computeQueueDelay (pkt_time processing_time : Z) : ST QueueModelHistoryTree Z :=
  queue_delay ← ht_delay pkt_time processing_time;
  _ ← lift (assert_c (negb (queue_delay =? UINT64_MAX)));
  q ← gets id;
  _ ← modify (set_statistics (mg1_updateQueue pkt_time processing_time queue_delay (ht_mg1 q))
                (ht_analytical_requests q)
                (updateQueueUtilizationCounters pkt_time processing_time queue_delay (ht_counters q)));
  mret queue_delay.
End history_tree.
