(* ===== verification/HistoryTreeThm.v ===== *)
(** * The history tree behaves like the history list

    The tree drops its oldest interval before a request when all its blocks
    are in use, the list after a request.  Otherwise they agree: a tree of
    [M] blocks computes the same delays as a list of at most [M - 1]
    intervals. *)

From stdpp Require Import sorting.
From S2P Require Import Prelude QueueModel QueueThm IntervalTree TreeShape IntervalTreeThm HistoryTree.

(** ** The pool *)

(** The blocks that are in use and those in the free list are all the blocks. *)
Record pool_ok (q : QueueModelHistoryTree) (used : list Z) : Prop := {
  pk_length : Z.of_nat (length (ht_free_list q)) = ht_max_size q;
  pk_tail : ht_tail q = ht_max_size q - 1 - Z.of_nat (length used);
  pk_blocks : used ++ take (Z.to_nat (ht_tail q + 1)) (ht_free_list q) ≡ₚ seqZ 0 (ht_max_size q) }.

Lemma pool_used q used b : pool_ok q used -> b ∈ used -> 0 <= b < ht_max_size q.
Proof.
  intros [_ _ Hb] Hin. assert (b ∈ seqZ 0 (ht_max_size q)) as Hs%elem_of_seqZ; [|lia].
  rewrite <- Hb. apply elem_of_app. by left.
Qed.

Lemma pool_nodup q used : pool_ok q used -> NoDup used.
Proof. intros [_ _ Hb]. pose proof (NoDup_seqZ 0 (ht_max_size q)) as Hnd. rewrite <- Hb in Hnd. by apply NoDup_app in Hnd as (? & _ & _). Qed.

Lemma pool_set_tree t q used : pool_ok (set_ht_tree t q) used <-> pool_ok q used.
Proof. split; intros [? ? ?]; by split. Qed.
Lemma pool_permutation q u u' : u ≡ₚ u' -> pool_ok q u -> pool_ok q u'.
Proof. intros Hu [? Ht Hb]. split; [done|by rewrite <- Hu|by rewrite <- Hu]. Qed.

Lemma take_S_free (l : list Z) (t : Z) b : 0 <= t -> l !! Z.to_nat t = Some b ->
  take (Z.to_nat (t + 1)) l = take (Z.to_nat t) l ++ [b].
Proof. intros Ht Hb. rewrite Z2Nat.inj_add, Nat.add_1_r by lia. by apply take_S_r. Qed.

(** A free block is taken. *)
Lemma runs_allocate q used iv (Q : Ptr -> QueueModelHistoryTree -> Prop) :
  pool_ok q used -> Z.of_nat (length used) < ht_max_size q ->
  (forall b, b ∉ used -> let q' := set_pool (ht_free_list q) (ht_tail q - 1)
       (set_ht_tree (set_memory <[b := Node_initialize iv]> (ht_tree q)) q) in
     pool_ok q' (b :: used) -> Q (Some b) q') ->
  runs (allocateNode iv) q Q.
Proof.
  intros Hpool Hlt HQ. pose proof Hpool as [Hlen Htail Hb].
  destruct (lookup_lt_is_Some_2 (ht_free_list q) (Z.to_nat (ht_tail q))) as [b Eb]; [lia|].
  pose proof (take_S_free (ht_free_list q) (ht_tail q) b ltac:(lia) Eb) as Htake.
  assert (Hnew : b :: used ++ take (Z.to_nat (ht_tail q)) (ht_free_list q) ≡ₚ seqZ 0 (ht_max_size q)).
  { rewrite <- Hb, Htake. solve_Permutation. }
  pose proof (NoDup_seqZ 0 (ht_max_size q)) as Hnd. rewrite <- Hnew in Hnd. apply NoDup_cons in Hnd as [Hbu _].
  assert (Hrange : b ∈ seqZ 0 (ht_max_size q)) by (rewrite <- Hnew; left). apply elem_of_seqZ in Hrange.
  assert (Hin : (0 <=? b) && (b <? ht_max_size q) = true)
    by (apply andb_true_intro; split; [apply Z.leb_le|apply Z.ltb_lt]; lia).
  unfold allocateNode.
  cbn beta iota. apply runs_bind, runs_gets. cbn beta iota. unfold id. apply runs_bind, runs_log_assert; [apply Z.leb_le; lia|].
  apply runs_bind. eapply runs_lift; [apply vec_get_ok; split; [unfold id; lia|exact Eb]|].
  apply runs_bind. eapply runs_lift; [unfold id; by rewrite Hin|].
  apply runs_bind, runs_part, runs_modify.
  apply runs_bind, runs_modify, runs_ret. apply HQ; [set_solver|].
  split; simpl; [done|lia|]. replace (ht_tail q - 1 + 1) with (ht_tail q) by lia. exact Hnew.
Qed.

(** A block is given back. *)
Lemma runs_release q used b (Q : unit -> QueueModelHistoryTree -> Prop) :
  pool_ok q (b :: used) ->
  (forall l, let q' := set_pool l (ht_tail q + 1) q in pool_ok q' used -> Q tt q') ->
  runs (releaseNode (Some b)) q Q.
Proof.
  intros Hpool HQ. pose proof (pool_used _ _ b Hpool ltac:(left)) as Hrange. destruct Hpool as [Hlen Htail Hb].
  assert (Hused : Z.of_nat (length used) < ht_max_size q).
  { apply Permutation_length in Hb. rewrite length_app, length_seqZ in Hb. simpl in Hb. lia. }
  simpl in Htail. assert (Htl : 0 <= ht_tail q + 1 < Z.of_nat (length (ht_free_list q))).
  { apply Permutation_length in Hb. rewrite length_app, length_seqZ in Hb. simpl in Hb. lia. }
  unfold releaseNode. apply runs_bind, runs_gets. apply runs_bind, runs_assert.
  { apply andb_true_intro. split; [apply Z.leb_le|apply Z.ltb_lt]; unfold id; lia. }
  apply runs_bind, runs_log_assert; [apply Z.ltb_lt; unfold id; lia|].
  apply runs_bind. eapply runs_lift; [by apply vec_set_eq|]. apply runs_modify, HQ. split; simpl.
  - by rewrite length_insert.
  - lia.
  - unfold id. rewrite (take_S_free _ _ b) by (lia || (apply list_lookup_insert_eq; lia)).
    rewrite take_insert_ge by lia. rewrite <- Hb. solve_Permutation.
Qed.

(** ** The tree inside the queue model *)

Definition config (q : QueueModelHistoryTree) : Z * Z * bool * QueueModelMG1 * Z * QueueCounters :=
  (ht_min_processing_time q, ht_max_size q, ht_analytical_enabled q, ht_mg1 q, ht_analytical_requests q, ht_counters q).

Record queue_holds (q : QueueModelHistoryTree) (l : list Item) : Prop := {
  qh_tree : holds (ht_tree q) l;
  qh_pool : pool_ok q (blocks l);
  qh_max : ht_max_size q < 2 ^ 31 }.

Lemma qh_length q l : queue_holds q l -> Z.of_nat (length l) <= ht_max_size q < 2 ^ 31.
Proof.
  intros [_ [Hl _ Hb] Hm]. split; [|done]. apply Permutation_length in Hb.
  unfold blocks in Hb. rewrite length_app, length_fmap, length_seqZ in Hb. lia.
Qed.

Lemma holds_permutation s l n : holds s l -> t_size s = n -> n = Z.of_nat (length l).
Proof. intros (t & _ & _ & _ & ?) <-. done. Qed.

(** A free block is written. *)
Lemma holds_elsewhere s l b n : holds s l -> b ∉ blocks l -> holds (set_memory <[b := n]> s) l.
Proof.
  intros (t & [Ht Hk Hnd Hs] & Havl & <- & Hn) Hb. exists t. destruct s as [m root sz]. split; [split|done]; simpl in *; [|done..].
  apply (in_memory_ext m); [|done]. intros c Hc. apply lookup_insert_ne. by intros ->.
Qed.

Lemma ordered_sorted min lo l : 1 <= min -> ordered min lo l.*2 -> StronglySorted below_key l.
Proof.
  intros Hmin. revert lo. induction l as [|[b [x y]] l IH]; intros lo Ho; [constructor|].
  destruct Ho as (Hx & Hxy & Hy & Ho). apply StronglySorted_cons. split; [|by eapply IH].
  apply Forall_forall. intros j Hj. pose proof (ordered_above min Hmin y _ j.2 Ho) as Hab.
  assert (Hin : j.2 ∈ l.*2) by (by apply list_elem_of_fmap_2). specialize (Hab Hin). unfold below_key, key. simpl. lia.
Qed.

Lemma runs_remove_and_release q F1 b iv F2 :
  queue_holds q (F1 ++ (b, iv) :: F2) ->
  runs (remove_and_release (Some b)) q (fun _ q' =>
    config q' = config q /\ exists l, queue_holds q' l /\ l.*2 = F1.*2 ++ F2.*2).
Proof.
  intros Hq. pose proof (qh_length _ _ Hq) as Hlen. destruct Hq as [Hh Hp Hm].
  unfold remove_and_release. apply runs_bind, runs_part.
  eapply runs_mono; [apply (IntervalTree_remove_runs _ _ _ _ _ Hh); lia|].
  intros p s' (b' & l & -> & Hh' & Hl & Hb). apply (runs_release _ (blocks l)).
  { apply pool_set_tree. by eapply pool_permutation. }
  intros free q' Hp'. split; [done|]. exists l. split; [by split|done].
Qed.

Lemma search_run q min l x p :
  queue_holds q l -> 1 <= min -> ordered min (-1) l.*2 -> 0 <= x -> 0 < p -> x + p < 2 ^ 64 ->
  on_tree (IntervalTree_search (x, x + p)) q = Ok (first_block x p l, q).
Proof.
  intros [Hh _ _] ? ? ? ? ?. unfold on_tree, on_part. 
  rewrite (IntervalTree_search_run min ltac:(done) x p ltac:(done) ltac:(done) ltac:(done) _ l) by done. by destruct q.
Qed.

Lemma runs_deref_item q l i (Q : Node -> QueueModelHistoryTree -> Prop) :
  queue_holds q l -> i ∈ l -> (forall n, n_interval n = i.2 -> n_key n = key i -> Q n q) ->
  runs (on_tree (deref_node (Some i.1))) q Q.
Proof.
  intros [(t & Ht & _ & <- & _) _ _] Hi HQ. pose proof (tree_item _ _ _ Ht Hi) as Hd.
  unfold data in Hd. apply fmap_Some in Hd as (n & En & [= Ek Ei]).
  apply runs_part. eapply runs_deref; [exact En|]. destruct q. by apply HQ.
Qed.

Lemma alter_as (f g : Node -> Node) b (m : gmap Z Node) n : m !! b = Some n -> f n = g n -> alter f b m = alter g b m.
Proof.
  intros E Hfg. apply map_eq. intros c. destruct (decide (b = c)) as [<- |Hne]; [|by rewrite !lookup_alter_ne].
  rewrite !lookup_alter_eq, E. simpl. by rewrite Hfg.
Qed.

Lemma runs_change q F1 b old F2 iv f :
  queue_holds q (F1 ++ (b, old) :: F2) -> StronglySorted below_key (F1 ++ (b, iv) :: F2) ->
  (forall n, n_interval n = old -> n_key n = old.1 -> f n = set_data iv.1 iv n) ->
  runs (on_tree (write_node (Some b) f)) q (fun _ q' =>
    config q' = config q /\ queue_holds q' (F1 ++ (b, iv) :: F2)).
Proof.
  intros [Hh Hp Hm] Hs Hf. apply runs_part. destruct (Hh) as (t & Ht & _ & Hit & _).
  assert (Hd : data (t_memory (ht_tree q)) b = Some (old.1, old))
    by (apply (tree_item _ t (b, old) Ht); rewrite Hit; set_solver).
  unfold data in Hd. apply fmap_Some in Hd as (n & En & [= Ek Ei]).
  assert (Hrun : write_node (Some b) f (ht_tree q) = write_node (Some b) (set_data iv.1 iv) (ht_tree q)).
  { rewrite !(write_run _ _ _ _ En). unfold set_memory. by rewrite (alter_as f (set_data iv.1 iv) _ _ n En) by (by apply Hf). }
  unfold runs. rewrite Hrun. apply (runs_set_interval (ht_tree q) F1 b old F2 iv); [done..|].
  intros s' Hh' _ _. split; [done|]. split; [done| |done]. apply pool_set_tree.
  eapply pool_permutation; [|exact Hp]. unfold blocks. by rewrite !fmap_app.
Qed.

Lemma runs_new_interval q l iv :
  queue_holds q l -> l <> [] -> Z.of_nat (length l) < ht_max_size q -> iv.1 ∉ map key l ->
  runs (next_node ← allocateNode iv; on_tree (IntervalTree_insert next_node)) q (fun _ q' =>
    config q' = config q /\ exists b, queue_holds q' (insert_item (b, iv) l)).
Proof.
  intros Hq Hne Hlt Hkey. pose proof (qh_length _ _ Hq) as Hlen. destruct Hq as [Hh Hp Hm]. apply runs_bind.
  apply (runs_allocate q (blocks l)); [done|unfold blocks; rewrite length_fmap; lia|].
  intros b Hb q' Hp'. apply runs_part. subst q'. cbn [ht_tree set_pool set_ht_tree].
  eapply runs_mono; [apply (IntervalTree_insert_runs _ l b iv)|]; [by apply holds_elsewhere|done|lia| |done|done|].
  { simpl. by rewrite lookup_insert_eq. }
  intros [] s' Hh'. split; [done|]. exists b. split; [done| |done].
  apply (pool_permutation _ (b :: blocks l)); [|by destruct Hp'].
  destruct (holds_blocks _ _ Hh) as [_ Hs]. destruct (sorted_split iv.1 l Hs Hkey) as (l1 & l2 & -> & H1 & H2).
  rewrite (insert_item_between (b, iv)) by done. unfold blocks. rewrite !fmap_app. simpl. solve_Permutation.
Qed.

(** ** A slot in an interval *)

Section serve.
Context (q : QueueModelHistoryTree) (F1 F2 : list Item) (b first second t p : Z).
Let min := ht_min_processing_time q.
Let l := F1 ++ (b, (first, second)) :: F2.
Let left_over := F1.*2 ++ carve min t p (first, second) ++ F2.*2.
Context (Hq : queue_holds q l) (Hroom : Z.of_nat (length l) < ht_max_size q).
Context (Hmin : 1 <= min <= 2 ^ 62) (Ho : ordered min (-1) l.*2) (Ht : 0 <= t <= MAX_TIME) (Hp : 0 < p <= 2 ^ 62).
Context (Hfirst : first <= 2 ^ 63) (Hfit : fits t p (first, second)).

Lemma carve_first : first <= t ->
  carve min t p (first, second) = keep min first t ++ keep min (t + p) second.
Proof. intros Hle. unfold carve. simpl. by rewrite Z.max_l. Qed.
Lemma carve_second : t < first -> carve min t p (first, second) = keep min (first + p) second.
Proof.
  intros Hlt. unfold carve. simpl. rewrite Z.max_r by lia. unfold keep at 1. by rewrite decide_False by lia.
Qed.

(** The free intervals after the request. *)
Definition served (q' : QueueModelHistoryTree) : Prop :=
  config q' = config q /\ exists l', queue_holds q' l' /\ l'.*2 = left_over.

Lemma interval_bounds : 0 <= first /\ first + min <= second <= 2 ^ 64 - 1.
Proof.
  assert (Hin : (first, second) ∈ l.*2) by (apply (list_elem_of_fmap_2 snd l (b, (first, second))); subst l; set_solver).
  pose proof (ordered_above min ltac:(lia) _ _ _ Ho Hin) as [? ?]. simpl in *. unfold UINT64_MAX in *. lia.
Qed.

Lemma left_over_sorted l' : l'.*2 = left_over -> StronglySorted below_key l'.
Proof.
  intros E. apply (ordered_sorted min (-1)); [lia|]. rewrite E. subst left_over l.
  rewrite fmap_app in Ho. simpl in Ho. apply (ordered_carve min); [lia|exact Ho|lia|done].
Qed.

Lemma serve_remove : carve min t p (first, second) = [] ->
  runs (remove_and_release (Some b)) q (fun _ => served).
Proof.
  intros E. eapply runs_mono; [apply (runs_remove_and_release _ _ _ _ _ Hq)|].
  intros [] q' (Hc & l' & Hq' & El). split; [done|]. exists l'. split; [done|]. subst left_over. by rewrite E.
Qed.

Lemma serve_change f iv : carve min t p (first, second) = [iv] ->
  (forall n, n_interval n = (first, second) -> n_key n = first -> f n = set_data iv.1 iv n) ->
  runs (on_tree (write_node (Some b) f)) q (fun _ => served).
Proof.
  intros E Hf.
  assert (El : (F1 ++ (b, iv) :: F2).*2 = left_over) by (subst left_over; rewrite E, fmap_app; done).
  eapply runs_mono; [apply (runs_change _ _ _ _ _ iv f Hq); [by apply left_over_sorted|exact Hf]|].
  intros [] q' [Hc Hq']. split; [done|]. by eexists.
Qed.

(** The start of what is left after the slot lies between the other intervals. *)
Lemma next_between : first <= t ->
  Forall (fun j => key j < t + p) (F1 ++ [(b, (first, second))]) /\ Forall (fun j => t + p < key j) F2.
Proof.
  intros Hle. pose proof interval_bounds as Hb. pose proof Ho as Ho'. subst l. rewrite fmap_app in Ho'. simpl in Ho'.
  apply (ordered_app min) in Ho' as (H1 & H2 & H12); [|lia]. destruct H2 as (_ & _ & _ & H2).
  unfold fits, key in *. cbn [fst snd] in *. split.
  - apply Forall_app. split; [|constructor; [simpl; lia|constructor]].
    apply Forall_forall. intros j Hj. assert (Hj2 : j.2 ∈ F1.*2) by (by apply list_elem_of_fmap_2).
    specialize (H12 j.2 (first, second) Hj2 ltac:(left)). pose proof (ordered_above min ltac:(lia) _ _ _ H1 Hj2).
    simpl in *. lia.
  - apply Forall_forall. intros j Hj. assert (Hj2 : j.2 ∈ F2.*2) by (by apply list_elem_of_fmap_2).
    pose proof (ordered_above min ltac:(lia) _ _ _ H2 Hj2). lia.
Qed.

Lemma serve_split f : first <= t -> carve min t p (first, second) = [(first, t); (t + p, second)] ->
  (forall n, n_interval n = (first, second) -> n_key n = first -> f n = set_data first (first, t) n) ->
  runs (_ ← (next_node ← allocateNode (t + p, second); on_tree (IntervalTree_insert next_node));
        on_tree (write_node (Some b) f)) q (fun _ => served).
Proof.
  intros Hle E Hf. destruct (next_between Hle) as [K1 K2].
  assert (El : l = (F1 ++ [(b, (first, second))]) ++ F2) by (subst l; by rewrite <- (assoc_L app)).
  assert (Hkey : t + p ∉ map key l).
  { rewrite El. intros (j & Hj & Hin)%list_elem_of_fmap. rewrite Forall_forall in K1, K2.
    apply elem_of_app in Hin as [Hin|Hin]; [specialize (K1 j Hin)|specialize (K2 j Hin)]; lia. }
  apply runs_bind. eapply runs_mono; [apply (runs_new_interval q l (t + p, second) Hq); [by destruct F1|done|exact Hkey]|].
  intros [] q1 [Hc (nb & Hq1)]. rewrite El, insert_item_between, <- (assoc_L app) in Hq1 by done. simpl in Hq1.
  set (l' := F1 ++ (b, (first, t)) :: (nb, (t + p, second)) :: F2).
  assert (El' : l'.*2 = left_over) by (subst left_over l'; rewrite E, fmap_app; done).
  eapply runs_mono; [apply (runs_change q1 F1 b _ _ (first, t) f Hq1); [by apply (left_over_sorted l')|exact Hf]|].
  intros [] q2 [Hc2 Hq2]. split; [by rewrite Hc2|]. by exists l'.
Qed.

Lemma serve_runs : runs (serve_in_node (Some b) t p) q (fun d q' => d = Z.max t first - t /\ served q').
Proof.
  pose proof interval_bounds as Hb. unfold MAX_TIME in *. pose proof Hfit as Hfit'. unfold fits in Hfit'. simpl in Hfit'.
  unfold serve_in_node. apply runs_bind, runs_gets. fold min. apply runs_bind.
  apply (runs_deref_item q l (b, (first, second))); [done|subst l; set_solver|].
  intros n En Ek. cbn [snd] in En. rewrite En. cbn [fst snd]. rewrite (wrap_id 64 (t + p)) by (unfold is_word; lia).
  apply runs_bind, runs_assert; [apply Z.leb_le; lia|].
  assert (Hset : forall x m, n_interval m = (first, second) -> n_key m = first ->
    set_second x m = set_data first (first, x) m /\ set_first x m = set_data x (x, second) m).
  { intros x m Em Em'. unfold set_second, set_first. by rewrite Em, Em'. }
  destruct (Z.leb_spec first t) as [Hle|Hgt].
  - pose proof (carve_first Hle) as Hcarve. unfold keep in Hcarve.
    rewrite (wrap_id 64 (t - first)), (wrap_id 64 (second - (t + p))) by (unfold is_word; lia).
    eapply runs_seq with (P := fun _ => served); [|intros [] q' Hs; apply runs_ret; split; [lia|exact Hs]].
    destruct (Z.leb_spec min (t - first)), (Z.leb_spec min (second - (t + p))); cbn [when];
      repeat case_decide; try lia.
    + apply serve_split; [done..|]. intros m Em Ek'. by apply Hset.
    + apply runs_bind, runs_ret, (serve_change _ (first, t)); [done|]. intros m Em Ek'. by apply Hset.
    + apply (serve_change _ (t + p, second)); [done|]. intros m Em Ek'. by apply Hset.
    + by apply serve_remove.
  - pose proof (carve_second Hgt) as Hcarve. unfold keep in Hcarve.
    rewrite (wrap_id 64 (first + p)) by (unfold is_word; lia).
    rewrite (wrap_id 64 (second - (first + p))) by (unfold is_word; lia).
    rewrite (wrap_id 64 (first - t)) by (unfold is_word; lia).
    eapply runs_seq with (P := fun _ => served); [|intros [] q' Hs; apply runs_ret; split; [lia|exact Hs]].
    destruct (Z.leb_spec min (second - (first + p))); case_decide; try lia.
    + apply (serve_change _ (first + p, second)); [done|]. intros m Em Ek'. by apply Hset.
    + by apply serve_remove.
Qed.
End serve.

(** ** The simulation *)

(** A tree of [M] blocks and a list of at most [M - 1] intervals in the same
    state; the tree may hold one interval that it will drop before the next
    request. *)
Record ht_sim (n : Z) (q : QueueModelHistoryTree) (ql : QueueModelHistoryList) : Prop := {
  hs_list : hl_ok n ql;
  hs_serial : hl_interleaving_enabled ql = false;
  hs_config : config q = (hl_min_processing_time ql, hl_max_size ql + 1, hl_analytical_enabled ql, hl_mg1 ql,
                          hl_analytical_requests ql, hl_counters ql);
  hs_items : exists l, queue_holds q l /\ ordered (hl_min_processing_time ql) (-1) l.*2 /\
               hl_free ql = pruned (hl_max_size ql) l.*2 }.

Lemma first_block_first min i l : 1 <= min -> ordered min (-1) (i :: l).*2 -> first_block 0 1 (i :: l) = Some i.1.
Proof.
  intros Hmin Ho. destruct i as [b [x y]]. destruct Ho as (Hx & Hxy & _). rewrite first_block_cons.
  rewrite decide_True; [done|]. unfold fits. simpl. lia.
Qed.

Lemma holds_size q l : queue_holds q l -> t_size (ht_tree q) = Z.of_nat (length l).
Proof. intros [(t & _ & _ & _ & Hn) _ _]. done. Qed.

(** The first step: what is in the tree is what is in the list. *)
Lemma prune_runs n q ql : ht_sim n q ql ->
  runs prune_tree q (fun _ q' => config q' = config q /\ exists l, queue_holds q' l /\ l.*2 = hl_free ql).
Proof.
  intros [Hok _ Hconf (l & Hq & Ho & Hfree)]. pose proof (ho_min _ _ Hok) as Hmin. unfold config in Hconf.
  injection Hconf as Emin Emax _ _ _ _. pose proof (hl_ok_nonempty _ _ Hok) as (i & lf & Ef).
  pose proof (qh_length _ _ Hq) as Hlen. pose proof (ho_size _ _ Hok) as Hsize.
  assert (Hl : exists j l', l = j :: l').
  { destruct l as [|j l']; [|by eauto]. rewrite Ef in Hfree. unfold pruned in Hfree. by destruct (_ <? _). }
  destruct Hl as (j & l' & ->). unfold prune_tree. apply runs_bind. eexists _, q.
  split; [apply (search_run q (hl_min_processing_time ql) _ 0 1 Hq); (done || lia)|].
  apply runs_bind, runs_gets. unfold id. rewrite (first_block_first (hl_min_processing_time ql) j l' ltac:(lia) Ho), (holds_size _ _ Hq).
  rewrite wrap_id by (unfold is_word; lia). rewrite Emax in *. apply runs_when; intros Hw; bool_facts.
  - destruct j as [b iv]. eapply runs_mono; [apply (runs_remove_and_release q [] b iv l' Hq)|].
    intros [] q' [Hc (l1 & Hq1 & El1)]. split; [done|]. exists l1. split; [done|].
    rewrite Hfree, El1. unfold pruned. rewrite length_fmap. rewrite (proj2 (Z.ltb_lt _ _)) by lia. done.
  - split; [done|]. exists (j :: l'). split; [done|]. rewrite Hfree. unfold pruned. rewrite length_fmap.
    by rewrite (proj2 (Z.ltb_ge _ _)) by lia.
Qed.

Lemma first_block_split t p F1 i F2 : Forall (fun j => ~ fits t p j) F1.*2 -> fits t p i.2 ->
  first_block t p (F1 ++ i :: F2) = Some i.1.
Proof.
  intros H1 Hi. rewrite first_block_app, first_block_none, first_block_cons, decide_True; [done..|].
  intros j Hj. rewrite Forall_forall in H1. apply H1. by apply list_elem_of_fmap_2.
Qed.

Section simulation.
Context (waiting : QueueModelMG1 -> Z) (waiting_bound : forall m, 0 <= waiting m < UINT64_MAX).

(** What the two models share after the delay has been computed. *)
Definition same_delay (q : QueueModelHistoryTree) (ql : QueueModelHistoryList) (t p d : Z)
    (q' : QueueModelHistoryTree) : Prop :=
  0 <= d < UINT64_MAX /\
  exists ql', hl_computeQueueDelay waiting ql t p = Ok (d, ql') /\
    config q' = (hl_min_processing_time ql, hl_max_size ql + 1, hl_analytical_enabled ql, hl_mg1 ql,
                 hl_analytical_requests ql', hl_counters ql) /\
    exists l, queue_holds q' l /\ ordered (hl_min_processing_time ql) (-1) l.*2 /\
      hl_free ql' = pruned (hl_max_size ql) l.*2.

Lemma list_case n q q1 ql t p l :
  ht_sim n q ql -> 0 <= t <= MAX_TIME -> 0 < p <= n -> config q1 = config q ->
  queue_holds q1 l -> l.*2 = hl_free ql -> served_by_list ql t p = true ->
  runs (node ← on_tree (IntervalTree_search (t, wrap64 (t + p)));
        _ ← lift (log_assert (bool_decide (is_Some node)));
        serve_in_node node t p) q1 (same_delay q ql t p).
Proof.
  intros [Hok Hint Hconf _] Ht Hp Hc Hq1 El Hserved. rewrite Hconf in Hc. clear Hconf.
  destruct (list_serves n ql t p Hint Hok Ht Hp) as (F1 & i & F2 & E & HF1 & Hf & Erun & Hd).
  assert (Hn62 : n <= 2 ^ 62) by (destruct Hok; lia).
  pose proof (ho_ordered _ _ Hok) as Ho. pose proof (ho_min _ _ Hok) as Hmin. pose proof (ho_size _ _ Hok) as Hsz.
  destruct (ho_open _ _ Hok) as (s & Hopen & Hs).
  assert (Hi : i.1 <= 2 ^ 63).
  { pose proof (open_from_last _ _ _ _ i Ho ltac:(lia) Hopen ltac:(rewrite E; set_solver)). lia. }
  rewrite <- El in Ho. rewrite <- El in Hsz. rewrite length_fmap in Hsz. rewrite E in El.
  apply fmap_app_inv in El as (G1 & G2' & -> & (j & G2 & -> & -> & ->)%eq_sym%fmap_cons_inv & ->).
  destruct j as [b [first second]]. cbn [fst snd] in *. unfold config in Hc. injection Hc as Emin Emax Ean Emg Erq Ecn.
  unfold MAX_TIME in Ht. rewrite (wrap_id 64 (t + p)) by (unfold is_word; lia).
  apply runs_bind. eexists _, q1.
  split; [apply (search_run q1 (hl_min_processing_time ql) _ t p Hq1); (done || lia)|].
  rewrite (first_block_split t p G1 (b, (first, second)) G2) by done.
  apply runs_bind, runs_log_assert; [done|]. rewrite <- Emin in *.
  eapply runs_mono; [apply (serve_runs q1 G1 G2 b first second t p Hq1); unfold MAX_TIME; try done; try lia|].
  intros d q' [-> (Hc' & l' & Hq' & El')]. split; [unfold UINT64_MAX; lia|].
  eexists. split; [|split; [|exists l'; split; [done|]]].
  - unfold hl_computeQueueDelay. unfold served_by_list in Hserved.
    destruct (hl_free ql) as [|oldest rest]; [by destruct G1|]. apply negb_true_iff in Hserved.
    rewrite Hserved, Erun. simpl. reflexivity.
  - rewrite Hc'. unfold config. simpl. by rewrite <- Emin, Emax, Ean, Emg, Erq, Ecn.
  - simpl. rewrite El', <- Emin. split; [|done]. rewrite fmap_app in Ho. apply ordered_carve; [lia|exact Ho|lia|done].
Qed.

Lemma delay_runs n q ql t p :
  ht_sim n q ql -> 0 <= t <= MAX_TIME -> 0 < p <= n ->
  runs (ht_delay waiting t p) q (same_delay q ql t p).
Proof.
  intros Hsim Ht Hp. pose proof Hsim as [Hok Hint Hconf _]. unfold ht_delay.
  apply runs_bind. eapply runs_mono; [by eapply prune_runs|]. intros [] q1 [Hc (l & Hq1 & El)].
  pose proof (hl_ok_nonempty _ _ Hok) as (i & lf & Ef). pose proof (ho_min _ _ Hok) as Hmin.
  pose proof (ho_ordered _ _ Hok) as Ho. pose proof (ho_size _ _ Hok) as Hsz.
  assert (Hl : exists b l', l = (b, i) :: l').
  { destruct l as [|[b j] l']; [by rewrite Ef in El|]. rewrite Ef in El. injection El as -> _. by eauto. }
  destruct Hl as (b & l' & ->). pose proof Ho as Ho'. rewrite <- El in Ho'.
  apply runs_bind. eexists _, q1.
  split; [apply (search_run q1 (hl_min_processing_time ql) _ 0 1 Hq1); (done || lia)|].
  rewrite (first_block_first (hl_min_processing_time ql) (b, i) l' ltac:(lia) Ho'). cbn [fst].
  apply runs_bind, runs_gets. unfold id. rewrite Hconf in Hc. pose proof Hc as Hc'. unfold config in Hc'.
  injection Hc' as Emin Emax Ean Emg Erq Ecn. rewrite Ean.
  apply runs_seq with (P := fun a s => a = negb (served_by_list ql t p) /\ s = q1).
  { unfold served_by_list. rewrite Ef, negb_involutive. destruct (hl_analytical_enabled ql); [|by apply runs_ret].
    apply runs_bind. apply (runs_deref_item q1 ((b, i) :: l') (b, i)); [done|left|]. intros nd En _. apply runs_ret. by rewrite En. }
  intros a s [-> ->]. destruct (served_by_list ql t p) eqn:Eserved; simpl.
  - eapply list_case; try done. by rewrite Hc, Hconf.
  - apply runs_bind, runs_modify. eapply runs_lift.
    { unfold mg1_computeQueueDelay. rewrite (proj2 (Z.ltb_lt 0 p)) by lia. simpl. reflexivity. }
    split; [case_match; [unfold UINT64_MAX; lia|apply waiting_bound]|].
    unfold served_by_list in Eserved. rewrite Ef in Eserved. apply negb_false_iff in Eserved.
    eexists. split; [|split; [|exists ((b, i) :: l'); split; [|split; [done|]]]].
    + unfold hl_computeQueueDelay. rewrite Ef, Eserved. unfold mg1_computeQueueDelay.
      rewrite (proj2 (Z.ltb_lt 0 p)) by lia. simpl. rewrite Emg. reflexivity.
    + unfold config. simpl. by rewrite Emin, Emax, Ean, Emg, Erq, Ecn.
    + destruct Hq1 as [? [? ? ?] ?]. by split.
    + cbn [hl_free]. rewrite El, <- Ef. unfold pruned. by rewrite (proj2 (Z.ltb_ge _ _)) by lia.
Qed.

Lemma hl_waiting_word m : is_word 64 (waiting m).
Proof. pose proof (waiting_bound m). unfold is_word, UINT64_MAX in *. lia. Qed.

Lemma hl_fields ql t p d ql' : hl_computeQueueDelay waiting ql t p = Ok (d, ql') ->
  hl_min_processing_time ql' = hl_min_processing_time ql /\ hl_max_size ql' = hl_max_size ql /\
  hl_analytical_enabled ql' = hl_analytical_enabled ql /\ hl_mg1 ql' = mg1_updateQueue t p d (hl_mg1 ql) /\
  hl_counters ql' = updateQueueUtilizationCounters t p d (hl_counters ql).
Proof.
  unfold hl_computeQueueDelay. destruct (hl_free ql) as [|i l]; [done|]. intros Hrun.
  apply bind_ok in Hrun as ([[d1 l1] n1] & _ & E). by injection E as <- <-.
Qed.

(** One request. *)
Lemma sim_step n q ql t p :
  ht_sim n q ql -> 0 <= t <= MAX_TIME -> 0 < p <= n ->
  exists d q' ql', ht_computeQueueDelay waiting t p q = Ok (d, q') /\
    hl_computeQueueDelay waiting ql t p = Ok (d, ql') /\ 0 <= d < UINT64_MAX /\ ht_sim (n - p) q' ql'.
Proof.
  intros Hsim Ht Hp. pose proof Hsim as [Hok Hint _ _].
  destruct (hl_step waiting hl_waiting_word n ql t p Hint Hok Ht Hp) as (d0 & ql0 & E0 & _ & Hok0 & _ & Hint0 & _).
  assert (Hrun : runs (ht_computeQueueDelay waiting t p) q (fun d q' => exists ql',
    hl_computeQueueDelay waiting ql t p = Ok (d, ql') /\ 0 <= d < UINT64_MAX /\ ht_sim (n - p) q' ql')).
  { unfold ht_computeQueueDelay. apply runs_bind. eapply runs_mono; [by eapply delay_runs|].
    intros d q1 (Hd & ql' & El & Hc & l & Hq1 & Ho & Hfree).
    apply runs_bind, runs_assert; [apply negb_true_iff, Z.eqb_neq; lia|].
    apply runs_bind, runs_gets, runs_bind, runs_modify, runs_ret. exists ql'. split; [done|]. split; [done|].
    rewrite E0 in El. injection El as -> ->. split; [done|done| |].
    - destruct (hl_fields _ _ _ _ _ E0) as (-> & -> & -> & -> & ->). unfold config in *. simpl.
      by injection Hc as -> -> -> -> -> ->.
    - destruct (hl_fields _ _ _ _ _ E0) as (-> & -> & _). exists l. split; [|done].
      destruct Hq1 as [? [? ? ?] ?]. by split. }
  destruct Hrun as (d & q' & E & ql' & El & Hd & Hs). by exists d, q', ql'.
Qed.
End simulation.

(** ** The initial states *)

Lemma single_holds (m : gmap Z Node) b iv : m !! b = Some (Node_initialize iv) ->
  holds (IntervalTree_new m (Some b)) [(b, iv)].
Proof.
  intros E. exists (Br Leaf (b, iv) 1 Leaf). split; [split; simpl|by repeat split].
  - rewrite E. by repeat split.
  - done.
  - unfold tree_blocks, path_blocks, blocks. simpl. apply NoDup_singleton.
  - repeat constructor.
Qed.

Lemma QueueModelHistoryTree_new_sim min max_size analytical :
  1 <= min <= 2 ^ 62 -> 2 <= max_size < 2 ^ 31 ->
  exists q, QueueModelHistoryTree_new min max_size analytical = Ok q /\
    ht_sim (2 ^ 62) q (QueueModelHistoryList_new min (max_size - 1) analytical false).
Proof.
  intros Hmin Hmax. unfold QueueModelHistoryTree_new. cbn [allocateMemory].
  match goal with |- exists q, (allocateNode ?iv ?q0 ≫= _) = _ /\ _ => set (init := q0) end.
  assert (Hpool : pool_ok init []).
  { subst init. split; simpl; [rewrite length_seqZ; lia|lia|]. by rewrite take_ge by (rewrite length_seqZ; lia). }
  assert (Hrun : runs (allocateNode (0, UINT64_MAX)) init (fun p q => exists b, p = Some b /\
    t_memory (ht_tree q) !! b = Some (Node_initialize (0, UINT64_MAX)) /\ pool_ok q [b] /\ config q = config init)).
  { apply (runs_allocate _ []); [done|subst init; simpl; lia|]. intros b _ q' Hp. exists b. subst q'. simpl.
    rewrite lookup_insert_eq. by split. }
  destruct Hrun as (p & q & -> & b & -> & Eb & Hp & Hc). cbn [mbind result_bind]. eexists. split; [reflexivity|].
  split; [by apply QueueModelHistoryList_new_ok; lia|done| |].
  - unfold config in *. simpl in *. injection Hc as -> -> -> -> -> ->. f_equal. repeat f_equal. lia.
  - exists [(b, (0, UINT64_MAX))]. split; [split|split].
    + by apply single_holds.
    + by apply pool_set_tree.
    + unfold config in Hc. injection Hc as _ E _ _ _ _. simpl. rewrite E. simpl. lia.
    + simpl. unfold UINT64_MAX. lia.
    + simpl. unfold pruned. simpl. by rewrite (proj2 (Z.ltb_ge _ _)) by lia.
Qed.

(** ** Sequences of requests *)

(** The delays that a queue model answers to a sequence of requests. *)
Fixpoint delays {Q} (step : Q -> Z -> Z -> result (Z * Q)) (q : Q) (reqs : list (Z * Z)) : result (list Z) :=
  match reqs with
  | [] => Ok []
  | (t, p) :: reqs' =>
    '(d, q') ← step q t p;
    ds ← delays step q' reqs';
    Ok (d :: ds)
  end.

Section runs_of_requests.
Context (waiting : QueueModelMG1 -> Z) (waiting_bound : forall m, 0 <= waiting m < UINT64_MAX).

Definition tree_step (q : QueueModelHistoryTree) (t p : Z) : result (Z * QueueModelHistoryTree) :=
  ht_computeQueueDelay waiting t p q.

Lemma sim_run n q ql reqs :
  ht_sim n q ql -> Forall (fun r => 0 <= r.1 <= MAX_TIME /\ 0 < r.2) reqs -> total_time reqs <= n ->
  exists ds, delays tree_step q reqs = Ok ds /\ delays (hl_computeQueueDelay waiting) ql reqs = Ok ds.
Proof.
  revert n q ql. induction reqs as [|[t p] reqs IH]; intros n q ql Hsim Hall Hn; [by exists []|].
  apply Forall_cons in Hall as [[Ht Hp] Hall]. pose proof (total_time_pos reqs Hall) as H0.
  unfold total_time in *. simpl in *.
  destruct (sim_step waiting waiting_bound n q ql t p Hsim Ht ltac:(lia)) as (d & q' & ql' & E & El & _ & Hsim').
  destruct (IH (n - p) q' ql' Hsim' Hall ltac:(lia)) as (ds & Eds & Edl).
  exists (d :: ds). change (ht_computeQueueDelay waiting t p q) with (tree_step q t p) in E.
  rewrite E, El. simpl. by rewrite Eds, Edl.
Qed.

(** C21: the history tree computes what the history list computes.  From the
    start, and for every sequence of requests in any order of their arrival
    times, a tree of [max_size] blocks serves all requests, no allocation,
    assertion or pointer fails, and each delay is the one that a list of at
    most [max_size - 1] intervals gives. *)
Theorem HistoryTree_equals_list min max_size analytical reqs :
  1 <= min <= 2 ^ 62 -> 2 <= max_size < 2 ^ 31 ->
  Forall (fun r => 0 <= r.1 <= MAX_TIME /\ 0 < r.2) reqs -> total_time reqs <= 2 ^ 62 ->
  exists q ds, QueueModelHistoryTree_new min max_size analytical = Ok q /\
    delays tree_step q reqs = Ok ds /\
    delays (hl_computeQueueDelay waiting) (QueueModelHistoryList_new min (max_size - 1) analytical false) reqs = Ok ds.
Proof.
  intros Hmin Hmax Hall Hn. destruct (QueueModelHistoryTree_new_sim min max_size analytical Hmin Hmax) as (q & E & Hsim).
  destruct (sim_run _ _ _ reqs Hsim Hall Hn) as (ds & Et & El). by exists q, ds.
Qed.

(** *** The slots the tree grants *)

(** A sequence of requests, with the slots (start and length) that the tree
    grants; a request that the analytical model answers is counted. *)
Fixpoint tree_slots (q : QueueModelHistoryTree) (reqs : list (Z * Z)) :
    result (list (Z * Z) * QueueModelHistoryTree) :=
  match reqs with
  | [] => Ok ([], q)
  | (t, p) :: reqs' =>
    '(d, q') ← tree_step q t p;
    '(slots, q'') ← tree_slots q' reqs';
    Ok ((if ht_analytical_requests q' =? ht_analytical_requests q then [(t + d, p)] else []) ++ slots, q'')
  end.

Lemma wrap_succ x : wrap64 (x + 1) <> x.
Proof.
  unfold wrap. intros E. pose proof (Z.mod_pos_bound (x + 1) (2 ^ 64) ltac:(lia)) as Hx.
  destruct (Z.eq_dec (x + 1) (2 ^ 64)) as [E1|Hne].
  - rewrite E1, Z.mod_same in E by lia. lia.
  - rewrite Z.mod_small in E by lia. lia.
Qed.

Lemma counted_requests ql t p d ql' : hl_computeQueueDelay waiting ql t p = Ok (d, ql') ->
  (hl_analytical_requests ql' =? hl_analytical_requests ql) = served_by_list ql t p.
Proof.
  unfold hl_computeQueueDelay, served_by_list. destruct (hl_free ql) as [|i l]; [done|].
  destruct (hl_analytical_enabled ql && _); cbn [negb]; intros Hrun;
    apply bind_ok in Hrun as ([[d1 l1] n1] & E1 & E); apply bind_ok in E1 as (x & _ & E1).
  - injection E1 as <- <- <-. injection E as <- <-. apply Z.eqb_neq. apply wrap_succ.
  - destruct x. injection E1 as <- <- <-. injection E as <- <-. apply Z.eqb_refl.
Qed.

Lemma sim_requests n q ql : ht_sim n q ql -> ht_analytical_requests q = hl_analytical_requests ql.
Proof. intros [_ _ Hc _]. unfold config in Hc. congruence. Qed.

Lemma sim_slots n q ql reqs :
  ht_sim n q ql -> Forall (fun r => 0 <= r.1 <= MAX_TIME /\ 0 < r.2) reqs -> total_time reqs <= n ->
  exists slots q' ql', tree_slots q reqs = Ok (slots, q') /\ hl_run waiting ql reqs = Ok (slots, ql') /\
    (hl_analytical_enabled ql = false -> Forall2 (fun r s => r.1 <= s.1 /\ s.2 = r.2) reqs slots).
Proof.
  revert n q ql. induction reqs as [|[t p] reqs IH]; intros n q ql Hsim Hall Hn; [by exists [], q, ql|].
  apply Forall_cons in Hall as [[Ht Hp] Hall]. pose proof (total_time_pos reqs Hall) as H0.
  unfold total_time in *. simpl in *.
  destruct (sim_step waiting waiting_bound n q ql t p Hsim Ht ltac:(lia)) as (d & q1 & ql1 & E & El & Hd & Hsim1).
  destruct (IH (n - p) q1 ql1 Hsim1 Hall ltac:(lia)) as (slots & q' & ql' & Es & Esl & Hex).
  unfold tree_step. rewrite E. simpl. rewrite Es, El. simpl. rewrite Esl. simpl. do 3 eexists.
  split; [reflexivity|].
  rewrite (sim_requests _ _ _ Hsim), (sim_requests _ _ _ Hsim1), (counted_requests _ _ _ _ _ El).
  split; [reflexivity|]. intros Ha. destruct (hl_fields _ _ _ _ _ _ El) as (_ & _ & Ha1 & _).
  assert (Hserved : served_by_list ql t p = true).
  { unfold served_by_list. destruct (hl_ok_nonempty _ _ (hs_list _ _ _ Hsim)) as (i & l & ->). by rewrite Ha. }
  rewrite Hserved. constructor; [simpl; lia|]. apply Hex. congruence.
Qed.

(** C22: the port of a history tree, the queue model the configuration selects,
    serves one packet at a time.  From the start and whatever the order of the
    arrival times, every request of a sequence is served, and the slots the
    tree grants do not overlap.  With the analytical model disabled every
    request gets a slot of its processing time, not before its arrival. *)
Theorem HistoryTree_serves_one_at_a_time min max_size analytical reqs :
  1 <= min <= 2 ^ 62 -> 2 <= max_size < 2 ^ 31 ->
  Forall (fun r => 0 <= r.1 <= MAX_TIME /\ 0 < r.2) reqs -> total_time reqs <= 2 ^ 62 ->
  exists q slots q', QueueModelHistoryTree_new min max_size analytical = Ok q /\
    tree_slots q reqs = Ok (slots, q') /\ ForallOrdPairs apart slots /\
    (analytical = false -> Forall2 (fun r s => r.1 <= s.1 /\ s.2 = r.2) reqs slots).
Proof.
  intros Hmin Hmax Hall Hn. destruct (QueueModelHistoryTree_new_sim min max_size analytical Hmin Hmax) as (q & E & Hsim).
  destruct (sim_slots _ _ _ reqs Hsim Hall Hn) as (slots & q' & ql' & Es & Esl & Hex).
  exists q, slots, q'. split; [done|]. split; [done|]. split; [|exact Hex].
  destruct (list_slots_apart waiting (hl_waiting_word waiting waiting_bound) _ _ reqs
    (hs_serial _ _ _ Hsim) (hs_list _ _ _ Hsim) Hall Hn) as (slots' & ql2 & E2 & _ & Hap).
  rewrite Esl in E2. by injection E2 as -> _.
Qed.

(** ** The tree implements the interface of the routers *)

Lemma ht_sim_less n n' q ql : ht_sim n q ql -> 0 <= n' <= n -> ht_sim n' q ql.
Proof. intros [Hok Hint Hc Hi] Hn. split; [by eapply hl_ok_less|done..]. Qed.

Definition history_tree_ops : QueueOps QueueModelHistoryTree := Build_QueueOps _ tree_step.
Definition tree_room (n : Z) (q : QueueModelHistoryTree) : Prop := exists ql, ht_sim (Z.max 0 n) q ql.

Lemma tree_room_less n n' q : tree_room n q -> n' <= n -> tree_room n' q.
Proof. intros [ql Hs] Hn. exists ql. eapply ht_sim_less; [done|lia]. Qed.

Lemma history_tree_serves n q t p : tree_room n q -> 0 <= t <= MAX_TIME -> 0 < p <= n ->
  exists d q', tree_step q t p = Ok (d, q') /\ is_word 64 d /\ tree_room (n - p) q'.
Proof.
  intros [ql Hs] Ht Hp.
  destruct (sim_step waiting waiting_bound _ q ql t p Hs Ht ltac:(lia)) as (d & q' & ql' & E & _ & Hd & Hs').
  exists d, q'. split; [done|]. split; [unfold is_word, UINT64_MAX in *; lia|]. exists ql'.
  by replace (Z.max 0 (n - p)) with (Z.max 0 n - p) by lia.
Qed.

Definition history_tree_laws : @QueueLaws _ history_tree_ops :=
  @Build_QueueLaws _ history_tree_ops tree_room tree_room_less history_tree_serves.
End runs_of_requests.

Lemma no_wait_bound m : 0 <= no_wait m < UINT64_MAX.
Proof. unfold no_wait, UINT64_MAX. lia. Qed.

Lemma HistoryTree_equals_list_witness :
  exists q ds, QueueModelHistoryTree_new 1 3 false = Ok q /\
    delays (tree_step no_wait) q [(10, 5); (20, 5); (8, 5); (0, 4)] = Ok ds /\
    delays (hl_computeQueueDelay no_wait) (QueueModelHistoryList_new 1 2 false false)
      [(10, 5); (20, 5); (8, 5); (0, 4)] = Ok ds.
Proof.
  apply (HistoryTree_equals_list no_wait no_wait_bound 1 3 false [(10, 5); (20, 5); (8, 5); (0, 4)]).
  - lia.
  - lia.
  - unfold MAX_TIME. repeat constructor; simpl; lia.
  - vm_compute. discriminate.
Defined.

Lemma HistoryTree_serves_witness :
  exists q slots q', QueueModelHistoryTree_new 1 3 false = Ok q /\
    tree_slots no_wait q [(10, 5); (20, 5); (8, 5); (0, 4)] = Ok (slots, q') /\ ForallOrdPairs apart slots.
Proof.
  destruct (HistoryTree_serves_one_at_a_time no_wait no_wait_bound 1 3 false [(10, 5); (20, 5); (8, 5); (0, 4)])
    as (q & slots & q' & E & Es & Hap & _).
  - lia.
  - lia.
  - unfold MAX_TIME. repeat constructor; simpl; lia.
  - vm_compute. discriminate.
  - exists q, slots, q'. split; [exact E|]. split; [exact Es|exact Hap].
Defined.

(** A port with three blocks: a free start, a gap, and a tree that is pruned. *)
Example history_tree_run :
  (q ← QueueModelHistoryTree_new 1 3 false;
   '(d1, q) ← ht_computeQueueDelay (fun _ => 0) 10 5 q;
   '(d2, q) ← ht_computeQueueDelay (fun _ => 0) 20 5 q;
   '(d3, q) ← ht_computeQueueDelay (fun _ => 0) 8 5 q;
   Ok (d1, d2, d3, t_size (ht_tree q))) = Ok (0, 0, 7, 1).
Proof. vm_compute. reflexivity. Qed.

(** With a single block the tree drops its only interval and then reads the
    interval of a null pointer. *)
Example history_tree_one_block :
  (q ← QueueModelHistoryTree_new 1 1 true; ht_computeQueueDelay (fun _ => 0) 10 5 q) = Err NullDeref.
Proof. vm_compute. reflexivity. Qed.
