(* ===== verification/NetModel.v ===== *)
(** * Network models: common/network/{network.h,packet_type.h},
    common/network/network_model.{h,cc},
    common/network/models/network_model_{magic,emesh_hop_counter,emesh_hop_by_hop}.cc,
    common/network/components/{router/router_model,link/electrical_link_model}.cc

    A tile has one network model per static network.  The model takes a packet
    that is at the tile and computes where it goes next and when it arrives
    there.  The hop-by-hop mesh sends it from tile to tile through routers,
    whose output ports are queue models; the other models send it to its
    receiver at once.  Energy figures are left out.  The conversions between
    cycles and picoseconds at the frequency of a network are parameters. *)

From S2P Require Import Prelude Threads Shmem QueueModel.

(** ** Packets *)

Inductive PacketType : Type :=
  | INVALID_PACKET_TYPE | USER | SHARED_MEM | DVFS_SET_REQUEST | DVFS_SET_REPLY
  | DVFS_GET_REQUEST | DVFS_GET_REPLY | GET_TILE_ENERGY_REQUEST | GET_TILE_ENERGY_REPLY
  | SIM_THREAD_TERMINATE_THREADS | MCP_REQUEST_TYPE | MCP_RESPONSE_TYPE | MCP_SYSTEM_TYPE
  | MCP_SYSTEM_RESPONSE_TYPE | MCP_THREAD_SPAWN_REPLY_FROM_MASTER_TYPE
  | MCP_THREAD_YIELD_REPLY_FROM_MASTER_TYPE | MCP_THREAD_EXIT_REPLY_FROM_MASTER_TYPE
  | MCP_THREAD_GETAFFINITY_REPLY_FROM_MASTER_TYPE | MCP_THREAD_QUERY_INDEX_REPLY_FROM_MASTER_TYPE
  | MCP_THREAD_JOIN_REPLY | LCP_COMM_ID_UPDATE_REPLY | LCP_TOGGLE_PERFORMANCE_COUNTERS_ACK
  | SYSTEM_INITIALIZATION_NOTIFY | SYSTEM_INITIALIZATION_ACK | SYSTEM_INITIALIZATION_FINI
  | CLOCK_SKEW_MANAGEMENT | REMOTE_QUERY | REMOTE_QUERY_RESPONSE.

#[export] Instance PacketType_eq_dec : EqDecision PacketType.
Proof. solve_decision. Defined.

Inductive EStaticNetwork : Type :=
  | STATIC_NETWORK_USER | STATIC_NETWORK_MEMORY | STATIC_NETWORK_SYSTEM | STATIC_NETWORK_DVFS.

#[export] Instance EStaticNetwork_eq_dec : EqDecision EStaticNetwork.
Proof. solve_decision. Defined.

Definition g_type_to_static_network_map (ty : PacketType) : EStaticNetwork :=
  match ty with
  | USER | MCP_REQUEST_TYPE | MCP_RESPONSE_TYPE => STATIC_NETWORK_USER
  | SHARED_MEM => STATIC_NETWORK_MEMORY
  | DVFS_SET_REQUEST | DVFS_SET_REPLY | DVFS_GET_REQUEST | DVFS_GET_REPLY
  | GET_TILE_ENERGY_REQUEST | GET_TILE_ENERGY_REPLY => STATIC_NETWORK_DVFS
  | _ => STATIC_NETWORK_SYSTEM
  end.

(** The data of a packet: a message of the memory system, or bytes the
    network does not look at. *)
Inductive Payload : Type := Raw (bytes : list Z) | Shmem (m : ShmemMsg).

Definition BROADCAST : Z := swrap 32 0xDEADBABE.
Definition SEND_TILE : Z := 0.
Definition RECEIVE_TILE : Z := 1.
Definition EMESH : Z := 2.

Record NetPacket : Type := mkNetPkt {
  np_time : Z;
  np_type : PacketType;
  np_sender : core_id_t;
  np_receiver : core_id_t;
  np_node_type : Z;
  np_length : Z;
  np_data : Payload;
  np_zero_load_delay : Z;
  np_contention_delay : Z }.

Definition NetPacket_new (time : Z) (ty : PacketType) (sender receiver : core_id_t) (length : Z)
    (data : Payload) : NetPacket :=
  mkNetPkt time ty sender receiver SEND_TILE length data 0 0.

Definition set_receiver (c : core_id_t) (p : NetPacket) : NetPacket :=
  mkNetPkt (np_time p) (np_type p) (np_sender p) c (np_node_type p) (np_length p) (np_data p)
    (np_zero_load_delay p) (np_contention_delay p).

(** The parameters of the simulated chip.  [nc_packet_size] is
    [sizeof(NetPacket)]; [nc_latency] and [nc_to_cycles] are
    [Latency::toPicosec] and [Time::toCycles] at the frequency of a network;
    [nc_callback] tells for which packets a tile has a callback. *)
Record NetConfig : Type := mkNetCfg {
  nc_application_tiles : Z;
  nc_total_tiles : Z;
  nc_tile_id_length : Z;
  nc_packet_size : Z;
  nc_mesh_width : Z;
  nc_mesh_height : Z;
  nc_shortcut : bool;
  nc_latency : EStaticNetwork -> Z -> Z;
  nc_to_cycles : EStaticNetwork -> Z -> Z;
  nc_callback : Z -> PacketType -> bool }.

(** A hop: the next tile, and the packet fields it gets there. *)
Record Hop : Type := mkHop {
  hop_next_tile_id : Z;
  hop_next_node_type : Z;
  hop_time : Z;
  hop_zero_load_delay : Z;
  hop_contention_delay : Z }.

Definition Hop_new (pkt : NetPacket) (tile node_type zero_load_delay contention_delay : Z) : Hop :=
  mkHop tile node_type
    (wrap64 (wrap64 (np_time pkt + contention_delay) + zero_load_delay))
    (wrap64 (np_zero_load_delay pkt + zero_load_delay))
    (wrap64 (np_contention_delay pkt + contention_delay)).

(** [buf_pkt] takes the fields of a hop. *)
Definition apply_hop (pkt : NetPacket) (h : Hop) : NetPacket :=
  mkNetPkt (hop_time h) (np_type pkt) (np_sender pkt) (np_receiver pkt) (hop_next_node_type h)
    (np_length pkt) (np_data pkt) (hop_zero_load_delay h) (hop_contention_delay h).

(** ** Routers and links *)

Record RouterModel (Q : Type) : Type := mkRouter {
  rt_num_output_ports : Z;
  rt_delay : Z;
  rt_contention_enabled : bool;
  rt_contention : list Q;
  rt_buffer_writes : Z;
  rt_buffer_reads : Z;
  rt_switch_allocator_requests : Z;
  rt_crossbar_traversals : list Z;
  rt_total_contention_delay : list Z;
  rt_total_packets : list Z }.
Arguments mkRouter {Q}.
Arguments rt_num_output_ports {Q}. Arguments rt_delay {Q}. Arguments rt_contention_enabled {Q}.
Arguments rt_contention {Q}. Arguments rt_buffer_writes {Q}. Arguments rt_buffer_reads {Q}.
Arguments rt_switch_allocator_requests {Q}. Arguments rt_crossbar_traversals {Q}.
Arguments rt_total_contention_delay {Q}. Arguments rt_total_packets {Q}.

Record LinkModel : Type := mkLink { lk_delay : Z; lk_traversals : Z }.

Definition RouterModel_new {Q} (num_output_ports delay : Z) (contention_enabled : bool) (q : Q) :
    RouterModel Q :=
  let n := Z.to_nat num_output_ports in
  mkRouter num_output_ports delay contention_enabled
    (if contention_enabled then replicate n q else []) 0 0 0
    (replicate n 0) (replicate n 0) (replicate n 0).

(** ** Network models *)

Record HopCounterEvents : Type := mkHCE {
  hc_buffer_writes : Z;
  hc_buffer_reads : Z;
  hc_switch_allocator_traversals : Z;
  hc_crossbar_traversals : Z;
  hc_link_traversals : Z }.

(** The three models with their own members. *)
Inductive NetKind (Q : Type) : Type :=
  | Magic
  | HopCounter (hop_latency : Z) (events : HopCounterEvents)
  | HopByHop (injection_router mesh_router : RouterModel Q) (mesh_link_list : list LinkModel).
Arguments Magic {Q}.
Arguments HopCounter {Q}.
Arguments HopByHop {Q}.

(** The counters of the base class. *)
Record NetCounters : Type := mkNetCounters {
  packets_sent : Z; flits_sent : Z; bits_sent : Z;
  packets_broadcasted : Z; flits_broadcasted : Z; bits_broadcasted : Z;
  packets_received : Z; flits_received : Z; bits_received : Z;
  total_packet_latency : Z; total_contention_delay : Z;
  interval_flits_sent : Z; interval_flits_broadcasted : Z; interval_flits_received : Z }.

Definition NetCounters_new : NetCounters := mkNetCounters 0 0 0 0 0 0 0 0 0 0 0 0 0 0.

Record NetworkModel (Q : Type) : Type := mkNM {
  nm_network_id : EStaticNetwork;
  nm_tile_id : Z;
  nm_enabled : bool;
  nm_flit_width : Z;
  nm_has_broadcast : bool;
  nm_kind : NetKind Q;
  nm_counters : NetCounters }.
Arguments mkNM {Q}.
Arguments nm_network_id {Q}. Arguments nm_tile_id {Q}. Arguments nm_enabled {Q}.
Arguments nm_flit_width {Q}. Arguments nm_has_broadcast {Q}. Arguments nm_kind {Q}.
Arguments nm_counters {Q}.

Definition set_kind {Q} (k : NetKind Q) (m : NetworkModel Q) : NetworkModel Q :=
  mkNM (nm_network_id m) (nm_tile_id m) (nm_enabled m) (nm_flit_width m) (nm_has_broadcast m) k
    (nm_counters m).
Definition set_counters {Q} (c : NetCounters) (m : NetworkModel Q) : NetworkModel Q :=
  mkNM (nm_network_id m) (nm_tile_id m) (nm_enabled m) (nm_flit_width m) (nm_has_broadcast m)
    (nm_kind m) c.
(** [enable] and [disable] *)
Definition set_enabled {Q} (b : bool) (m : NetworkModel Q) : NetworkModel Q :=
  mkNM (nm_network_id m) (nm_tile_id m) b (nm_flit_width m) (nm_has_broadcast m) (nm_kind m)
    (nm_counters m).

Definition popCurrentUtilizationStatistics {Q} (m : NetworkModel Q) : Z * Z * Z * NetworkModel Q :=
  let c := nm_counters m in
  (interval_flits_sent c, interval_flits_broadcasted c, interval_flits_received c,
   set_counters (mkNetCounters (packets_sent c) (flits_sent c) (bits_sent c) (packets_broadcasted c)
     (flits_broadcasted c) (bits_broadcasted c) (packets_received c) (flits_received c)
     (bits_received c) (total_packet_latency c) (total_contention_delay c) 0 0 0) m).

Section models.
Context (cfg : NetConfig).

Definition isApplicationTile (t : Z) : bool := (0 <=? t) && (t <? nc_application_tiles cfg).
Definition isSystemTile (t : Z) : bool := (nc_application_tiles cfg <=? t) && (t <? nc_total_tiles cfg).

Definition bufferSize (pkt : NetPacket) : Z := wrap32 (nc_packet_size cfg + np_length pkt).

(** In bits. *)
Definition net_getModeledLength (pkt : NetPacket) : result Z :=
  match np_type pkt, np_data pkt with
  | SHARED_MEM, Shmem msg =>
      data_size ← getModeledLength msg;
      Ok (wrap32 (wrap32 (2 * nc_tile_id_length cfg) + data_size))
  | SHARED_MEM, Raw _ => Err NullDeref
  | _, _ => Ok (wrap32 (bufferSize pkt * 8))
  end.

Definition computeNumFlits (flit_width packet_length : Z) : result Z :=
  if flit_width =? -1 then Ok 0
  else
    let w := wrap32 flit_width in
    if w =? 0 then Err DivByZero
    else Ok (swrap 32 (if packet_length mod w =? 0 then packet_length / w else packet_length / w + 1)).

Section with_queues.
Context {Q : Type} `{QueueOps Q}.
Implicit Types m : NetworkModel Q.

(** The memory network asks the memory manager whether the message is
    modeled. *)
Definition isModelEnabled m (pkt : NetPacket) : result bool :=
  match nm_network_id m with
  | STATIC_NETWORK_MEMORY =>
      if nm_enabled m then
        match np_data pkt with Shmem msg => Ok (m_modeled msg) | Raw _ => Err NullDeref end
      else Ok false
  | _ => Ok (nm_enabled m)
  end.

Definition pkt_flits m (pkt : NetPacket) : result Z :=
  len ← net_getModeledLength pkt; computeNumFlits (nm_flit_width m) len.

(** *** RouterModel::processPacket *)

(** The ports are asked in order; the packet waits for the slowest. *)
Fixpoint contention_loop (ports : list Z) (pkt_time num_flits max_queue_delay : Z) (qs : list Q) :
    result (Z * list Q) :=
  match ports with
  | [] => Ok (max_queue_delay, qs)
  | port :: ports' =>
    q ← vec_get qs port;
    '(queue_delay, q') ← computeQueueDelay q pkt_time (wrap64 num_flits);
    qs' ← vec_set qs port q';
    contention_loop ports' pkt_time num_flits (Z.max max_queue_delay queue_delay) qs'
  end.

Fixpoint updateContentionCounters (delay : Z) (ports : list Z) (delays packets : list Z) :
    result (list Z * list Z) :=
  match ports with
  | [] => Ok (delays, packets)
  | port :: ports' =>
    d ← vec_get delays port;
    delays' ← vec_set delays port (wrap64 (d + delay));
    n ← vec_get packets port;
    packets' ← vec_set packets port (wrap64 (n + 1));
    updateContentionCounters delay ports' delays' packets'
  end.

Definition router_updateEventCounters (num_flits num_ports : Z) (r : RouterModel Q) :
    result (RouterModel Q) :=
  x ← vec_get (rt_crossbar_traversals r) (num_ports - 1);
  xs ← vec_set (rt_crossbar_traversals r) (num_ports - 1) (wrap64 (x + num_flits));
  Ok (mkRouter (rt_num_output_ports r) (rt_delay r) (rt_contention_enabled r) (rt_contention r)
        (wrap64 (rt_buffer_writes r + num_flits)) (wrap64 (rt_buffer_reads r + num_flits))
        (wrap64 (rt_switch_allocator_requests r + 1)) xs (rt_total_contention_delay r)
        (rt_total_packets r)).

Definition router_contend m (pkt : NetPacket) (ports : list Z) (num_flits contention_delay : Z)
    (r : RouterModel Q) : result (Z * RouterModel Q) :=
  if rt_contention_enabled r then
    '(max_queue_delay, qs) ←
      contention_loop ports (nc_to_cycles cfg (nm_network_id m) (np_time pkt)) num_flits 0
        (rt_contention r);
    '(delays, packets) ←
      updateContentionCounters max_queue_delay ports (rt_total_contention_delay r) (rt_total_packets r);
    Ok (wrap64 (contention_delay + max_queue_delay),
        mkRouter (rt_num_output_ports r) (rt_delay r) (rt_contention_enabled r) qs
          (rt_buffer_writes r) (rt_buffer_reads r) (rt_switch_allocator_requests r)
          (rt_crossbar_traversals r) delays packets)
  else Ok (contention_delay, r).

Definition router_processPacket m (pkt : NetPacket) (ports : list Z)
    (zero_load_delay contention_delay : Z) (r : RouterModel Q) : result (Z * Z * RouterModel Q) :=
  enabled ← isModelEnabled m pkt;
  if negb enabled then Ok (zero_load_delay, contention_delay, r)
  else
    let n := Z.of_nat (length ports) in
    _ ← assert_c ((1 <=? n) && (n <=? rt_num_output_ports r));
    num_flits ← pkt_flits m pkt;
    '(contention_delay, r) ← router_contend m pkt ports num_flits contention_delay r;
    r ← router_updateEventCounters num_flits n r;
    Ok (wrap64 (zero_load_delay + rt_delay r), contention_delay, r).

(** *** ElectricalLinkModel::processPacket *)

Definition link_processPacket m (pkt : NetPacket) (zero_load_delay : Z) (l : LinkModel) :
    result (Z * LinkModel) :=
  enabled ← isModelEnabled m pkt;
  if negb enabled then Ok (zero_load_delay, l)
  else
    num_flits ← pkt_flits m pkt;
    Ok (wrap64 (zero_load_delay + lk_delay l), mkLink (lk_delay l) (wrap64 (lk_traversals l + num_flits))).

(** *** NetworkModelEMeshHopByHop *)

Definition SELF : Z := 0.
Definition LEFT : Z := 1.
Definition RIGHT : Z := 2.
Definition DOWN : Z := 3.
Definition UP : Z := 4.

(** Tile numbers are not negative. *)
Definition computePosition (t : Z) : Z * Z := (t mod nc_mesh_width cfg, t / nc_mesh_width cfg).
Definition computeTileID (x y : Z) : Z :=
  if (x <? 0) || (y <? 0) || (nc_mesh_width cfg <=? x) || (nc_mesh_height cfg <=? y)
  then INVALID_TILE_ID else y * nc_mesh_width cfg + x.
Definition hop_distance (t t' : Z) : Z :=
  let '(sx, sy) := computePosition t in
  let '(dx, dy) := computePosition t' in Z.abs (sx - dx) + Z.abs (sy - dy).

Record NextDest : Type := mkDest { nd_tile_id : Z; nd_output_port : Z; nd_node_type : Z }.

(** The copies of a broadcast: along the row of the sender, and from there up
    and down the columns. *)
Definition broadcast_dests (tile sender : Z) : list NextDest :=
  let '(sx, sy) := computePosition sender in
  let '(cx, cy) := computePosition tile in
  (if sy <=? cy then [mkDest (computeTileID cx (cy + 1)) UP EMESH] else []) ++
  (if cy <=? sy then [mkDest (computeTileID cx (cy - 1)) DOWN EMESH] else []) ++
  (if cy =? sy then
     (if sx <=? cx then [mkDest (computeTileID (cx + 1) cy) RIGHT EMESH] else []) ++
     (if cx <=? sx then [mkDest (computeTileID (cx - 1) cy) LEFT EMESH] else [])
   else []) ++
  [mkDest tile SELF RECEIVE_TILE].

(** One copy: along the row first, then along the column. *)
Definition unicast_dest (tile receiver : Z) : NextDest :=
  let '(cx, cy) := computePosition tile in
  let '(dx, dy) := computePosition receiver in
  if dx <? cx then mkDest (computeTileID (cx - 1) cy) LEFT EMESH
  else if cx <? dx then mkDest (computeTileID (cx + 1) cy) RIGHT EMESH
  else if dy <? cy then mkDest (computeTileID cx (cy - 1)) DOWN EMESH
  else if cy <? dy then mkDest (computeTileID cx (cy + 1)) UP EMESH
  else mkDest tile SELF RECEIVE_TILE.

(** The links of the copies of a broadcast, and the slowest of them. *)
Fixpoint links_loop m (pkt : NetPacket) (ports : list Z) (max_link_delay : Z) (ls : list LinkModel) :
    result (Z * list LinkModel) :=
  match ports with
  | [] => Ok (max_link_delay, ls)
  | port :: ports' =>
    l ← vec_get ls port;
    '(link_delay, l') ← link_processPacket m pkt 0 l;
    ls' ← vec_set ls port l';
    links_loop m pkt ports' (Z.max max_link_delay link_delay) ls'
  end.

Definition emesh_latency m (cycles : Z) : Z := nc_latency cfg (nm_network_id m) cycles.

Definition hop_by_hop_routePacket m (pkt : NetPacket) (inj mesh : RouterModel Q) (links : list LinkModel) :
    result (list Hop * NetKind Q) :=
  let tile := nm_tile_id m in
  if np_node_type pkt =? SEND_TILE then
    '(_, contention_delay, inj) ← router_processPacket m pkt [0] 0 0 inj;
    Ok ([Hop_new pkt tile EMESH (emesh_latency m 0) (emesh_latency m contention_delay)],
        HopByHop inj mesh links)
  else if np_node_type pkt =? EMESH then
    if tile_id (np_receiver pkt) =? BROADCAST then
      let dests := filter (fun d => nd_tile_id d <> INVALID_TILE_ID)
                     (broadcast_dests tile (tile_id (np_sender pkt))) in
      let ports := nd_output_port <$> dests in
      '(max_link_delay, links) ← links_loop m pkt ports 0 links;
      '(zero_load_delay, contention_delay, mesh) ←
        router_processPacket m pkt ports max_link_delay 0 mesh;
      Ok ((fun d => Hop_new pkt (nd_tile_id d) (nd_node_type d) (emesh_latency m zero_load_delay)
                      (emesh_latency m contention_delay)) <$> dests,
          HopByHop inj mesh links)
    else
      let d := unicast_dest tile (tile_id (np_receiver pkt)) in
      _ ← assert_c ((0 <=? nd_output_port d) && (nd_output_port d <? Z.of_nat (length links)));
      '(zero_load_delay, contention_delay, mesh) ←
        router_processPacket m pkt [nd_output_port d] 0 0 mesh;
      l ← vec_get links (nd_output_port d);
      '(zero_load_delay, l) ← link_processPacket m pkt zero_load_delay l;
      links ← vec_set links (nd_output_port d) l;
      _ ← assert_c (negb (nd_tile_id d =? INVALID_TILE_ID));
      Ok ([Hop_new pkt (nd_tile_id d) (nd_node_type d) (emesh_latency m zero_load_delay)
             (emesh_latency m contention_delay)],
          HopByHop inj mesh links)
  else Err LogError.

(** *** NetworkModelEMeshHopCounter, NetworkModelMagic *)

Definition hc_updateEventCounters (num_flits num_hops : Z) (e : HopCounterEvents) : HopCounterEvents :=
  let n := wrap32 (num_flits * num_hops) in
  mkHCE (wrap64 (hc_buffer_writes e + n)) (wrap64 (hc_buffer_reads e + n))
    (wrap64 (hc_switch_allocator_traversals e + num_hops)) (wrap64 (hc_crossbar_traversals e + n))
    (wrap64 (hc_link_traversals e + n)).

Definition hop_counter_routePacket m (pkt : NetPacket) (hop_latency : Z) (e : HopCounterEvents) :
    result (list Hop * NetKind Q) :=
  let num_hops := wrap32 (hop_distance (tile_id (np_sender pkt)) (tile_id (np_receiver pkt))) in
  enabled ← isModelEnabled m pkt;
  let cycles := if (enabled : bool) then wrap64 (num_hops * hop_latency) else 0 in
  e ← (if (enabled : bool) then
         num_flits ← pkt_flits m pkt; Ok (hc_updateEventCounters (wrap32 num_flits) num_hops e)
       else Ok e);
  Ok ([Hop_new pkt (tile_id (np_receiver pkt)) RECEIVE_TILE (emesh_latency m cycles) 0],
      HopCounter hop_latency e).

Definition magic_routePacket m (pkt : NetPacket) : list Hop * NetKind Q :=
  ([Hop_new pkt (tile_id (np_receiver pkt)) RECEIVE_TILE (emesh_latency m 1) (emesh_latency m 0)], Magic).

Definition routePacket m (pkt : NetPacket) : result (list Hop * NetworkModel Q) :=
  '(hops, k) ←
    match nm_kind m with
    | Magic => Ok (magic_routePacket m pkt)
    | HopCounter lat e => hop_counter_routePacket m pkt lat e
    | HopByHop inj mesh links => hop_by_hop_routePacket m pkt inj mesh links
    end;
  Ok (hops, set_kind k m).

(** *** The base class *)

Definition isPacketReadyToBeReceived m (pkt : NetPacket) : result bool :=
  match nm_network_id m with
  | STATIC_NETWORK_USER | STATIC_NETWORK_MEMORY => Ok (np_node_type pkt =? RECEIVE_TILE)
  | _ => _ ← assert_c (tile_id (np_receiver pkt) =? nm_tile_id m); Ok true
  end.

(** Tile numbers as the loops of [processCornerCases] enumerate them. *)
Definition all_tiles : list Z := seqZ 0 (nc_total_tiles cfg).
Definition system_tiles : list Z :=
  seqZ (nc_application_tiles cfg) (nc_total_tiles cfg - nc_application_tiles cfg).

Definition direct_hop (pkt : NetPacket) (t : Z) : Hop := Hop_new pkt t RECEIVE_TILE 0 0.

(** The hops, and whether the packet is finished. *)
Definition processCornerCases m (pkt : NetPacket) : result (list Hop * bool) :=
  let sender := tile_id (np_sender pkt) in
  let receiver := tile_id (np_receiver pkt) in
  _ ← assert_c (sender =? nm_tile_id m);
  if sender =? receiver then Ok ([direct_hop pkt receiver], true)
  else if isSystemTile sender then
    Ok (if receiver =? BROADCAST then direct_hop pkt <$> all_tiles else [direct_hop pkt receiver], true)
  else if isSystemTile receiver then Ok ([direct_hop pkt receiver], true)
  else
    _ ← assert_c (isApplicationTile sender && (isApplicationTile receiver || (receiver =? BROADCAST)));
    Ok (if receiver =? BROADCAST then direct_hop pkt <$> system_tiles else [], false).

Definition updateSendCounters m (pkt : NetPacket) : result (NetworkModel Q) :=
  _ ← log_assert (tile_id (np_sender pkt) =? nm_tile_id m);
  len ← net_getModeledLength pkt;
  num_flits ← computeNumFlits (nm_flit_width m) len;
  let c := nm_counters m in
  let b := tile_id (np_receiver pkt) =? BROADCAST in
  Ok (set_counters (mkNetCounters
    (wrap64 (packets_sent c + 1)) (wrap64 (flits_sent c + num_flits)) (wrap64 (bits_sent c + len))
    (if b then wrap64 (packets_broadcasted c + 1) else packets_broadcasted c)
    (if b then wrap64 (flits_broadcasted c + num_flits) else flits_broadcasted c)
    (if b then wrap64 (bits_broadcasted c + len) else bits_broadcasted c)
    (packets_received c) (flits_received c) (bits_received c)
    (total_packet_latency c) (total_contention_delay c)
    (wrap64 (interval_flits_sent c + num_flits))
    (if b then wrap64 (interval_flits_broadcasted c + num_flits) else interval_flits_broadcasted c)
    (interval_flits_received c)) m).

Definition updateReceiveCounters m (pkt : NetPacket) : result (NetworkModel Q) :=
  let receiver := tile_id (np_receiver pkt) in
  _ ← log_assert ((receiver =? BROADCAST) || (receiver =? nm_tile_id m));
  len ← net_getModeledLength pkt;
  num_flits ← computeNumFlits (nm_flit_width m) len;
  let c := nm_counters m in
  Ok (set_counters (mkNetCounters
    (packets_sent c) (flits_sent c) (bits_sent c)
    (packets_broadcasted c) (flits_broadcasted c) (bits_broadcasted c)
    (wrap64 (packets_received c + 1)) (wrap64 (flits_received c + num_flits))
    (wrap64 (bits_received c + len))
    (wrap64 (total_packet_latency c + wrap64 (np_zero_load_delay pkt + np_contention_delay pkt)))
    (wrap64 (total_contention_delay c + np_contention_delay pkt))
    (interval_flits_sent c) (interval_flits_broadcasted c)
    (wrap64 (interval_flits_received c + num_flits))) m).

(** [__routePacket] *)
Definition do_routePacket m (pkt : NetPacket) : result (list Hop * NetworkModel Q) :=
  let sender := tile_id (np_sender pkt) in
  let receiver := tile_id (np_receiver pkt) in
  '(hops, processed, m) ←
    (if np_node_type pkt =? SEND_TILE then
       _ ← log_assert (sender =? nm_tile_id m);
       '(hops, processed) ← processCornerCases m pkt;
       if (processed : bool) then Ok (hops, true, m)
       else
         enabled ← isModelEnabled m pkt;
         m ← (if (enabled : bool) then updateSendCounters m pkt else Ok m);
         Ok (hops, false, m)
     else Ok ([], false, m));
  if (processed : bool) then Ok (hops, m)
  else
    _ ← log_assert (isApplicationTile sender && (isApplicationTile receiver || (receiver =? BROADCAST))
                    && negb (sender =? receiver));
    '(hops', m) ← routePacket m pkt;
    Ok (hops ++ hops', m).

(** [processReceivedPacket]: the serialization latency. *)
Definition processReceivedPacket m (pkt : NetPacket) : result NetPacket :=
  num_flits ← pkt_flits m pkt;
  let l := nc_latency cfg (nm_network_id m) (wrap64 num_flits) in
  Ok (mkNetPkt (wrap64 (np_time pkt + l)) (np_type pkt) (np_sender pkt) (np_receiver pkt)
        (np_node_type pkt) (np_length pkt) (np_data pkt) (wrap64 (np_zero_load_delay pkt + l))
        (np_contention_delay pkt)).

(** [__processReceivedPacket] *)
Definition do_processReceivedPacket m (pkt : NetPacket) : result (NetPacket * NetworkModel Q) :=
  let sender := tile_id (np_sender pkt) in
  _ ← assert_c (bool_decide (nm_network_id m = STATIC_NETWORK_SYSTEM) ||
                (np_node_type pkt =? RECEIVE_TILE));
  if isSystemTile sender || isSystemTile (nm_tile_id m) || (sender =? tile_id (np_receiver pkt))
  then Ok (pkt, m)
  else
    enabled ← isModelEnabled m pkt;
    if negb enabled then Ok (pkt, m)
    else
      pkt ← processReceivedPacket m pkt;
      m ← updateReceiveCounters m pkt;
      Ok (pkt, m).
End with_queues.
End models.
