(* ===== verification/Network.v ===== *)
(** * The network of the chip: common/network/network.{h,cc}

    Every tile has a [Network] that sends packets, forwards packets that are
    on their way and hands received packets to a callback or to a queue.
    Packets travel between tiles through the transport of the host: they are
    in [ns_flight] with the tile they go to, and may arrive in any order. *)

From S2P Require Import Prelude Threads QueueModel NetModel.

Record NetState (Q : Type) : Type := mkNet {
  ns_models : Z -> EStaticNetwork -> NetworkModel Q;
  ns_flight : list (Z * NetPacket);
  ns_queue : list (Z * NetPacket);        (* the queues of all tiles *)
  ns_calls : list (Z * NetPacket);        (* packets given to callbacks *)
  ns_taken : list (Z * NetPacket) }.      (* packets returned by [netRecv] *)
Arguments mkNet {Q}. Arguments ns_models {Q}. Arguments ns_flight {Q}.
Arguments ns_queue {Q}. Arguments ns_calls {Q}. Arguments ns_taken {Q}.

Definition put_model {Q} (t : Z) (m : NetworkModel Q) (s : NetState Q) : NetState Q :=
  mkNet (upd (ns_models s) t (fun n => if decide (n = nm_network_id m) then m else ns_models s t n))
    (ns_flight s) (ns_queue s) (ns_calls s) (ns_taken s).
Definition put_flight {Q} (l : list (Z * NetPacket)) (s : NetState Q) : NetState Q :=
  mkNet (ns_models s) l (ns_queue s) (ns_calls s) (ns_taken s).
Definition add_queue {Q} (t : Z) (pkt : NetPacket) (s : NetState Q) : NetState Q :=
  mkNet (ns_models s) (ns_flight s) (ns_queue s ++ [(t, pkt)]) (ns_calls s) (ns_taken s).
Definition add_call {Q} (t : Z) (pkt : NetPacket) (s : NetState Q) : NetState Q :=
  mkNet (ns_models s) (ns_flight s) (ns_queue s) (ns_calls s ++ [(t, pkt)]) (ns_taken s).

Section network.
Context (cfg : NetConfig) {Q : Type} `{QueueOps Q}.
Abbreviation NS := (ST (NetState Q)).

(** [getNetworkModelFromPacketType] *)
Definition model_of (t : Z) (ty : PacketType) (s : NetState Q) : NetworkModel Q :=
  ns_models s t (g_type_to_static_network_map ty).

Definition route_at (t : Z) (pkt : NetPacket) : NS (list Hop) :=
  m ← gets (model_of t (np_type pkt));
  '(hops, m') ← lift (do_routePacket cfg m pkt);
  _ ← modify (put_model t m');
  mret hops.

(** [_transport->send] *)
Definition transport_send (t : Z) (pkt : NetPacket) : NS unit :=
  modify (fun s => put_flight (ns_flight s ++ [(t, pkt)]) s).

(** The loop of [forwardPacket]: with the shortcut through shared memory the
    hops inside the network are taken at once. *)
Fixpoint forward_loop (fuel : nat) (pkt : NetPacket) (hops : list Hop) : NS unit :=
  match hops with
  | [] => mret tt
  | h :: hops' =>
    match fuel with
    | O => stop OutOfFuel
    | S fuel' =>
      let pkt' := apply_hop pkt h in
      if negb (hop_next_node_type h =? RECEIVE_TILE) && nc_shortcut cfg then
        next ← route_at (hop_next_tile_id h) pkt';
        forward_loop fuel' pkt' (hops' ++ next)
      else
        _ ← transport_send (hop_next_tile_id h) pkt';
        forward_loop fuel' pkt' hops'
    end
  end.

(** A broadcast visits every application tile twice (in the mesh and as a
    receiver) and every system tile once. *)
Definition forward_fuel : nat := Z.to_nat (4 * nc_total_tiles cfg + 4).

Definition forwardPacket (t : Z) (pkt : NetPacket) : NS Z :=
  hops ← route_at t pkt;
  _ ← forward_loop forward_fuel pkt hops;
  mret (np_length pkt).

Definition netSend (t : Z) (pkt : NetPacket) : NS Z :=
  m ← gets (model_of t (np_type pkt));
  _ ← (if (tile_id (np_receiver pkt) =? BROADCAST) && negb (nm_has_broadcast m) then
         for_each (all_tiles cfg) (fun i =>
           ret ← forwardPacket t (set_receiver (getMainCoreId i) pkt);
           lift (log_assert (ret =? np_length pkt)))
       else
         ret ← forwardPacket t pkt;
         lift (log_assert (ret =? np_length pkt)));
  mret (np_length pkt).

(** One round of [netPullFromTransport]. *)
Definition netPull (t : Z) (pkt : NetPacket) : NS unit :=
  let sender := tile_id (np_sender pkt) in
  _ ← lift (log_assert ((0 <=? sender) && (sender <? nc_total_tiles cfg)));
  m ← gets (model_of t (np_type pkt));
  ready ← lift (isPacketReadyToBeReceived m pkt);
  if (ready : bool) then
    '(pkt', m') ← lift (do_processReceivedPacket cfg m pkt);
    _ ← modify (put_model t m');
    if nc_callback cfg t (np_type pkt) then modify (add_call t pkt') else modify (add_queue t pkt')
  else _ ← forwardPacket t pkt; mret tt.

(** ** netRecv *)

(** Empty lists of senders and types stand for all of them. *)
Record NetMatch : Type := mkMatch {
  mt_senders : list core_id_t;
  mt_types : list PacketType;
  mt_receiver : core_id_t }.

(** Whether a packet in the queue of tile [t] matches. *)
Definition match_packet (t : Z) (mt : NetMatch) (pkt : NetPacket) : bool :=
  let receiver := if tile_id (mt_receiver mt) =? INVALID_TILE_ID then getMainCoreId t else mt_receiver mt in
  (bool_decide (np_receiver pkt = receiver) || (tile_id (np_receiver pkt) =? BROADCAST)) &&
  match mt_senders mt with
  | [] => isMainCore (np_sender pkt) && (0 <=? tile_id (np_sender pkt)) &&
          (tile_id (np_sender pkt) <? nc_total_tiles cfg)
  | l => bool_decide (np_sender pkt ∈ l)
  end &&
  match mt_types mt with [] => true | l => bool_decide (np_type pkt ∈ l) end.

(** The first packet of the queue of tile [t] that matches, and the rest. *)
Fixpoint take_match (t : Z) (mt : NetMatch) (l : list (Z * NetPacket)) :
    option (NetPacket * list (Z * NetPacket)) :=
  match l with
  | [] => None
  | (t', pkt) :: l' =>
    if (t' =? t) && match_packet t mt pkt then Some (pkt, l')
    else match take_match t mt l' with Some (p, r) => Some (p, (t', pkt) :: r) | None => None end
  end.

(** [netRecv], which waits while no packet matches. *)
Definition netRecv (t : Z) (mt : NetMatch) (s : NetState Q) : result (option (NetPacket * NetState Q)) :=
  match take_match t mt (ns_queue s) with
  | Some (pkt, l) =>
      let sender := tile_id (np_sender pkt) in
      let receiver := tile_id (np_receiver pkt) in
      _ ← assert_c ((0 <=? sender) && (sender <? nc_total_tiles cfg));
      _ ← assert_c ((receiver =? t) || (receiver =? BROADCAST));
      Ok (Some (pkt, mkNet (ns_models s) (ns_flight s) l (ns_calls s) (ns_taken s ++ [(t, pkt)])))
  | None => Ok None
  end.

(** ** Runs

    The operations of the tiles and of the transport, which delivers the
    packets in flight in any order. *)
Inductive NetOp : Type :=
  | NSend (t : Z) (pkt : NetPacket)
  | NArrive (i : nat)
  | NRecv (t : Z) (mt : NetMatch).

(** The packet in flight that a choice of the transport selects. *)
Definition choose (i : nat) (s : NetState Q) : nat := i `mod` length (ns_flight s).

Definition net_op (op : NetOp) : NS unit := fun s =>
  match op with
  | NSend t pkt => (_ ← netSend t pkt; mret tt) s
  | NArrive i =>
      match ns_flight s !! choose i s with
      | Some (t, pkt) => netPull t pkt (put_flight (delete (choose i s) (ns_flight s)) s)
      | None => Ok (tt, s)
      end
  | NRecv t mt =>
      match netRecv t mt s with
      | Ok (Some (_, s')) => Ok (tt, s')
      | Ok None => Ok (tt, s)
      | Err e => Err e
      end
  end.

Definition net_run (ops : list NetOp) : NS unit := for_each ops net_op.
End network.
