(* ===== verification/MeshThm.v ===== *)
(** * Routes in the mesh

    The tiles a copy of a broadcast still has to reach form a subtree of the
    broadcast tree; the children that the routing function computes split it.
    A unicast packet comes one step closer to its receiver. *)

From S2P Require Import Prelude Threads QueueModel NetModel.

Lemma seqZ_cons_eq m n : 0 < n -> seqZ m n = m :: seqZ (m + 1) (n - 1).
Proof. intros. rewrite seqZ_cons by lia. by rewrite <- Z.add_1_r, <- Z.sub_1_r. Qed.

Lemma seqZ_snoc m n : 0 <= n -> seqZ m (n + 1) = seqZ m n ++ [m + n].
Proof. intros. rewrite seqZ_app by lia. by rewrite (seqZ_cons_eq (m + n) 1) by lia. Qed.

Lemma seqZ_empty m n : n <= 0 -> seqZ m n = [].
Proof. apply seqZ_nil. Qed.

Section mesh.
Context (cfg : NetConfig).
Abbreviation w := (nc_mesh_width cfg).
Abbreviation h := (nc_mesh_height cfg).
Context (Hw : 0 < w) (Hh : 0 < h).

Definition tid (x y : Z) : Z := y * w + x.

Lemma position_tid x y : 0 <= x < w -> computePosition cfg (tid x y) = (x, y).
Proof.
  intros Hx. unfold computePosition, tid. f_equal.
  - rewrite Z.add_comm, Z.mod_add by lia. apply Z.mod_small. lia.
  - rewrite Z.add_comm, Z.div_add by lia. rewrite Z.div_small by lia. lia.
Qed.

Lemma tid_position t : 0 <= t < w * h ->
  exists x y, t = tid x y /\ 0 <= x < w /\ 0 <= y < h.
Proof.
  intros Ht. exists (t mod w), (t / w). unfold tid. split; [pose proof (Z.div_mod t w); lia|].
  split; [by apply Z.mod_pos_bound|]. split; [by apply Z.div_pos; lia|].
  apply Z.div_lt_upper_bound; lia.
Qed.

Lemma tid_range x y : 0 <= x < w -> 0 <= y < h -> 0 <= tid x y < w * h.
Proof. unfold tid. nia. Qed.

Lemma computeTileID_in x y : 0 <= x < w -> 0 <= y < h -> computeTileID cfg x y = tid x y.
Proof.
  intros. unfold computeTileID.
  rewrite (proj2 (Z.ltb_ge x 0)), (proj2 (Z.ltb_ge y 0)), (proj2 (Z.leb_gt _ x)), (proj2 (Z.leb_gt _ y)) by lia.
  done.
Qed.

Lemma computeTileID_out x y : ~ (0 <= x < w /\ 0 <= y < h) -> computeTileID cfg x y = INVALID_TILE_ID.
Proof.
  intros Hn. unfold computeTileID. case_match eqn:E; [done|]. exfalso. apply Hn.
  apply orb_false_iff in E as [[[? ?]%orb_false_iff ?]%orb_false_iff ?]. bool_facts. lia.
Qed.

(** ** The broadcast tree *)

Definition column (x : Z) (ys : list Z) : list Z := tid x <$> ys.
Definition columns (xs : list Z) : list Z := xs ≫= fun x => column x (seqZ 0 h).

Lemma columns_cons x xs : columns (x :: xs) = column x (seqZ 0 h) ++ columns xs.
Proof. done. Qed.
Lemma columns_app xs ys : columns (xs ++ ys) = columns xs ++ columns ys.
Proof. apply bind_app. Qed.

(** The tiles below the copy at column [cx] and row [cy] in the broadcast tree
    of the sender at [sx], [sy]. *)
Definition subtree_at (sx sy cx cy : Z) : list Z :=
  if sy <? cy then column cx (seqZ cy (h - cy))
  else if cy <? sy then column cx (seqZ 0 (cy + 1))
  else column cx (seqZ 0 h) ++
       (if sx <=? cx then columns (seqZ (cx + 1) (w - cx - 1)) else []) ++
       (if cx <=? sx then columns (seqZ 0 cx) else []).

Definition subtree (sender t : Z) : list Z :=
  let '(sx, sy) := computePosition cfg sender in
  let '(cx, cy) := computePosition cfg t in subtree_at sx sy cx cy.

Lemma subtree_tid sx sy cx cy : 0 <= sx < w -> 0 <= cx < w ->
  subtree (tid sx sy) (tid cx cy) = subtree_at sx sy cx cy.
Proof. intros. unfold subtree. by rewrite !position_tid. Qed.

(** What a destination still has to reach. *)
Definition dest_tiles (sender : Z) (d : NextDest) : list Z :=
  if nd_node_type d =? RECEIVE_TILE then [nd_tile_id d] else subtree sender (nd_tile_id d).
Definition valid_dests (tile sender : Z) : list NextDest :=
  filter (fun d => nd_tile_id d <> INVALID_TILE_ID) (broadcast_dests cfg tile sender).

(** One destination after the removal of tiles outside the mesh. *)
Lemma valid_one sx sy x y port : 0 <= sx < w ->
  filter (fun d => nd_tile_id d <> INVALID_TILE_ID) [mkDest (computeTileID cfg x y) port EMESH]
    ≫= dest_tiles (tid sx sy) =
  if decide (0 <= x < w /\ 0 <= y < h) then subtree_at sx sy x y else [].
Proof.
  intros Hs. case_decide as Hd.
  - rewrite computeTileID_in by lia. rewrite filter_cons_True.
    + cbn [filter list_filter mbind list_bind]. rewrite app_nil_r. unfold dest_tiles. simpl.
      by rewrite subtree_tid by lia.
    + pose proof (tid_range x y ltac:(lia) ltac:(lia)). simpl. unfold INVALID_TILE_ID. lia.
  - rewrite computeTileID_out by done. by rewrite filter_cons_False by naive_solver.
Qed.

Lemma column_split cx cy : 0 <= cy < h ->
  column cx (seqZ 0 h) = column cx (seqZ 0 cy) ++ tid cx cy :: column cx (seqZ (cy + 1) (h - cy - 1)).
Proof.
  intros. unfold column. replace h with (cy + (h - cy)) at 1 by lia.
  rewrite seqZ_app by lia. rewrite (seqZ_cons_eq (0 + cy)) by lia. by rewrite fmap_app.
Qed.

(** The tiles of the four neighbours. *)
Definition below (sx sy x y : Z) : list Z :=
  if decide (0 <= x < w /\ 0 <= y < h) then subtree_at sx sy x y else [].

Lemma below_up sx sy cx cy : 0 <= cx < w -> 0 <= sy <= cy -> cy < h ->
  below sx sy cx (cy + 1) = column cx (seqZ (cy + 1) (h - cy - 1)).
Proof.
  intros. unfold below, subtree_at. case_decide.
  - rewrite (proj2 (Z.ltb_lt sy (cy + 1))) by lia. by replace (h - (cy + 1)) with (h - cy - 1) by lia.
  - by rewrite (seqZ_empty (cy + 1)) by lia.
Qed.

Lemma below_down sx sy cx cy : 0 <= cx < w -> 0 <= cy <= sy -> sy < h ->
  below sx sy cx (cy - 1) = column cx (seqZ 0 cy).
Proof.
  intros. unfold below, subtree_at. case_decide.
  - rewrite (proj2 (Z.ltb_ge sy (cy - 1))), (proj2 (Z.ltb_lt (cy - 1) sy)) by lia.
    by replace (cy - 1 + 1) with cy by lia.
  - by rewrite (seqZ_empty 0 cy) by lia.
Qed.

Lemma below_right sx sy cx : 0 <= sx <= cx -> cx < w -> 0 <= sy < h ->
  below sx sy (cx + 1) sy = columns (seqZ (cx + 1) (w - cx - 1)).
Proof.
  intros. unfold below, subtree_at. case_decide.
  - rewrite Z.ltb_irrefl, (proj2 (Z.leb_le sx (cx + 1))), (proj2 (Z.leb_gt (cx + 1) sx)) by lia.
    rewrite app_nil_r, <- columns_cons, (seqZ_cons_eq (cx + 1) (w - cx - 1)) by lia.
    by replace (w - (cx + 1) - 1) with (w - cx - 1 - 1) by lia.
  - by rewrite (seqZ_empty (cx + 1)) by lia.
Qed.

Lemma below_left sx sy cx : 0 <= cx <= sx -> sx < w -> 0 <= sy < h ->
  below sx sy (cx - 1) sy ≡ₚ columns (seqZ 0 cx).
Proof.
  intros. unfold below, subtree_at. case_decide.
  - rewrite Z.ltb_irrefl, (proj2 (Z.leb_gt sx (cx - 1))), (proj2 (Z.leb_le (cx - 1) sx)) by lia.
    replace (seqZ 0 cx) with (seqZ 0 (cx - 1) ++ [cx - 1]).
    + rewrite columns_app. cbn [app]. rewrite (Permutation_app_comm (columns _)).
      unfold columns at 2. cbn [mbind list_bind]. by rewrite app_nil_r.
    + rewrite <- (Z.add_0_l (cx - 1)) at 2. rewrite <- seqZ_snoc by lia. f_equal. lia.
  - by rewrite (seqZ_empty 0 cx) by lia.
Qed.

Lemma row_split sx cx sy : 0 <= sx < w -> 0 <= cx < w -> 0 <= sy < h ->
  (if sx <=? cx then below sx sy (cx + 1) sy else []) ++
  (if cx <=? sx then below sx sy (cx - 1) sy else []) ≡ₚ
  (if sx <=? cx then columns (seqZ (cx + 1) (w - cx - 1)) else []) ++
  (if cx <=? sx then columns (seqZ 0 cx) else []).
Proof.
  intros. apply Permutation_app.
  - destruct (Z.leb_spec sx cx); [|done]. by rewrite below_right by lia.
  - destruct (Z.leb_spec cx sx); [|done]. by rewrite below_left by lia.
Qed.

(** The destinations of a copy split what it has to reach. *)
Lemma subtree_split sx sy cx cy : 0 <= sx < w -> 0 <= sy < h -> 0 <= cx < w -> 0 <= cy < h ->
  valid_dests (tid cx cy) (tid sx sy) ≫= dest_tiles (tid sx sy) ≡ₚ subtree_at sx sy cx cy.
Proof.
  intros Hsx Hsy Hcx Hcy.
  assert (Hself : filter (fun d => nd_tile_id d <> INVALID_TILE_ID) [mkDest (tid cx cy) SELF RECEIVE_TILE]
            ≫= dest_tiles (tid sx sy) = [tid cx cy]).
  { rewrite filter_cons_True; [done|]. pose proof (tid_range cx cy ltac:(lia) ltac:(lia)).
    simpl. unfold INVALID_TILE_ID. lia. }
  assert (Hopt : forall (b : bool) x y port,
    filter (fun d => nd_tile_id d <> INVALID_TILE_ID) (if b then [mkDest (computeTileID cfg x y) port EMESH] else [])
      ≫= dest_tiles (tid sx sy) = if b then below sx sy x y else []).
  { intros [] x y port; [by apply valid_one|done]. }
  unfold valid_dests, broadcast_dests. rewrite !position_tid by lia.
  rewrite !filter_app, !bind_app, Hself, !Hopt. unfold subtree_at.
  destruct (Z.ltb_spec sy cy) as [Hlt|Hge]; [|destruct (Z.ltb_spec cy sy) as [Hlt|Hge']].
  - rewrite (proj2 (Z.leb_le sy cy)), (proj2 (Z.leb_gt cy sy)), (proj2 (Z.eqb_neq cy sy)) by lia.
    rewrite below_up, (seqZ_cons_eq cy) by lia. symmetry. apply Permutation_cons_append.
  - rewrite (proj2 (Z.leb_gt sy cy)), (proj2 (Z.leb_le cy sy)), (proj2 (Z.eqb_neq cy sy)) by lia.
    rewrite below_down, seqZ_snoc by lia. unfold column. by rewrite fmap_app.
  - assert (cy = sy) as -> by lia. rewrite Z.leb_refl, Z.eqb_refl, filter_app, bind_app, !Hopt.
    rewrite below_up, below_down, (column_split cx sy) by lia.
    pose proof (row_split sx cx sy Hsx Hcx Hsy) as Hrow. rewrite Hrow. solve_Permutation.
Qed.

Lemma subtree_children t s : 0 <= t < w * h -> 0 <= s < w * h ->
  valid_dests t s ≫= dest_tiles s ≡ₚ subtree s t.
Proof.
  intros Ht Hs. destruct (tid_position t Ht) as (cx & cy & -> & ? & ?).
  destruct (tid_position s Hs) as (sx & sy & -> & ? & ?). rewrite subtree_tid by lia. by apply subtree_split.
Qed.

Lemma bind_dest_length (s : Z) (l : list NextDest) :
  length (l ≫= dest_tiles s) = sum_list ((fun d => length (dest_tiles s d)) <$> l).
Proof.
  induction l as [|d l IH]; [done|]. rewrite bind_cons, length_app, IH. done.
Qed.

(** ** All tiles *)

Lemma elem_columns xs t : t ∈ columns xs <-> exists x y, x ∈ xs /\ 0 <= y < h /\ t = tid x y.
Proof.
  unfold columns, column. rewrite list_elem_of_bind. split.
  - intros (x & (y & -> & Hy%elem_of_seqZ)%list_elem_of_fmap & Hx). exists x, y. split; [done|]. split; [lia|done].
  - intros (x & y & Hx & Hy & ->). exists x. split; [|done]. apply list_elem_of_fmap. exists y.
    split; [done|]. apply elem_of_seqZ. lia.
Qed.

Lemma tid_inj x y x' y' : 0 <= x < w -> 0 <= x' < w -> tid x y = tid x' y' -> x = x' /\ y = y'.
Proof.
  intros Hx Hx' E. apply (f_equal (computePosition cfg)) in E. rewrite !position_tid in E by lia.
  by injection E.
Qed.

Lemma NoDup_columns xs : NoDup xs -> (forall x, x ∈ xs -> 0 <= x < w) -> NoDup (columns xs).
Proof.
  induction xs as [|x xs IH]; intros Hn Hr; [constructor|]. rewrite columns_cons.
  apply NoDup_cons in Hn as [Hx Hn]. apply NoDup_app. split; [|split].
  - apply NoDup_fmap_2_strong; [|apply NoDup_seqZ]. intros y y' _ _ E. unfold tid in E.
    apply (Z.mul_reg_r _ _ w); lia.
  - intros t (y & -> & Hy)%list_elem_of_fmap (x' & y' & Hx' & _ & E)%elem_columns.
    apply tid_inj in E as [-> _]; [done| |]; apply Hr; [left|by right].
  - apply IH; [done|]. intros x' Hx'. apply Hr. by right.
Qed.

Lemma columns_all : columns (seqZ 0 w) ≡ₚ seqZ 0 (w * h).
Proof.
  apply NoDup_Permutation; [|apply NoDup_seqZ|].
  - apply NoDup_columns; [apply NoDup_seqZ|]. intros x Hx%elem_of_seqZ. lia.
  - intros t. rewrite elem_columns, elem_of_seqZ. split.
    + intros (x & y & Hx%elem_of_seqZ & Hy & ->). pose proof (tid_range x y). lia.
    + intros Ht. destruct (tid_position t) as (x & y & -> & Hx & Hy); [lia|].
      exists x, y. split; [apply elem_of_seqZ; lia|done].
Qed.

(** The subtree of the sender is the mesh. *)
Lemma subtree_root s : 0 <= s < w * h -> subtree s s ≡ₚ seqZ 0 (w * h).
Proof.
  intros Hs. destruct (tid_position s Hs) as (sx & sy & -> & Hx & Hy). rewrite subtree_tid by lia.
  unfold subtree_at. rewrite !Z.ltb_irrefl, Z.leb_refl, app_assoc, <- columns_cons.
  rewrite <- (seqZ_cons_eq sx) by lia. rewrite Permutation_app_comm, <- columns_app.
  rewrite <- columns_all. replace (seqZ 0 sx ++ seqZ sx (w - sx)) with (seqZ 0 w); [done|].
  replace w with (sx + (w - sx)) at 1 by lia. rewrite seqZ_app by lia. done.
Qed.

(** ** The way of one packet *)

Definition distance (t t' : Z) : Z := hop_distance cfg t t'.

Lemma distance_tid x y x' y' : 0 <= x < w -> 0 <= x' < w ->
  distance (tid x y) (tid x' y') = Z.abs (x - x') + Z.abs (y - y').
Proof. intros. unfold distance, hop_distance. by rewrite !position_tid. Qed.

Lemma unicast_step t r : 0 <= t < w * h -> 0 <= r < w * h ->
  let d := unicast_dest cfg t r in
  0 <= nd_output_port d < 5 /\ 0 <= nd_tile_id d < w * h /\
  ((t = r /\ d = mkDest r SELF RECEIVE_TILE) \/
   (t <> r /\ nd_node_type d = EMESH /\ distance (nd_tile_id d) r = distance t r - 1)).
Proof.
  intros Ht Hr. destruct (tid_position t Ht) as (x & y & -> & Hx & Hy).
  destruct (tid_position r Hr) as (x' & y' & -> & Hx' & Hy').
  unfold unicast_dest. rewrite !position_tid by lia. unfold LEFT, RIGHT, DOWN, UP, SELF.
  destruct (Z.ltb_spec x' x); [|destruct (Z.ltb_spec x x'); [|destruct (Z.ltb_spec y' y); [|destruct (Z.ltb_spec y y')]]];
    rewrite ?computeTileID_in by lia; cbn [nd_output_port nd_tile_id nd_node_type];
    (split; [lia|]); (split; [apply tid_range; lia|]).
  5: { left. assert (x = x') as -> by lia. by assert (y = y') as -> by lia. }
  all: right; rewrite !distance_tid by lia; (split; [intros [? ?]%tid_inj; lia|split; [done|lia]]).
Qed.

Lemma distance_nonneg t r : 0 <= t < w * h -> 0 <= r < w * h -> 0 <= distance t r.
Proof.
  intros Ht Hr. destruct (tid_position t Ht) as (x & y & -> & Hx & Hy).
  destruct (tid_position r Hr) as (x' & y' & -> & Hx' & Hy'). rewrite distance_tid by lia. lia.
Qed.

Lemma distance_bound t r : 0 <= t < w * h -> 0 <= r < w * h -> distance t r <= w * h.
Proof.
  intros Ht Hr. destruct (tid_position t Ht) as (x & y & -> & Hx & Hy).
  destruct (tid_position r Hr) as (x' & y' & -> & Hx' & Hy'). rewrite distance_tid by lia. nia.
Qed.

(** ** The output ports of a broadcast *)

Lemma sublist_option {A} (b : bool) (x : A) : sublist (if b then [x] else []) [x].
Proof. destruct b; [done|apply sublist_nil_l]. Qed.

Lemma sublist_map {A B} (f : A -> B) l l' : sublist l l' -> sublist (f <$> l) (f <$> l').
Proof. induction 1; simpl; by constructor. Qed.

Lemma broadcast_ports t s : sublist (nd_output_port <$> broadcast_dests cfg t s) [UP; DOWN; RIGHT; LEFT; SELF].
Proof.
  unfold broadcast_dests. destruct (computePosition cfg s) as [sx sy], (computePosition cfg t) as [cx cy].
  rewrite !fmap_app. cbn [fmap list_fmap nd_output_port].
  apply (sublist_app _ [UP] _ [DOWN; RIGHT; LEFT; SELF]); [|apply (sublist_app _ [DOWN] _ [RIGHT; LEFT; SELF])].
  1,2: case_match; [done|apply sublist_nil_l].
  apply (sublist_app _ [RIGHT; LEFT] _ [SELF]); [|done].
  case_match; [|apply sublist_nil_l]. rewrite fmap_app.
  apply (sublist_app _ [RIGHT] _ [LEFT]); case_match; done || apply sublist_nil_l.
Qed.

Lemma valid_ports t s : sublist (nd_output_port <$> valid_dests t s) [UP; DOWN; RIGHT; LEFT; SELF].
Proof. etrans; [|apply (broadcast_ports t s)]. apply sublist_map. unfold valid_dests. apply sublist_filter. Qed.

Lemma valid_self t s : 0 <= t -> mkDest t SELF RECEIVE_TILE ∈ valid_dests t s.
Proof.
  intros Ht. unfold valid_dests. apply list_elem_of_filter. split; [simpl; unfold INVALID_TILE_ID; lia|].
  unfold broadcast_dests. destruct (computePosition cfg s), (computePosition cfg t).
  rewrite !elem_of_app. right. right. right. by left.
Qed.

Lemma valid_dest t s d : d ∈ valid_dests t s -> 0 <= t < w * h ->
  0 <= nd_tile_id d < w * h /\ (nd_node_type d = EMESH \/ (nd_node_type d = RECEIVE_TILE /\ nd_tile_id d = t)).
Proof.
  unfold valid_dests. intros [Hv Hd]%list_elem_of_filter Ht.
  assert (Hid : forall x y, computeTileID cfg x y <> INVALID_TILE_ID -> 0 <= computeTileID cfg x y < w * h).
  { intros x y Hxy. destruct (decide (0 <= x < w /\ 0 <= y < h)) as [[Hx Hy]|Hout].
    - rewrite computeTileID_in by lia. by apply tid_range.
    - by rewrite computeTileID_out in Hxy. }
  assert (Hopt : forall (b : bool) x y port, d ∈ (if b then [mkDest (computeTileID cfg x y) port EMESH] else []) ->
    0 <= nd_tile_id d < w * h /\ nd_node_type d = EMESH).
  { intros [] x y port; [|by intros ?%not_elem_of_nil]. intros ->%list_elem_of_singleton. by split; [apply Hid|]. }
  unfold broadcast_dests in Hd. destruct (computePosition cfg s), (computePosition cfg t).
  rewrite !elem_of_app in Hd. destruct Hd as [Hd|[Hd|[Hd|Hd]]].
  1,2: destruct (Hopt _ _ _ _ Hd); naive_solver.
  - case_match; [|by apply not_elem_of_nil in Hd]. rewrite elem_of_app in Hd.
    destruct Hd as [Hd|Hd]; destruct (Hopt _ _ _ _ Hd); naive_solver.
  - apply list_elem_of_singleton in Hd as ->. naive_solver.
Qed.

(** ** The size of a subtree *)

Lemma length_columns xs : Z.of_nat (length (columns xs)) = h * Z.of_nat (length xs).
Proof.
  induction xs as [|x xs IH]; [simpl; lia|]. rewrite columns_cons, length_app. unfold column.
  rewrite length_fmap, length_seqZ. simpl. lia.
Qed.

Lemma subtree_size t s : 0 <= t < w * h -> 0 <= s < w * h ->
  1 <= Z.of_nat (length (subtree s t)) <= w * h.
Proof.
  intros Ht Hs. destruct (tid_position t Ht) as (cx & cy & -> & Hx & Hy).
  destruct (tid_position s Hs) as (sx & sy & -> & Hsx & Hsy). rewrite subtree_tid by lia.
  unfold subtree_at, column. repeat case_match; bool_facts; rewrite ?length_app, ?length_fmap, ?length_seqZ; simpl;
    rewrite ?Nat2Z.inj_add, ?length_columns, ?length_seqZ; simpl; nia.
Qed.
End mesh.
