(* ===== verification/NetThm.v ===== *)
(** * One routing step

    The packet that a network model routes is described by its header, the
    part that does not change on the way, and by the tiles its copies still
    have to reach.  A routing step splits these tiles among the hops, keeps
    the headers, never stops, and reduces the work that is left. *)

From S2P Require Import Prelude Threads Shmem QueueModel NetModel MeshThm.

(** ** Headers *)

(** The time a packet was sent: the time it arrives less its delays. *)
Definition origin (p : NetPacket) : Z :=
  wrap64 (np_time p - np_zero_load_delay p - np_contention_delay p).

Definition Header : Type := PacketType * core_id_t * core_id_t * Z * Payload * Z.
Definition header (p : NetPacket) : Header :=
  (np_type p, np_sender p, np_receiver p, np_length p, np_data p, origin p).


Lemma wrap_eqm w a b : (exists k, a = b + k * 2 ^ w) -> wrap w a = wrap w b.
Proof.
  intros [k ->]. unfold wrap. destruct (decide (2 ^ w = 0)) as [->|]; [by rewrite Z.mul_0_r, Z.add_0_r|].
  by rewrite Z.mod_add.
Qed.

Lemma wrap_part w a : 0 <= w -> exists k, wrap w a = a + k * 2 ^ w.
Proof.
  intros. exists (- (a / 2 ^ w)). unfold wrap. pose proof (Z.div_mod a (2 ^ w)). nia.
Qed.

(** Both delays of a hop are added to the time as well. *)
Lemma origin_hop pkt t node z c : origin (apply_hop pkt (Hop_new pkt t node z c)) = origin pkt.
Proof.
  unfold origin. simpl. apply wrap_eqm.
  destruct (wrap_part 64 (np_time pkt + c) ltac:(lia)) as [k1 ->].
  destruct (wrap_part 64 (np_time pkt + c + k1 * 2 ^ 64 + z) ltac:(lia)) as [k2 ->].
  destruct (wrap_part 64 (np_zero_load_delay pkt + z) ltac:(lia)) as [k3 ->].
  destruct (wrap_part 64 (np_contention_delay pkt + c) ltac:(lia)) as [k4 ->].
  exists (k1 + k2 - k3 - k4). lia.
Qed.

Lemma header_hop pkt t node z c : header (apply_hop pkt (Hop_new pkt t node z c)) = header pkt.
Proof. unfold header. by rewrite origin_hop. Qed.

Lemma apply_hop_twice pkt h h' : apply_hop (apply_hop pkt h') h = apply_hop pkt h.
Proof. done. Qed.

Section net.
Context (cfg : NetConfig).
Abbreviation app := (nc_application_tiles cfg).
Abbreviation total := (nc_total_tiles cfg).
Abbreviation w := (nc_mesh_width cfg).
Abbreviation h := (nc_mesh_height cfg).

(** Which networks are hop-by-hop meshes, and which of them have a broadcast
    tree. *)
Context (hbh hb : EStaticNetwork -> bool).
(** The longest packet, in bits. *)
Context (F : Z).

Record net_config_ok : Prop := {
  nco_tiles : 0 < app <= total /\ total < 2 ^ 31;
  nco_mesh : 0 < w /\ 0 < h;
  nco_app : forall n, hbh n = true -> app = w * h;
  nco_hbh : forall n, hbh n = true -> n = STATIC_NETWORK_USER \/ n = STATIC_NETWORK_MEMORY;
  nco_broadcast : forall n, hb n = true -> hbh n = true;
  nco_cycles : forall n t, is_word 64 t -> 0 <= nc_to_cycles cfg n t <= MAX_TIME;
  nco_length : 0 < F < 2 ^ 31 }.
Context (Hcfg : net_config_ok).

Lemma broadcast_not_tile t : 0 <= t -> t <> BROADCAST.
Proof. unfold BROADCAST. vm_compute (swrap 32 _). lia. Qed.

(** ** Packets *)

Definition pkt_network (p : NetPacket) : EStaticNetwork := g_type_to_static_network_map (np_type p).
Abbreviation snd_tile p := (tile_id (np_sender p)).
Abbreviation rcv_tile p := (tile_id (np_receiver p)).

Record pkt_ok (p : NetPacket) : Prop := {
  po_sender : 0 <= snd_tile p < total;
  po_receiver : rcv_tile p = BROADCAST \/ 0 <= rcv_tile p < total;
  po_time : is_word 64 (np_time p);
  po_length : exists len, net_getModeledLength cfg p = Ok len /\ 0 < len <= F }.

(** A packet inside the mesh, at tile [t]. *)
Definition mesh_ok (t : Z) (p : NetPacket) : Prop :=
  hbh (pkt_network p) = true /\ 0 <= t < app /\ 0 <= snd_tile p < app /\
  (rcv_tile p = BROADCAST \/ 0 <= rcv_tile p < app) /\ snd_tile p <> rcv_tile p.

(** A packet on its way to tile [t]. *)
Definition flight_ok (x : Z * NetPacket) : Prop :=
  let '(t, p) := x in
  pkt_ok p /\ 0 <= t < total /\
  ((np_node_type p = RECEIVE_TILE /\
    (rcv_tile p = t \/ (rcv_tile p = BROADCAST /\ hbh (pkt_network p) = true))) \/
   (np_node_type p = EMESH /\ mesh_ok t p)).

(** The tiles it still has to reach. *)
Definition owed_tiles (x : Z * NetPacket) : list Z :=
  let '(t, p) := x in
  if np_node_type p =? RECEIVE_TILE then [t]
  else if rcv_tile p =? BROADCAST then
    if np_node_type p =? EMESH then subtree cfg (snd_tile p) t else all_tiles cfg
  else [rcv_tile p].
Definition owed (x : Z * NetPacket) : list (Z * Header) := (fun t => (t, header x.2)) <$> owed_tiles x.

(** The number of hops left, all copies together. *)
Definition work (x : Z * NetPacket) : Z :=
  let '(t, p) := x in
  if np_node_type p =? RECEIVE_TILE then 1
  else if np_node_type p =? EMESH then
    if rcv_tile p =? BROADCAST then 2 * Z.of_nat (length (subtree cfg (snd_tile p) t))
    else distance cfg t (rcv_tile p) + 2
  else 4 * total + 4.
Definition works (l : list (Z * NetPacket)) : Z := foldr (fun x n => work x + n) 0 l.

Lemma works_app l1 l2 : works (l1 ++ l2) = works l1 + works l2.
Proof. unfold works. induction l1 as [|x l1 IH]; simpl; lia. Qed.
Lemma works_cons x l : works (x :: l) = work x + works l.
Proof. done. Qed.

(** ** Models *)

Section with_queues.
Context {Q : Type} `{QueueLaws Q}.
Implicit Types m : NetworkModel Q.

Record router_ok (n ports : Z) (r : RouterModel Q) : Prop := {
  ro_ports : rt_num_output_ports r = ports;
  ro_contention : rt_contention_enabled r = true ->
    Z.of_nat (length (rt_contention r)) = ports /\ Forall (has_room n) (rt_contention r);
  ro_crossbar : Z.of_nat (length (rt_crossbar_traversals r)) = ports;
  ro_delays : Z.of_nat (length (rt_total_contention_delay r)) = ports;
  ro_packets : Z.of_nat (length (rt_total_packets r)) = ports }.

Definition kind_ok (n : Z) (b : bool) (k : NetKind Q) : Prop :=
  match k with
  | HopByHop inj mesh links => b = true /\ router_ok n 1 inj /\ router_ok n 5 mesh /\ length links = 5%nat
  | _ => b = false
  end.

(** The model of network [id] at tile [t], with queues that have room for [n]
    cycles.  System tiles have no routers and links. *)
Record model_ok (n : Z) (id : EStaticNetwork) (t : Z) m : Prop := {
  mo_id : nm_network_id m = id;
  mo_tile : nm_tile_id m = t;
  mo_width : nm_flit_width m = -1 \/ 0 < nm_flit_width m < 2 ^ 31;
  mo_flits : hbh id = true -> 0 < nm_flit_width m;
  mo_broadcast : nm_has_broadcast m = hb id;
  mo_kind : t < app -> kind_ok n (hbh id) (nm_kind m) }.

Lemma router_ok_less n n' ports r : router_ok n ports r -> n' <= n -> router_ok n' ports r.
Proof.
  intros [? Hc ? ? ?] Hn. split; try done. intros Hen. destruct (Hc Hen) as [? Hroom]. split; [done|].
  eapply Forall_impl; [exact Hroom|]. intros q Hq. by eapply has_room_less.
Qed.

Lemma model_ok_less n n' id t m : model_ok n id t m -> n' <= n -> model_ok n' id t m.
Proof.
  intros [? ? ? ? ? Hk] Hn. split; try done. intros Ht. specialize (Hk Ht). destruct (nm_kind m); try done.
  destruct Hk as (? & Hi & Hm & ?). split; [done|]. split; [by eapply router_ok_less|].
  split; [by eapply router_ok_less|done].
Qed.

(** Packets are never too long, and no routine fails on them. *)
Lemma pkt_flits_ok n id t m p : model_ok n id t m -> pkt_ok p ->
  exists f, pkt_flits cfg m p = Ok f /\ (0 < nm_flit_width m -> 0 < f <= F).
Proof.
  intros Hm Hp. destruct (po_length _ Hp) as (len & El & Hlen). unfold pkt_flits. rewrite El. simpl.
  pose proof (nco_length Hcfg). unfold computeNumFlits.
  destruct (mo_width _ _ _ _ Hm) as [-> |Hw]; [exists 0; split; [done|lia]|].
  rewrite (proj2 (Z.eqb_neq _ (-1))) by lia. rewrite wrap_id by (unfold is_word; lia).
  rewrite (proj2 (Z.eqb_neq _ 0)) by lia.
  set (fw := nm_flit_width m) in *.
  assert (Hdiv : 0 <= len / fw <= len).
  { split; [by apply Z.div_pos; lia|]. apply Z.div_le_upper_bound; nia. }
  pose proof (Z.div_mod len fw ltac:(lia)) as Hdm. pose proof (Z.mod_pos_bound len fw ltac:(lia)).
  assert (Hf : 0 < (if len mod fw =? 0 then len / fw else len / fw + 1) <= F).
  { destruct (Z.eqb_spec (len mod fw) 0); [nia|]. split; [lia|].
    destruct (decide (fw = 1)) as [->|]; [rewrite Z.mod_1_r in *; lia|]. nia. }
  eexists. split; [reflexivity|]. intros _. rewrite swrap_id by lia. done.
Qed.

Lemma model_enabled_ok n t m p : model_ok n (pkt_network p) t m -> pkt_ok p ->
  exists b, isModelEnabled m p = Ok b.
Proof.
  intros Hm Hp. unfold isModelEnabled. rewrite (mo_id _ _ _ _ Hm).
  destruct (pkt_network p) eqn:E; eauto. destruct (nm_enabled m); [|eauto].
  destruct (po_length _ Hp) as (len & El & _). unfold net_getModeledLength in El.
  assert (Hty : np_type p = SHARED_MEM) by (unfold pkt_network in E; by destruct (np_type p)).
  rewrite Hty in El. destruct (np_data p); [done|eauto].
Qed.

(** ** Routers and links *)

Definition ports_ok (P : Z) (ports : list Z) : Prop :=
  NoDup ports /\ Forall (fun p => 0 <= p < P) ports /\ 1 <= Z.of_nat (length ports) <= P.

Lemma contention_loop_ok n ports t f d0 (qs : list Q) :
  NoDup ports -> Forall (fun p => 0 <= p < Z.of_nat (length qs)) ports ->
  0 <= t <= MAX_TIME -> 0 < f <= F -> F <= n ->
  (forall i q, qs !! i = Some q -> has_room (n - F) q /\ (Z.of_nat i ∈ ports -> has_room n q)) ->
  exists d qs', contention_loop ports t f d0 qs = Ok (d, qs') /\ length qs' = length qs /\
    Forall (has_room (n - F)) qs'.
Proof.
  pose proof (nco_length Hcfg). intros Hn Hr Ht Hf HF. revert d0 qs Hr.
  induction Hn as [|p ports Hp Hn IH]; intros d0 qs Hr Hroom; simpl.
  - exists d0, qs. split; [done|]. split; [done|]. apply Forall_lookup. intros i q Hq. by apply (Hroom i q).
  - apply Forall_cons in Hr as [Hpr Hr].
    destruct (lookup_lt_is_Some_2 qs (Z.to_nat p)) as [q Hq]; [lia|].
    rewrite (proj2 (vec_get_ok qs p q)) by (split; [lia|done]). simpl.
    destruct (Hroom _ _ Hq) as [_ Hbig]. rewrite Z2Nat.id in Hbig by lia.
    destruct (queue_serves n q t f (Hbig ltac:(left)) Ht ltac:(lia)) as (d & q' & E & _ & Hq').
    rewrite wrap_id by (unfold is_word; lia). rewrite E. simpl. rewrite vec_set_eq by lia. simpl.
    destruct (IH (Z.max d0 d) (<[Z.to_nat p:=q']> qs)) as (d' & qs' & E' & Hlen & Hall).
    + by rewrite length_insert.
    + intros i q1 Hi. destruct (decide (i = Z.to_nat p)) as [->|Hne].
      * rewrite list_lookup_insert_eq in Hi by lia. injection Hi as <-.
        split; [eapply has_room_less; [exact Hq'|lia]|]. rewrite Z2Nat.id by lia. by intros ?.
      * rewrite list_lookup_insert_ne in Hi by done. destruct (Hroom _ _ Hi) as [? Hb]. split; [done|].
        intros Hin. apply Hb. by right.
    + rewrite E'. exists d', qs'. split; [done|]. split; [by rewrite Hlen, length_insert|done].
Qed.

Lemma contention_counters_ok ports d (delays packets : list Z) :
  Forall (fun p => 0 <= p < Z.of_nat (length delays)) ports -> length packets = length delays ->
  exists delays' packets', updateContentionCounters d ports delays packets = Ok (delays', packets') /\
    length delays' = length delays /\ length packets' = length packets.
Proof.
  intros Hr. revert delays packets Hr. induction ports as [|p ports IH]; intros delays packets Hr Hl; simpl.
  - by exists delays, packets.
  - apply Forall_cons in Hr as [Hp Hr].
    destruct (lookup_lt_is_Some_2 delays (Z.to_nat p)) as [x Hx]; [lia|].
    destruct (lookup_lt_is_Some_2 packets (Z.to_nat p)) as [y Hy]; [lia|].
    rewrite (proj2 (vec_get_ok delays p x)) by (split; [lia|done]). simpl. rewrite vec_set_eq by lia. simpl.
    rewrite (proj2 (vec_get_ok packets p y)) by (split; [lia|done]). simpl. rewrite vec_set_eq by lia. simpl.
    destruct (IH (<[Z.to_nat p:=wrap64 (x + d)]> delays) (<[Z.to_nat p:=wrap64 (y + 1)]> packets))
      as (delays' & packets' & E & HL1 & HL2); [by rewrite length_insert|by rewrite !length_insert|].
    exists delays', packets'. rewrite !length_insert in *. by rewrite E.
Qed.

Lemma router_contend_ok n P id t m p ports f c r :
  model_ok n id t m -> pkt_ok p -> router_ok n P r -> ports_ok P ports -> 0 < f <= F -> F <= n ->
  exists c' r', router_contend cfg m p ports f c r = Ok (c', r') /\ router_ok (n - F) P r'.
Proof.
  intros Hm Hp Hr (Hn & Hin & _) Hf HF. unfold router_contend.
  destruct (rt_contention_enabled r) eqn:Hen; [|exists c, r; split; [done|eapply router_ok_less; [exact Hr|lia]]].
  destruct (ro_contention _ _ _ Hr Hen) as [Hlen Hroom].
  destruct (contention_loop_ok n ports (nc_to_cycles cfg (nm_network_id m) (np_time p)) f 0 (rt_contention r))
    as (d & qs & -> & Hq & Hroom'); [done|by rewrite Hlen| |done|done| |].
  { apply (nco_cycles Hcfg). apply Hp. }
  { intros i q Hi. rewrite Forall_lookup in Hroom. specialize (Hroom _ _ Hi).
    split; [eapply has_room_less; [exact Hroom|lia]|done]. }
  pose proof (nco_length Hcfg). simpl.
  destruct (contention_counters_ok ports d (rt_total_contention_delay r) (rt_total_packets r))
    as (delays & packets & -> & HL1 & HL2).
  { by rewrite (ro_delays _ _ _ Hr). }
  { apply Nat2Z.inj. by rewrite (ro_delays _ _ _ Hr), (ro_packets _ _ _ Hr). }
  simpl. eexists _, _. split; [reflexivity|]. destruct Hr. split; simpl; try done; [|congruence..].
  intros _. split; [congruence|done].
Qed.

Lemma router_ok_step n P id t m p ports z c r :
  model_ok n id t m -> id = pkt_network p -> hbh id = true -> pkt_ok p -> router_ok n P r -> ports_ok P ports ->
  F <= n ->
  exists z' c' r', router_processPacket cfg m p ports z c r = Ok (z', c', r') /\ router_ok (n - F) P r'.
Proof.
  intros Hm -> Hb Hp Hr Hports HF. pose proof (nco_length Hcfg). unfold router_processPacket.
  destruct (model_enabled_ok _ _ _ _ Hm Hp) as [b ->]. simpl.
  destruct b; simpl; [|exists z, c, r; split; [done|eapply router_ok_less; [exact Hr|lia]]].
  destruct Hports as (Hn & Hin & Hl). rewrite (ro_ports _ _ _ Hr).
  rewrite (proj2 (Z.leb_le 1 _)), (proj2 (Z.leb_le _ P)) by lia. simpl.
  destruct (pkt_flits_ok _ _ _ _ _ Hm Hp) as (f & -> & Hf). simpl.
  specialize (Hf (mo_flits _ _ _ _ Hm Hb)).
  destruct (router_contend_ok n P _ t m p ports f c r Hm Hp Hr ltac:(done) Hf HF) as (c' & r' & -> & Hr').
  simpl. unfold router_updateEventCounters.
  destruct (lookup_lt_is_Some_2 (rt_crossbar_traversals r') (Z.to_nat (Z.of_nat (length ports) - 1)))
    as [x Hx]; [pose proof (ro_crossbar _ _ _ Hr'); lia|].
  rewrite (proj2 (vec_get_ok _ _ x)) by (split; [lia|done]). simpl.
  rewrite vec_set_eq by (rewrite (ro_crossbar _ _ _ Hr'); lia). simpl.
  eexists _, _, _. split; [reflexivity|]. destruct Hr'. split; simpl; try done. by rewrite length_insert.
Qed.

Lemma link_ok_step n id t m p z l : model_ok n id t m -> id = pkt_network p -> pkt_ok p ->
  exists z' l', link_processPacket cfg m p z l = Ok (z', l').
Proof.
  intros Hm -> Hp. unfold link_processPacket. destruct (model_enabled_ok _ _ _ _ Hm Hp) as [[] ->]; simpl; [|eauto].
  destruct (pkt_flits_ok _ _ _ _ _ Hm Hp) as (f & -> & _). simpl. eauto.
Qed.

Lemma links_loop_ok n id t m p ports z ls : model_ok n id t m -> id = pkt_network p -> pkt_ok p ->
  Forall (fun p => 0 <= p < Z.of_nat (length ls)) ports ->
  exists z' ls', links_loop cfg m p ports z ls = Ok (z', ls') /\ length ls' = length ls.
Proof.
  intros Hm Hid Hp. revert z ls. induction ports as [|port ports IH]; intros z ls Hr; simpl; [eauto|].
  apply Forall_cons in Hr as [Hport Hr].
  destruct (lookup_lt_is_Some_2 ls (Z.to_nat port)) as [l Hl]; [lia|].
  rewrite (proj2 (vec_get_ok ls port l)) by (split; [lia|done]). simpl.
  destruct (link_ok_step n id t m p 0 l Hm Hid Hp) as (zl & l' & ->). simpl. rewrite vec_set_eq by lia. simpl.
  destruct (IH (Z.max z zl) (<[Z.to_nat port:=l']> ls)) as (z' & ls' & -> & Hlen); [by rewrite length_insert|].
  exists z', ls'. split; [done|]. by rewrite Hlen, length_insert.
Qed.

(** ** Hops *)

Definition hop_flight (p : NetPacket) (hop : Hop) : Z * NetPacket :=
  (hop_next_tile_id hop, apply_hop p hop).
Definition owed_at (p : NetPacket) (ts : list Z) : list (Z * Header) := (fun t => (t, header p)) <$> ts.

Record routed (n : Z) (id : EStaticNetwork) (t : Z) (p : NetPacket) (hops : list Hop) m : Prop := {
  ru_model : model_ok n id t m;
  ru_flight : Forall flight_ok (hop_flight p <$> hops);
  ru_owed : (hop_flight p <$> hops) ≫= owed ≡ₚ owed (t, p);
  ru_work : works (hop_flight p <$> hops) < work (t, p) }.

Lemma pkt_ok_hop p t node z c : pkt_ok p -> pkt_ok (apply_hop p (Hop_new p t node z c)).
Proof. intros [Hs Hr Ht Hl]. split; try done. by apply wrap_word. Qed.

Lemma owed_hop p t node z c :
  owed (hop_flight p (Hop_new p t node z c)) =
  owed_at p (if node =? RECEIVE_TILE then [t]
             else if rcv_tile p =? BROADCAST then
               if node =? EMESH then subtree cfg (snd_tile p) t else all_tiles cfg
             else [rcv_tile p]).
Proof. unfold owed. cbn [hop_flight snd hop_next_tile_id Hop_new]. by rewrite header_hop. Qed.

Lemma owed_at_app p l1 l2 : owed_at p (l1 ++ l2) = owed_at p l1 ++ owed_at p l2.
Proof. apply fmap_app. Qed.

Lemma direct_flight p t : pkt_ok p -> 0 <= t < total ->
  rcv_tile p = t \/ (rcv_tile p = BROADCAST /\ hbh (pkt_network p) = true) ->
  forall z c, flight_ok (hop_flight p (Hop_new p t RECEIVE_TILE z c)).
Proof. intros Hp Ht Hr z c. split; [by apply pkt_ok_hop|]. split; [done|]. by left. Qed.

Lemma mesh_flight p t : pkt_ok p -> mesh_ok t p -> forall z c, flight_ok (hop_flight p (Hop_new p t EMESH z c)).
Proof.
  intros Hp Hm z c. pose proof (nco_tiles Hcfg). split; [by apply pkt_ok_hop|].
  destruct Hm as (Hb & Ht & Hrest). split; [simpl; lia|]. right. done.
Qed.

Lemma direct_hops p ts : pkt_ok p -> Forall (fun t => 0 <= t < total) ts ->
  Forall (fun t => rcv_tile p = t \/ (rcv_tile p = BROADCAST /\ hbh (pkt_network p) = true)) ts ->
  Forall flight_ok (hop_flight p <$> (direct_hop p <$> ts)) /\
  (hop_flight p <$> (direct_hop p <$> ts)) ≫= owed = owed_at p ts /\
  works (hop_flight p <$> (direct_hop p <$> ts)) = Z.of_nat (length ts).
Proof.
  intros Hp Hr Hd. induction Hr as [|t ts Ht Hr IH]; [done|]. apply Forall_cons in Hd as [Ht' Hd].
  destruct (IH Hd) as (Hfl & How & Hwk). rewrite !fmap_cons. split; [|split].
  - apply Forall_cons. split; [by apply direct_flight|done].
  - rewrite bind_cons, How. unfold direct_hop. by rewrite owed_hop.
  - rewrite works_cons, Hwk. cbn [length work hop_flight direct_hop]. simpl. lia.
Qed.

Lemma set_kind_ok n id t m k : model_ok n id t m -> kind_ok n (hbh id) k -> model_ok n id t (set_kind k m).
Proof. intros [? ? ? ? ? Hk] Hk'. by split. Qed.

(** ** The mesh *)

Lemma kind_hbh n b k : kind_ok n b k -> b = true ->
  exists inj mesh links, k = HopByHop inj mesh links /\ router_ok n 1 inj /\ router_ok n 5 mesh /\ length links = 5%nat.
Proof. destruct k as [|lat e|inj mesh links]; simpl; [congruence..|]. intros (_ & Hi & Hm & Hl) _. by exists inj, mesh, links. Qed.

Lemma kind_hbh_ok n n' inj mesh links : router_ok n 1 inj -> router_ok n' 5 mesh -> n' <= n ->
  length links = 5%nat -> kind_ok n' true (HopByHop inj mesh links).
Proof. intros Hi Hm Hn Hl. split; [done|]. split; [by eapply router_ok_less|done]. Qed.

Lemma mesh_port port : 0 <= port < 5 -> ports_ok 5 [port].
Proof. intros. split; [apply NoDup_singleton|]. split; [by apply Forall_singleton|simpl; lia]. Qed.

Lemma valid_ports_ok t s : 0 <= t -> ports_ok 5 (nd_output_port <$> valid_dests cfg t s).
Proof.
  intros Ht. pose proof (valid_ports cfg t s) as Hsub. split; [|split].
  - eapply sublist_NoDup; [|exact Hsub]. by apply (bool_decide_unpack _).
  - apply Forall_forall. intros x Hx. eapply elem_of_sublist in Hx; [|exact Hsub].
    unfold UP, DOWN, RIGHT, LEFT, SELF in Hx. set_unfold. lia.
  - apply sublist_length in Hsub. cbn [length] in Hsub.
    pose proof (valid_self cfg t s Ht) as Hself. destruct (valid_dests cfg t s); [by apply not_elem_of_nil in Hself|].
    cbn [fmap list_fmap length] in *. lia.
Qed.

(** The copies of a broadcast. *)
Definition dest_flight (p : NetPacket) (z c : Z) (d : NextDest) : Z * NetPacket :=
  hop_flight p (Hop_new p (nd_tile_id d) (nd_node_type d) z c).

Definition dest_known (d : NextDest) : Prop := nd_node_type d = EMESH \/ nd_node_type d = RECEIVE_TILE.

Lemma dest_owed p z c d : rcv_tile p = BROADCAST -> dest_known d ->
  owed (dest_flight p z c d) = owed_at p (dest_tiles cfg (snd_tile p) d).
Proof.
  intros Hr Hd. unfold dest_flight. rewrite owed_hop, Hr. unfold dest_tiles.
  destruct Hd as [-> | ->]; [|done]. by rewrite Z.eqb_refl.
Qed.

Lemma dest_work p z c d : rcv_tile p = BROADCAST -> dest_known d ->
  work (dest_flight p z c d) = 2 * Z.of_nat (length (dest_tiles cfg (snd_tile p) d)) -
    (if nd_node_type d =? RECEIVE_TILE then 1 else 0).
Proof.
  intros Hr Hd. unfold dest_flight, dest_tiles, hop_flight. simpl. rewrite Hr.
  destruct Hd as [-> | ->]; [|done]. rewrite Z.eqb_refl. simpl. lia.
Qed.

Lemma dests_owed p z c ds : rcv_tile p = BROADCAST -> Forall dest_known ds ->
  (dest_flight p z c <$> ds) ≫= owed = owed_at p (ds ≫= dest_tiles cfg (snd_tile p)).
Proof.
  intros Hr. induction 1 as [|d ds Hd _ IH]; [done|].
  by rewrite fmap_cons, !bind_cons, owed_at_app, IH, (dest_owed _ _ _ _ Hr Hd).
Qed.

Lemma dests_work p z c ds : rcv_tile p = BROADCAST -> Forall dest_known ds ->
  works (dest_flight p z c <$> ds) <= 2 * Z.of_nat (length (ds ≫= dest_tiles cfg (snd_tile p))).
Proof.
  intros Hr. induction 1 as [|d ds Hd _ IH]; [done|].
  rewrite fmap_cons, works_cons, bind_cons, length_app, (dest_work _ _ _ _ Hr Hd). case_match; lia.
Qed.

Lemma broadcast_flights t p z c : pkt_ok p -> mesh_ok t p -> rcv_tile p = BROADCAST ->
  let l := dest_flight p z c <$> valid_dests cfg t (snd_tile p) in
  Forall flight_ok l /\ l ≫= owed ≡ₚ owed_at p (subtree cfg (snd_tile p) t) /\
  works l < 2 * Z.of_nat (length (subtree cfg (snd_tile p) t)).
Proof.
  intros Hp Hm Hr l. destruct Hm as (Hb & Ht & Hs & Hrr & Hne). pose proof (nco_app Hcfg _ Hb) as Happ.
  destruct (nco_mesh Hcfg) as [Hw Hh]. rewrite Happ in Ht, Hs.
  assert (Hall : Forall dest_known (valid_dests cfg t (snd_tile p))).
  { apply Forall_forall. intros d Hd. destruct (valid_dest cfg Hw t (snd_tile p) d Hd Ht) as [_ [E|[E _]]]; [left|right]; done. }
  split; [|split].
  - apply Forall_fmap, Forall_forall. intros d Hd. unfold compose, dest_flight.
    destruct (valid_dest cfg Hw t (snd_tile p) d Hd Ht) as [Hid [E|[E E']]]; rewrite E.
    + apply mesh_flight; [done|]. split; [done|]. rewrite Happ. naive_solver.
    + pose proof (nco_tiles Hcfg). apply direct_flight; [done|lia|]. by right.
  - unfold l. rewrite dests_owed by done. apply Permutation_map. by apply subtree_children.
  - rewrite <- (subtree_children cfg Hw t (snd_tile p) Ht Hs). unfold l.
    destruct (list_elem_of_split _ _ (valid_self cfg t (snd_tile p) ltac:(lia))) as (l1 & l2 & E).
    rewrite E in *. apply Forall_app in Hall as [Hall1 [Hd Hall2]%Forall_cons].
    rewrite fmap_app, fmap_cons, works_app, works_cons, bind_app, bind_cons, !length_app, (dest_work _ _ _ _ Hr Hd).
    pose proof (dests_work p z c l1 Hr Hall1). pose proof (dests_work p z c l2 Hr Hall2). simpl. lia.
Qed.

(** ** The routing step *)

Lemma emesh_broadcast_ok n t m p inj mesh links : model_ok n (pkt_network p) t m -> F <= n ->
  pkt_ok p -> mesh_ok t p -> np_node_type p = EMESH -> rcv_tile p = BROADCAST ->
  router_ok n 5 mesh -> length links = 5%nat ->
  exists z c mesh' links',
    hop_by_hop_routePacket cfg m p inj mesh links =
      Ok ((fun d => Hop_new p (nd_tile_id d) (nd_node_type d) z c) <$> valid_dests cfg t (snd_tile p),
          HopByHop inj mesh' links') /\
    router_ok (n - F) 5 mesh' /\ length links' = 5%nat.
Proof.
  intros Hm HF Hp Hme En Er Hmesh Hl. destruct Hme as (Hb & Ht & _).
  pose proof (valid_ports_ok t (snd_tile p) ltac:(lia)) as Hports.
  unfold hop_by_hop_routePacket. rewrite En, Er, (mo_tile _ _ _ _ Hm). simpl. fold (valid_dests cfg t (snd_tile p)).
  destruct (links_loop_ok n _ t m p (nd_output_port <$> valid_dests cfg t (snd_tile p)) 0 links Hm eq_refl Hp)
    as (ld & links' & -> & Hl'); [rewrite Hl; apply Hports|]. simpl.
  destruct (router_ok_step n 5 _ t m p _ ld 0 mesh Hm eq_refl Hb Hp Hmesh Hports HF)
    as (z & c & mesh' & -> & Hmesh'). simpl.
  exists (emesh_latency cfg m z), (emesh_latency cfg m c), mesh', links'. split; [done|]. split; [done|congruence].
Qed.

Lemma emesh_unicast_ok n t m p inj mesh links : model_ok n (pkt_network p) t m -> F <= n ->
  pkt_ok p -> mesh_ok t p -> np_node_type p = EMESH -> rcv_tile p <> BROADCAST ->
  router_ok n 5 mesh -> length links = 5%nat ->
  let d := unicast_dest cfg t (rcv_tile p) in
  exists z c mesh' links',
    hop_by_hop_routePacket cfg m p inj mesh links =
      Ok ([Hop_new p (nd_tile_id d) (nd_node_type d) z c], HopByHop inj mesh' links') /\
    router_ok (n - F) 5 mesh' /\ length links' = 5%nat.
Proof.
  intros Hm HF Hp Hme En Er Hmesh Hl d. destruct Hme as (Hb & Ht & Hs & [Hr|Hr] & Hne); [done|].
  rewrite (nco_app Hcfg _ Hb) in Ht, Hr. destruct (nco_mesh Hcfg) as [Hw Hh].
  destruct (unicast_step cfg Hw t (rcv_tile p) Ht Hr) as (Hport & Hid & _). fold d in Hport, Hid.
  unfold hop_by_hop_routePacket. rewrite En, (mo_tile _ _ _ _ Hm). simpl.
  rewrite (proj2 (Z.eqb_neq _ _) Er). fold d. rewrite Hl.
  rewrite (proj2 (Z.leb_le _ _)), (proj2 (Z.ltb_lt _ _)) by (simpl; lia). simpl.
  destruct (router_ok_step n 5 _ t m p [nd_output_port d] 0 0 mesh Hm eq_refl Hb Hp Hmesh (mesh_port _ Hport) HF)
    as (z & c & mesh' & -> & Hmesh'). simpl.
  destruct (lookup_lt_is_Some_2 links (Z.to_nat (nd_output_port d))) as [l Hlk]; [lia|].
  rewrite (proj2 (vec_get_ok links (nd_output_port d) l)) by (split; [lia|done]). simpl.
  destruct (link_ok_step n _ t m p z l Hm eq_refl Hp) as (z' & l' & ->). simpl. rewrite vec_set_eq by lia. simpl.
  rewrite (proj2 (Z.eqb_neq (nd_tile_id d) INVALID_TILE_ID)) by (unfold INVALID_TILE_ID; lia). simpl.
  eexists _, _, mesh', _. split; [done|]. split; [done|]. by rewrite length_insert.
Qed.

Lemma route_emesh n t m p : model_ok n (pkt_network p) t m -> F <= n ->
  pkt_ok p -> mesh_ok t p -> np_node_type p = EMESH ->
  exists hops m', routePacket cfg m p = Ok (hops, m') /\ routed (n - F) (pkt_network p) t p hops m'.
Proof.
  intros Hm HF Hp Hme En. pose proof Hme as (Hb & Ht & Hs & Hr & Hne). pose proof (nco_length Hcfg) as HFp.
  destruct (kind_hbh n _ _ (mo_kind _ _ _ _ Hm ltac:(lia)) Hb) as (inj & mesh & links & Ek & Hinj & Hmesh & Hl).
  unfold routePacket. rewrite Ek.
  assert (Hset : forall mesh' links', router_ok (n - F) 5 mesh' -> length links' = 5%nat ->
    model_ok (n - F) (pkt_network p) t (set_kind (HopByHop inj mesh' links') m)).
  { intros mesh' links' Hmesh' Hl'. apply set_kind_ok; [eapply model_ok_less; [exact Hm|lia]|].
    rewrite Hb. eapply (kind_hbh_ok n); [done..|lia|done]. }
  destruct (decide (rcv_tile p = BROADCAST)) as [Er|Er].
  - destruct (emesh_broadcast_ok n t m p inj mesh links) as (z & c & mesh' & links' & -> & Hmesh' & Hl'); [done..|].
    destruct (broadcast_flights t p z c Hp Hme Er) as (Hfl & How & Hwk). simpl.
    eexists _, _. split; [reflexivity|]. split; [by apply Hset|..]; rewrite <- list_fmap_compose; [exact Hfl|..].
    + unfold owed, owed_tiles. rewrite En, Er. exact How.
    + unfold work. rewrite En, Er. exact Hwk.
  - destruct (emesh_unicast_ok n t m p inj mesh links) as (z & c & mesh' & links' & -> & Hmesh' & Hl'); [done..|].
    simpl. eexists _, _. split; [reflexivity|].
    destruct Hr as [Hr|Hr]; [done|]. destruct (nco_mesh Hcfg) as [Hw Hh]. pose proof (nco_app Hcfg _ Hb) as Happ.
    rewrite Happ in *. pose proof (nco_tiles Hcfg) as Htot.
    destruct (unicast_step cfg Hw t (rcv_tile p) Ht Hr) as (_ & Hid & Hcase).
    pose proof (distance_nonneg cfg Hw t (rcv_tile p) Ht Hr).
    set (d := unicast_dest cfg t (rcv_tile p)) in *.
    assert (Hn : (np_node_type p =? RECEIVE_TILE) = false) by (by rewrite En).
    pose proof (proj2 (Z.eqb_neq _ _) Er) as Eb.
    split; [by apply Hset|..].
    + apply Forall_singleton. destruct Hcase as [[Et ->]|(Hne' & -> & _)].
      * apply direct_flight; [done|simpl; lia|by left].
      * apply mesh_flight; [done|]. split; [done|]. rewrite Happ. split; [done|]. split; [done|].
        split; [by right|done].
    + cbn [fmap list_fmap mbind list_bind]. rewrite app_nil_r, owed_hop, Eb. unfold owed, owed_tiles.
      rewrite Hn, Eb. cbn [snd]. destruct Hcase as [[Et ->]|(Hne' & -> & _)]; done.
    + cbn [fmap list_fmap works foldr hop_flight work]. rewrite Hn. simpl. rewrite Eb, En. simpl.
      destruct Hcase as [[Et ->]|(Hne' & -> & Hd)]; simpl; lia.
Qed.

(** ** Packets that are sent *)

Record send_ok (t : Z) (p : NetPacket) : Prop := {
  so_pkt : pkt_ok p;
  so_node : np_node_type p = SEND_TILE;
  so_tile : snd_tile p = t;
  so_broadcast : rcv_tile p = BROADCAST -> hbh (pkt_network p) = true }.

Lemma set_counters_ok n id t m c : model_ok n id t m -> model_ok n id t (set_counters c m).
Proof. intros [? ? ? ? ? Hk]. by split. Qed.

Lemma counted_flits n id t m p : model_ok n id t m -> pkt_ok p ->
  exists len f, net_getModeledLength cfg p = Ok len /\ computeNumFlits (nm_flit_width m) len = Ok f.
Proof.
  intros Hm Hp. destruct (pkt_flits_ok n id t m p Hm Hp) as (f & E & _). unfold pkt_flits in E.
  destruct (net_getModeledLength cfg p) as [len|]; [|done]. by exists len, f.
Qed.

Lemma send_counters_ok n t m p : model_ok n (pkt_network p) t m -> pkt_ok p -> snd_tile p = t ->
  exists m', updateSendCounters cfg m p = Ok m' /\ model_ok n (pkt_network p) t m' /\ nm_kind m' = nm_kind m.
Proof.
  intros Hm Hp Ht. unfold updateSendCounters. rewrite Ht, (mo_tile _ _ _ _ Hm), Z.eqb_refl. simpl.
  destruct (counted_flits n _ t m p Hm Hp) as (len & f & -> & E). simpl. rewrite E. simpl.
  eexists. split; [reflexivity|]. split; [by apply set_counters_ok|done].
Qed.

Lemma app_tile t : 0 <= t < app -> isApplicationTile cfg t = true /\ isSystemTile cfg t = false.
Proof. unfold isApplicationTile, isSystemTile. intros. lia. Qed.

Lemma system_tile t : app <= t < total -> isSystemTile cfg t = true.
Proof. unfold isSystemTile. lia. Qed.

(** Between application tiles. *)
Lemma route_send n t m p : model_ok n (pkt_network p) t m -> F <= n -> send_ok t p -> 0 <= t < app ->
  rcv_tile p = BROADCAST \/ 0 <= rcv_tile p < app -> t <> rcv_tile p ->
  exists hops m', routePacket cfg m p = Ok (hops, m') /\ model_ok (n - F) (pkt_network p) t m' /\
    Forall flight_ok (hop_flight p <$> hops) /\
    (hop_flight p <$> hops) ≫= owed ≡ₚ
      owed_at p (if rcv_tile p =? BROADCAST then seqZ 0 app else [rcv_tile p]) /\
    works (hop_flight p <$> hops) <= 2 * app + 2.
Proof.
  intros Hm HF [Hp En Es Hbc] Ht Hr Hne. pose proof (nco_length Hcfg) as HFp. pose proof (nco_tiles Hcfg) as Htot.
  assert (Hme : hbh (pkt_network p) = true -> mesh_ok t p).
  { intros Hb. rewrite <- Es in Hne. by rewrite <- Es in Ht |- *. }
  assert (Hdirect : hbh (pkt_network p) = false ->
    forall z c, Forall flight_ok (hop_flight p <$> [Hop_new p (rcv_tile p) RECEIVE_TILE z c]) /\
    (hop_flight p <$> [Hop_new p (rcv_tile p) RECEIVE_TILE z c]) ≫= owed ≡ₚ
      owed_at p (if rcv_tile p =? BROADCAST then seqZ 0 app else [rcv_tile p]) /\
    works (hop_flight p <$> [Hop_new p (rcv_tile p) RECEIVE_TILE z c]) <= 2 * app + 2).
  { intros Hb z c. destruct Hr as [Hr|Hr]; [rewrite Hbc in Hb by done; done|]. split; [|split].
    - apply Forall_singleton, direct_flight; [done|lia|by left].
    - cbn [fmap list_fmap mbind list_bind]. rewrite app_nil_r, owed_hop, Z.eqb_refl.
      by rewrite (proj2 (Z.eqb_neq _ _) (broadcast_not_tile (rcv_tile p) ltac:(lia))).
    - simpl. lia. }
  unfold routePacket. pose proof (mo_kind _ _ _ _ Hm ltac:(lia)) as Hk.
  destruct (nm_kind m) as [|lat e|inj mesh links]; simpl in Hk.
  - eexists _, _. split; [reflexivity|]. split; [|by apply Hdirect].
    apply set_kind_ok; [eapply model_ok_less; [exact Hm|lia]|done].
  - unfold hop_counter_routePacket. destruct (model_enabled_ok n t m p Hm Hp) as [b ->]. simpl.
    destruct (pkt_flits_ok n _ t m p Hm Hp) as (f & Ef & _). rewrite Ef. destruct b; simpl.
    all: eexists _, _; split; [reflexivity|]; split; [|by apply Hdirect].
    all: apply set_kind_ok; [eapply model_ok_less; [exact Hm|lia]|done].
  - destruct Hk as (Hb & Hinj & Hmesh & Hl). unfold hop_by_hop_routePacket. rewrite En, (mo_tile _ _ _ _ Hm).
    assert (H1 : ports_ok 1 [0]) by (split; [apply NoDup_singleton|]; split; [apply Forall_singleton; lia|simpl; lia]).
    simpl. destruct (router_ok_step n 1 _ t m p [0] 0 0 inj Hm eq_refl Hb Hp Hinj H1 HF) as (z & c & inj' & -> & Hinj').
    simpl. eexists _, _. split; [reflexivity|]. split.
    { apply set_kind_ok; [eapply model_ok_less; [exact Hm|lia]|]. rewrite Hb. split; [done|].
      split; [done|]. split; [eapply router_ok_less; [exact Hmesh|lia]|done]. }
    split; [apply Forall_singleton, mesh_flight; [done|by apply Hme]|]. split.
    + cbn [fmap list_fmap mbind list_bind]. rewrite app_nil_r, owed_hop. simpl. rewrite Es.
      case_match; [|done]. apply Permutation_map. rewrite (nco_app Hcfg _ Hb) in *.
      apply (subtree_root cfg); [apply Hcfg|done].
    + simpl. rewrite (nco_app Hcfg _ Hb) in *. destruct (nco_mesh Hcfg) as [Hw Hh]. rewrite Es.
      case_match eqn:Er.
      * rewrite (subtree_root cfg Hw t Ht), length_seqZ. lia.
      * apply Z.eqb_neq in Er. destruct Hr as [|Hr]; [done|].
        pose proof (distance_bound cfg Hw Hh t (rcv_tile p) Ht Hr). lia.
Qed.

(** What [processCornerCases] does itself, and what it leaves to the model. *)
Definition due_tiles (p : NetPacket) : list Z :=
  if rcv_tile p =? BROADCAST then all_tiles cfg else [rcv_tile p].
Definition corner_tiles (p : NetPacket) (finished : bool) : list Z :=
  if finished then due_tiles p else if rcv_tile p =? BROADCAST then system_tiles cfg else [].
Arguments corner_tiles : simpl never.
Definition between_apps (t : Z) (p : NetPacket) : Prop :=
  0 <= t < app /\ (rcv_tile p = BROADCAST \/ 0 <= rcv_tile p < app) /\ t <> rcv_tile p.

Lemma isSystemTile_spec t : isSystemTile cfg t = true <-> app <= t < total.
Proof. unfold isSystemTile. lia. Qed.

Lemma corner_cases_ok n t m p : model_ok n (pkt_network p) t m -> send_ok t p ->
  exists finished, processCornerCases cfg m p = Ok (direct_hop p <$> corner_tiles p finished, finished) /\
    (finished = false -> between_apps t p).
Proof.
  intros Hm [Hp En Es Hbc]. unfold processCornerCases. rewrite (mo_tile _ _ _ _ Hm), Es, Z.eqb_refl. simpl.
  pose proof (po_sender _ Hp) as Hs. rewrite Es in Hs. pose proof (po_receiver _ Hp) as Hr.
  pose proof (nco_tiles Hcfg) as Htot. unfold corner_tiles, due_tiles.
  destruct (Z.eqb_spec t (rcv_tile p)) as [Et|Et].
  { exists true. by rewrite (proj2 (Z.eqb_neq _ _) (broadcast_not_tile (rcv_tile p) ltac:(lia))). }
  destruct (isSystemTile cfg t) eqn:Hst; [exists true; by case_match|].
  assert (Hta : 0 <= t < app) by (unfold isSystemTile in Hst; lia).
  destruct (isSystemTile cfg (rcv_tile p)) eqn:Hsr.
  { exists true. apply isSystemTile_spec in Hsr.
    by rewrite (proj2 (Z.eqb_neq _ _) (broadcast_not_tile (rcv_tile p) ltac:(lia))). }
  assert (Hra : rcv_tile p = BROADCAST \/ 0 <= rcv_tile p < app).
  { destruct Hr as [|Hr]; [by left|right]. unfold isSystemTile in Hsr. lia. }
  destruct (app_tile t Hta) as [-> _].
  assert (isApplicationTile cfg (rcv_tile p) || (rcv_tile p =? BROADCAST) = true) as ->.
  { destruct Hra as [E|Hra]; [rewrite (proj2 (Z.eqb_eq _ _) E); apply orb_true_r|]. by destruct (app_tile _ Hra) as [-> _]. }
  simpl. exists false. split; [by case_match|done].
Qed.

Lemma corner_hops t p finished : send_ok t p -> (finished = false -> between_apps t p) ->
  Forall flight_ok (hop_flight p <$> (direct_hop p <$> corner_tiles p finished)) /\
  (hop_flight p <$> (direct_hop p <$> corner_tiles p finished)) ≫= owed = owed_at p (corner_tiles p finished) /\
  works (hop_flight p <$> (direct_hop p <$> corner_tiles p finished)) = Z.of_nat (length (corner_tiles p finished)) /\
  Z.of_nat (length (corner_tiles p finished)) <= total.
Proof.
  intros [Hp En Es Hbc] Hf. pose proof (nco_tiles Hcfg) as Htot. pose proof (po_receiver _ Hp) as Hr.
  assert (Hl : Z.of_nat (length (corner_tiles p finished)) <= total).
  { unfold corner_tiles, due_tiles, all_tiles, system_tiles. repeat case_match; rewrite ?length_seqZ; simpl; lia. }
  destruct (direct_hops p (corner_tiles p finished) Hp) as (Hfl & How & Hwk); [| |by split_and!].
  all: unfold corner_tiles, due_tiles, all_tiles, system_tiles.
  - destruct Hr as [Hr|Hr].
    + rewrite Hr, Z.eqb_refl. case_match; apply Forall_seqZ; lia.
    + rewrite (proj2 (Z.eqb_neq _ _) (broadcast_not_tile (rcv_tile p) ltac:(lia))). case_match; [by apply Forall_singleton|constructor].
  - destruct Hr as [Hr|Hr].
    + rewrite Hr, Z.eqb_refl. apply Forall_forall. intros x _. right. split; [done|by apply Hbc].
    + rewrite (proj2 (Z.eqb_neq _ _) (broadcast_not_tile (rcv_tile p) ltac:(lia))). case_match; [by apply Forall_singleton; left|constructor].
Qed.

Lemma owed_send t p : send_ok t p -> owed (t, p) = owed_at p (due_tiles p) /\ work (t, p) = 4 * total + 4.
Proof. intros [_ En _ _]. unfold owed, owed_tiles, work. by rewrite En. Qed.

Lemma tiles_split : seqZ 0 app ++ system_tiles cfg = all_tiles cfg.
Proof.
  pose proof (nco_tiles Hcfg) as Htot. unfold system_tiles, all_tiles.
  replace total with (app + (total - app)) at 2 by lia. by rewrite seqZ_app by lia.
Qed.

(** [__routePacket] at the tile of the sender. *)
Lemma step_send n t m p : model_ok n (pkt_network p) t m -> F <= n -> send_ok t p ->
  exists hops m', do_routePacket cfg m p = Ok (hops, m') /\ routed (n - F) (pkt_network p) t p hops m'.
Proof.
  intros Hm HF Hso. pose proof Hso as [Hp En Es Hbc]. pose proof (nco_length Hcfg) as HFp.
  pose proof (nco_tiles Hcfg) as Htot.
  destruct (corner_cases_ok n t m p Hm Hso) as (fin & Ec & Hfin).
  destruct (corner_hops t p fin Hso Hfin) as (Hfl & How & Hwk & Hlen). destruct (owed_send t p Hso) as [Eo Ew].
  unfold do_routePacket. rewrite En, Es, (mo_tile _ _ _ _ Hm), !Z.eqb_refl. simpl. rewrite Ec. simpl. destruct fin.
  { change (corner_tiles p true) with (due_tiles p) in *. simpl. eexists _, _. split; [reflexivity|].
    split; [eapply model_ok_less; [exact Hm|lia]|done| |].
    - by rewrite How, Eo.
    - rewrite Hwk, Ew. lia. }
  destruct (Hfin eq_refl) as (Ht & Hr & Hne). destruct (model_enabled_ok n t m p Hm Hp) as [b ->]. simpl.
  assert (Hcnt : exists m1, (if b then updateSendCounters cfg m p else Ok m) = Ok m1 /\ model_ok n (pkt_network p) t m1).
  { destruct b; [|by exists m]. destruct (send_counters_ok n t m p Hm Hp Es) as (m1 & -> & Hm1 & _). by exists m1. }
  destruct Hcnt as (m1 & -> & Hm1). simpl.
  destruct (app_tile t Ht) as [-> _]. rewrite (proj2 (Z.eqb_neq _ _) Hne).
  assert (isApplicationTile cfg (rcv_tile p) || (rcv_tile p =? BROADCAST) = true) as ->.
  { destruct Hr as [E|Hr]; [rewrite (proj2 (Z.eqb_eq _ _) E); apply orb_true_r|]. by destruct (app_tile _ Hr) as [-> _]. }
  simpl. destruct (route_send n t m1 p Hm1 HF Hso Ht Hr Hne) as (hops & m2 & -> & Hm2 & Hfl2 & How2 & Hwk2).
  simpl. eexists _, _. split; [reflexivity|]. split; [done|..]; rewrite fmap_app.
  - by apply Forall_app.
  - rewrite bind_app, How, How2, Eo, <- owed_at_app. apply Permutation_map. unfold corner_tiles, due_tiles.
    case_match; [|done]. rewrite <- tiles_split. apply Permutation_app_comm.
  - rewrite works_app, Hwk, Ew. unfold corner_tiles in *. case_match; simpl in *; lia.
Qed.

(** [__routePacket] inside the mesh. *)
Lemma step_mesh n t m p : model_ok n (pkt_network p) t m -> F <= n -> pkt_ok p -> mesh_ok t p ->
  np_node_type p = EMESH ->
  exists hops m', do_routePacket cfg m p = Ok (hops, m') /\ routed (n - F) (pkt_network p) t p hops m'.
Proof.
  intros Hm HF Hp Hme En. destruct (route_emesh n t m p Hm HF Hp Hme En) as (hops & m' & E & Hrt).
  exists hops, m'. split; [|done]. unfold do_routePacket. rewrite En. simpl.
  destruct Hme as (Hb & Ht & Hs & Hr & Hne). destruct (app_tile _ Hs) as [-> _]. rewrite (proj2 (Z.eqb_neq _ _) Hne).
  assert (isApplicationTile cfg (rcv_tile p) || (rcv_tile p =? BROADCAST) = true) as ->.
  { destruct Hr as [Eb|Hr]; [rewrite (proj2 (Z.eqb_eq _ _) Eb); apply orb_true_r|]. by destruct (app_tile _ Hr) as [-> _]. }
  simpl. rewrite E. done.
Qed.
End with_queues.
End net.
