(* ===== verification/NetRun.v ===== *)
(** * Runs of the network

    The network keeps its promise along every run: the packets that were
    delivered, with what the packets in flight still owe, are what the senders
    asked for; no routine fails; and every arrival reduces the work that is
    left, so that the packets in flight are all delivered. *)

From S2P Require Import Prelude Threads Shmem QueueModel NetModel Network MeshThm NetThm.

Section net.
Context (cfg : NetConfig) (hbh hb : EStaticNetwork -> bool) (F : Z) (Hcfg : net_config_ok cfg hbh hb F).
Context {Q : Type} `{QueueLaws Q}.
Implicit Types s : NetState Q.
Abbreviation app := (nc_application_tiles cfg).
Abbreviation total := (nc_total_tiles cfg).
Abbreviation flight_ok := (flight_ok cfg hbh F).
Abbreviation pkt_ok := (pkt_ok cfg F).
Abbreviation owed := (owed cfg).
Abbreviation work := (work cfg).
Abbreviation works := (works cfg).
Abbreviation snd_tile p := (tile_id (np_sender p)).
Abbreviation rcv_tile p := (tile_id (np_receiver p)).

(** ** Bounds on the work of a packet *)

Lemma work_bound t p : flight_ok (t, p) -> 1 <= work (t, p) <= 4 * total + 4.
Proof.
  intros (Hp & Ht & Hcase). pose proof (nco_tiles _ _ _ _ Hcfg) as Htot. unfold work, NetThm.work.
  destruct Hcase as [[-> _]|[-> Hm]]; simpl; [lia|]. destruct Hm as (Hb & Hta & Hs & Hr & Hne).
  rewrite (nco_app _ _ _ _ Hcfg _ Hb) in *. destruct (nco_mesh _ _ _ _ Hcfg) as [Hw Hh]. case_match eqn:Er.
  - pose proof (subtree_size cfg Hw Hh t (snd_tile p) Hta Hs). lia.
  - destruct Hr as [Hr|Hr]; [lia|].
    pose proof (distance_nonneg cfg Hw t (rcv_tile p) Hta Hr). pose proof (distance_bound cfg Hw Hh t (rcv_tile p) Hta Hr). lia.
Qed.

Lemma works_nonneg l : Forall flight_ok l -> 0 <= works l.
Proof. induction 1 as [|[t p] l Hx _ IH]; [done|]. rewrite works_cons. pose proof (work_bound t p Hx). lia. Qed.

(** ** Models and packets in flight *)

Definition models_ok (n : Z) s : Prop :=
  forall t id, 0 <= t < total -> model_ok cfg hbh hb n id t (ns_models s t id).

Lemma models_ok_less n n' s : models_ok n s -> n' <= n -> models_ok n' s.
Proof. intros Hs Hn t id Ht. eapply model_ok_less; [by apply Hs|done]. Qed.

Lemma put_model_ok n t id m s : models_ok n s -> model_ok cfg hbh hb n id t m -> models_ok n (put_model t m s).
Proof.
  intros Hs Hm t' id' Ht'. unfold put_model. simpl. destruct (decide (t' = t)) as [->|Hne].
  - rewrite upd_eq, (mo_id _ _ _ _ _ _ _ Hm). case_decide as E; [by rewrite E|by apply Hs].
  - rewrite upd_ne by done. by apply Hs.
Qed.

(** The packets the tiles have received. *)
Definition received s : list (Z * NetPacket) := ns_queue s ++ ns_calls s ++ ns_taken s.
Definition delivered s : list (Z * Header) := (fun x => (x.1, header x.2)) <$> received s.
Definition in_flight s : list (Z * Header) := ns_flight s ≫= owed.

(** A routine of the network spends some work and puts packets in flight. *)
Record moved (n : Z) (w : Z) (due : list (Z * Header)) s s' : Prop := {
  mv_new : exists new, ns_flight s' = ns_flight s ++ new /\ Forall flight_ok new /\ new ≫= owed ≡ₚ due /\
    works new <= w /\ models_ok (n - F * (w - works new)) s';
  mv_received : received s' = received s }.

(** ** One routing step of the network *)

Definition can_route (t : Z) (p : NetPacket) : Prop :=
  0 <= t < total /\ pkt_ok p /\
  (send_ok cfg hbh F t p \/ (mesh_ok cfg hbh t p /\ np_node_type p = EMESH)).

Lemma can_route_flight t p : flight_ok (t, p) -> np_node_type p <> RECEIVE_TILE -> can_route t p.
Proof. intros (Hp & Ht & [[E _]|[E Hm]]) Hn; [done|]. split; [done|]. split; [done|]. by right. Qed.

Lemma route_at_runs n t p s : models_ok n s -> F <= n -> can_route t p ->
  runs (route_at cfg t p) s (fun hops s' =>
    models_ok (n - F) s' /\ ns_flight s' = ns_flight s /\ received s' = received s /\
    Forall flight_ok (hop_flight p <$> hops) /\ (hop_flight p <$> hops) ≫= owed ≡ₚ owed (t, p) /\
    works (hop_flight p <$> hops) < work (t, p)).
Proof.
  intros Hs HF (Ht & Hp & Hcase). unfold route_at. pose proof (nco_length _ _ _ _ Hcfg).
  pose proof (Hs t (pkt_network p) Ht) as Hm.
  assert (Hstep : exists hops m', do_routePacket cfg (model_of t (np_type p) s) p = Ok (hops, m') /\
    routed cfg hbh hb F (n - F) (pkt_network p) t p hops m').
  { destruct Hcase as [Hso|[Hme En]].
    - exact (step_send cfg hbh hb F Hcfg n t _ p Hm HF Hso).
    - exact (step_mesh cfg hbh hb F Hcfg n t _ p Hm HF Hp Hme En). }
  destruct Hstep as (hops & m' & E & [Hm' Hfl How Hwk]).
  apply runs_bind, runs_gets, runs_bind. eapply runs_lift; [exact E|]. apply runs_bind, runs_modify, runs_ret.
  split_and!; try done. eapply put_model_ok; [|exact Hm']. eapply models_ok_less; [exact Hs|lia].
Qed.

Lemma moved_nil n s : models_ok n s -> moved n 0 [] s s.
Proof.
  intros Hs. split; [|done]. exists []. rewrite app_nil_r. split_and!; [done|constructor|done|done|].
  eapply models_ok_less; [exact Hs|]. simpl. lia.
Qed.

Lemma forward_loop_runs fuel p hops n s :
  let l := hop_flight p <$> hops in
  models_ok n s -> Forall flight_ok l -> works l <= Z.of_nat fuel -> F * works l <= n ->
  runs (forward_loop cfg fuel p hops) s (fun _ s' => moved n (works l) (l ≫= owed) s s').
Proof.
  pose proof (nco_length _ _ _ _ Hcfg) as HF. revert p hops n s.
  induction fuel as [|fuel IH]; intros p hops n s l Hs Hfl Hfuel Hn; (destruct hops as [|hop hops]; [apply runs_ret, moved_nil, Hs|]).
  all: unfold l in *; rewrite fmap_cons, works_cons in *; apply Forall_cons in Hfl as [Hhop Hfl].
  all: unfold hop_flight in Hhop; pose proof (work_bound _ _ Hhop) as Hw.
  { pose proof (works_nonneg _ Hfl). unfold hop_flight in *. lia. }
  pose proof (works_nonneg _ Hfl) as Hw'. cbn [forward_loop]. fold (hop_flight p hop) in Hw.
  destruct (negb (hop_next_node_type hop =? RECEIVE_TILE) && nc_shortcut cfg) eqn:Hcut.
  - eapply runs_seq; [apply (route_at_runs n); [done|nia|]|].
    { apply can_route_flight; [done|]. simpl. intros E. rewrite E in Hcut. done. }
    intros next s1 (Hs1 & Hfl1 & Hrc1 & Hok & How & Hwk). fold (hop_flight p hop) in Hwk, How.
    assert (Happ : hop_flight (apply_hop p hop) <$> (hops ++ next) =
      (hop_flight p <$> hops) ++ (hop_flight (apply_hop p hop) <$> next)) by by rewrite fmap_app.
    set (l1 := hop_flight p <$> hops) in *. set (l2 := hop_flight (apply_hop p hop) <$> next) in *.
    eapply runs_mono; [apply (IH (apply_hop p hop) (hops ++ next) (n - F) s1 Hs1); rewrite Happ|].
    + by apply Forall_app.
    + rewrite works_app. lia.
    + rewrite works_app. nia.
    + intros [] s2 [(new & Ef & Hnew & Hown & Hwn & Hm2) Hrc]. rewrite Happ in *. rewrite works_app in Hwn, Hm2.
      assert (Hcost : F * (works l2 + 1) <= F * work (hop_flight p hop)) by (apply Z.mul_le_mono_nonneg_l; lia).
      split; [|congruence]. exists new. split_and!; [congruence|done| |lia|eapply models_ok_less; [exact Hm2|lia]].
      rewrite Hown, bind_app, bind_cons, How. apply Permutation_app_comm.
  - apply runs_bind, runs_modify.
    set (s1 := put_flight _ s). pose proof (IH (apply_hop p hop) hops n s1) as Hloop.
    change (hop_flight (apply_hop p hop) <$> hops) with (hop_flight p <$> hops) in Hloop.
    eapply runs_mono; [apply Hloop; [done|done|lia|nia]|].
    intros [] s2 [(new & Ef & Hnew & Hown & Hwn & Hm2) Hrc]. split; [|done].
    exists (hop_flight p hop :: new). rewrite works_cons. split_and!.
    + rewrite Ef. unfold s1, put_flight. simpl. by rewrite <- app_assoc.
    + by apply Forall_cons.
    + rewrite !bind_cons. by f_equiv.
    + lia.
    + eapply models_ok_less; [exact Hm2|lia].
Qed.

(** ** forwardPacket, netSend, netPullFromTransport *)

(** The queues have room for the packets in flight and for further work of
    [n] routing steps. *)
Definition room (n : Z) s : Prop := models_ok (F * (n + works (ns_flight s))) s.

(** A routine that puts packets that owe [due] in flight, with work [w] at
    most, and leaves room for [n] more. *)
Record sent (n w : Z) (due : list (Z * Header)) s s' : Prop := {
  sn_new : exists new, ns_flight s' = ns_flight s ++ new /\ Forall flight_ok new /\ new ≫= owed ≡ₚ due /\ works new <= w;
  sn_room : room n s';
  sn_received : received s' = received s }.

Lemma sent_nil n s : room n s -> sent n 0 [] s s.
Proof. intros Hs. split; [|done..]. exists []. by rewrite app_nil_r. Qed.

Lemma sent_trans n1 n2 w1 w2 d1 d2 s s1 s2 :
  sent n1 w1 d1 s s1 -> sent n2 w2 d2 s1 s2 -> sent n2 (w1 + w2) (d1 ++ d2) s s2.
Proof.
  intros [(new1 & E1 & Hok1 & Ho1 & Hwk1) _ Hr1] [(new2 & E2 & Hok2 & Ho2 & Hwk2) Hn2 Hr2].
  split; [|done|congruence]. exists (new1 ++ new2). split_and!.
  - by rewrite E2, E1, <- app_assoc.
  - by apply Forall_app.
  - by rewrite bind_app, Ho1, Ho2.
  - rewrite works_app. lia.
Qed.

Lemma sent_cost n w w' d d' s s' : sent n w d s s' -> w <= w' -> d ≡ₚ d' -> sent n w' d' s s'.
Proof.
  intros [(new & E & Hok & Ho & Hwk) Hn Hr] Hw Hd. split; [|done..]. exists new.
  split_and!; [done|done|by rewrite Ho|lia].
Qed.

Lemma works_flight s : Forall flight_ok (ns_flight s) -> 0 <= works (ns_flight s).
Proof. apply works_nonneg. Qed.

Lemma forwardPacket_runs n t p s : room n s -> Forall flight_ok (ns_flight s) -> can_route t p ->
  1 <= work (t, p) <= 4 * total + 4 -> work (t, p) <= n ->
  runs (forwardPacket cfg t p) s (fun ret s' =>
    ret = np_length p /\ sent (n - work (t, p)) (work (t, p) - 1) (owed (t, p)) s s').
Proof.
  pose proof (nco_length _ _ _ _ Hcfg) as HF. pose proof (nco_tiles _ _ _ _ Hcfg) as Htot.
  intros Hs Hall Hp Hw Hn. unfold forwardPacket. pose proof (works_nonneg _ Hall) as Hfw.
  eapply runs_seq; [apply (route_at_runs _ _ _ _ Hs); [nia|done]|].
  intros hops s1 (Hs1 & Hfl1 & Hrc1 & Hok & How & Hwk). set (l := hop_flight p <$> hops) in *.
  eapply runs_seq; [apply (forward_loop_runs _ _ _ _ s1 Hs1 Hok); fold l; [unfold forward_fuel; lia|nia]|].
  intros [] s2 [(new & Ef & Hnew & Hown & Hwn & Hm2) Hrc]. fold l in Hown, Hwn, Hm2. apply runs_ret.
  split; [done|]. split; [|unfold room|congruence].
  - exists new. split_and!; [congruence|done|by rewrite Hown|lia].
  - eapply models_ok_less; [exact Hm2|]. rewrite Ef, works_app, Hfl1.
    assert (Hcost : F * (works l + 1) <= F * work (t, p)) by (apply Z.mul_le_mono_nonneg_l; lia). lia.
Qed.

(** A packet as a core hands it to the network. *)
Record sendable (t : Z) (p : NetPacket) : Prop := {
  sb_tile : 0 <= t < total;
  sb_pkt : pkt_ok p;
  sb_node : np_node_type p = SEND_TILE;
  sb_sender : snd_tile p = t }.

(** What a send asks for: a broadcast on a network without a broadcast tree is
    one packet for each tile. *)
Definition asked (p : NetPacket) : list (Z * Header) :=
  if rcv_tile p =? BROADCAST then
    (fun i => (i, header (if hb (pkt_network p) then p else set_receiver (getMainCoreId i) p))) <$> all_tiles cfg
  else [(rcv_tile p, header p)].

Definition send_cost : Z := (4 * total + 4) * total.

Lemma sendable_can_route t p : sendable t p -> (rcv_tile p = BROADCAST -> hb (pkt_network p) = true) ->
  can_route t p /\ work (t, p) = 4 * total + 4 /\
  owed (t, p) = owed_at p (if rcv_tile p =? BROADCAST then all_tiles cfg else [rcv_tile p]).
Proof.
  intros [Ht Hp En Es] Hb.
  assert (Hso : send_ok cfg hbh F t p) by (split; try done; intros E; by apply (nco_broadcast _ _ _ _ Hcfg), Hb).
  destruct (owed_send cfg hbh F t p Hso) as [Eo Ew]. split; [|done]. split; [done|]. split; [done|]. by left.
Qed.

(** The packets of one send. *)
Definition copy (i : Z) (p : NetPacket) : NetPacket := set_receiver (getMainCoreId i) p.

Lemma copy_sendable t p i : sendable t p -> 0 <= i < total -> sendable t (copy i p) /\ rcv_tile (copy i p) = i.
Proof. intros [Ht [? ? ? Hl] En Es] Hi. split; [|done]. split; try done. split; try done. by right. Qed.

Lemma copies_runs n t p l s : sendable t p -> Forall (fun i => 0 <= i < total) l ->
  room (n + (4 * total + 4) * Z.of_nat (length l)) s -> 0 <= n -> Forall flight_ok (ns_flight s) ->
  runs (for_each l (fun i =>
          ret ← forwardPacket cfg t (set_receiver (getMainCoreId i) p);
          lift (log_assert (ret =? np_length p)))) s
    (fun _ s' => sent n ((4 * total + 4) * Z.of_nat (length l)) ((fun i => (i, header (copy i p))) <$> l) s s').
Proof.
  pose proof (nco_tiles _ _ _ _ Hcfg) as Htot.
  intros Hsb Hl. revert s. induction Hl as [|i l Hi Hl IH]; intros s Hs Hn Hall; cbn [for_each length] in *.
  { change (Z.of_nat 0) with 0 in *. rewrite Z.mul_0_r in *. rewrite Z.add_0_r in Hs. by apply runs_ret, sent_nil. }
  destruct (copy_sendable t p i Hsb Hi) as [Hc Er]. rewrite Nat2Z.inj_succ, Z.mul_succ_r in *.
  assert (Hpos : 0 <= (4 * total + 4) * Z.of_nat (length l)) by (apply Z.mul_nonneg_nonneg; lia).
  assert (Hnb : rcv_tile (copy i p) <> BROADCAST) by (rewrite Er; apply broadcast_not_tile; lia).
  destruct (sendable_can_route t (copy i p) Hc ltac:(done)) as (Hrt & Hwk & How).
  rewrite (proj2 (Z.eqb_neq _ _) Hnb), Er in How.
  apply runs_bind. eapply runs_seq; [apply (forwardPacket_runs _ t (copy i p) s Hs Hall Hrt); rewrite Hwk; lia|].
  intros ret s1 [-> Hs1]. apply runs_log_assert; [apply Z.eqb_refl|]. rewrite Hwk, How in Hs1.
  pose proof (sn_new _ _ _ _ _ Hs1) as (new & Ef & Hnew & _).
  eapply runs_mono; [apply (IH s1); [|done|]|].
  - pose proof (sn_room _ _ _ _ _ Hs1) as Hr1. by replace (n + (4 * total + 4) * Z.of_nat (length l)) with
      (n + ((4 * total + 4) * Z.of_nat (length l) + (4 * total + 4)) - (4 * total + 4)) by lia.
  - rewrite Ef. by apply Forall_app.
  - intros [] s2 Hs2. eapply sent_cost; [exact (sent_trans _ _ _ _ _ _ _ _ _ Hs1 Hs2)|lia|done].
Qed.

Lemma netSend_spec n t p s : sendable t p -> room (n + send_cost) s -> 0 <= n ->
  Forall flight_ok (ns_flight s) ->
  runs (netSend cfg t p) s (fun ret s' => ret = np_length p /\ sent n send_cost (asked p) s s').
Proof.
  pose proof (nco_tiles _ _ _ _ Hcfg) as Htot. intros Hsb Hs Hn Hall. unfold netSend, asked, send_cost in *.
  apply runs_bind, runs_gets. unfold model_of. fold (pkt_network p).
  rewrite (mo_broadcast _ _ _ _ _ _ _ (Hs t (pkt_network p) (sb_tile _ _ Hsb))).
  destruct ((rcv_tile p =? BROADCAST) && negb (hb (pkt_network p))) eqn:Eb.
  - apply andb_true_iff in Eb as [-> Ehb]. apply negb_true_iff in Ehb as ->.
    assert (Hlen : Z.of_nat (length (all_tiles cfg)) = total) by (unfold all_tiles; rewrite length_seqZ; lia).
    eapply runs_seq; [apply (copies_runs n t p (all_tiles cfg) s Hsb); [apply Forall_seqZ; lia|by rewrite Hlen|done|done]|].
    intros [] s' Hs'. rewrite Hlen in Hs'. apply runs_ret. by split.
  - destruct (sendable_can_route t p Hsb) as (Hrt & Hwk & How).
    { intros E. rewrite E, Z.eqb_refl in Eb. by destruct (hb (pkt_network p)). }
    apply runs_bind, runs_bind.
    eapply runs_mono; [apply (forwardPacket_runs _ t p s Hs Hall Hrt); rewrite Hwk; nia|].
    intros ret s1 [-> Hs1]. apply runs_log_assert; [apply Z.eqb_refl|]. apply runs_ret. split; [done|].
    rewrite Hwk in Hs1. destruct Hs1 as [Hnew Hr Hrc]. eapply sent_cost; [split; [exact Hnew| |exact Hrc]|nia|].
    + eapply models_ok_less; [exact Hr|]. pose proof (nco_length _ _ _ _ Hcfg). apply Z.mul_le_mono_nonneg_l; nia.
    + rewrite How. case_match; [|done]. apply andb_false_iff in Eb as [|Eb]; [done|]. by apply negb_false_iff in Eb as ->.
Qed.

(** *** Received packets *)

Lemma processReceivedPacket_header n id t (m : NetworkModel Q) p : model_ok cfg hbh hb n id t m -> pkt_ok p ->
  exists p', processReceivedPacket cfg m p = Ok p' /\ header p' = header p /\
    np_receiver p' = np_receiver p /\ net_getModeledLength cfg p' = net_getModeledLength cfg p.
Proof.
  intros Hm Hp. unfold processReceivedPacket. destruct (pkt_flits_ok cfg hbh hb F Hcfg n id t m p Hm Hp) as (f & -> & _).
  simpl. eexists. split; [reflexivity|]. split; [|done]. set (l := nc_latency _ _ _).
  unfold header, origin. simpl. f_equal. apply wrap_eqm.
  destruct (wrap_part 64 (np_time p + l) ltac:(lia)) as [k1 E1]. rewrite E1.
  destruct (wrap_part 64 (np_zero_load_delay p + l) ltac:(lia)) as [k2 E2]. rewrite E2.
  exists (k1 - k2). lia.
Qed.

Lemma do_receive_ok n t (m : NetworkModel Q) p : model_ok cfg hbh hb n (pkt_network p) t m -> pkt_ok p ->
  np_node_type p = RECEIVE_TILE -> rcv_tile p = BROADCAST \/ rcv_tile p = t ->
  exists p' m', do_processReceivedPacket cfg m p = Ok (p', m') /\ header p' = header p /\
    model_ok cfg hbh hb n (pkt_network p) t m'.
Proof.
  intros Hm Hp En Hr. unfold do_processReceivedPacket. rewrite En, Z.eqb_refl, orb_true_r. simpl.
  case_match; [by exists p, m|]. destruct (model_enabled_ok cfg hbh hb F n t m p Hm Hp) as [b ->]. simpl.
  destruct b; simpl; [|by exists p, m].
  destruct (processReceivedPacket_header n _ t m p Hm Hp) as (p' & -> & Eh & Er & El). simpl.
  unfold updateReceiveCounters. rewrite Er, (mo_tile _ _ _ _ _ _ _ Hm).
  assert ((rcv_tile p =? BROADCAST) || (rcv_tile p =? t) = true) as ->.
  { destruct Hr as [E|E]; rewrite E, Z.eqb_refl; [done|apply orb_true_r]. }
  simpl. destruct (counted_flits cfg hbh hb F Hcfg n _ t m p Hm Hp) as (len & f & E1 & E2). rewrite El, E1. simpl.
  rewrite E2. simpl. eexists _, _. split; [reflexivity|]. split; [done|]. by apply set_counters_ok.
Qed.

Lemma ready_ok n t (m : NetworkModel Q) p : model_ok cfg hbh hb n (pkt_network p) t m -> flight_ok (t, p) ->
  isPacketReadyToBeReceived m p = Ok (np_node_type p =? RECEIVE_TILE).
Proof.
  intros Hm (Hp & Ht & Hcase). unfold isPacketReadyToBeReceived.
  rewrite (mo_id _ _ _ _ _ _ _ Hm), (mo_tile _ _ _ _ _ _ _ Hm).
  destruct (hbh (pkt_network p)) eqn:Eb.
  { by destruct (nco_hbh _ _ _ _ Hcfg _ Eb) as [-> | ->]. }
  destruct Hcase as [[-> Hr]|[_ Hme]]; [|destruct Hme; congruence].
  destruct Hr as [->|[_ ?]]; [|done]. rewrite !Z.eqb_refl. by destruct (pkt_network p).
Qed.

(** An arrival: the packet was taken out of [ns_flight]. *)
Record pulled (n : Z) (x : Z * NetPacket) s s' : Prop := {
  pl_new : exists new, ns_flight s' = ns_flight s ++ new /\ Forall flight_ok new /\ works new < work x /\
    delivered s' ++ (new ≫= owed) ≡ₚ delivered s ++ owed x;
  pl_room : room n s' }.

Lemma netPull_runs n t p s : flight_ok (t, p) -> room (n + work (t, p)) s -> 0 <= n ->
  Forall flight_ok (ns_flight s) ->
  runs (netPull cfg t p) s (fun _ s' => pulled n (t, p) s s').
Proof.
  pose proof (nco_length _ _ _ _ Hcfg) as HF.
  intros Hx Hs Hn Hall. pose proof (work_bound _ _ Hx) as Hw. pose proof Hx as (Hp & Ht & Hcase).
  pose proof (Hs t (pkt_network p) Ht) as Hm. unfold netPull.
  apply runs_bind, runs_log_assert; [pose proof (po_sender _ _ _ Hp); lia|].
  apply runs_bind, runs_gets, runs_bind. unfold model_of. fold (pkt_network p).
  eapply runs_lift; [by apply (ready_ok _ t _ p Hm)|].
  destruct (Z.eqb_spec (np_node_type p) RECEIVE_TILE) as [En|En].
  - assert (Hr : rcv_tile p = BROADCAST \/ rcv_tile p = t).
    { destruct Hcase as [[_ [->|[-> _]]]|[E _]]; [by right|by left|by rewrite E in En]. }
    destruct (do_receive_ok _ t _ p Hm Hp En Hr) as (p' & m' & E & Eh & Hm'). apply runs_bind.
    eapply runs_lift; [exact E|]. apply runs_bind, runs_modify.
    assert (Hone : forall s', ns_flight s' = ns_flight s -> room (n + work (t, p)) s' ->
      received s' ≡ₚ received s ++ [(t, p')] -> pulled n (t, p) s s').
    { intros s' Ef Hrm Hrc. split; [|eapply models_ok_less; [exact Hrm|apply Z.mul_le_mono_nonneg_l; lia]].
      exists []. rewrite app_nil_r. split; [done|]. split; [by apply Forall_nil|]. split; [change (works []) with 0; lia|]. rewrite app_nil_r.
      unfold delivered. rewrite Hrc, fmap_app. apply Permutation_app_head. unfold owed, NetThm.owed, owed_tiles.
      rewrite En. simpl. by rewrite Eh. }
    assert (Hput : room (n + work (t, p)) (put_model t m' s)) by (by eapply put_model_ok).
    case_match; apply runs_modify, Hone; try done; unfold received; simpl; [|solve_Permutation].
    rewrite (assoc_L (++)). solve_Permutation.
  - apply runs_bind. eapply runs_mono; [apply (forwardPacket_runs _ t p s Hs Hall);
      [by apply can_route_flight|lia|lia]|].
    intros ret s' [_ Hs']. apply runs_ret. destruct Hs' as [(new & Ef & Hnew & How & Hwk) Hr Hrc]. split.
    + exists new. split_and!; [done|done|lia|]. unfold delivered. by rewrite Hrc, How.
    + by replace n with (n + work (t, p) - work (t, p)) by lia.
Qed.
End net.
