(* ===== verification/NetProps.v ===== *)
(** * What the network promises

    Every packet is delivered exactly once to every tile it is for, unicasts
    and broadcasts alike, whatever the order in which the transport delivers;
    no run stops with an error; and the packets in flight are all delivered
    after a bounded number of arrivals. *)

From S2P Require Import Prelude Threads Shmem QueueModel QueueThm NetModel Network MeshThm NetThm NetRun.

Section net.
Context (cfg : NetConfig) (hbh hb : EStaticNetwork -> bool) (F : Z) (Hcfg : net_config_ok cfg hbh hb F).
Context {Q : Type} `{QueueLaws Q}.
Implicit Types s : NetState Q.
Abbreviation total := (nc_total_tiles cfg).
Abbreviation flight_ok := (flight_ok cfg hbh F).
Abbreviation owed := (owed cfg).
Abbreviation works := (works cfg).
Abbreviation room := (room cfg hbh hb F).
Abbreviation delivered s := (delivered s).
Abbreviation in_flight := (in_flight cfg).

(** A delivered packet is for the tile, and comes from a tile. *)
Definition well_addressed (x : Z * Header) : Prop :=
  let '(t, (_, sender, receiver, _, _, _)) := x in
  0 <= tile_id sender < total /\ (tile_id receiver = t \/ tile_id receiver = BROADCAST).

(** The invariant: the packets in flight and the delivered ones are in order,
    and there is room for [n] more routing steps. *)
Record net_ok (n : Z) s : Prop := {
  nk_budget : 0 <= n;
  nk_room : room n s;
  nk_flight : Forall flight_ok (ns_flight s);
  nk_delivered : Forall well_addressed (delivered s) }.

Lemma owed_addressed x : flight_ok x -> Forall well_addressed (owed x).
Proof.
  destruct x as [t p]. intros (Hp & Ht & Hcase). unfold NetThm.owed. apply Forall_fmap, Forall_forall. intros t' Hin.
  split; [apply Hp|]. unfold owed_tiles in Hin. destruct Hcase as [[En Hr]|[En (_ & _ & _ & Hr & _)]]; rewrite En in Hin; simpl in Hin.
  - apply list_elem_of_singleton in Hin as ->. naive_solver.
  - case_match eqn:E; [right; by apply Z.eqb_eq|]. apply list_elem_of_singleton in Hin as ->. by left.
Qed.

Lemma in_flight_addressed s : Forall flight_ok (ns_flight s) -> Forall well_addressed (in_flight s).
Proof.
  intros Hall. unfold NetRun.in_flight. apply Forall_forall. intros y (x & Hy & Hx)%list_elem_of_bind.
  rewrite Forall_forall in Hall. pose proof (owed_addressed x (Hall x Hx)) as Hok. rewrite Forall_forall in Hok. by apply Hok.
Qed.

(** ** The operations *)

Lemma send_step n t p s : sendable cfg F t p -> net_ok (n + send_cost cfg) s -> 0 <= n ->
  runs (net_op cfg (NSend t p)) s (fun _ s' => net_ok n s' /\
    delivered s' ++ in_flight s' ≡ₚ (delivered s ++ in_flight s) ++ asked cfg hb p).
Proof.
  intros Hsb [_ Hr Hall Hd] Hn.
  destruct (netSend_spec cfg hbh hb F Hcfg n t p s Hsb Hr Hn Hall) as (ret & s' & E & _ & [(new & Ef & Hnew & How & _) Hr' Hrc]).
  exists tt, s'. split; [unfold net_op; by rewrite (st_bind_run _ _ _ _ _ E)|].
  assert (Ed : delivered s' = delivered s) by (unfold NetRun.delivered; by rewrite Hrc).
  split; [split; [done|done| |by rewrite Ed]|].
  - rewrite Ef. by apply Forall_app.
  - unfold NetRun.in_flight. rewrite Ed, Ef, bind_app, How. by rewrite (assoc_L (++)).
Qed.

Lemma works_Permutation l l' : l ≡ₚ l' -> works l = works l'.
Proof. induction 1; rewrite ?works_cons; lia. Qed.

(** An arrival delivers or forwards one packet, and leaves less to do. *)
Lemma arrive_step n i s : net_ok n s ->
  runs (net_op cfg (NArrive i)) s (fun _ s' => net_ok n s' /\
    delivered s' ++ in_flight s' ≡ₚ delivered s ++ in_flight s /\
    (works (ns_flight s') < works (ns_flight s) \/ (ns_flight s = [] /\ ns_flight s' = []))).
Proof.
  intros [Hn Hr Hall Hd]. unfold net_op, runs. cbn beta. destruct (ns_flight s !! choose i s) as [[t p]|] eqn:Elk.
  2:{ exists tt, s. split; [done|]. split; [done|]. split; [done|]. right. apply lookup_ge_None in Elk. unfold choose in Elk.
      destruct (ns_flight s) as [|x l]; [done|]. pose proof (Nat.mod_upper_bound i (length (x :: l)) ltac:(done)). lia. }
  pose proof (delete_Permutation _ _ _ Elk) as Hperm. set (rest := delete (choose i s) (ns_flight s)) in *.
  pose proof (works_Permutation _ _ Hperm) as Hw. rewrite works_cons in Hw.
  assert (Hall' := Hall). rewrite Hperm in Hall'. apply Forall_cons in Hall' as [Hx Hrest].
  destruct (netPull_runs cfg hbh hb F Hcfg n t p (put_flight rest s) Hx) as (a & s' & E & [(new & Ef & Hnew & Hwk & Hdel) Hr']);
    [|done|done|].
  { eapply models_ok_less; [exact Hr|]. change (ns_flight (put_flight rest s)) with rest. apply Z.eq_le_incl. rewrite Hw. lia. }
  destruct a. exists tt, s'. split; [exact E|]. simpl in Ef. change (NetRun.delivered (put_flight rest s)) with (delivered s) in Hdel.
  split; [split; [done|done| |]|split].
  - rewrite Ef. by apply Forall_app.
  - assert (Hboth : Forall well_addressed (delivered s' ++ (new ≫= owed))).
    { rewrite Hdel. apply Forall_app. split; [done|by apply owed_addressed]. }
    by apply Forall_app in Hboth as [? _].
  - unfold NetRun.in_flight. rewrite Ef, bind_app, (Permutation_app_comm (rest ≫= _)), (assoc_L (++)), Hdel, Hperm.
    by rewrite bind_cons, (assoc_L (++)).
  - left. rewrite Ef, works_app. lia.
Qed.

Lemma take_match_spec t mt l : 
  (take_match cfg t mt l = None /\ Forall (fun x => x.1 = t -> match_packet cfg t mt x.2 = false) l) \/
  (exists l1 p l2, take_match cfg t mt l = Some (p, l1 ++ l2) /\ l = l1 ++ (t, p) :: l2 /\
     match_packet cfg t mt p = true /\ Forall (fun x => x.1 = t -> match_packet cfg t mt x.2 = false) l1).
Proof.
  induction l as [|[t' p'] l IH]; simpl; [left; by split; [|constructor]|].
  destruct ((t' =? t) && match_packet cfg t mt p') eqn:Em.
  - apply andb_true_iff in Em as [->%Z.eqb_eq Em]. right. exists [], p', l. split_and!; try done; constructor.
  - assert (Hno : t' = t -> match_packet cfg t mt p' = false) by (intros ->; by rewrite Z.eqb_refl in Em).
    destruct IH as [[-> Hall]|(l1 & p & l2 & -> & -> & Hm & Hall)]; [left|right].
    + split; [done|]. by constructor.
    + exists ((t', p') :: l1), p, l2. split_and!; try done. by constructor.
Qed.

Lemma recv_step n t mt s : net_ok n s ->
  runs (net_op cfg (NRecv t mt)) s (fun _ s' => net_ok n s' /\ delivered s' ≡ₚ delivered s /\ ns_flight s' = ns_flight s).
Proof.
  intros Hok. unfold net_op, netRecv, runs. cbn beta.
  destruct (take_match_spec t mt (ns_queue s)) as [[-> _]|(l1 & p & l2 & -> & Eq & _ & _)]; [by exists tt, s|].
  pose proof Hok as [Hn Hr Hall Hd].
  assert (Hp : well_addressed (t, header p)).
  { rewrite Forall_forall in Hd. apply Hd. unfold NetRun.delivered. apply list_elem_of_fmap. exists (t, p).
    split; [done|]. unfold received. rewrite Eq, !elem_of_app. left. right. by left. }
  destruct Hp as [Hs Hrc]. rewrite (proj2 (andb_true_iff _ _)) by lia. simpl.
  assert ((tile_id (np_receiver p) =? t) || (tile_id (np_receiver p) =? BROADCAST) = true) as ->.
  { destruct Hrc as [E|E]; rewrite E, Z.eqb_refl; [done|apply orb_true_r]. }
  simpl. eexists tt, _. split; [reflexivity|].
  assert (Hperm : delivered (mkNet (ns_models s) (ns_flight s) (l1 ++ l2) (ns_calls s) (ns_taken s ++ [(t, p)])) ≡ₚ delivered s).
  { unfold NetRun.delivered, received. simpl. rewrite Eq. apply Permutation_map. solve_Permutation. }
  split; [split; [done|done|done|by rewrite Hperm]|done].
Qed.

(** ** Runs *)

Definition op_ok (op : NetOp) : Prop := match op with NSend t p => sendable cfg F t p | _ => True end.
Definition asked_by (op : NetOp) : list (Z * Header) := match op with NSend _ p => asked cfg hb p | _ => [] end.
Definition op_cost (op : NetOp) : Z := match op with NSend _ _ => send_cost cfg | _ => 0 end.
Definition run_cost (ops : list NetOp) : Z := foldr (fun op c => op_cost op + c) 0 ops.

Lemma run_cost_pos ops : 0 <= run_cost ops.
Proof.
  pose proof (nco_tiles _ _ _ _ Hcfg). assert (Hc : 0 <= send_cost cfg) by (unfold send_cost; nia).
  unfold run_cost. induction ops as [|[] ops IH]; simpl; lia.
Qed.

Lemma op_step n op s : op_ok op -> net_ok (n + op_cost op) s -> 0 <= n ->
  runs (net_op cfg op) s (fun _ s' => net_ok n s' /\
    delivered s' ++ in_flight s' ≡ₚ (delivered s ++ in_flight s) ++ asked_by op).
Proof.
  destruct op as [t p|i|t mt]; simpl; intros Hop Hok Hn; [by apply send_step| |]; rewrite Z.add_0_r in Hok.
  - eapply runs_mono; [by apply arrive_step|]. intros [] s' (Hok' & Hd & _). by rewrite app_nil_r.
  - eapply runs_mono; [by apply recv_step|]. intros [] s' (Hok' & Hd & Ef). split; [done|].
    rewrite app_nil_r, Hd. unfold NetRun.in_flight. by rewrite Ef.
Qed.

(** C10: exactly-once delivery.  Along every sequence of sends, arrivals (in
    any order the transport chooses) and receives, no routine of the network
    stops with an error, and what the tiles have received, together with what
    the packets in flight still owe, is what was asked for, each packet once
    for each tile it is for, with its type, sender, data and time of sending:
    nothing is lost, duplicated or misdelivered, for unicasts and for
    broadcasts, with and without a broadcast tree or the shortcut, and across
    the corner cases of system tiles and packets to oneself. *)
Theorem Network_delivers_exactly n ops s :
  0 <= n -> net_ok (n + run_cost ops) s -> Forall op_ok ops ->
  runs (net_run cfg ops) s (fun _ s' => net_ok n s' /\
    delivered s' ++ in_flight s' ≡ₚ (delivered s ++ in_flight s) ++ (ops ≫= asked_by)).
Proof.
  intros Hn Hok Hall. revert s Hok. induction Hall as [|op ops Hop Hall IH]; intros s Hok.
  { apply runs_ret. simpl in *. rewrite Z.add_0_r in Hok. by rewrite app_nil_r. }
  unfold net_run in *. cbn [for_each]. pose proof (run_cost_pos ops).
  eapply runs_seq; [apply (op_step (n + run_cost ops)); [done| |lia]|].
  - by replace (n + run_cost ops + op_cost op) with (n + run_cost (op :: ops)) by (simpl; lia).
  - intros [] s1 [Hok1 Hd1]. eapply runs_mono; [by apply IH|]. intros [] s2 [Hok2 Hd2]. split; [done|].
    rewrite Hd2, Hd1, bind_cons. by rewrite (assoc_L (++)).
Qed.

(** C11: the network drains.  Whatever packet in flight the transport delivers
    at each step, after as many arrivals as there is work left (at most
    [4 * total + 4] for each packet in flight) nothing is in flight, and the
    tiles have received everything the packets owed. *)
Theorem Network_drains n choices s :
  net_ok n s -> works (ns_flight s) <= Z.of_nat (length choices) ->
  runs (net_run cfg (NArrive <$> choices)) s (fun _ s' =>
    ns_flight s' = [] /\ delivered s' ≡ₚ delivered s ++ in_flight s).
Proof.
  revert s. induction choices as [|i choices IH]; intros s Hok Hw; unfold net_run in *; cbn [fmap list_fmap for_each].
  - apply runs_ret. pose proof (nk_flight _ _ Hok) as Hall. destruct (ns_flight s) as [|[t p] l] eqn:Ef.
    + split; [done|]. unfold NetRun.in_flight. by rewrite Ef, app_nil_r.
    + exfalso. apply Forall_cons in Hall as [Hx Hall]. rewrite works_cons in Hw. simpl in Hw.
      pose proof (work_bound cfg hbh hb F Hcfg _ _ Hx). pose proof (works_nonneg cfg hbh hb F Hcfg _ Hall). simpl in *. lia.
  - eapply runs_seq; [apply (arrive_step n); exact Hok|]. intros [] s1 (Hok1 & Hd1 & Hcase).
    eapply runs_mono; [apply IH; [done|]|].
    + destruct Hcase as [Hlt|[_ ->]]; [simpl in Hw; lia|simpl; lia].
    + intros [] s2 [Ef Hd2]. split; [done|]. by rewrite Hd2, Hd1.
Qed.
End net.

(** [netRecv] takes the first packet in the queue of the tile that
    matches, leaves the others in their order, and waits exactly when no
    packet matches. *)
Theorem netRecv_first cfg {Q} t mt (s : NetState Q) :
  Forall (fun x => 0 <= tile_id (np_sender x.2) < nc_total_tiles cfg /\
    (tile_id (np_receiver x.2) = x.1 \/ tile_id (np_receiver x.2) = BROADCAST)) (ns_queue s) ->
  (netRecv cfg t mt s = Ok None /\
    Forall (fun x => x.1 = t -> match_packet cfg t mt x.2 = false) (ns_queue s)) \/
  (exists l1 p l2 s', netRecv cfg t mt s = Ok (Some (p, s')) /\ ns_queue s = l1 ++ (t, p) :: l2 /\
    match_packet cfg t mt p = true /\ Forall (fun x => x.1 = t -> match_packet cfg t mt x.2 = false) l1 /\
    ns_queue s' = l1 ++ l2 /\ ns_taken s' = ns_taken s ++ [(t, p)]).
Proof.
  intros Hall. unfold netRecv.
  destruct (take_match_spec cfg t mt (ns_queue s)) as [[-> Hno]|(l1 & p & l2 & -> & Eq & Hm & Hno)]; [by left|right].
  rewrite Eq in Hall. apply Forall_app in Hall as [_ [[Hs Hr] _]%Forall_cons]. simpl in Hs, Hr.
  rewrite (proj2 (andb_true_iff _ _)) by lia. simpl.
  assert ((tile_id (np_receiver p) =? t) || (tile_id (np_receiver p) =? BROADCAST) = true) as ->.
  { destruct Hr as [E|E]; rewrite E, Z.eqb_refl; [done|apply orb_true_r]. }
  simpl. eexists l1, p, l2, _. by split_and!.
Qed.

(** ** A chip with four application tiles in a mesh of two by two and one
    system tile

    The user network has a broadcast tree, the memory network does not; the
    other networks are magic. *)

Definition net_hbh (n : EStaticNetwork) : bool :=
  match n with STATIC_NETWORK_USER | STATIC_NETWORK_MEMORY => true | _ => false end.
Definition net_hb (n : EStaticNetwork) : bool := match n with STATIC_NETWORK_USER => true | _ => false end.

Definition net_cfg (shortcut : bool) : NetConfig :=
  mkNetCfg 4 5 3 64 2 2 shortcut (fun _ c => wrap64 (c * 1000)) (fun _ t => t / 1000) (fun _ _ => false).

Lemma net_cfg_ok shortcut : net_config_ok (net_cfg shortcut) net_hbh net_hb (2 ^ 20).
Proof.
  split; simpl; try lia; try (by intros []); [intros []; naive_solver|].
  intros _ t Ht. unfold is_word, MAX_TIME in *. split; [apply Z.div_pos; lia|]. apply Z.div_le_upper_bound; lia.
Qed.

#[local] Instance net_queue_ops : QueueOps QueueModelHistoryList := history_list_ops no_wait.
#[local] Instance net_queue_laws : QueueLaws QueueModelHistoryList := history_list_laws no_wait no_wait_word.

Definition net_router (ports : Z) : RouterModel QueueModelHistoryList :=
  RouterModel_new ports 1 true (list_new false).

Lemma net_router_ok ports : 0 <= ports -> router_ok (2 ^ 62) ports (net_router ports).
Proof.
  intros Hp. split; simpl; rewrite ?length_replicate; try lia. intros _. split; [lia|].
  apply Forall_replicate. split; [done|apply list_new_ok].
Qed.

Definition net_model (t : Z) (id : EStaticNetwork) : NetworkModel QueueModelHistoryList :=
  mkNM id t true 64 (net_hb id)
    (if net_hbh id then HopByHop (net_router 1) (net_router 5) (replicate 5 (mkLink 1 0)) else Magic)
    NetCounters_new.

Definition net_start : NetState QueueModelHistoryList := mkNet net_model [] [] [] [].

Lemma net_start_ok shortcut n : 0 <= n <= 2 ^ 42 -> net_ok (net_cfg shortcut) net_hbh net_hb (2 ^ 20) n net_start.
Proof.
  intros Hn. split; [lia| |constructor..]. intros t id _. eapply (model_ok_less _ _ _ (2 ^ 62)); [|simpl; lia].
  split; simpl; [done|done|right; lia|intros _; lia|done|]. intros _. destruct id; simpl; try done.
  all: split; [done|]; split; [by apply net_router_ok|]; split; [by apply net_router_ok|done].
Qed.

Definition net_broadcast (ty : PacketType) (data : Payload) : NetPacket :=
  NetPacket_new 1000 ty (getMainCoreId 1) (getMainCoreId BROADCAST) 8 data.

(** Tile 1 broadcasts on a network with a broadcast tree and on one without,
    and sends a packet to tile 2. *)
Definition net_ops : list NetOp :=
  [NSend 1 (net_broadcast USER (Raw [])); NArrive 0; NSend 1 (net_broadcast CLOCK_SKEW_MANAGEMENT (Raw []));
   NSend 1 (NetPacket_new 2000 USER (getMainCoreId 1) (getMainCoreId 2) 8 (Raw [7])); NArrive 3; NArrive 5;
   NRecv 2 (mkMatch [] [USER] (getMainCoreId INVALID_TILE_ID))].

Lemma net_ops_ok shortcut : Forall (op_ok (net_cfg shortcut) (2 ^ 20)) net_ops.
Proof.
  repeat constructor; simpl; try lia; try (by left); try (right; lia); unfold is_word; try lia;
    eexists; (split; [reflexivity|]); vm_compute; split; done.
Qed.

Lemma Network_delivers_exactly_witness :
  runs (net_run (net_cfg true) net_ops) net_start (fun _ s' =>
    delivered s' ++ in_flight (net_cfg true) s' ≡ₚ [] ++ (net_ops ≫= asked_by (net_cfg true) net_hb)).
Proof.
  eapply runs_mono; [apply (Network_delivers_exactly (net_cfg true) net_hbh net_hb (2 ^ 20) (net_cfg_ok true) 0 net_ops
    net_start); [lia|apply net_start_ok; vm_compute; split; discriminate|apply net_ops_ok]|].
  intros [] s' [_ Hd]. exact Hd.
Defined.

(** The state in which tile 1 has sent a broadcast. *)
Definition net_sent : NetState QueueModelHistoryList :=
  match net_op (net_cfg false) (NSend 1 (net_broadcast USER (Raw []))) net_start with
  | Ok (_, s) => s
  | Err _ => net_start
  end.

Lemma net_sent_ok : net_ok (net_cfg false) net_hbh net_hb (2 ^ 20) 0 net_sent.
Proof.
  pose proof (net_ops_ok false) as Hall. apply Forall_cons in Hall as [Hop _].
  destruct (send_step (net_cfg false) net_hbh net_hb (2 ^ 20) (net_cfg_ok false) 0 1 (net_broadcast USER (Raw [])) net_start)
    as (a & s & E & Hok & _); [done|apply net_start_ok; vm_compute; split; discriminate|lia|].
  unfold net_sent. by rewrite E.
Qed.

(** The transport always delivers the newest packet, or the oldest, in turn. *)
Definition net_choices : list nat := flat_map (fun _ => [5%nat; 0%nat]) (seq 0 20).

Lemma Network_drains_witness :
  runs (net_run (net_cfg false) (NArrive <$> net_choices)) net_sent (fun _ s' =>
    ns_flight s' = [] /\ delivered s' ≡ₚ delivered net_sent ++ in_flight (net_cfg false) net_sent).
Proof.
  apply (Network_drains (net_cfg false) net_hbh net_hb (2 ^ 20) (net_cfg_ok false) 0 net_choices net_sent net_sent_ok).
  vm_compute. discriminate.
Defined.

(** Every tile gets the broadcast once. *)
Example net_sent_delivers : exists s', net_run (net_cfg false) (NArrive <$> net_choices) net_sent = Ok (tt, s') /\
  (fun x => (x.1, np_node_type x.2, np_time x.2)) <$> ns_queue s' =
  [(4, 1, 1000); (1, 1, 12000); (3, 1, 14000); (0, 1, 14000); (2, 1, 16000)].
Proof. eexists. split; [vm_compute; reflexivity|]. vm_compute. reflexivity. Qed.

Lemma netRecv_first_witness :
  let s := add_queue 2 (net_broadcast USER (Raw [])) (add_queue 3 (net_broadcast USER (Raw [])) net_start) in
  exists l1 p l2 s', netRecv (net_cfg false) 2 (mkMatch [] [] (getMainCoreId INVALID_TILE_ID)) s = Ok (Some (p, s')) /\
    ns_queue s = l1 ++ (2, p) :: l2.
Proof.
  intros s. destruct (netRecv_first (net_cfg false) 2 (mkMatch [] [] (getMainCoreId INVALID_TILE_ID)) s)
    as [[E _]|(l1 & p & l2 & s' & E & Eq & _)].
  - repeat constructor; simpl; lia || by right.
  - exfalso. vm_compute in E. discriminate.
  - exists l1, p, l2, s'. split; [exact E|exact Eq].
Defined.
