(* ===== verification/TileMap.v ===== *)
(** * Tiles and processes: common/misc/config.{h,cc} and
    NetworkModelEMeshHopByHop::computeProcessToTileMapping

    A simulation runs in several host processes; every tile belongs to one of
    them.  Application tiles are dealt to the processes in turn, or, on a
    hop-by-hop mesh, in rectangles; in full mode each process has a thread
    spawner, and process 0 the MCP.  Square roots and quotients that the code
    computes in doubles are exact integers here: the operands are below 2^31. *)

From S2P Require Import Prelude Mcp NetModel MeshThm.

(** ** The mapping of application tiles to processes *)

Section mapping.
Context (num_processes : Z).

(** [process_to_tile_mapping[i].push_back(...)] for several tiles. *)
Definition push_tiles (i : Z) (tiles : list Z) (m : list (list Z)) : result (list (list Z)) :=
  l ← vec_get m i; vec_set m i (l ++ tiles).

Fixpoint deal (tiles : list Z) (current_proc : Z) (m : list (list Z)) : result (list (list Z)) :=
  match tiles with
  | [] => Ok m
  | t :: tiles' =>
    m' ← push_tiles current_proc [t] m;
    deal tiles' ((current_proc + 1) mod num_processes) m'
  end.

(** The default of [Config::computeProcessToTileMapping]. *)
Definition default_mapping (application_tiles : Z) : result (list (list Z)) :=
  deal (seqZ 0 application_tiles) 0 (replicate (Z.to_nat num_processes) []).

(** *** The mesh *)

(** The tiles of a rectangle, column by column. *)
Definition rect (mesh_width base_x size_x base_y size_y : Z) : list Z :=
  seqZ base_x size_x ≫= fun x => (fun y => x + y * mesh_width) <$> seqZ base_y size_y.

(** The [i]th of [n] pieces of a side: its base and its size; the last one
    takes the rest. *)
Definition piece_base (side n i : Z) : Z := i * (side / n).
Definition piece_size (side n i : Z) : Z := if i =? n - 1 then side - (n - 1) * (side / n) else side / n.

Fixpoint push_all (rects : list (Z * list Z)) (m : list (list Z)) : result (list (list Z)) :=
  match rects with
  | [] => Ok m
  | (i, tiles) :: rects' => m' ← push_tiles i tiles m; push_all rects' m'
  end.

Section mesh.
Context (mesh_width mesh_height : Z).

Definition proc_mesh_width : Z := Z.sqrt num_processes.
Definition proc_mesh_height : Z := num_processes / proc_mesh_width.
Definition mesh_height_l : Z := (mesh_height * proc_mesh_width * proc_mesh_height) / num_processes.
Definition procs_left : Z := num_processes - proc_mesh_width * proc_mesh_height.

(** The processes that form a mesh themselves, and those that are left: the
    rows above [mesh_height_l] are for them. *)
Definition grid_rects : list (Z * list Z) :=
  seqZ 0 proc_mesh_width ≫= fun i => (fun j =>
    (i + j * proc_mesh_width,
     rect mesh_width (piece_base mesh_width proc_mesh_width i) (piece_size mesh_width proc_mesh_width i)
       (piece_base mesh_height_l proc_mesh_height j) (piece_size mesh_height_l proc_mesh_height j)))
    <$> seqZ 0 proc_mesh_height.
Definition left_rects : list (Z * list Z) :=
  (fun i => (proc_mesh_width * proc_mesh_height + i,
     rect mesh_width (piece_base mesh_width procs_left i) (piece_size mesh_width procs_left i)
       mesh_height_l (mesh_height - mesh_height_l)))
    <$> seqZ 0 procs_left.

Definition mesh_mapping : result (list (list Z)) :=
  push_all (grid_rects ++ left_rects) (replicate (Z.to_nat num_processes) []).
End mesh.
End mapping.

(** ** GenerateTileMap *)

Record TileMap : Type := mkTM {
  tile_to_proc_map : list Z;
  proc_to_tile_list_map : list (list Z);
  proc_to_application_tile_list_map : list (list Z) }.

(** The tiles of one process; [application]: they also go to the list of
    application tiles. *)
Fixpoint assign_tiles (application_tiles i : Z) (application : bool) (tiles : list Z) (tm : TileMap) : result TileMap :=
  match tiles with
  | [] => Ok tm
  | t :: tiles' =>
    _ ← (if application then assert_c (t <? application_tiles) else Ok tt);
    owners ← vec_set (tile_to_proc_map tm) t i;
    lists ← push_tiles i [t] (proc_to_tile_list_map tm);
    apps ← (if application then push_tiles i [t] (proc_to_application_tile_list_map tm)
            else Ok (proc_to_application_tile_list_map tm));
    assign_tiles application_tiles i application tiles' (mkTM owners lists apps)
  end.

Fixpoint assign_all (application_tiles i : Z) (lists : list (list Z)) (tm : TileMap) : result TileMap :=
  match lists with
  | [] => Ok tm
  | l :: lists' =>
    tm' ← assign_tiles application_tiles i true l tm;
    assign_all application_tiles (i + 1) lists' tm'
  end.

(** The thread spawners, one for each process in turn. *)
Fixpoint assign_spawners (application_tiles num_processes : Z) (tiles : list Z) (current_proc : Z) (tm : TileMap) :
    result TileMap :=
  match tiles with
  | [] => Ok tm
  | t :: tiles' =>
    _ ← assert_c ((0 <=? current_proc) && (current_proc <? num_processes));
    tm' ← assign_tiles application_tiles current_proc false [t] tm;
    assign_spawners application_tiles num_processes tiles' (current_proc + 1) tm'
  end.

Definition GenerateTileMap (cfg : SimConfig) (mapping : list (list Z)) : result TileMap :=
  let app := cfg_application_tiles cfg in
  let total := getTotalTiles cfg in
  let n := cfg_processes cfg in
  let tm := mkTM (replicate (Z.to_nat total) 0) (replicate (Z.to_nat n) []) (replicate (Z.to_nat n) []) in
  _ ← assert_c (Z.of_nat (length mapping) =? n);
  tm ← assign_all app 0 mapping tm;
  tm ← match cfg_mode cfg with
       | FULL => assign_spawners app n (seqZ app (total - 1 - app)) 0 tm
       | LITE => Ok tm
       end;
  assign_tiles app 0 false [total - 1] tm.

(** ** Lookups *)

Definition getTileListForProcess (tm : TileMap) (proc_num : Z) : result (list Z) :=
  _ ← assert_c (proc_num <? Z.of_nat (length (proc_to_tile_list_map tm)));
  vec_get (proc_to_tile_list_map tm) proc_num.

Definition getNumTilesInProcess (tm : TileMap) (proc_num : Z) : result Z :=
  l ← getTileListForProcess tm proc_num; Ok (Z.of_nat (length l)).

Fixpoint index_from (tile : Z) (l : list Z) (i : Z) : Z :=
  match l with
  | [] => -1
  | t :: l' => if t =? tile then i else index_from tile l' (i + 1)
  end.

Definition getIndexFromTileID (tm : TileMap) (proc_num tile : Z) : result Z :=
  l ← getTileListForProcess tm proc_num; Ok (index_from tile l 0).

(** A negative index is not rejected. *)
Definition getTileIDFromIndex (tm : TileMap) (proc_num index : Z) : result Z :=
  l ← getTileListForProcess tm proc_num;
  if index <? Z.of_nat (length l) then vec_get l index else Ok (-1).
