(* ===== verification/TileMapThm.v ===== *)
(** * Every tile belongs to one process

    Both mappings of application tiles are partitions, the rectangles of the
    mesh cover it for any number of processes, and [GenerateTileMap] extends
    them to the thread spawners and the MCP; indices and tiles of a process
    are inverse to each other. *)

From S2P Require Import Prelude Threads Mcp NetModel MeshThm TileMap.

(** ** Pushing tiles *)

Lemma push_tiles_ok i tiles (m : list (list Z)) : 0 <= i < Z.of_nat (length m) ->
  exists l, m !! Z.to_nat i = Some l /\ push_tiles i tiles m = Ok (<[Z.to_nat i := l ++ tiles]> m) /\
    concat (<[Z.to_nat i := l ++ tiles]> m) ≡ₚ concat m ++ tiles.
Proof.
  intros Hi. destruct (lookup_lt_is_Some_2 m (Z.to_nat i)) as [l Hl]; [lia|]. exists l. split; [done|]. split.
  - unfold push_tiles. rewrite (proj2 (vec_get_ok m i l)) by (split; [lia|done]). simpl. by rewrite vec_set_eq by lia.
  - rewrite insert_take_drop by lia. rewrite <- (take_drop_middle m _ _ Hl) at 3.
    rewrite !concat_app. simpl. solve_Permutation.
Qed.

Lemma deal_ok n tiles c (m : list (list Z)) : 0 < n -> 0 <= c < n -> Z.of_nat (length m) = n ->
  exists m', deal n tiles c m = Ok m' /\ Z.of_nat (length m') = n /\ concat m' ≡ₚ concat m ++ tiles.
Proof.
  intros Hn. revert c m. induction tiles as [|t tiles IH]; intros c m Hc Hm; simpl.
  { exists m. by rewrite app_nil_r. }
  destruct (push_tiles_ok c [t] m ltac:(lia)) as (l & _ & -> & Hp). simpl.
  destruct (IH ((c + 1) mod n) (<[Z.to_nat c := l ++ [t]]> m)) as (m' & -> & Hm' & Hc');
    [by apply Z.mod_pos_bound|by rewrite length_insert|].
  exists m'. split; [done|]. split; [done|]. rewrite Hc', Hp. by rewrite <- (assoc_L (++)).
Qed.

Lemma push_all_ok rects (m : list (list Z)) : Forall (fun r => 0 <= r.1 < Z.of_nat (length m)) rects ->
  exists m', push_all rects m = Ok m' /\ length m' = length m /\ concat m' ≡ₚ concat m ++ (rects ≫= snd).
Proof.
  revert m. induction rects as [|[i tiles] rects IH]; intros m Hall; simpl.
  { exists m. by rewrite app_nil_r. }
  apply Forall_cons in Hall as [Hi Hall]. destruct (push_tiles_ok i tiles m Hi) as (l & _ & -> & Hp). simpl.
  destruct (IH (<[Z.to_nat i := l ++ tiles]> m)) as (m' & -> & Hm' & Hc); [by rewrite length_insert|].
  exists m'. split; [done|]. split; [by rewrite Hm', length_insert|]. rewrite Hc, Hp. by rewrite <- (assoc_L (++)).
Qed.

Lemma concat_replicate_nil (n : nat) : concat (replicate n (@nil Z)) = [].
Proof. by induction n. Qed.

Lemma default_mapping_ok n app : 0 < n ->
  exists m, default_mapping n app = Ok m /\ Z.of_nat (length m) = n /\ concat m ≡ₚ seqZ 0 app.
Proof.
  intros Hn. destruct (deal_ok n (seqZ 0 app) 0 (replicate (Z.to_nat n) [])) as (m & E & Hm & Hc);
    [done|lia|rewrite length_replicate; lia|].
  exists m. split; [done|]. split; [done|]. by rewrite Hc, concat_replicate_nil.
Qed.

(** ** Rectangles *)

Section grid.
Context (W : Z).

Definition grid (xs ys : list Z) : list Z := xs ≫= fun x => (fun y => x + y * W) <$> ys.

Lemma grid_nil xs : grid xs [] = [].
Proof. unfold grid. by induction xs. Qed.

Lemma grid_app_y xs ys ys' : grid xs (ys ++ ys') ≡ₚ grid xs ys ++ grid xs ys'.
Proof.
  unfold grid. induction xs as [|x xs IH]; [done|]. rewrite !bind_cons, fmap_app, IH. solve_Permutation.
Qed.

Lemma grid_bind_x {A} (l : list A) (f : A -> list Z) ys : (l ≫= fun i => grid (f i) ys) = grid (l ≫= f) ys.
Proof. unfold grid. induction l as [|i l IH]; [done|]. by rewrite !bind_cons, IH, bind_app. Qed.

Lemma grid_bind_y {A} (l : list A) (g : A -> list Z) xs : (l ≫= fun j => grid xs (g j)) ≡ₚ grid xs (l ≫= g).
Proof.
  induction l as [|j l IH]; [|by rewrite !bind_cons, IH, grid_app_y].
  unfold grid. induction xs as [|x xs IHx]; [done|]. by rewrite bind_cons, <- IHx.
Qed.

(** The pieces of a side follow each other. *)
Lemma pieces_before n side (k : nat) : 0 < n -> 0 <= side -> Z.of_nat k < n ->
  (seqZ 0 (Z.of_nat k) ≫= fun i => seqZ (piece_base side n i) (piece_size side n i)) =
  seqZ 0 (Z.of_nat k * (side / n)).
Proof.
  intros Hn Hs. pose proof (Z.div_pos side n Hs Hn). induction k as [|k IH]; intros Hk; [done|].
  rewrite Nat2Z.inj_succ, <- Z.add_1_r, seqZ_snoc by lia. rewrite bind_app, bind_singleton, IH by lia.
  unfold piece_base, piece_size. rewrite (proj2 (Z.eqb_neq _ _)) by lia.
  replace ((Z.of_nat k + 1) * (side / n)) with (Z.of_nat k * (side / n) + side / n) by lia.
  rewrite (seqZ_app _ _ (side / n)) by nia. by rewrite !Z.add_0_l.
Qed.

Lemma pieces_cover n side : 0 < n -> 0 <= side ->
  (seqZ 0 n ≫= fun i => seqZ (piece_base side n i) (piece_size side n i)) = seqZ 0 side.
Proof.
  intros Hn Hs. replace n with (Z.of_nat (Z.to_nat (n - 1)) + 1) at 1 by lia.
  rewrite seqZ_snoc by lia. rewrite bind_app, bind_singleton, pieces_before by lia. rewrite Z2Nat.id by lia.
  unfold piece_base, piece_size. rewrite (proj2 (Z.eqb_eq _ _)) by lia.
  pose proof (Z.div_pos side n Hs Hn). pose proof (Z.mul_div_le side n Hn).
  rewrite <- (Z.add_0_l ((n - 1) * (side / n))) at 2. rewrite <- seqZ_app by nia. f_equal. lia.
Qed.

Lemma grid_all H : 0 < W -> 0 < H -> grid (seqZ 0 W) (seqZ 0 H) ≡ₚ seqZ 0 (W * H).
Proof.
  intros HW HH. pose (cfg := mkNetCfg 0 0 0 0 W H false (fun _ _ => 0) (fun _ _ => 0) (fun _ _ => false)).
  change (W * H) with (nc_mesh_width cfg * nc_mesh_height cfg). rewrite <- (columns_all cfg) by done.
  unfold grid, columns, column. change (nc_mesh_height cfg) with H. change (nc_mesh_width cfg) with W.
  apply reflexive_eq. apply list_bind_ext; [|done]. intros x. apply list_fmap_ext. intros _ y _.
  unfold tid. simpl. lia.
Qed.
End grid.

(** ** The mesh *)

Lemma rects_concat {A} (l : list A) (f : A -> Z * list Z) : (f <$> l) ≫= snd = l ≫= fun x => (f x).2.
Proof. induction l as [|x l IH]; [done|]. by rewrite fmap_cons, !bind_cons, IH. Qed.

Lemma bind_bind {A B C} (l : list A) (f : A -> list B) (g : B -> list C) :
  (l ≫= f) ≫= g = l ≫= fun x => f x ≫= g.
Proof. induction l as [|x l IH]; [done|]. by rewrite !bind_cons, bind_app, IH. Qed.

Lemma bind_pointwise {A B} (l : list A) (f g : A -> list B) : (forall x, f x ≡ₚ g x) -> l ≫= f ≡ₚ l ≫= g.
Proof. intros Hfg. induction l as [|x l IH]; [done|]. by rewrite !bind_cons, IH, Hfg. Qed.

Lemma proc_mesh_pos n : 0 < n -> 0 < proc_mesh_width n /\ 0 < proc_mesh_height n /\
  proc_mesh_width n * proc_mesh_height n <= n.
Proof.
  intros Hn. unfold proc_mesh_height, proc_mesh_width. pose proof (Z.sqrt_spec n ltac:(lia)) as Hs. simpl in Hs.
  assert (Hp : 0 < Z.sqrt n) by (apply Z.sqrt_pos; lia). split; [done|]. split; [|by apply Z.mul_div_le].
  apply Z.div_str_pos. nia.
Qed.

(** Every tile of the mesh is in one rectangle. *)
Lemma rects_cover n W H : 0 < n -> 0 < W -> 0 < H ->
  (grid_rects n W H ++ left_rects n W H) ≫= snd ≡ₚ seqZ 0 (W * H).
Proof.
  intros Hn HW HH. destruct (proc_mesh_pos n Hn) as (Hpw & Hph & Hle). unfold grid_rects, left_rects.
  set (pw := proc_mesh_width n) in *. set (ph := proc_mesh_height n) in *.
  assert (Hl : 0 <= mesh_height_l n H <= H).
  { unfold mesh_height_l. fold pw ph. split; [apply Z.div_pos; nia|]. apply Z.div_le_upper_bound; nia. }
  set (hl := mesh_height_l n H) in *. rewrite bind_app.
  assert (Hgrid : (seqZ 0 pw ≫= fun i => (fun j => (i + j * pw, rect W (piece_base W pw i) (piece_size W pw i)
      (piece_base hl ph j) (piece_size hl ph j))) <$> seqZ 0 ph) ≫= snd ≡ₚ grid W (seqZ 0 W) (seqZ 0 hl)).
  { rewrite bind_bind. rewrite <- (pieces_cover pw W) by lia. rewrite <- grid_bind_x.
    apply bind_pointwise. intros i. rewrite rects_concat. simpl.
    rewrite <- (pieces_cover ph hl) by lia. rewrite <- grid_bind_y. done. }
  rewrite Hgrid, rects_concat. simpl.
  assert (Hrest : (seqZ 0 (procs_left n) ≫= fun i => rect W (piece_base W (procs_left n) i) (piece_size W (procs_left n) i)
      hl (H - hl)) = grid W (seqZ 0 W) (seqZ hl (H - hl))).
  { destruct (decide (0 < procs_left n)) as [Hp|Hp].
    - rewrite <- (pieces_cover (procs_left n) W) by lia. by rewrite <- grid_bind_x.
    - assert (hl = H) as ->.
      { unfold hl, mesh_height_l. fold pw ph. unfold procs_left in Hp. fold pw ph in Hp.
        assert (pw * ph = n) as E by lia. rewrite <- Z.mul_assoc, E. by apply Z.div_mul; lia. }
      rewrite (seqZ_nil 0 (procs_left n)), (seqZ_nil H) by lia. by rewrite grid_nil. }
  rewrite Hrest, <- grid_app_y. rewrite <- (grid_all W H) by done.
  apply reflexive_eq. f_equal. rewrite <- (Z.add_0_l hl) at 2. rewrite <- seqZ_app by lia. f_equal. lia.
Qed.

Lemma mesh_mapping_ok n W H : 0 < n -> 0 < W -> 0 < H ->
  exists m, mesh_mapping n W H = Ok m /\ Z.of_nat (length m) = n /\ concat m ≡ₚ seqZ 0 (W * H).
Proof.
  intros Hn HW HH. destruct (proc_mesh_pos n Hn) as (Hpw & Hph & Hle).
  destruct (push_all_ok (grid_rects n W H ++ left_rects n W H) (replicate (Z.to_nat n) [])) as (m & E & Hm & Hc).
  - rewrite length_replicate, Z2Nat.id by lia. apply Forall_app. split; apply Forall_forall; intros r Hr.
    + apply list_elem_of_bind in Hr as (i & Hr & Hi%elem_of_seqZ).
      apply list_elem_of_fmap in Hr as (j & -> & Hj%elem_of_seqZ). simpl. nia.
    + apply list_elem_of_fmap in Hr as (i & -> & Hi%elem_of_seqZ). simpl. unfold procs_left in Hi. nia.
  - exists m. split; [done|]. split; [rewrite Hm, length_replicate; lia|].
    by rewrite Hc, concat_replicate_nil, rects_cover.
Qed.

(** ** GenerateTileMap *)

Section generate.
Context (app n total : Z) (Hn : 0 < n).

(** The tiles [D] have been assigned. *)
Record map_ok (D : list Z) (tm : TileMap) : Prop := {
  mk_owners : Z.of_nat (length (tile_to_proc_map tm)) = total;
  mk_lists : Z.of_nat (length (proc_to_tile_list_map tm)) = n;
  mk_apps : Z.of_nat (length (proc_to_application_tile_list_map tm)) = n;
  mk_tiles : concat (proc_to_tile_list_map tm) ≡ₚ D;
  mk_owner : forall i l t, proc_to_tile_list_map tm !! i = Some l -> t ∈ l ->
    tile_to_proc_map tm !! Z.to_nat t = Some (Z.of_nat i) }.

Lemma assign_one D i application t tm : map_ok D tm -> 0 <= i < n -> 0 <= t < total -> t ∉ D ->
  Forall (fun t => 0 <= t) D -> (application = true -> t < app) ->
  exists tm', assign_tiles app i application [t] tm = Ok tm' /\ map_ok (D ++ [t]) tm' /\
    tile_to_proc_map tm' = <[Z.to_nat t := i]> (tile_to_proc_map tm).
Proof.
  intros [Ho Hl Ha Ht Hw] Hi Htr HtD HD Happ. cbn [assign_tiles].
  assert (Hassert : (if application then assert_c (t <? app) else Ok tt) = Ok tt).
  { destruct application; [|done]. by rewrite (proj2 (Z.ltb_lt _ _) (Happ eq_refl)). }
  rewrite Hassert. simpl. rewrite vec_set_eq by lia. simpl.
  destruct (push_tiles_ok i [t] (proc_to_tile_list_map tm) ltac:(lia)) as (l & Hli & -> & Hp). simpl.
  assert (Happs : exists apps, (if application then push_tiles i [t] (proc_to_application_tile_list_map tm)
      else Ok (proc_to_application_tile_list_map tm)) = Ok apps /\ Z.of_nat (length apps) = n).
  { destruct application; [|by eexists].
    destruct (push_tiles_ok i [t] (proc_to_application_tile_list_map tm) ltac:(lia)) as (la & _ & -> & _).
    eexists. split; [reflexivity|]. by rewrite length_insert. }
  destruct Happs as (apps & -> & Hlen). simpl. eexists. split; [reflexivity|]. split; [|done].
  split; simpl; rewrite ?length_insert; try done; [by rewrite Hp, Ht|].
  assert (Hin : forall j l' x, proc_to_tile_list_map tm !! j = Some l' -> x ∈ l' -> x ∈ D).
  { intros j l' x Hj Hx. rewrite <- Ht. apply list_elem_of_In, in_concat. exists l'.
    split; [apply list_elem_of_In; by eapply list_elem_of_lookup_2|by apply list_elem_of_In]. }
  intros j l' x Hj Hx. destruct (decide (x = t)) as [->|Hne].
  - rewrite list_lookup_insert_eq by lia. destruct (decide (j = Z.to_nat i)) as [->|Hji]; [f_equal; lia|].
    rewrite list_lookup_insert_ne in Hj by done. by destruct HtD; eapply Hin.
  - assert (Hold : exists l0, proc_to_tile_list_map tm !! j = Some l0 /\ x ∈ l0).
    { destruct (decide (j = Z.to_nat i)) as [->|Hji].
      - rewrite list_lookup_insert_eq in Hj by lia. injection Hj as <-. exists l. split; [done|].
        apply elem_of_app in Hx as [|Hx]; [done|]. by apply list_elem_of_singleton in Hx.
      - rewrite list_lookup_insert_ne in Hj by done. by exists l'. }
    destruct Hold as (l0 & Hj0 & Hx0). rewrite Forall_forall in HD.
    rewrite list_lookup_insert_ne; [by eapply Hw|]. pose proof (HD x (Hin _ _ _ Hj0 Hx0)). lia.
Qed.

Lemma assign_tiles_cons i application t ts tm :
  assign_tiles app i application (t :: ts) tm =
    (tm' ← assign_tiles app i application [t] tm; assign_tiles app i application ts tm').
Proof.
  cbn [assign_tiles].
  destruct (if application then assert_c (t <? app) else Ok tt); [|done]. simpl.
  destruct (vec_set (tile_to_proc_map tm) t i); [|done]. simpl.
  destruct (push_tiles i [t] (proc_to_tile_list_map tm)); [|done]. simpl.
  by destruct (if application then _ else _).
Qed.

(** Assigning [ts] keeps the owners of the other tiles. *)
Definition assigned (D ts : list Z) (tm tm' : TileMap) : Prop :=
  map_ok (D ++ ts) tm' /\
  forall t, 0 <= t -> t ∉ ts -> tile_to_proc_map tm' !! Z.to_nat t = tile_to_proc_map tm !! Z.to_nat t.

Definition fresh (D ts : list Z) : Prop := NoDup (D ++ ts) /\ Forall (fun t => 0 <= t < total) (D ++ ts).

Lemma fresh_cons D t ts : fresh D (t :: ts) <-> (t ∉ D) /\ fresh (D ++ [t]) ts.
Proof.
  unfold fresh. rewrite <- (assoc_L (++)). simpl. split; [|by intros [_ ?]]. intros [Hnd Hr]. split; [|done].
  apply NoDup_app in Hnd as (_ & Hd & _). intros Ht. apply (Hd t Ht). by left.
Qed.

Lemma fresh_range D ts : fresh D ts -> Forall (fun t => 0 <= t) D.
Proof. intros [_ Hr]. apply Forall_app in Hr as [Hr _]. eapply Forall_impl; [exact Hr|]. simpl. lia. Qed.

Lemma assigned_trans D ts ts' tm tm1 tm2 :
  assigned D ts tm tm1 -> assigned (D ++ ts) ts' tm1 tm2 -> assigned D (ts ++ ts') tm tm2.
Proof.
  intros [_ Ho1] [Hm2 Ho2]. split; [by rewrite (assoc_L (++))|]. intros t Ht Hn'.
  rewrite not_elem_of_app in Hn'. rewrite Ho2, Ho1; naive_solver.
Qed.

Lemma assign_tiles_ok D i application ts tm : map_ok D tm -> 0 <= i < n -> fresh D ts ->
  (application = true -> Forall (fun t => t < app) ts) ->
  exists tm', assign_tiles app i application ts tm = Ok tm' /\ assigned D ts tm tm'.
Proof.
  revert D tm. induction ts as [|t ts IH]; intros D tm Hm Hi Hf Happ.
  { exists tm. split; [done|]. split; [by rewrite app_nil_r|done]. }
  pose proof (fresh_range _ _ Hf) as HD. pose proof (proj2 Hf) as Hr. apply Forall_app in Hr as [_ [Ht _]%Forall_cons].
  apply fresh_cons in Hf as [HtD Hf]. rewrite assign_tiles_cons.
  destruct (assign_one D i application t tm Hm Hi Ht HtD HD) as (tm1 & -> & Hm1 & Eo).
  { intros Ea. specialize (Happ Ea). by apply Forall_cons in Happ as [? _]. }
  simpl. destruct (IH (D ++ [t]) tm1 Hm1 Hi Hf) as (tm2 & -> & Has).
  { intros Ea. specialize (Happ Ea). by apply Forall_cons in Happ as [_ ?]. }
  exists tm2. split; [done|]. apply (assigned_trans D [t] ts tm tm1 tm2); [|done]. split; [done|].
  intros t' Ht' Hnt. rewrite Eo, list_lookup_insert_ne; [done|]. intros E. apply Hnt. apply list_elem_of_singleton. lia.
Qed.

Lemma assign_all_ok D i lists tm : map_ok D tm -> 0 <= i -> i + Z.of_nat (length lists) <= n ->
  fresh D (concat lists) -> Forall (fun t => t < app) (concat lists) ->
  exists tm', assign_all app i lists tm = Ok tm' /\ assigned D (concat lists) tm tm'.
Proof.
  revert D i tm. induction lists as [|l lists IH]; intros D i tm Hm Hi Hlen Hf Happ; simpl in *.
  { exists tm. split; [done|]. split; [by rewrite app_nil_r|done]. }
  apply Forall_app in Happ as [Hl Happ].
  assert (Hf1 : fresh D l).
  { destruct Hf as [Hnd Hr]. rewrite (assoc_L (++)) in Hnd, Hr. apply NoDup_app in Hnd as [? _].
    by apply Forall_app in Hr as [? _]. }
  destruct (assign_tiles_ok D i true l tm Hm ltac:(lia) Hf1 ltac:(done)) as (tm1 & -> & Has1). simpl.
  destruct (IH (D ++ l) (i + 1) tm1) as (tm2 & -> & Has2); [apply Has1|lia|lia| |done|].
  { unfold fresh. by rewrite <- (assoc_L (++)). }
  exists tm2. split; [done|]. by apply (assigned_trans D l _ tm tm1 tm2).
Qed.

Lemma assign_spawners_ok D ts c tm : map_ok D tm -> 0 <= c -> c + Z.of_nat (length ts) <= n -> fresh D ts ->
  exists tm', assign_spawners app n ts c tm = Ok tm' /\ assigned D ts tm tm' /\
    forall k t, ts !! k = Some t -> tile_to_proc_map tm' !! Z.to_nat t = Some (c + Z.of_nat k).
Proof.
  revert D c tm. induction ts as [|t ts IH]; intros D c tm Hm Hc Hlen Hf; simpl in *.
  { exists tm. split; [done|]. split; [split; [by rewrite app_nil_r|done]|done]. }
  rewrite (proj2 (andb_true_iff _ _)) by lia. simpl.
  pose proof (proj2 Hf) as Hr. apply Forall_app in Hr as [_ [Ht Hr]%Forall_cons].
  pose proof (fresh_range _ _ Hf) as HD. apply fresh_cons in Hf as [HtD Hf].
  destruct (assign_one D c false t tm Hm ltac:(lia) Ht HtD HD ltac:(done)) as (tm1 & E1 & Hm1 & Eo).
  cbn [assign_tiles] in E1. simpl in E1. rewrite E1. simpl.
  destruct (IH (D ++ [t]) (c + 1) tm1 Hm1 ltac:(lia) ltac:(lia) Hf) as (tm2 & E2 & Has2 & Hk2).
  exists tm2. split; [done|]. split.
  - apply (assigned_trans D [t] ts tm tm1 tm2); [|done]. split; [done|]. intros t' Ht' Hnt.
    rewrite Eo, list_lookup_insert_ne; [done|]. intros E. apply Hnt. apply list_elem_of_singleton. lia.
  - intros [|k] t' Hk; simpl in Hk.
    + injection Hk as <-. destruct Has2 as [_ Ho2]. rewrite Ho2; [|lia|].
      * rewrite Eo, list_lookup_insert_eq; [f_equal; lia|]. destruct Hm. lia.
      * destruct Hf as [Hnd _]. apply NoDup_app in Hnd as (_ & Hd & _). apply Hd. apply elem_of_app. right. by left.
    + rewrite (Hk2 k t' Hk). f_equal. lia.
Qed.
End generate.

(** What [GenerateTileMap] promises of its map: tiles and processes form a
    partition. *)
Record tile_map_ok (cfg : SimConfig) (tm : TileMap) : Prop := {
  tm_processes : Z.of_nat (length (proc_to_tile_list_map tm)) = cfg_processes cfg;
  tm_tiles : concat (proc_to_tile_list_map tm) ≡ₚ seqZ 0 (getTotalTiles cfg);
  tm_owner : forall p l t, proc_to_tile_list_map tm !! p = Some l ->
    (t ∈ l <-> 0 <= t < getTotalTiles cfg /\ tile_to_proc_map tm !! Z.to_nat t = Some (Z.of_nat p));
  tm_spawner : cfg_mode cfg = FULL -> forall p, 0 <= p < cfg_processes cfg ->
    tile_to_proc_map tm !! Z.to_nat (getThreadSpawnerTileNum cfg p) = Some p;
  tm_mcp : tile_to_proc_map tm !! Z.to_nat (getMCPTileNum cfg) = Some 0 }.

Lemma elem_concat (lists : list (list Z)) t : t ∈ concat lists <-> exists p l, lists !! p = Some l /\ t ∈ l.
Proof.
  rewrite list_elem_of_In, in_concat. split.
  - intros (l & Hl & Ht). apply list_elem_of_In in Hl, Ht. apply list_elem_of_lookup_1 in Hl as [p Hp]. by exists p, l.
  - intros (p & l & Hp & Ht). exists l. split; apply list_elem_of_In; [by eapply list_elem_of_lookup_2|done].
Qed.

Lemma map_ok_partition n total D tm p l t : map_ok n total D tm -> D ≡ₚ seqZ 0 total ->
  proc_to_tile_list_map tm !! p = Some l ->
  (t ∈ l <-> 0 <= t < total /\ tile_to_proc_map tm !! Z.to_nat t = Some (Z.of_nat p)).
Proof.
  intros [Ho Hl Ha Ht Hw] HD Hp. split.
  - intros Hin. split; [|by eapply Hw]. assert (Hc : t ∈ concat (proc_to_tile_list_map tm)) by (apply elem_concat; eauto).
    rewrite Ht, HD in Hc. apply elem_of_seqZ in Hc. lia.
  - intros [Hr Hown]. assert (Hc : t ∈ concat (proc_to_tile_list_map tm)) by (rewrite Ht, HD; apply elem_of_seqZ; lia).
    apply elem_concat in Hc as (p' & l' & Hp' & Hin). rewrite (Hw _ _ _ Hp' Hin) in Hown.
    injection Hown as E. apply Nat2Z.inj in E as ->. by rewrite Hp in Hp'; injection Hp' as ->.
Qed.

Lemma map_ok_new n total : 0 <= total -> 0 <= n ->
  map_ok n total [] (mkTM (replicate (Z.to_nat total) 0) (replicate (Z.to_nat n) []) (replicate (Z.to_nat n) [])).
Proof.
  intros Ht Hn. split; simpl; rewrite ?length_replicate; try lia; [by rewrite concat_replicate_nil|].
  intros i l t [-> _]%lookup_replicate. by intros ?%not_elem_of_nil.
Qed.

(** The tiles that [GenerateTileMap] adds for thread spawners. *)
Definition spawner_tiles (cfg : SimConfig) : list Z :=
  match cfg_mode cfg with
  | FULL => seqZ (cfg_application_tiles cfg) (cfg_processes cfg)
  | LITE => []
  end.

Lemma all_assigned cfg : 0 < cfg_application_tiles cfg -> 0 < cfg_processes cfg ->
  seqZ 0 (cfg_application_tiles cfg) ++ spawner_tiles cfg ++ [getTotalTiles cfg - 1] = seqZ 0 (getTotalTiles cfg).
Proof.
  intros Ha Hn. unfold spawner_tiles, getTotalTiles. destruct (cfg_mode cfg).
  - set (a := cfg_application_tiles cfg) in *. set (n := cfg_processes cfg) in *.
    replace (a + 1 + n) with ((a + n) + 1) by lia. rewrite (seqZ_snoc 0 (a + n)), (seqZ_app 0 a n) by lia.
    rewrite <- (assoc_L (++)), Z.add_0_l. do 3 f_equal. lia.
  - rewrite Z.add_0_r, seqZ_snoc by lia. simpl. do 2 f_equal. lia.
Qed.

Lemma fresh_app total D l l' : fresh total D (l ++ l') -> fresh total D l /\ fresh total (D ++ l) l'.
Proof.
  intros [Hnd Hr]. unfold fresh. rewrite <- (assoc_L (++)). split; [|done].
  rewrite (assoc_L (++)) in Hnd, Hr. apply NoDup_app in Hnd as [? _]. by apply Forall_app in Hr as [? _].
Qed.

(** The thread spawners get the tiles after the application tiles. *)
Lemma spawners_ok cfg D tm : let app := cfg_application_tiles cfg in let n := cfg_processes cfg in
  let total := getTotalTiles cfg in
  0 < n -> map_ok n total D tm -> fresh total D (spawner_tiles cfg) ->
  exists tm', match cfg_mode cfg with
    | FULL => assign_spawners app n (seqZ app (total - 1 - app)) 0 tm | LITE => Ok tm end = Ok tm' /\
    map_ok n total (D ++ spawner_tiles cfg) tm' /\
    (cfg_mode cfg = FULL -> forall p, 0 <= p < n -> tile_to_proc_map tm' !! Z.to_nat (app + p) = Some p).
Proof.
  intros app n total Hn Hm Hf. unfold spawner_tiles in *. destruct (cfg_mode cfg) eqn:Em; [|by exists tm; rewrite app_nil_r].
  fold app n in Hf |- *. replace (total - 1 - app) with n by (unfold total, getTotalTiles; rewrite Em; lia).
  destruct (assign_spawners_ok app n total Hn D (seqZ app n) 0 tm Hm ltac:(lia)) as (tm2 & -> & [Hm2 _] & Hk);
    [rewrite length_seqZ; lia|done|].
  exists tm2. split; [done|]. split; [done|]. intros _ p Hp.
  rewrite (Hk (Z.to_nat p) (app + p)); [f_equal; lia|]. apply lookup_seqZ. lia.
Qed.

Lemma full_tiles cfg p : cfg_mode cfg = FULL ->
  getThreadSpawnerTileNum cfg p = cfg_application_tiles cfg + p /\
  getTotalTiles cfg = cfg_application_tiles cfg + 1 + cfg_processes cfg.
Proof. unfold getThreadSpawnerTileNum, getTotalTiles. intros ->. lia. Qed.

Lemma GenerateTileMap_ok cfg mapping : 0 < cfg_application_tiles cfg -> 0 < cfg_processes cfg ->
  Z.of_nat (length mapping) = cfg_processes cfg -> concat mapping ≡ₚ seqZ 0 (cfg_application_tiles cfg) ->
  exists tm, GenerateTileMap cfg mapping = Ok tm /\ tile_map_ok cfg tm.
Proof.
  intros Ha Hn Hlen Hm. pose proof (all_assigned cfg Ha Hn) as Hall.
  assert (Htot : 0 < getTotalTiles cfg) by (unfold getTotalTiles; case_match; lia).
  assert (Hfresh : fresh (getTotalTiles cfg) [] (concat mapping ++ spawner_tiles cfg ++ [getTotalTiles cfg - 1])).
  { unfold fresh. simpl. rewrite Hm, Hall. split; [apply NoDup_seqZ|apply Forall_seqZ; lia]. }
  destruct (fresh_app _ _ _ _ Hfresh) as [Hf1 Hf2]. destruct (fresh_app _ _ _ _ Hf2) as [Hf3 Hf4].
  unfold GenerateTileMap. rewrite (proj2 (Z.eqb_eq _ _) Hlen). simpl.
  destruct (assign_all_ok (cfg_application_tiles cfg) (cfg_processes cfg) (getTotalTiles cfg) Hn [] 0 mapping _
    (map_ok_new (cfg_processes cfg) (getTotalTiles cfg) ltac:(lia) ltac:(lia)) ltac:(lia) ltac:(lia) Hf1)
    as (tm1 & -> & Hm1 & _); [rewrite Hm; apply Forall_seqZ; lia|]. simpl.
  destruct (spawners_ok cfg (concat mapping) tm1 Hn Hm1 Hf3) as (tm2 & E2 & Hm2 & Hspawn). rewrite E2. simpl.
  destruct (assign_one (cfg_application_tiles cfg) (cfg_processes cfg) (getTotalTiles cfg) Hn
    (concat mapping ++ spawner_tiles cfg) 0 false (getTotalTiles cfg - 1) tm2 Hm2 ltac:(lia) ltac:(lia)) as (tm3 & E3 & Hm3 & Eo).
  { apply proj1, NoDup_app in Hf4 as (_ & Hd & _). intros Hin. apply (Hd _ Hin). by left. }
  { by eapply fresh_range. }
  { done. }
  cbn [assign_tiles] in E3. simpl in E3. rewrite E3. exists tm3. split; [done|].
  assert (HD : (concat mapping ++ spawner_tiles cfg) ++ [getTotalTiles cfg - 1] ≡ₚ seqZ 0 (getTotalTiles cfg))
    by by rewrite <- (assoc_L (++)), Hm, Hall.
  pose proof Hm3 as [Ho Hl _ Ht _]. pose proof (mk_owners _ _ _ _ Hm2) as Ho2. split.
  - done.
  - by rewrite Ht.
  - intros p l t Hp. by apply (map_ok_partition _ _ _ _ p l t Hm3 HD).
  - intros Ef p Hp. destruct (full_tiles cfg p Ef) as [-> Etot].
    rewrite Eo, list_lookup_insert_ne by lia. by apply Hspawn.
  - rewrite Eo. apply list_lookup_insert_eq. lia.
Qed.

(** C24: every tile belongs to exactly one process.  Whether the application
    tiles are dealt to the processes in turn or, on a mesh, in rectangles
    (for any number of processes, also one that is no square or larger than
    the mesh), the maps are built without a failed assertion, the lists of the
    processes are a partition of all tiles, the map from tiles to processes
    agrees with them, process [p] has the thread spawner of [p], and process 0
    the MCP. *)
Theorem TileMap_partition cfg W H mapping :
  0 < cfg_application_tiles cfg -> 0 < cfg_processes cfg ->
  mapping = default_mapping (cfg_processes cfg) (cfg_application_tiles cfg) \/
    (0 < W /\ 0 < H /\ cfg_application_tiles cfg = W * H /\ mapping = mesh_mapping (cfg_processes cfg) W H) ->
  exists m tm, mapping = Ok m /\ GenerateTileMap cfg m = Ok tm /\ tile_map_ok cfg tm.
Proof.
  intros Ha Hn Hcase.
  assert (Hm : exists m, mapping = Ok m /\ Z.of_nat (length m) = cfg_processes cfg /\
    concat m ≡ₚ seqZ 0 (cfg_application_tiles cfg)).
  { destruct Hcase as [-> | (HW & HH & -> & ->)]; [by apply default_mapping_ok|by apply mesh_mapping_ok]. }
  destruct Hm as (m & E & Hlen & Hc). destruct (GenerateTileMap_ok cfg m Ha Hn Hlen Hc) as (tm & E' & Hok).
  by exists m, tm.
Qed.

(** Fifteen tiles in a mesh of three by five and seven processes. *)
Definition ex_sim : SimConfig := mkCfg FULL 15 7 1 (fun _ => 0).

Lemma TileMap_partition_witness :
  exists m tm, mesh_mapping 7 3 5 = Ok m /\ GenerateTileMap ex_sim m = Ok tm /\ tile_map_ok ex_sim tm.
Proof.
  apply (TileMap_partition ex_sim 3 5 (mesh_mapping 7 3 5)); simpl; [lia|lia|].
  right. split; [lia|]. split; [lia|]. split; [lia|done].
Defined.

Example ex_sim_map : mesh_mapping 7 3 5 =
  Ok [[0]; [1; 2]; [3]; [4; 5]; [6; 9]; [7; 10; 8; 11]; [12; 13; 14]].
Proof. vm_compute. reflexivity. Qed.
