(* ===== verification/AddressSpace.v ===== *)
(** * The simulated address space: common/system/vm_manager.{h,cc} and the
    stacks of pin/pin_config.{h,cc}

    [VMManager] hands out the data segment (brk), which grows up to the
    stacks, and the dynamic segment (mmap), which grows down to them.  The
    stacks lie between, one per core; each process knows where its own start.
    Pin finds the core and the thread of a stack pointer from it. *)

From S2P Require Import Prelude Threads Mcp NetModel MeshThm TileMap TileMapThm.

(** ** VMManager *)

Record VMManager : Type := mkVM {
  m_start_data_segment : Z;
  m_end_data_segment : Z;
  m_start_stack_segment : Z;
  m_end_stack_segment : Z;
  m_start_dynamic_segment : Z;
  m_end_dynamic_segment : Z }.

(** [sbrk] is the end of the data of the host process.  The product of two
    [UInt32] wraps. *)
Definition VMManager_new (sbrk stack_base stack_size_per_core total_tiles : Z) : result VMManager :=
  let end_stack := wrap64 (stack_base + wrap32 (total_tiles * stack_size_per_core)) in
  let start_dynamic := 0xf000000000 in
  _ ← log_assert (stack_base <? end_stack);
  _ ← log_assert (sbrk <? stack_base);
  _ ← log_assert (end_stack <? start_dynamic);
  Ok (mkVM sbrk sbrk stack_base end_stack start_dynamic start_dynamic).

Definition vm_brk (end_data_segment : Z) (vm : VMManager) : result (Z * VMManager) :=
  if end_data_segment =? 0 then Ok (m_end_data_segment vm, vm)
  else
    _ ← log_assert (m_start_data_segment vm <? end_data_segment);
    _ ← log_assert (end_data_segment <? m_start_stack_segment vm);
    Ok (end_data_segment,
        mkVM (m_start_data_segment vm) end_data_segment (m_start_stack_segment vm) (m_end_stack_segment vm)
          (m_start_dynamic_segment vm) (m_end_dynamic_segment vm)).

Definition MAP_PRIVATE : Z := 2.
Definition MAP_FIXED : Z := 16.
Definition MAP_ANONYMOUS : Z := 32.

Definition vm_mmap (length flags fd : Z) (vm : VMManager) : result (Z * VMManager) :=
  _ ← log_assert (fd =? -1);
  _ ← log_assert (Z.land flags MAP_ANONYMOUS =? MAP_ANONYMOUS);
  _ ← log_assert (Z.land flags MAP_FIXED =? 0);
  _ ← log_assert (Z.land flags MAP_PRIVATE =? MAP_PRIVATE);
  let start := wrap64 (m_start_dynamic_segment vm - length) in
  _ ← log_assert (m_end_stack_segment vm <? start);
  Ok (start,
      mkVM (m_start_data_segment vm) (m_end_data_segment vm) (m_start_stack_segment vm) (m_end_stack_segment vm)
        start (m_end_dynamic_segment vm)).

(** The memory is never given back. *)
Definition vm_munmap (start : Z) (vm : VMManager) : result Z :=
  _ ← log_assert (m_start_dynamic_segment vm <=? start); Ok 0.

(** A call of an application, and the region it is given: mmap returns its
    region, brk the data segment up to the new end. *)
Inductive VmCall : Type := Brk (end_data_segment : Z) | Mmap (length flags fd : Z) | Munmap (start : Z).

Definition vm_call (c : VmCall) (vm : VMManager) : result (Z * VMManager) :=
  match c with
  | Brk e => vm_brk e vm
  | Mmap length flags fd => vm_mmap length flags fd vm
  | Munmap start => r ← vm_munmap start vm; Ok (r, vm)
  end.

(** The regions that the mmap calls of a run return. *)
Fixpoint vm_run (calls : list VmCall) (vm : VMManager) : result (list (Z * Z) * VMManager) :=
  match calls with
  | [] => Ok ([], vm)
  | c :: calls' =>
    '(r, vm1) ← vm_call c vm;
    '(regions, vm2) ← vm_run calls' vm1;
    Ok (match c with Mmap length _ _ => (r, length) :: regions | _ => regions end, vm2)
  end.

(** ** PinConfig *)

Record PinConfig : Type := mkPin {
  m_current_process_num : Z;
  m_num_local_tiles : Z;
  pin_max_threads_per_core : Z;
  m_stack_lower_limit : Z;
  m_stack_size_per_core : Z;
  m_stack_upper_limit : Z }.

(** [Config] has one core per tile. *)
Definition num_cores_per_tile : Z := 1.

Fixpoint sum_tiles (tm : TileMap) (procs : list Z) (num_tiles : Z) : result Z :=
  match procs with
  | [] => Ok num_tiles
  | i :: procs' => n ← getNumTilesInProcess tm i; sum_tiles tm procs' (wrap32 (num_tiles + n))
  end.

(** [PinConfig::PinConfig] with [setStackBoundaries]. *)
Definition PinConfig_new (tm : TileMap) (current_process max_threads_per_core stack_base stack_size_per_core : Z) :
    result PinConfig :=
  local ← getNumTilesInProcess tm current_process;
  num_tiles ← sum_tiles tm (seqZ 0 current_process) 0;
  let size := wrap32 stack_size_per_core in
  let lower := wrap64 (stack_base + wrap32 (wrap32 (num_cores_per_tile * num_tiles) * size)) in
  let upper := wrap64 (lower + wrap32 (wrap32 (num_cores_per_tile * local) * size)) in
  Ok (mkPin current_process local max_threads_per_core lower size upper).

Section pin.
Context (tm : TileMap) (pin : PinConfig).

Definition stack_unit : Z := wrap32 (num_cores_per_tile * m_stack_size_per_core pin).

Definition stack_tile_index (stack_ptr : Z) : result Z :=
  if stack_unit =? 0 then Err DivByZero
  else Ok (swrap 32 (wrap64 (stack_ptr - m_stack_lower_limit pin) / stack_unit)).

Definition outside_stacks (stack_ptr : Z) : bool :=
  (stack_ptr <? m_stack_lower_limit pin) || (m_stack_upper_limit pin <? stack_ptr).

Definition getTileIDFromStackPtr (stack_ptr : Z) : result Z :=
  if outside_stacks stack_ptr then Ok INVALID_TILE_ID
  else i ← stack_tile_index stack_ptr; getTileIDFromIndex tm (m_current_process_num pin) i.

Definition getCoreIDFromStackPtr (stack_ptr : Z) : result core_id_t :=
  if outside_stacks stack_ptr then Ok INVALID_CORE_ID
  else
    i ← stack_tile_index stack_ptr;
    t ← getTileIDFromIndex tm (m_current_process_num pin) i;
    Ok (getMainCoreId t).

Definition stack_size_per_thread : result Z :=
  if pin_max_threads_per_core pin =? 0 then Err DivByZero
  else Ok (m_stack_size_per_core pin / pin_max_threads_per_core pin).

(** The offset of the core is subtracted, [m_stack_lower_limit] is not. *)
Definition getThreadIDFromStackPtr (stack_ptr : Z) : result Z :=
  if outside_stacks stack_ptr then Ok (-1)
  else
    size ← stack_size_per_thread;
    i ← stack_tile_index stack_ptr;
    if size =? 0 then Err DivByZero
    else Ok (swrap 32 (wrap64 (stack_ptr - wrap32 (i * stack_unit)) / size)).

(** The lower limit and the size of a thread's stack. *)
Definition getStackAttributesFromCoreAndThreadID (core_id : core_id_t) (thread_idx : Z) : result (Z * Z) :=
  tile_index ← getIndexFromTileID tm (m_current_process_num pin) (tile_id core_id);
  _ ← log_assert (negb (tile_index =? -1));
  size ← stack_size_per_thread;
  let lower := wrap64 (m_stack_lower_limit pin +
                 wrap32 (wrap32 (tile_index * num_cores_per_tile) * m_stack_size_per_core pin)) in
  Ok (wrap64 (lower + wrap32 (thread_idx * size)), size).

(** The stack of the first thread. *)
Definition getStackAttributesFromCoreID (core_id : core_id_t) : result (Z * Z) :=
  tile_index ← getIndexFromTileID tm (m_current_process_num pin) (tile_id core_id);
  _ ← log_assert (negb (tile_index =? -1));
  size ← stack_size_per_thread;
  Ok (wrap64 (m_stack_lower_limit pin +
        wrap32 (wrap32 (tile_index * num_cores_per_tile) * m_stack_size_per_core pin)), size).
End pin.
