(* ===== verification/AddressThm.v ===== *)
(** * Regions of the address space

    The mappings that [VMManager] hands out are disjoint and stay between the
    stacks and the top of the dynamic segment, as long as no mapping is longer
    than the address of the end of the stacks; and every address of a stack
    leads back to the core it belongs to. *)

From S2P Require Import Prelude Threads Mcp NetModel MeshThm TileMap TileMapThm AddressSpace.

(** ** VMManager *)

Record vm_ok (vm : VMManager) : Prop := {
  vo_data : m_start_data_segment vm <= m_end_data_segment vm < m_start_stack_segment vm;
  vo_stack : 0 <= m_end_stack_segment vm /\ m_start_stack_segment vm < m_end_stack_segment vm;
  vo_dynamic : m_end_stack_segment vm < m_start_dynamic_segment vm <= 0xf000000000 }.

(** What no call changes. *)
Definition same_stack (vm vm' : VMManager) : Prop :=
  m_start_stack_segment vm' = m_start_stack_segment vm /\ m_end_stack_segment vm' = m_end_stack_segment vm.

Definition call_ok (limit : Z) (c : VmCall) : Prop :=
  match c with Mmap length _ _ => 0 <= length <= limit | _ => True end.

Lemma VMManager_new_ok sbrk base size tiles vm : 0 <= base ->
  VMManager_new sbrk base size tiles = Ok vm -> vm_ok vm.
Proof.
  intros Hb. unfold VMManager_new, log_assert. set (e := wrap64 _).
  assert (He : is_word 64 e) by (by apply wrap_word). unfold is_word in He.
  destruct (Z.ltb_spec base e); [|done]. destruct (Z.ltb_spec sbrk base); [|done]. simpl.
  destruct (Z.ltb_spec e 1030792151040); [|done]. simpl. intros [= <-]. split; simpl; lia.
Qed.

Lemma vm_call_ok c vm r vm' : vm_ok vm -> call_ok (m_end_stack_segment vm) c -> vm_call c vm = Ok (r, vm') ->
  vm_ok vm' /\ same_stack vm vm' /\
  match c with
  | Mmap length _ _ => r = m_start_dynamic_segment vm' /\
      m_start_dynamic_segment vm' + length = m_start_dynamic_segment vm
  | _ => m_start_dynamic_segment vm' = m_start_dynamic_segment vm
  end.
Proof.
  intros [Hd Hs Hy] Hc. destruct c as [e|length flags fd|start]; simpl in *; unfold vm_brk, vm_mmap, vm_munmap, log_assert.
  - destruct (Z.eqb_spec e 0); [intros [= <- <-]; split; [by split|done]|].
    destruct (Z.ltb_spec (m_start_data_segment vm) e); [|done]. simpl.
    destruct (Z.ltb_spec e (m_start_stack_segment vm)); [|done]. simpl. intros [= <- <-].
    split; [split; simpl; lia|done].
  - destruct (fd =? -1); [|done]. simpl. destruct (_ =? MAP_ANONYMOUS); [|done]. simpl.
    destruct (_ =? 0); [|done]. simpl. destruct (_ =? MAP_PRIVATE); [|done]. simpl.
    rewrite wrap_id by (unfold is_word; lia).
    destruct (Z.ltb_spec (m_end_stack_segment vm) (m_start_dynamic_segment vm - length)); [|done]. simpl. intros [= <- <-].
    split; [split; simpl; lia|]. split; [done|]. simpl. lia.
  - destruct (_ <=? start); [|done]. simpl. intros [= <- <-]. split; [by split|done].
Qed.

Definition region_in (lo hi : Z) (r : Z * Z) : Prop := lo <= r.1 /\ r.1 + r.2 <= hi.
Definition regions_apart (r r' : Z * Z) : Prop := r'.1 + r'.2 <= r.1.

Lemma vm_run_ok calls vm regions vm' : vm_ok vm -> Forall (call_ok (m_end_stack_segment vm)) calls ->
  vm_run calls vm = Ok (regions, vm') ->
  Forall (region_in (m_end_stack_segment vm + 1) (m_start_dynamic_segment vm)) regions /\
  ForallOrdPairs regions_apart regions /\ vm_ok vm' /\ same_stack vm vm'.
Proof.
  revert vm regions vm'. induction calls as [|c calls IH]; intros vm regions vm' Hok Hall; simpl.
  { intros [= <- <-]. split; [constructor|]. split; [constructor|done]. }
  apply Forall_cons in Hall as [Hc Hall]. destruct (vm_call c vm) as [[r vm1]|] eqn:Ec; [|done]. simpl.
  destruct (vm_run calls vm1) as [[regions1 vm2]|] eqn:Er; [|done]. simpl. intros [= <- <-].
  destruct (vm_call_ok _ _ _ _ Hok Hc Ec) as (Hok1 & [Hs1 Hs2] & Hcase). rewrite <- Hs2 in Hall.
  destruct (IH vm1 regions1 vm2 Hok1 Hall Er) as (Hin & Hap & Hok2 & Hsame).
  assert (Hss : same_stack vm vm2) by (unfold same_stack in *; destruct Hsame; split; congruence).
  rewrite Hs2 in Hin. pose proof (vo_dynamic _ Hok1) as Hdyn.
  destruct c as [e|length flags fd|start]; [by rewrite Hcase in Hin| |by rewrite Hcase in Hin].
  destruct Hcase as [-> Hlen]. simpl in Hc.
  split; [constructor; [unfold region_in; simpl; lia|]|split; [constructor; [|done]|done]].
  - eapply Forall_impl; [exact Hin|]. unfold region_in. simpl. lia.
  - eapply Forall_impl; [exact Hin|]. unfold region_in, regions_apart. simpl. lia.
Qed.

(** C25: memory is handed out once.  In every run of brk, mmap and munmap calls
    whose mappings are no longer than the address at which the stacks end, the
    regions that mmap returns lie above the stacks and below the top of the
    dynamic segment, each one below all earlier ones, and the data segment
    ends below the stacks. *)
Theorem Vm_regions_disjoint sbrk base size tiles vm calls regions vm' :
  0 <= base -> VMManager_new sbrk base size tiles = Ok vm ->
  Forall (call_ok (m_end_stack_segment vm)) calls -> vm_run calls vm = Ok (regions, vm') ->
  Forall (region_in (m_end_stack_segment vm + 1) 0xf000000000) regions /\
  ForallOrdPairs regions_apart regions /\
  m_end_data_segment vm' < m_start_stack_segment vm.
Proof.
  intros Hb Enew Hall Er. pose proof (VMManager_new_ok _ _ _ _ _ Hb Enew) as Hok.
  destruct (vm_run_ok _ _ _ _ Hok Hall Er) as (Hin & Hap & Hok' & [Hs _]). split; [|split; [done|]].
  - eapply Forall_impl; [exact Hin|]. pose proof (vo_dynamic _ Hok). unfold region_in. simpl. lia.
  - rewrite <- Hs. apply Hok'.
Qed.

(** The stack parameters of carbon_sim.cfg, with 64 tiles. *)
Definition ex_vm : VMManager := match VMManager_new 0x800000 2415919104 2097152 66 with
  | Ok vm => vm | Err _ => mkVM 0 0 0 0 0 0 end.

Lemma Vm_regions_disjoint_witness :
  exists regions vm', vm_run [Brk 0x900000; Mmap 4096 34 (-1); Munmap 0xefffffff000; Mmap 100 34 (-1)] ex_vm = Ok (regions, vm') /\
    ForallOrdPairs regions_apart regions.
Proof.
  eexists _, _. split; [vm_compute; reflexivity|].
  eapply (Vm_regions_disjoint 0x800000 2415919104 2097152 66 ex_vm
    [Brk 0x900000; Mmap 4096 34 (-1); Munmap 0xefffffff000; Mmap 100 34 (-1)]).
  - lia.
  - vm_compute. reflexivity.
  - repeat constructor; vm_compute; discriminate.
  - vm_compute. reflexivity.
Defined.

(** A longer mapping wraps around, is accepted, and overlaps others: the third
    call returns the region of the first one. *)
Example Vm_mmap_wraps : (vm_run [Mmap 4096 34 (-1); Mmap (2 ^ 64 - 4096) 34 (-1); Mmap 4096 34 (-1)] ex_vm ≫= fun r => Ok r.1)
  = Ok [(0xeffffff000, 4096); (0xf000000000, 2 ^ 64 - 4096); (0xeffffff000, 4096)].
Proof. vm_compute. reflexivity. Qed.

(** With 2049 tiles of 2 MB the size of the stacks wraps to that of one. *)
Example Vm_stack_size_wraps :
  (VMManager_new 0x800000 2415919104 2097152 2049 ≫= fun vm => Ok (m_end_stack_segment vm - m_start_stack_segment vm))
  = Ok 2097152.
Proof. vm_compute. reflexivity. Qed.

(** ** Stacks *)

Lemma tile_list cfg tm p : tile_map_ok cfg tm -> 0 <= p < cfg_processes cfg ->
  exists l, proc_to_tile_list_map tm !! Z.to_nat p = Some l /\ getTileListForProcess tm p = Ok l.
Proof.
  intros Htm Hp. pose proof (tm_processes _ _ Htm) as Hn.
  destruct (lookup_lt_is_Some_2 (proc_to_tile_list_map tm) (Z.to_nat p)) as [l Hl]; [lia|].
  exists l. split; [done|]. unfold getTileListForProcess. rewrite (proj2 (Z.ltb_lt p _)) by lia. simpl.
  apply vec_get_ok. split; [lia|done].
Qed.

(** The index of a tile in the list of its process, and back. *)
Lemma index_from_ok t l i : t ∈ l ->
  exists k, index_from t l i = i + Z.of_nat k /\ l !! k = Some t.
Proof.
  revert i. induction l as [|x l IH]; intros i Ht; [by apply not_elem_of_nil in Ht|]. simpl.
  destruct (Z.eqb_spec x t) as [->|Hne]; [exists 0%nat; split; [lia|done]|].
  apply elem_of_cons in Ht as [->|Ht]; [done|].
  destruct (IH (i + 1) Ht) as (k & -> & Hk). exists (S k). split; [lia|done].
Qed.

(** The tiles of the processes before [p]. *)
Definition tiles_before (tm : TileMap) (p : Z) : Z :=
  Z.of_nat (length (concat (take (Z.to_nat p) (proc_to_tile_list_map tm)))).

Lemma tiles_before_succ cfg tm p l : tile_map_ok cfg tm -> 0 <= getTotalTiles cfg -> 0 <= p ->
  proc_to_tile_list_map tm !! Z.to_nat p = Some l ->
  tiles_before tm (p + 1) = tiles_before tm p + Z.of_nat (length l) /\ tiles_before tm (p + 1) <= getTotalTiles cfg.
Proof.
  intros Htm Htot Hp Hl. unfold tiles_before. replace (Z.to_nat (p + 1)) with (S (Z.to_nat p)) by lia. split.
  - rewrite (take_S_r _ _ _ Hl), concat_app, length_app. simpl. rewrite app_nil_r. lia.
  - pose proof (tm_tiles _ _ Htm) as Ht. apply Permutation_length in Ht. rewrite length_seqZ in Ht.
    rewrite <- (take_drop (S (Z.to_nat p)) (proc_to_tile_list_map tm)) in Ht. rewrite concat_app, length_app in Ht. lia.
Qed.

Lemma sum_tiles_ok cfg tm p k : tile_map_ok cfg tm -> 0 <= getTotalTiles cfg < 2 ^ 32 ->
  Z.of_nat k + p <= cfg_processes cfg -> 0 <= p ->
  sum_tiles tm (seqZ p (Z.of_nat k)) (tiles_before tm p) = Ok (tiles_before tm (p + Z.of_nat k)).
Proof.
  intros Htm Htot. revert p. induction k as [|k IH]; intros p Hk Hp; [by rewrite Z.add_0_r|].
  rewrite seqZ_cons_eq by lia. cbn [sum_tiles].
  destruct (tile_list cfg tm p Htm ltac:(lia)) as (l & Hl & El). unfold getNumTilesInProcess. rewrite El. simpl.
  destruct (tiles_before_succ cfg tm p l Htm ltac:(lia) Hp Hl) as [E Hle]. rewrite <- E.
  rewrite wrap_id by (unfold is_word, tiles_before in *; lia).
  replace (Z.of_nat (S k) - 1) with (Z.of_nat k) by lia. rewrite IH by lia. do 2 f_equal. lia.
Qed.

Lemma one_core : num_cores_per_tile = 1.
Proof. done. Qed.
#[local] Opaque num_cores_per_tile.

Section stacks.
Context (cfg : SimConfig) (tm : TileMap) (p threads base size : Z).
Context (Htm : tile_map_ok cfg tm) (Hp : 0 <= p < cfg_processes cfg).
Context (Htot : 0 < getTotalTiles cfg < 2 ^ 31) (Hsize : 0 < size) (Hbase : 0 <= base).
(** The stacks of all tiles fit into 32 bits, and below the top of the
    address space. *)
Context (Hfit : getTotalTiles cfg * size < 2 ^ 32) (Htop : base + getTotalTiles cfg * size < 2 ^ 64).
Context (Hthreads : 0 < threads).

Lemma PinConfig_new_ok l : proc_to_tile_list_map tm !! Z.to_nat p = Some l ->
  getTileListForProcess tm p = Ok l ->
  let lower := base + tiles_before tm p * size in
  PinConfig_new tm p threads base size =
    Ok (mkPin p (Z.of_nat (length l)) threads lower size (lower + Z.of_nat (length l) * size)) /\
  0 <= tiles_before tm p /\ tiles_before tm p + Z.of_nat (length l) <= getTotalTiles cfg.
Proof.
  intros Hl El lower. destruct (tiles_before_succ cfg tm p l Htm ltac:(lia) ltac:(lia) Hl) as [Es Hle].
  assert (Hb : 0 <= tiles_before tm p) by (unfold tiles_before; lia). split; [|lia].
  unfold PinConfig_new, getNumTilesInProcess. rewrite El. simpl.
  pose proof (sum_tiles_ok cfg tm 0 (Z.to_nat p) Htm ltac:(lia) ltac:(lia) ltac:(lia)) as Hsum.
  rewrite Z2Nat.id, Z.add_0_l in Hsum by lia. change (tiles_before tm 0) with 0 in Hsum. rewrite Hsum. simpl.
  rewrite !one_core, !Z.mul_1_l.
  assert (Hsz : size < 2 ^ 32) by nia.
  rewrite (wrap_id 32 size) by (unfold is_word; lia).
  rewrite (wrap_id 32 (tiles_before tm p)), (wrap_id 32 (Z.of_nat (length l))) by (unfold is_word; lia).
  rewrite (wrap_id 32 (tiles_before tm p * size)), (wrap_id 32 (Z.of_nat (length l) * size)) by (unfold is_word; nia).
  rewrite (wrap_id 64 (base + _)) by (unfold is_word; nia).
  rewrite (wrap_id 64) by (unfold is_word; nia). done.
Qed.

(** Where the stacks of a tile are. *)
Definition stack_lower (k : nat) (thread_idx : Z) : Z :=
  base + (tiles_before tm p + Z.of_nat k) * size + thread_idx * (size / threads).

Lemma stack_of_tile l k t pin ti : proc_to_tile_list_map tm !! Z.to_nat p = Some l ->
  getTileListForProcess tm p = Ok l -> PinConfig_new tm p threads base size = Ok pin ->
  t ∈ l -> index_from t l 0 = Z.of_nat k -> l !! k = Some t -> 0 <= ti < threads ->
  getStackAttributesFromCoreAndThreadID tm pin (getMainCoreId t) ti = Ok (stack_lower k ti, size / threads) /\
  base <= stack_lower k ti /\ stack_lower k ti + size / threads <= base + getTotalTiles cfg * size.
Proof.
  intros Hl El Epin Ht Ei Hk Hti. destruct (PinConfig_new_ok l Hl El) as (Epin' & Hb0 & Hb1).
  rewrite Epin in Epin'. injection Epin' as ->. pose proof (lookup_lt_Some _ _ _ Hk) as Hkl.
  assert (Hdiv : 0 <= size / threads) by (apply Z.div_pos; lia). pose proof (Z.mul_div_le size threads Hthreads) as Hmul.
  assert (Hoff : 0 <= ti * (size / threads) /\ ti * (size / threads) + size / threads <= size) by nia.
  assert (Hk1 : (tiles_before tm p + Z.of_nat k + 1) * size <= getTotalTiles cfg * size) by (apply Z.mul_le_mono_nonneg_r; lia).
  assert (Hk0 : 0 <= tiles_before tm p * size /\ 0 <= Z.of_nat k * size) by nia.
  unfold stack_lower. split; [|lia].
  unfold getStackAttributesFromCoreAndThreadID, getIndexFromTileID, stack_size_per_thread. simpl. rewrite El. simpl. rewrite Ei.
  rewrite (proj2 (Z.eqb_neq (Z.of_nat k) (-1))) by lia. simpl. rewrite (proj2 (Z.eqb_neq threads 0)) by lia. simpl.
  rewrite one_core, Z.mul_1_r.
  rewrite (wrap_id 32 (Z.of_nat k)) by (unfold is_word; lia).
  rewrite (wrap_id 32 (Z.of_nat k * size)), (wrap_id 32 (ti * _)) by (unfold is_word; lia).
  rewrite (wrap_id 64 (base + _ + _)) by (unfold is_word; lia). rewrite wrap_id by (unfold is_word; lia).
  do 2 f_equal. lia.
Qed.

(** A stack pointer in the stack of a core. *)
Lemma stack_index l k t pin ti sp : proc_to_tile_list_map tm !! Z.to_nat p = Some l ->
  getTileListForProcess tm p = Ok l -> PinConfig_new tm p threads base size = Ok pin ->
  l !! k = Some t -> 0 <= ti < threads -> stack_lower k ti <= sp < stack_lower k ti + size / threads ->
  outside_stacks pin sp = false /\ stack_tile_index pin sp = Ok (Z.of_nat k).
Proof.
  intros Hl El Epin Hk Hti Hsp. destruct (PinConfig_new_ok l Hl El) as (Epin' & Hb0 & Hb1).
  rewrite Epin in Epin'. injection Epin' as ->. pose proof (lookup_lt_Some _ _ _ Hk) as Hkl.
  assert (Hdiv : 0 <= size / threads) by (apply Z.div_pos; lia). pose proof (Z.mul_div_le size threads Hthreads) as Hmul.
  assert (Hoff : 0 <= ti * (size / threads) /\ ti * (size / threads) + size / threads <= size) by nia.
  assert (Hk1 : (tiles_before tm p + Z.of_nat k + 1) * size <= getTotalTiles cfg * size) by (apply Z.mul_le_mono_nonneg_r; lia).
  assert (Hk2 : (Z.of_nat k + 1) * size <= Z.of_nat (length l) * size) by (apply Z.mul_le_mono_nonneg_r; lia).
  assert (Hk0 : 0 <= tiles_before tm p * size /\ 0 <= Z.of_nat k * size) by nia.
  unfold stack_lower in Hsp. unfold outside_stacks, stack_tile_index, stack_unit. simpl.
  rewrite one_core, Z.mul_1_l, (wrap_id 32 size) by (unfold is_word; nia). split; [lia|].
  rewrite (proj2 (Z.eqb_neq size 0)) by lia. rewrite wrap_id by (unfold is_word; lia).
  assert (E : (sp - (base + tiles_before tm p * size)) / size = Z.of_nat k).
  { symmetry. apply (Z.div_unique_pos _ _ _ (sp - (base + tiles_before tm p * size) - Z.of_nat k * size)); lia. }
  rewrite E, swrap_id by lia. done.
Qed.
End stacks.

(** C26: a stack pointer identifies its core.  Every thread of every core of a
    process has a stack inside the stack segment of the address space, and a
    pointer into it leads back to the tile and the core it was made for (so
    the stacks of different tiles are disjoint), as long as all stacks
    together fit into 32 bits. *)
Theorem Stack_pointer_core cfg tm p threads base size pin t ti :
  tile_map_ok cfg tm -> 0 <= p < cfg_processes cfg -> 0 < getTotalTiles cfg < 2 ^ 31 -> 0 < size -> 0 <= base ->
  getTotalTiles cfg * size < 2 ^ 32 -> base + getTotalTiles cfg * size < 2 ^ 64 -> 0 < threads ->
  PinConfig_new tm p threads base size = Ok pin ->
  0 <= t < getTotalTiles cfg -> tile_to_proc_map tm !! Z.to_nat t = Some p -> 0 <= ti < threads ->
  exists lower, getStackAttributesFromCoreAndThreadID tm pin (getMainCoreId t) ti = Ok (lower, size / threads) /\
    base <= lower /\ lower + size / threads <= base + getTotalTiles cfg * size /\
    forall sp, lower <= sp < lower + size / threads ->
      getTileIDFromStackPtr tm pin sp = Ok t /\ getCoreIDFromStackPtr tm pin sp = Ok (getMainCoreId t).
Proof.
  intros Htm Hp Htot Hsize Hbase Hfit Htop Hthreads Epin Ht Hown Hti.
  destruct (tile_list cfg tm p Htm Hp) as (l & Hl & El).
  assert (Hin : t ∈ l) by (apply (tm_owner _ _ Htm _ _ t Hl); rewrite Z2Nat.id by lia; done).
  destruct (index_from_ok t l 0 Hin) as (k & Ei & Hk). rewrite Z.add_0_l in Ei.
  destruct (stack_of_tile cfg tm p threads base size Htm Hp Htot Hsize Hbase Hfit Htop Hthreads l k t pin ti
    Hl El Epin Hin Ei Hk Hti) as (Eattr & Hlo & Hhi).
  exists (stack_lower tm p threads base size k ti). split; [done|]. split; [done|]. split; [done|]. intros sp Hsp.
  destruct (stack_index cfg tm p threads base size Htm Hp Htot Hsize Hbase Hfit Htop Hthreads l k t pin ti sp
    Hl El Epin Hk Hti Hsp) as [Eout Eidx].
  destruct (PinConfig_new_ok cfg tm p threads base size Htm Hp Htot Hsize Hbase Hfit Htop l Hl El) as (Epin' & _).
  rewrite Epin in Epin'. injection Epin' as ->.
  unfold getTileIDFromStackPtr, getCoreIDFromStackPtr. rewrite Eout, Eidx. simpl.
  unfold getTileIDFromIndex. simpl. rewrite El. simpl. pose proof (lookup_lt_Some _ _ _ Hk).
  rewrite (proj2 (Z.ltb_lt (Z.of_nat k) _)) by lia.
  rewrite (proj2 (vec_get_ok l (Z.of_nat k) t)) by (rewrite Nat2Z.id; split; [lia|done]). done.
Qed.

(** *** Four tiles and two processes, each with two stacks of 2 MB for
    application tiles, one for its thread spawner and, process 0, one for the
    MCP *)

Definition ex_cfg : SimConfig := mkCfg FULL 4 2 1 (fun _ => 0).
Definition ex_tm : TileMap :=
  match default_mapping 2 4 ≫= GenerateTileMap ex_cfg with Ok tm => tm | Err _ => mkTM [] [] [] end.
Definition ex_pin : PinConfig :=
  match PinConfig_new ex_tm 1 1 2415919104 2097152 with Ok pin => pin | Err _ => mkPin 0 0 0 0 0 0 end.

Lemma ex_tm_ok : tile_map_ok ex_cfg ex_tm.
Proof.
  destruct (default_mapping_ok 2 4 ltac:(lia)) as (m & E & Hl & Hc).
  destruct (GenerateTileMap_ok ex_cfg m) as (tm & E' & Hok); [simpl; lia|simpl; lia|done|done|].
  unfold ex_tm. rewrite E. simpl. by rewrite E'.
Qed.

Lemma Stack_pointer_core_witness :
  exists lower, getStackAttributesFromCoreAndThreadID ex_tm ex_pin (getMainCoreId 3) 0 = Ok (lower, 2097152) /\
    getCoreIDFromStackPtr ex_tm ex_pin (lower + 100) = Ok (getMainCoreId 3).
Proof.
  assert (Etot : getTotalTiles ex_cfg = 7) by (vm_compute; reflexivity).
  assert (Epin : PinConfig_new ex_tm 1 1 2415919104 2097152 = Ok ex_pin) by (vm_compute; reflexivity).
  assert (Eown : tile_to_proc_map ex_tm !! Z.to_nat 3 = Some 1) by (vm_compute; reflexivity).
  destruct (Stack_pointer_core ex_cfg ex_tm 1 1 2415919104 2097152 ex_pin 3 0 ex_tm_ok) as (lower & E & _ & _ & Hsp);
    rewrite ?Etot; [simpl; lia|lia..|exact Epin|lia|exact Eown|lia|].
  exists lower. split; [exact E|]. apply Hsp. split; [lia|].
  apply Z.add_lt_mono_l. vm_compute. reflexivity.
Defined.

(** The only thread of the first core of process 1 (tile 1) has index 0; from
    its stack pointer [getThreadIDFromStackPtr] computes the index 1156, and
    the stack of this index begins more than 2 GB above. *)
Example thread_id_without_lower_limit :
  getStackAttributesFromCoreAndThreadID ex_tm ex_pin (getMainCoreId 1) 0 = Ok (2424307712, 2097152) /\
  getCoreIDFromStackPtr ex_tm ex_pin (2424307712 + 100) = Ok (getMainCoreId 1) /\
  getThreadIDFromStackPtr ex_pin (2424307712 + 100) = Ok 1156 /\
  getStackAttributesFromCoreAndThreadID ex_tm ex_pin (getMainCoreId 1) 1156 = Ok (4848615424, 2097152).
Proof. vm_compute. repeat split. Qed.
